(** * cdiff: unified-diff parser and colorizing renderer

    Shallow embedding of [src/cdiff.py].  Python [str] values are Rocq
    [string]s (byte strings, as in the Python 2 the script targets), lists are
    [list]s, [None]-able locals are [option]s, and raised exceptions are
    values of [exn] threaded through a small error monad. *)

From Stdlib Require Import String Ascii List Bool Arith ZArith Lia.
From Stdlib Require Import Permutation Sorted.
From Stdlib Require QArith.
Import ListNotations.
Open Scope string_scope.
Open Scope list_scope.
Open Scope nat_scope.

(** ** Python string primitives used by the script *)

Module Py.

Definition LF : string := String "010"%char "".
Definition TAB : string := String "009"%char "".
Definition ESC : string := String "027"%char "".
Definition NUL : string := String "000"%char "".
Definition SOH : string := String "001"%char "".
Definition DQUOTE : string := String "034"%char "".

(** [s.startswith(p)] *)
Fixpoint startswith (s p : string) {struct p} : bool :=
  match p with
  | "" => true
  | String b p' =>
      match s with
      | "" => false
      | String a s' => Ascii.eqb a b && startswith s' p'
      end
  end.

(** [sep.join(l)] *)
Definition join (sep : string) (l : list string) : string := String.concat sep l.

(** [c * n] for a one-character string [c] *)
Fixpoint rep (c : ascii) (n : nat) : string :=
  match n with
  | O => ""
  | S k => String c (rep c k)
  end.

(** [c in chars] *)
Fixpoint mem (c : ascii) (chars : string) : bool :=
  match chars with
  | "" => false
  | String d rest => Ascii.eqb c d || mem c rest
  end.

(** [s.lstrip(chars)] *)
Fixpoint lstrip (chars s : string) : string :=
  match s with
  | "" => ""
  | String c rest => if mem c chars then lstrip chars rest else s
  end.

(** [s.rstrip(chars)] *)
Fixpoint rstrip (chars s : string) : string :=
  match s with
  | "" => ""
  | String c rest =>
      match rstrip chars rest with
      | "" => if mem c chars then "" else String c ""
      | r => String c r
      end
  end.

(** [s.strip(chars)] *)
Definition strip (chars s : string) : string := rstrip chars (lstrip chars s).

(** [s[n:]] and [s[:n]] *)
Fixpoint drop (n : nat) (s : string) : string :=
  match n, s with
  | S k, String _ rest => drop k rest
  | _, _ => s
  end.

Fixpoint take (n : nat) (s : string) : string :=
  match n, s with
  | S k, String c rest => String c (take k rest)
  | _, _ => ""
  end.

(** The characters [str.isspace] accepts below code 128: tab, newline,
    vertical tab, form feed, carriage return, the four separators
    28 to 31, and the blank.  [s.rstrip()] strips them. *)
Definition whitespace : string :=
  String "009" (String "010" (String "011" (String "012" (String "013"
    (String "028" (String "029" (String "030" (String "031" " ")))))))).

Definition isspace (c : ascii) : bool := mem c whitespace.

(** A text line: [s] followed by a newline. *)
Definition ln (s : string) : string := (s ++ LF)%string.

(** [s.replace(old, new)] for a non-empty [old]: non-overlapping
    occurrences, leftmost first.  [skip] counts the characters of a
    matched occurrence still to be passed over. *)
Fixpoint replace_from (old new : string) (skip : nat) (s : string) : string :=
  match s with
  | "" => ""
  | String c rest =>
      match skip with
      | S k => replace_from old new k rest
      | O =>
          if startswith s old
          then new ++ replace_from old new (String.length old - 1) rest
          else String c (replace_from old new 0 rest)
      end
  end.

Definition replace (s old new : string) : string := replace_from old new 0 s.

End Py.

(** ** Exceptions *)

Inductive exn : Type :=
| AssertionError
| IndexError
| RuntimeError (msg : string).

Inductive result (A : Type) : Type :=
| Ok (a : A)
| Raise (e : exn).

Arguments Ok {A} a.
Arguments Raise {A} e.

Definition bind {A B : Type} (m : result A) (k : A -> result B) : result B :=
  match m with
  | Ok a => k a
  | Raise e => Raise e
  end.

Notation "x <- m ;; k" := (bind m (fun x => k))
  (at level 61, m at next level, right associativity).

(** [assert v is not None] *)
Definition assert_not_None {A : Type} (v : option A) : result A :=
  match v with
  | Some a => Ok a
  | None => Raise AssertionError
  end.

(** [assert v is None] *)
Definition assert_None {A : Type} (v : option A) : result unit :=
  match v with
  | Some _ => Raise AssertionError
  | None => Ok tt
  end.

(** ** class Hunk *)

Record Hunk : Type := mkHunk {
  _hunk_header : string;
  _hunk_list : list (string * string)   (* 2-element group (attr, line) *)
}.

Definition Hunk_new (hunk_header : string) : Hunk := mkHunk hunk_header [].

Definition get_header (h : Hunk) : string := _hunk_header h.

Definition Hunk_append (h : Hunk) (attr line : string) : Hunk :=
  mkHunk (_hunk_header h) (_hunk_list h ++ [(attr, line)]).

(** The two [for] loops of [_get_old_text] and [_get_new_text]: [out] is the
    accumulator the loop appends to. *)
Fixpoint collect_unless (skip : string) (l : list (string * string))
    (out : list string) : list string :=
  match l with
  | [] => out
  | (attr, line) :: rest =>
      if negb (String.eqb attr skip)
      then collect_unless skip rest (out ++ [line])
      else collect_unless skip rest out
  end.

Definition _get_old_text (h : Hunk) : list string :=
  collect_unless "+" (_hunk_list h) [].

Definition _get_new_text (h : Hunk) : list string :=
  collect_unless "-" (_hunk_list h) [].

(** ** class Diff (data) *)

Record Diff : Type := mkDiff {
  _headers : list string;
  _old_path : string;
  _new_path : string;
  _hunks : list Hunk
}.

(** ** class Udiff: line classification *)

Definition is_old_path (line : string) : bool := Py.startswith line "--- ".
Definition is_new_path (line : string) : bool := Py.startswith line "+++ ".
Definition is_hunk_header (line : string) : bool := Py.startswith line "@@ -".
Definition is_old (line : string) : bool :=
  Py.startswith line "-" && negb (is_old_path line).
Definition is_new (line : string) : bool :=
  Py.startswith line "+" && negb (is_new_path line).
Definition is_common (line : string) : bool := Py.startswith line " ".
Definition is_eof (line : string) : bool := Py.startswith line "\".

(** [re.match(r'^[^+@\\ -]', line)]: a first character exists and is none of
    [+], [@], backslash, space, [-]. *)
Definition is_header (line : string) : bool :=
  match line with
  | "" => false
  | String c _ => negb (Py.mem c "+@\ -")
  end.

(** ** class DiffParser *)

(** Truth value of a local that holds [None] or a string. *)
Definition truthy (v : option string) : bool :=
  match v with
  | Some s => negb (String.eqb s "")
  | None => false
  end.

(** Truth value of a list. *)
Definition nonempty {A : Type} (l : list A) : bool :=
  match l with
  | [] => false
  | _ :: _ => true
  end.

(** The locals of [_parse_udiff], together with the [stream] list it pops
    lines from. *)
Record locals : Type := mkLocals {
  stream : list string;
  out_diffs : list Diff;
  headers : list string;
  old_path : option string;
  new_path : option string;
  hunks : list Hunk;
  hunk : option Hunk
}.

Definition initial (s : list string) : locals :=
  mkLocals s [] [] None None [] None.

(** The statements shared by the two "new diff" branches: both asserts,
    [hunks.append(hunk)], [out_diffs.append(Diff(...))] and the five resets.
    The stream is left as it is. *)
Definition emit_and_reset (st : locals) (old_p : string) : result locals :=
  new_p <- assert_not_None (new_path st) ;;
  h <- assert_not_None (hunk st) ;;
  let hunks' := hunks st ++ [h] in
  Ok (mkLocals (stream st)
        (out_diffs st ++ [mkDiff (headers st) old_p new_p hunks'])
        [] None None [] None).

(** One iteration of [while stream:], with [stream = line :: rest]. *)
Definition loop_body (st : locals) (line : string) (rest : list string)
    : result locals :=
  if is_header line then
    match old_path st with
    | Some old_p =>
        if nonempty (headers st) && truthy (old_path st)
        then (* Encounter a new header *)
          emit_and_reset st old_p
        else
          Ok (mkLocals rest (out_diffs st) (headers st ++ [line])
                (old_path st) (new_path st) (hunks st) (hunk st))
    | None =>
        Ok (mkLocals rest (out_diffs st) (headers st ++ [line])
              (old_path st) (new_path st) (hunks st) (hunk st))
    end
  else if is_old_path line then
    match old_path st with
    | Some old_p =>
        if truthy (old_path st)
        then (* Encounter a new patch set *)
          emit_and_reset st old_p
        else
          Ok (mkLocals rest (out_diffs st) (headers st)
                (Some line) (new_path st) (hunks st) (hunk st))
    | None =>
        Ok (mkLocals rest (out_diffs st) (headers st)
              (Some line) (new_path st) (hunks st) (hunk st))
    end
  else if is_new_path line then
    _ <- assert_not_None (old_path st) ;;
    _ <- assert_None (new_path st) ;;
    Ok (mkLocals rest (out_diffs st) (headers st)
          (old_path st) (Some line) (hunks st) (hunk st))
  else if is_hunk_header line then
    _ <- assert_not_None (old_path st) ;;
    _ <- assert_not_None (new_path st) ;;
    match hunk st with
    | Some h => (* Encounter a new hunk header *)
        Ok (mkLocals (stream st) (out_diffs st) (headers st)
              (old_path st) (new_path st) (hunks st ++ [h]) None)
    | None =>
        Ok (mkLocals rest (out_diffs st) (headers st)
              (old_path st) (new_path st) (hunks st) (Some (Hunk_new line)))
    end
  else if is_old line || is_new line || is_common line then
    _ <- assert_not_None (old_path st) ;;
    _ <- assert_not_None (new_path st) ;;
    h <- assert_not_None (hunk st) ;;
    match line with
    | "" => Raise IndexError
    | String c text =>
        Ok (mkLocals rest (out_diffs st) (headers st)
              (old_path st) (new_path st) (hunks st)
              (Some (Hunk_append h (String c "") text)))
    end
  else if is_eof line then
    Ok (mkLocals rest (out_diffs st) (headers st)
          (old_path st) (new_path st) (hunks st) (hunk st))
  else
    Raise (RuntimeError ("unknown patch format: " ++ line)).

(** One turn of the loop from a state: nothing to do once the stream is
    empty. *)
Definition iteration (st : locals) : result locals :=
  match stream st with
  | [] => Ok st
  | line :: rest => loop_body st line rest
  end.

(** [while stream: ...], bounded by [fuel] iterations; [None] when the fuel
    runs out before the stream is empty. *)
Fixpoint while_stream (fuel : nat) (st : locals) : option (result locals) :=
  match stream st with
  | [] => Some (Ok st)
  | line :: rest =>
      match fuel with
      | O => None
      | S fuel' =>
          match loop_body st line rest with
          | Ok st' => while_stream fuel' st'
          | Raise e => Some (Raise e)
          end
      end
  end.

(** The statements after the loop ("The last patch"). *)
Definition last_patch (st : locals) : result (list Diff) :=
  let hunks' := match hunk st with
                | Some h => hunks st ++ [h]
                | None => hunks st
                end in
  match old_path st with
  | Some old_p =>
      if truthy (old_path st) then
        match new_path st with
        | Some new_p =>
            if truthy (new_path st)
            then Ok (out_diffs st ++ [mkDiff (headers st) old_p new_p hunks'])
            else Raise (RuntimeError
                   ("unknown patch format after " ++ Py.DQUOTE ++ old_p ++ Py.DQUOTE))
        | None =>
            Raise (RuntimeError
              ("unknown patch format after " ++ Py.DQUOTE ++ old_p ++ Py.DQUOTE))
        end
      else if nonempty (headers st) then
        Raise (RuntimeError ("unknown patch format: " ++ Py.join Py.LF (headers st)))
      else Ok (out_diffs st)
  | None =>
      if nonempty (headers st) then
        Raise (RuntimeError ("unknown patch format: " ++ Py.join Py.LF (headers st)))
      else Ok (out_diffs st)
  end.

(** At most two iterations are spent on a line: a branch that does not pop
    resets the local that sent it there, so the next turn pops. *)
Definition parse_fuel (s : list string) : nat := 2 * List.length s + 1.

Definition _parse_udiff_within (fuel : nat) (s : list string)
    : option (result (list Diff)) :=
  match while_stream fuel (initial s) with
  | Some (Ok st) => Some (last_patch st)
  | Some (Raise e) => Some (Raise e)
  | None => None
  end.

Definition _parse_udiff (s : list string) : result (list Diff) :=
  match _parse_udiff_within (parse_fuel s) s with
  | Some r => r
  | None => Ok []   (* not reached: see [_parse_udiff_within_total] *)
  end.

(** The [for ... else] sniff over [stream[:10]]. *)
Definition sniff (s : list string) : bool :=
  existsb (fun line => Py.startswith line "+++ ") (firstn 10 s).

(** [DiffParser(stream).get_diffs()] *)
Definition DiffParser (s : list string) : result (list Diff) :=
  if sniff s then
    match _parse_udiff s with
    | Ok diffs => Ok diffs
    | Raise AssertionError => Raise (RuntimeError "invalid patch format")
    | Raise IndexError => Raise (RuntimeError "invalid patch format")
    | Raise (RuntimeError msg) => Raise (RuntimeError msg)
    end
  else Raise (RuntimeError "unknown diff type").

(** The two error kinds of the specification, as predicates on what
    [DiffParser] raises. *)
Definition UnsupportedFormat (e : exn) : Prop :=
  e = RuntimeError "unknown diff type".

Definition MalformedPatch (e : exn) : Prop :=
  e = RuntimeError "invalid patch format" \/
  exists rest, e = RuntimeError ("unknown patch format" ++ rest).

(** ** Auxiliary notions for the parser proofs *)

(** [settled st line]: the iteration on [line] from [st] will pop it. *)
Definition settled (st : locals) (line : string) : Prop :=
  (is_header line = true /\ old_path st = None) \/
  (is_header line = false /\ is_old_path line = true /\ old_path st = None) \/
  (is_header line = false /\ is_old_path line = false /\
   is_new_path line = false /\ is_hunk_header line = true /\ hunk st = None).

(** The state after [n] iterations. *)
Fixpoint iterate (n : nat) (st : locals) : result locals :=
  match n with
  | O => Ok st
  | S k => st' <- iteration st ;; iterate k st'
  end.

(** What the loop and the final statements can raise. *)
Definition parse_error (e : exn) : Prop :=
  e = AssertionError \/ e = IndexError \/
  exists rest, e = RuntimeError ("unknown patch format" ++ rest).


(** The transition rule for a line that opens a new Diff, read as holding in
    every state that already holds an old path: the turn on a header or
    old-path line emits one more Diff and resets the locals, leaving the line
    at the head of the stream. *)
Definition new_diff_line_always_emits : Prop :=
  forall (s : list string) (n : nat) (st : locals) (line : string)
         (rest : list string),
    sniff s = true ->
    iterate n (initial s) = Ok st ->
    stream st = line :: rest ->
    is_header line || is_old_path line = true ->
    (exists old_p, old_path st = Some old_p) ->
    exists d,
      iteration st =
      Ok (mkLocals (line :: rest) (out_diffs st ++ [d]) [] None None [] None).

(** ** The patch text a Hunk and a Diff stand for *)

(** [line[1:]] and the pair [(line[0], line[1:])] the parser appends. *)
Definition text_of (line : string) : string :=
  match line with
  | "" => ""
  | String _ text => text
  end.

Definition kind_and_text (line : string) : string * string :=
  match line with
  | "" => ("", "")
  | String c text => (String c "", text)
  end.

Definition is_content (line : string) : bool :=
  is_old line || is_new line || is_common line.

(** Reference reading of a run of raw patch lines: the pre-image is the text
    of its old and common content lines, the post-image the text of its new
    and common content lines, both in patch order. *)
Definition pre_image (raw : list string) : list string :=
  map text_of (filter (fun l => is_old l || is_common l) raw).

Definition post_image (raw : list string) : list string :=
  map text_of (filter (fun l => is_new l || is_common l) raw).

Definition no_content (raw : list string) : Prop :=
  Forall (fun l => is_content l = false) raw.

(** [hunk_covers h seg]: [seg] is the hunk-header line of [h] followed by raw
    lines whose content lines, split into kind and text, are the list of
    [h]. *)
Definition hunk_covers (h : Hunk) (seg : list string) : Prop :=
  exists body,
    seg = _hunk_header h :: body /\
    is_hunk_header (_hunk_header h) = true /\
    _hunk_list h = map kind_and_text (filter is_content body).

(** [diff_covers d seg]: [seg] is a preamble without content lines that
    holds both path lines of [d], followed by one segment per hunk of [d]. *)
Definition diff_covers (d : Diff) (seg : list string) : Prop :=
  exists pre hsegs,
    seg = pre ++ concat hsegs /\
    no_content pre /\
    In (_old_path d) pre /\
    In (_new_path d) pre /\
    Forall2 hunk_covers (_hunks d) hsegs.

Definition opt_list {A : Type} (o : option A) : list A :=
  match o with
  | Some a => [a]
  | None => []
  end.

(** Adding a line to the last segment of the Diff in progress. *)
Fixpoint add_to_last (hsegs : list (list string)) (line : string)
    : list (list string) :=
  match hsegs with
  | [] => []
  | [x] => [x ++ [line]]
  | x :: r => x :: add_to_last r line
  end.

(** The loop invariant that ties the locals to the part of the input [s]
    already popped: [segs] are the segments of the emitted Diffs, [pre] and
    [hsegs] the preamble and hunk segments of the Diff in progress. *)
Record covers (s : list string) (st : locals) (segs : list (list string))
    (pre : list string) (hsegs : list (list string)) : Prop := mkCovers {
  cov_split : s = concat segs ++ pre ++ concat hsegs ++ stream st;
  cov_out : Forall2 diff_covers (out_diffs st) segs;
  cov_pre : no_content pre;
  cov_hunks : Forall2 hunk_covers (hunks st ++ opt_list (hunk st)) hsegs;
  cov_old : forall o, old_path st = Some o -> In o pre /\ is_old_path o = true;
  cov_new : forall n, new_path st = Some n -> In n pre /\ is_new_path n = true;
  cov_nohunk : new_path st = None -> hunks st = [] /\ hunk st = None;
  cov_nonew : old_path st = None -> new_path st = None;
  cov_idle :
    old_path st = None -> headers st = [] ->
    (out_diffs st = [] /\ hsegs = [] /\ Forall (fun l => is_eof l = true) pre) \/
    (pre = [] /\ exists l r, stream st = l :: r /\
                             is_header l || is_old_path l = true)
}.

(** What C2 asks of a Hunk against its segment of the patch, and of a Diff
    against its own. *)
Definition hunk_reconstructs (h : Hunk) (hseg : list string) : Prop :=
  hunk_covers h hseg /\
  _get_old_text h =
    map snd (filter (fun p => negb (String.eqb (fst p) "+")) (_hunk_list h)) /\
  _get_new_text h =
    map snd (filter (fun p => negb (String.eqb (fst p) "-")) (_hunk_list h)) /\
  _get_old_text h = pre_image hseg /\
  _get_new_text h = post_image hseg.

Definition diff_reconstructs (d : Diff) (seg : list string) : Prop :=
  exists pre hsegs,
    seg = pre ++ concat hsegs /\
    no_content pre /\
    In (_old_path d) pre /\
    In (_new_path d) pre /\
    Forall2 hunk_reconstructs (_hunks d) hsegs /\
    flat_map _get_old_text (_hunks d) = pre_image seg /\
    flat_map _get_new_text (_hunks d) = post_image seg.

(** ** difflib: the part behind [difflib._mdiff]

    [Hunk.mdiff] hands both texts of a hunk to [difflib._mdiff] of the Python
    standard library.  The functions below follow [Lib/difflib.py] (CPython
    3.11): [SequenceMatcher] with its junk and popularity heuristics,
    [Differ.compare] with [_fancy_replace], and the line iterators of
    [_mdiff] for [context=None].

    Similarity ratios are floats in Python ([2.0 * matches / length],
    compared with [0.74] and [0.75]).  They are kept here as exact rationals;
    the two orders agree whenever the two compared sequences have fewer than
    [10^13] elements in total, since distinct rationals [2M/T] and [74/100]
    are at least [1/(100 T)] apart. *)

Module Difflib.

Definition ratio_t : Type := QArith_base.Q.

Definition ratio_gt (x y : ratio_t) : bool := negb (QArith_base.Qle_bool x y).
Definition ratio_lt (x y : ratio_t) : bool := negb (QArith_base.Qle_bool y x).

(** [_calculate_ratio(matches, length)] *)
Definition _calculate_ratio (matches length : nat) : ratio_t :=
  match length with
  | O => QArith_base.Qmake 1 1
  | S _ => QArith_base.Qmake (2 * Z.of_nat matches) (Pos.of_nat length)
  end.

Inductive tag : Type := Replace | Delete | Insert | Equal.

Definition block : Type := (nat * nat * nat)%type.
Definition opcode : Type := (tag * nat * nat * nat * nat)%type.

Section SequenceMatcher.

Context {A : Type}.
Variable eqb : A -> A -> bool.
(** [isjunk]; [None] is the function that is false everywhere.
  [autojunk] keeps its default, [True]. *)
Variable isjunk : A -> bool.
Variables a b : list A.

Fixpoint indices (x : A) (l : list A) (i : nat) : list nat :=
match l with
| [] => []
| y :: l' =>
    if eqb y x then i :: indices x l' (S i) else indices x l' (S i)
end.

(** [self.b2j.get(x, nothing)] after [__chain_b]: the indices of [x] in
  [b], unless [x] is junk or, in a [b] of 200 elements or more, makes
  up more than 1% + 1 of them. *)
Definition b2j (x : A) : list nat :=
let idxs := indices x b 0 in
if isjunk x then []
else
  let n := List.length b in
  if (200 <=? n) && (n / 100 + 1 <? List.length idxs) then [] else idxs.

(** [j2len.get(j, 0)] *)
Definition j2len_get (j2len : list (nat * nat)) (j : nat) : nat :=
match find (fun p => Nat.eqb (fst p) j) j2len with
| Some p => snd p
| None => 0
end.

(** [for j in b2j.get(a[i], nothing)] *)
Fixpoint scan_row (js : list nat) (i blo bhi : nat) (j2len newj2len : list (nat * nat))
  (best : block) : list (nat * nat) * block :=
match js with
| [] => (newj2len, best)
| j :: js' =>
    if j <? blo then scan_row js' i blo bhi j2len newj2len best
    else if bhi <=? j then (newj2len, best)
    else
      let k := match j with
               | O => 0       (* j2len.get(-1, 0) *)
               | S j' => j2len_get j2len j'
               end + 1 in
      let '(_, _, bestsize) := best in
      let best' := if bestsize <? k then (i + 1 - k, j + 1 - k, k) else best in
      scan_row js' i blo bhi j2len ((j, k) :: newj2len) best'
end.

(** [for i in range(alo, ahi)] *)
Fixpoint scan_rows (rows : list nat) (blo bhi : nat) (j2len : list (nat * nat))
  (best : block) : block :=
match rows with
| [] => best
| i :: rows' =>
    let js := match nth_error a i with
              | Some x => b2j x
              | None => []
              end in
    let '(newj2len, best') := scan_row js i blo bhi j2len [] best in
    scan_rows rows' blo bhi newj2len best'
end.

(** [a[i] == b[j]] with [isbjunk(b[j])] equal to [junk] *)
Definition same_at (junk : bool) (i j : nat) : bool :=
match nth_error a i, nth_error b j with
| Some x, Some y => Bool.eqb (isjunk y) junk && eqb x y
| _, _ => false
end.

(** [while besti > alo and bestj > blo and ... a[besti-1] == b[bestj-1]] *)
Fixpoint extend_back (junk : bool) (alo blo besti bestj bestsize : nat)
  {struct besti} : block :=
match besti, bestj with
| S i', S j' =>
    if (alo <? besti) && (blo <? bestj) && same_at junk i' j'
    then extend_back junk alo blo i' j' (S bestsize)
    else (besti, bestj, bestsize)
| _, _ => (besti, bestj, bestsize)
end.

(** [while besti+bestsize < ahi and bestj+bestsize < bhi and ...];
  [room] is [ahi - (besti + bestsize)] on entry. *)
Fixpoint extend_fwd (room : nat) (junk : bool) (ahi bhi besti bestj bestsize : nat)
  : nat :=
match room with
| O => bestsize
| S room' =>
    if (besti + bestsize <? ahi) && (bestj + bestsize <? bhi) &&
       same_at junk (besti + bestsize) (bestj + bestsize)
    then extend_fwd room' junk ahi bhi besti bestj (S bestsize)
    else bestsize
end.

Definition find_longest_match (alo ahi blo bhi : nat) : block :=
let '(besti, bestj, bestsize) :=
  scan_rows (seq alo (ahi - alo)) blo bhi [] (alo, blo, 0) in
let '(besti, bestj, bestsize) :=
  extend_back false alo blo besti bestj bestsize in
let bestsize :=
  extend_fwd (ahi - (besti + bestsize)) false ahi bhi besti bestj bestsize in
let '(besti, bestj, bestsize) :=
  extend_back true alo blo besti bestj bestsize in
let bestsize :=
  extend_fwd (ahi - (besti + bestsize)) true ahi bhi besti bestj bestsize in
(besti, bestj, bestsize).

(** [while queue:] of [get_matching_blocks].  The head of [queue] is the
  end of the Python list, where [append] and [pop] work.  There is no
  answer ([None]) when the steps run out. *)
Fixpoint blocks_loop (fuel : nat) (queue : list (nat * nat * nat * nat))
  (matching_blocks : list block) : option (list block) :=
match queue with
| [] => Some matching_blocks
| (alo, ahi, blo, bhi) :: queue' =>
    match fuel with
    | O => None
    | S fuel' =>
        let '(i, j, k) := find_longest_match alo ahi blo bhi in
        if k =? 0 then blocks_loop fuel' queue' matching_blocks
        else
          let q1 := if (alo <? i) && (blo <? j)
                    then (alo, i, blo, j) :: queue' else queue' in
          let q2 := if (i + k <? ahi) && (j + k <? bhi)
                    then (i + k, ahi, j + k, bhi) :: q1 else q1 in
          blocks_loop fuel' q2 (matching_blocks ++ [(i, j, k)])
    end
end.

(** Tuple order, for [matching_blocks.sort()]. *)
Definition block_leb (x y : block) : bool :=
let '(i1, j1, k1) := x in
let '(i2, j2, k2) := y in
(i1 <? i2) || ((i1 =? i2) && ((j1 <? j2) || ((j1 =? j2) && (k1 <=? k2)))).

Fixpoint insert_block (x : block) (l : list block) : list block :=
match l with
| [] => [x]
| y :: l' => if block_leb x y then x :: l else y :: insert_block x l'
end.

Definition sort_blocks (l : list block) : list block :=
fold_right insert_block [] l.

(** The loop that collapses adjacent equal blocks. *)
Fixpoint collapse (blocks : list block) (i1 j1 k1 : nat) (non_adjacent : list block)
  : list block :=
match blocks with
| [] => if k1 =? 0 then non_adjacent else non_adjacent ++ [(i1, j1, k1)]
| (i2, j2, k2) :: blocks' =>
    if (i1 + k1 =? i2) && (j1 + k1 =? j2)
    then collapse blocks' i1 j1 (k1 + k2) non_adjacent
    else collapse blocks' i2 j2 k2
           (if k1 =? 0 then non_adjacent else non_adjacent ++ [(i1, j1, k1)])
end.

(** A rectangle taken from the queue leaves at most two, on fewer rows of
  [a] in all. *)
Definition blocks_fuel : nat := 2 * List.length a + 1.

Definition get_matching_blocks : list block :=
let la := List.length a in
let lb := List.length b in
let found := match blocks_loop blocks_fuel [(0, la, 0, lb)] [] with
             | Some m => m
             | None => []
             end in
collapse (sort_blocks found) 0 0 0 [] ++ [(la, lb, 0)].

Fixpoint opcodes_loop (blocks : list block) (i j : nat) (answer : list opcode)
  : list opcode :=
match blocks with
| [] => answer
| (ai, bj, size) :: blocks' =>
    let answer1 :=
      if (i <? ai) && (j <? bj) then answer ++ [(Replace, i, ai, j, bj)]
      else if i <? ai then answer ++ [(Delete, i, ai, j, bj)]
      else if j <? bj then answer ++ [(Insert, i, ai, j, bj)]
      else answer in
    let i' := ai + size in
    let j' := bj + size in
    let answer2 :=
      if size =? 0 then answer1 else answer1 ++ [(Equal, ai, i', bj, j')] in
    opcodes_loop blocks' i' j' answer2
end.

Definition get_opcodes : list opcode :=
opcodes_loop get_matching_blocks 0 0 [].

Definition ratio : ratio_t :=
let matches := list_sum (map (fun t : block => snd t) get_matching_blocks) in
_calculate_ratio matches (List.length a + List.length b).

Fixpoint count_of (x : A) (l : list A) : nat :=
match l with
| [] => 0
| y :: l' => (if eqb y x then 1 else 0) + count_of x l'
end.

Fixpoint avail_get (avail : list (A * Z)) (x : A) : option Z :=
match avail with
| [] => None
| (y, n) :: avail' => if eqb y x then Some n else avail_get avail' x
end.

(** [for elt in self.a] of [quick_ratio] *)
Fixpoint quick_loop (elts : list A) (avail : list (A * Z)) (matches : nat) : nat :=
match elts with
| [] => matches
| elt :: elts' =>
    let numb := match avail_get avail elt with
                | Some n => n
                | None => Z.of_nat (count_of elt b)
                end in
    quick_loop elts' ((elt, (numb - 1)%Z) :: avail)
      (if (0 <? numb)%Z then matches + 1 else matches)
end.

Definition quick_ratio : ratio_t :=
_calculate_ratio (quick_loop a [] 0) (List.length a + List.length b).

Definition real_quick_ratio : ratio_t :=
let la := List.length a in
let lb := List.length b in
_calculate_ratio (Nat.min la lb) (la + lb).

End SequenceMatcher.

(** *** class Differ *)

(** [IS_CHARACTER_JUNK]: a blank or a tab. *)
Definition IS_CHARACTER_JUNK (ch : ascii) : bool :=
  Py.mem ch (String " " Py.TAB).

Definition chars (s : string) : list ascii := list_ascii_of_string s.

(** [linejunk=None] *)
Definition no_junk (line : string) : bool := false.

(** [_dump(tag, x, lo, hi)] *)
Definition _dump (tag : string) (x : list string) (lo hi : nat) : list string :=
  map (fun i => (tag ++ " " ++ nth i x "")%string) (seq lo (hi - lo)).

(** [_plain_replace]; its [assert] holds at both call sites. *)
Definition _plain_replace (a : list string) (alo ahi : nat)
    (b : list string) (blo bhi : nat) : list string :=
  if bhi - blo <? ahi - alo
  then _dump "+" b blo bhi ++ _dump "-" a alo ahi
  else _dump "-" a alo ahi ++ _dump "+" b blo bhi.

(** [_keep_original_ws(s, tag_s)] *)
Fixpoint _keep_original_ws (s tag_s : string) : string :=
  match s, tag_s with
  | String c s', String tag_c tag_s' =>
      String (if Ascii.eqb tag_c " " && Py.isspace c then c else tag_c)
             (_keep_original_ws s' tag_s')
  | _, _ => ""
  end.

Definition _qformat (aline bline atags btags : string) : list string :=
  let atags := Py.rstrip Py.whitespace (_keep_original_ws aline atags) in
  let btags := Py.rstrip Py.whitespace (_keep_original_ws bline btags) in
  ["- " ++ aline]%string ++
  (if String.eqb atags "" then [] else ["? " ++ atags ++ Py.LF]%string) ++
  ["+ " ++ bline]%string ++
  (if String.eqb btags "" then [] else ["? " ++ btags ++ Py.LF]%string).

(** The tag strings built from the opcodes of the synch pair. *)
Fixpoint tag_strings (ops : list opcode) (atags btags : string) : string * string :=
  match ops with
  | [] => (atags, btags)
  | (t, ai1, ai2, bj1, bj2) :: ops' =>
      let la := ai2 - ai1 in
      let lb := bj2 - bj1 in
      match t with
      | Replace =>
          tag_strings ops' (atags ++ Py.rep "^" la) (btags ++ Py.rep "^" lb)
      | Delete => tag_strings ops' (atags ++ Py.rep "-" la) btags
      | Insert => tag_strings ops' atags (btags ++ Py.rep "+" lb)
      | Equal =>
          tag_strings ops' (atags ++ Py.rep " " la) (btags ++ Py.rep " " lb)
      end
  end.

(** The locals the search loops of [_fancy_replace] update. *)
Record search : Type := mkSearch {
  best_ratio : ratio_t;
  best_ij : option (nat * nat);
  eq_ij : option (nat * nat)
}.

(** [for i in range(alo, ahi)] for one [j] *)
Fixpoint search_row (rows : list nat) (a : list string) (bj : string) (j : nat)
    (st : search) : search :=
  match rows with
  | [] => st
  | i :: rows' =>
      let ai := nth i a "" in
      if String.eqb ai bj then
        search_row rows' a bj j
          (match eq_ij st with
           | None => mkSearch (best_ratio st) (best_ij st) (Some (i, j))
           | Some _ => st
           end)
      else
        let x := chars ai in
        let y := chars bj in
        if ratio_gt (real_quick_ratio x y) (best_ratio st) &&
           ratio_gt (quick_ratio Ascii.eqb x y) (best_ratio st) &&
           ratio_gt (ratio Ascii.eqb IS_CHARACTER_JUNK x y) (best_ratio st)
        then
          search_row rows' a bj j
            (mkSearch (ratio Ascii.eqb IS_CHARACTER_JUNK x y) (Some (i, j)) (eq_ij st))
        else search_row rows' a bj j st
  end.

(** [for j in range(blo, bhi)] *)
Fixpoint search_all (cols : list nat) (a : list string) (alo ahi : nat)
    (b : list string) (st : search) : search :=
  match cols with
  | [] => st
  | j :: cols' =>
      search_all cols' a alo ahi b
        (search_row (seq alo (ahi - alo)) a (nth j b "") j st)
  end.

Definition cutoff : ratio_t := QArith_base.Qmake 75 100.
Definition initial_best_ratio : ratio_t := QArith_base.Qmake 74 100.

(** [_fancy_replace], with [_fancy_helper] unfolded at its two calls.
    Every call is on ranges that lost the synch pair, so
    [(ahi - alo) + (bhi - blo)] bounds the depth.  There is no answer
    ([None]) when the steps run out, and where the source would read
    [best_i] before any pair bound it. *)
Fixpoint _fancy_replace_within (fuel : nat) (a : list string) (alo ahi : nat)
    (b : list string) (blo bhi : nat) : option (list string) :=
  match fuel with
  | O => None
  | S fuel' =>
      let _fancy_helper := fun alo ahi blo bhi =>
        if alo <? ahi then
          if blo <? bhi then _fancy_replace_within fuel' a alo ahi b blo bhi
          else Some (_dump "-" a alo ahi)
        else if blo <? bhi then Some (_dump "+" b blo bhi)
        else Some [] in
      let st := search_all (seq blo (bhi - blo)) a alo ahi b
                  (mkSearch initial_best_ratio None None) in
      let synch := fun (best_i best_j : nat) (identical : bool) =>
        let aelt := nth best_i a "" in
        let belt := nth best_j b "" in
        match _fancy_helper alo best_i blo best_j,
              _fancy_helper (best_i + 1) ahi (best_j + 1) bhi with
        | Some before, Some after =>
            Some (before ++
                  (if identical then ["  " ++ aelt]%string
                   else
                     let '(atags, btags) :=
                       tag_strings
                         (get_opcodes Ascii.eqb IS_CHARACTER_JUNK
                            (chars aelt) (chars belt))
                         "" "" in
                     _qformat aelt belt atags btags) ++
                  after)
        | _, _ => None
        end in
      if ratio_lt (best_ratio st) cutoff then
        match eq_ij st with
        | None => Some (_plain_replace a alo ahi b blo bhi)
        | Some (eqi, eqj) => synch eqi eqj true
        end
      else
        match best_ij st with
        | Some (best_i, best_j) => synch best_i best_j false
        | None => None
        end
  end.

Definition _fancy_replace (a : list string) (alo ahi : nat)
    (b : list string) (blo bhi : nat) : list string :=
  match _fancy_replace_within ((ahi - alo) + (bhi - blo)) a alo ahi b blo bhi with
  | Some delta => delta
  | None => []
  end.

(** [Differ(linejunk, charjunk).compare(a, b)] *)
Definition compare (a b : list string) : list string :=
  flat_map
    (fun op : opcode =>
       let '(t, alo, ahi, blo, bhi) := op in
       match t with
       | Replace => _fancy_replace a alo ahi b blo bhi
       | Delete => _dump "-" a alo ahi
       | Insert => _dump "+" b blo bhi
       | Equal => _dump " " a alo ahi
       end)
    (get_opcodes String.eqb no_junk a b).

Definition ndiff (a b : list string) : list string := compare a b.

(** *** _mdiff *)

(** A line number: an integer, or the empty string of a blank filler. *)
Inductive lineno : Type :=
| LineNo (n : nat)
| NoLineNo.

(** Truth value of a line number. *)
Definition lineno_true (n : lineno) : bool :=
  match n with
  | LineNo k => negb (k =? 0)
  | NoLineNo => false
  end.

Definition mline : Type := (lineno * string)%type.
Definition mrow : Type := (mline * mline * bool)%type.

(** [lines.pop(0)]; past the end of the delta the buffer holds ['X']. *)
Definition pop0 (lines : list string) : string * list string :=
  match lines with
  | [] => ("X", [])
  | l :: rest => (l, rest)
  end.

(** [change_re.sub(record_sub_info, markers)]: the runs of one of [+], [-],
    [^] in [markers], each with its character and span. *)
Fixpoint run_length (c : ascii) (s : string) : nat :=
  match s with
  | String d rest => if Ascii.eqb c d then S (run_length c rest) else 0
  | "" => 0
  end.

Fixpoint sub_info (skip pos : nat) (markers : string)
    : list (ascii * (nat * nat)) :=
  match markers with
  | "" => []
  | String c rest =>
      match skip with
      | S k => sub_info k (S pos) rest
      | O =>
          if Py.mem c "+-^" then
            let n := S (run_length c rest) in
            (c, (pos, pos + n)) :: sub_info (n - 1) (S pos) rest
          else sub_info 0 (S pos) rest
      end
  end.

(** [text[0:begin]+'\0'+key+text[begin:end]+'\1'+text[end:]] *)
Definition mark (text : string) (info : ascii * (nat * nat)) : string :=
  let '(key, (begin, end_)) := info in
  (Py.take begin text ++ Py.NUL ++ String key "" ++
   Py.take (end_ - begin) (Py.drop begin text) ++ Py.SOH ++
   Py.drop end_ text)%string.

Definition bump (side : nat) (num_lines : nat * nat) : nat * nat :=
  if side =? 0 then (S (fst num_lines), snd num_lines)
  else (fst num_lines, S (snd num_lines)).

Definition line_number (side : nat) (num_lines : nat * nat) : lineno :=
  LineNo (if side =? 0 then fst num_lines else snd num_lines).

(** [_make_line(lines, format_key, side)], returning with the line the
    list and the counters it updated. *)
Definition _make_line (lines : list string) (format_key : option ascii)
    (side : nat) (num_lines : nat * nat)
    : mline * list string * (nat * nat) :=
  let num_lines := bump side num_lines in
  match format_key with
  | None =>
      let '(l, lines) := pop0 lines in
      ((line_number side num_lines, Py.drop 2 l), lines, num_lines)
  | Some key =>
      if Ascii.eqb key "?" then
        let '(text, lines) := pop0 lines in
        let '(markers, lines) := pop0 lines in
        let text := fold_left mark (rev (sub_info 0 0 markers)) text in
        ((line_number side num_lines, Py.drop 2 text), lines, num_lines)
      else
        let '(l, lines) := pop0 lines in
        let text := Py.drop 2 l in
        let text := if String.eqb text "" then " " else text in
        let text := (Py.NUL ++ String key "" ++ text ++ Py.SOH)%string in
        ((line_number side num_lines, text), lines, num_lines)
  end.

(** [line[0]] of the [k]-th buffered line *)
Definition peek (lines : list string) (k : nat) : ascii :=
  match nth_error lines k with
  | Some (String c _) => c
  | Some "" => "000"
  | None => "X"
  end.

Definition lookahead (lines : list string) : string :=
  String (peek lines 0) (String (peek lines 1) (String (peek lines 2)
    (String (peek lines 3) ""))).

Definition blank : mline := (NoLineNo, Py.LF).

Definition half_row : Type := (option mline * option mline * bool)%type.

(** The two [while] loops that catch up on blank lines. *)
Definition catch_up (num_blanks_to_yield : Z) : list half_row :=
  if (num_blanks_to_yield <? 0)%Z
  then repeat (None, Some blank, true) (Z.to_nat (- num_blanks_to_yield))
  else repeat (Some blank, None, true) (Z.to_nat num_blanks_to_yield).

(** [yield row], then the rest of the turns. *)
Definition yield (row : half_row) (rest : option (list half_row))
    : option (list half_row) :=
  option_map (cons row) rest.

(** [_line_iterator()]: every turn but the last pops a line, so the
    length of the delta plus one bounds the turns.  There is no answer
    ([None]) when the turns run out, and for a buffer that matches none of
    the patterns, on which the source yields [from_line] and [to_line] of
    an earlier turn for ever, or fails where no turn bound them. *)
Fixpoint _line_iterator_within (fuel : nat) (lines : list string)
    (num_lines : nat * nat) (num_blanks_pending : Z) : option (list half_row) :=
  match fuel with
  | O => None
  | S fuel' =>
      let s := lookahead lines in
      if Py.startswith s "X" then
        Some (catch_up num_blanks_pending)
      else if Py.startswith s "-?+?" then
        let '(from_line, lines, num_lines) :=
          _make_line lines (Some "?"%char) 0 num_lines in
        let '(to_line, lines, num_lines) :=
          _make_line lines (Some "?"%char) 1 num_lines in
        yield (Some from_line, Some to_line, true)
          (_line_iterator_within fuel' lines num_lines num_blanks_pending)
      else if Py.startswith s "--++" then
        let '(from_line, lines, num_lines) :=
          _make_line lines (Some "-"%char) 0 num_lines in
        yield (Some from_line, None, true)
          (_line_iterator_within fuel' lines num_lines (num_blanks_pending - 1)%Z)
      else if Py.startswith s "--?+" || Py.startswith s "--+" ||
              Py.startswith s "- " then
        let '(from_line, lines, num_lines) :=
          _make_line lines (Some "-"%char) 0 num_lines in
        option_map (app (catch_up (num_blanks_pending - 1)%Z))
          (yield (Some from_line, None, true) (_line_iterator_within fuel' lines num_lines 0%Z))
      else if Py.startswith s "-+?" then
        let '(from_line, lines, num_lines) := _make_line lines None 0 num_lines in
        let '(to_line, lines, num_lines) :=
          _make_line lines (Some "?"%char) 1 num_lines in
        yield (Some from_line, Some to_line, true)
          (_line_iterator_within fuel' lines num_lines num_blanks_pending)
      else if Py.startswith s "-?+" then
        let '(from_line, lines, num_lines) :=
          _make_line lines (Some "?"%char) 0 num_lines in
        let '(to_line, lines, num_lines) := _make_line lines None 1 num_lines in
        yield (Some from_line, Some to_line, true)
          (_line_iterator_within fuel' lines num_lines num_blanks_pending)
      else if Py.startswith s "-" then
        let '(from_line, lines, num_lines) :=
          _make_line lines (Some "-"%char) 0 num_lines in
        yield (Some from_line, None, true)
          (_line_iterator_within fuel' lines num_lines (num_blanks_pending - 1)%Z)
      else if Py.startswith s "+--" then
        let '(to_line, lines, num_lines) :=
          _make_line lines (Some "+"%char) 1 num_lines in
        yield (None, Some to_line, true)
          (_line_iterator_within fuel' lines num_lines (num_blanks_pending + 1)%Z)
      else if Py.startswith s "+ " || Py.startswith s "+-" then
        let '(to_line, lines, num_lines) :=
          _make_line lines (Some "+"%char) 1 num_lines in
        option_map (app (catch_up (num_blanks_pending + 1)%Z))
          (yield (None, Some to_line, true) (_line_iterator_within fuel' lines num_lines 0%Z))
      else if Py.startswith s "+" then
        let '(to_line, lines, num_lines) :=
          _make_line lines (Some "+"%char) 1 num_lines in
        yield (None, Some to_line, true)
          (_line_iterator_within fuel' lines num_lines (num_blanks_pending + 1)%Z)
      else if Py.startswith s " " then
        let '(from_line, _, num_lines) := _make_line lines None 0 num_lines in
        let '(to_line, lines, num_lines) := _make_line lines None 1 num_lines in
        yield (Some from_line, Some to_line, false)
          (_line_iterator_within fuel' lines num_lines num_blanks_pending)
      else None
  end.

Definition _line_iterator (lines : list string) : list half_row :=
  match _line_iterator_within (S (List.length lines)) lines (0, 0) 0%Z with
  | Some rows => rows
  | None => []
  end.

(** The part of [_line_pair_iterator] that yields while both queues hold
    a line. *)
Fixpoint drain (fromlines tolines : list (mline * bool))
    : list mrow * list (mline * bool) * list (mline * bool) :=
  match fromlines, tolines with
  | (from_line, fromDiff) :: fromlines', (to_line, to_diff) :: tolines' =>
      let '(out, f, t) := drain fromlines' tolines' in
      ((from_line, to_line, fromDiff || to_diff) :: out, f, t)
  | _, _ => ([], fromlines, tolines)
  end.

(** [_line_pair_iterator()]: pull a half row, queue its sides, yield the
    pairs that are ready; lines still queued when the half rows end are
    dropped. *)
Fixpoint _line_pair_iterator (rows : list half_row)
    (fromlines tolines : list (mline * bool)) : list mrow :=
  match rows with
  | [] => []
  | (from_line, to_line, found_diff) :: rows' =>
      let fromlines := match from_line with
                       | Some l => fromlines ++ [(l, found_diff)]
                       | None => fromlines
                       end in
      let tolines := match to_line with
                     | Some l => tolines ++ [(l, found_diff)]
                     | None => tolines
                     end in
      let '(out, fromlines, tolines) := drain fromlines tolines in
      out ++ _line_pair_iterator rows' fromlines tolines
  end.

(** [_mdiff(fromlines, tolines)] with [context=None] *)
Definition _mdiff (fromlines tolines : list string) : list mrow :=
  let delta := ndiff fromlines tolines in
  _line_pair_iterator (_line_iterator delta) [] [].

End Difflib.

(** [Hunk.mdiff] *)
Definition mdiff (h : Hunk) : list Difflib.mrow :=
  Difflib._mdiff (_get_old_text h) (_get_new_text h).

(** ** Colors *)

Definition COLORS : list (string * string) :=
  [ ("reset",        (Py.ESC ++ "[0m")%string);
    ("underline",    (Py.ESC ++ "[4m")%string);
    ("reverse",      (Py.ESC ++ "[7m")%string);
    ("red",          (Py.ESC ++ "[31m")%string);
    ("green",        (Py.ESC ++ "[32m")%string);
    ("yellow",       (Py.ESC ++ "[33m")%string);
    ("blue",         (Py.ESC ++ "[34m")%string);
    ("magenta",      (Py.ESC ++ "[35m")%string);
    ("cyan",         (Py.ESC ++ "[36m")%string);
    ("lightred",     (Py.ESC ++ "[1;31m")%string);
    ("lightgreen",   (Py.ESC ++ "[1;32m")%string);
    ("lightyellow",  (Py.ESC ++ "[1;33m")%string);
    ("lightblue",    (Py.ESC ++ "[1;34m")%string);
    ("lightmagenta", (Py.ESC ++ "[1;35m")%string);
    ("lightcyan",    (Py.ESC ++ "[1;36m")%string) ].

(** [COLORS.get(color, '')] *)
Fixpoint dict_get (d : list (string * string)) (key : string) : string :=
  match d with
  | [] => ""
  | (k, v) :: d' => if String.eqb k key then v else dict_get d' key
  end.

Definition ansi_code (color : string) : string := dict_get COLORS color.

Definition colorize (text start_color end_color : string) : string :=
  (ansi_code start_color ++ text ++ ansi_code end_color)%string.

(** ** class Diff: markup *)

Definition _markup_header (line : string) : string := colorize line "cyan" "reset".
Definition _markup_old_path (line : string) : string := colorize line "yellow" "reset".
Definition _markup_new_path (line : string) : string := colorize line "yellow" "reset".
Definition _markup_hunk_header (line : string) : string :=
  colorize line "lightblue" "reset".
Definition _markup_common (line : string) : string := colorize line "reset" "reset".
Definition _markup_old (line : string) : string := colorize line "lightred" "reset".
Definition _markup_new (line : string) : string := colorize line "lightgreen" "reset".

Definition _markup_mix (line base_color : string) : string :=
  let del_code := (ansi_code "reverse" ++ ansi_code base_color)%string in
  let add_code := (ansi_code "reverse" ++ ansi_code base_color)%string in
  let chg_code := (ansi_code "underline" ++ ansi_code base_color)%string in
  let rst_code := (ansi_code "reset" ++ ansi_code base_color)%string in
  let line := Py.replace line (Py.NUL ++ "-") del_code in
  let line := Py.replace line (Py.NUL ++ "+") add_code in
  let line := Py.replace line (Py.NUL ++ "^") chg_code in
  let line := Py.replace line Py.SOH rst_code in
  colorize line base_color "reset".

Definition _markup_old_mix (line : string) : string := _markup_mix line "red".
Definition _markup_new_mix (line : string) : string := _markup_mix line "green".

(** What one [(old, new, changed)] of [hunk.mdiff()] yields in
    [markup_traditional]. *)
Definition traditional_row (row : Difflib.mrow) : list string :=
  let '(old, new, changed) := row in
  if changed then
    if negb (Difflib.lineno_true (fst old)) then
      (* The '+' char after \x00 is kept *)
      let line := Py.strip (Py.NUL ++ Py.SOH) (snd new) in
      [_markup_new line]
    else if negb (Difflib.lineno_true (fst new)) then
      (* The '-' char after \x00 is kept *)
      let line := Py.strip (Py.NUL ++ Py.SOH) (snd old) in
      [_markup_old line]
    else
      [ (_markup_old "-" ++ _markup_old_mix (snd old))%string;
        (_markup_new "+" ++ _markup_new_mix (snd new))%string ]
  else
    [_markup_common (" " ++ snd old)].

(** The lines a generator yields, in order. *)
Definition markup_traditional (d : Diff) : list string :=
  map _markup_header (_headers d) ++
  [_markup_old_path (_old_path d); _markup_new_path (_new_path d)] ++
  flat_map
    (fun h => _markup_hunk_header (get_header h)
              :: flat_map traditional_row (mdiff h))
    (_hunks d).

(** *** Side by side *)

Definition is_digit (c : ascii) : bool :=
  (48 <=? nat_of_ascii c) && (nat_of_ascii c <=? 57).

(** [\d{1,2}m] at the head of [s]: the length of the match. *)
Definition digits_m (s : string) : option nat :=
  match s with
  | String d1 (String d2 rest) =>
      if is_digit d1 then
        if is_digit d2 then
          match rest with
          | String m _ => if Ascii.eqb m "m" then Some 3 else None
          | "" => None
          end
        else if Ascii.eqb d2 "m" then Some 2 else None
      else None
  | _ => None
  end.

(** [\x1b\[(1;)?\d{1,2}m] at the head of [s]: the length of the match. *)
Definition ansi_match (s : string) : option nat :=
  match s with
  | String e (String br rest) =>
      if Ascii.eqb e "027" && Ascii.eqb br "[" then
        match (if Py.startswith rest "1;" then digits_m (Py.drop 2 rest) else None) with
        | Some n => Some (4 + n)
        | None =>
            match digits_m rest with
            | Some n => Some (2 + n)
            | None => None
            end
        end
      else None
  | _ => None
  end.

(** [re.sub(r'\x1b\[(1;)?\d{1,2}m', '', s)]; [skip] counts the characters of
    a match still to be dropped. *)
Fixpoint sub_ansi (skip : nat) (s : string) : string :=
  match s with
  | "" => ""
  | String c rest =>
      match skip with
      | S k => sub_ansi k rest
      | O =>
          match ansi_match s with
          | Some (S k) => sub_ansi k rest
          | _ => String c (sub_ansi 0 rest)
          end
      end
  end.

Definition strip_ansi (s : string) : string := sub_ansi 0 s.

Definition _normalize (line : string) : string :=
  Py.replace (Py.replace line Py.TAB (Py.rep " " 8)) Py.LF "".

Definition _fit_width (markup : string) (width : nat) : string :=
  let line := strip_ansi markup in
  if String.length line <? width then
    let pad := width - String.length line in
    (markup ++ Py.rep " " pad)%string
  else
    (* TODO *)
    markup.

Definition line_fmt (left right : string) : string :=
  (left ++ " " ++ colorize "|" "lightyellow" "reset" ++ " " ++ right ++ Py.LF)%string.

(** The two columns of the row that one [(old, new, changed)] yields in
    [markup_side_by_side], for the column width [width]. *)
Definition side_by_side_columns (width : nat) (row : Difflib.mrow)
    : string * string :=
  let '(old, new, changed) := row in
  let left := _normalize (snd old) in
  let right := _normalize (snd new) in
  if changed then
    if negb (Difflib.lineno_true (fst old)) then
      let left := Py.rep " " width in
      let right := Py.rstrip Py.SOH (Py.lstrip (Py.NUL ++ "+") right) in
      let right := _fit_width (_markup_new right) width in
      (left, right)
    else if negb (Difflib.lineno_true (fst new)) then
      let left := Py.rstrip Py.SOH (Py.lstrip (Py.NUL ++ "-") left) in
      let left := _fit_width (_markup_old left) width in
      (left, "")
    else
      let left := _fit_width (_markup_old_mix left) width in
      let right := _fit_width (_markup_new_mix right) width in
      (left, right)
  else
    let left := _fit_width (_markup_common left) width in
    let right := _fit_width (_markup_common right) width in
    (left, right).

Definition side_by_side_row (width : nat) (row : Difflib.mrow) : string :=
  let columns := side_by_side_columns width row in
  line_fmt (fst columns) (snd columns).

(** [markup_side_by_side(show_number, width)]: [width] is an integer or
    [None].  The first statement after the local functions rebinds it. *)
Definition markup_side_by_side (d : Diff) (show_number : bool) (width : option Z)
    : list string :=
  let width := 80 in
  map _markup_header (_headers d) ++
  [_markup_old_path (_old_path d); _markup_new_path (_new_path d)] ++
  flat_map
    (fun h => _markup_hunk_header (get_header h)
              :: map (side_by_side_row width) (mdiff h))
    (_hunks d).

(** ** class DiffMarkup *)

Definition _markup_traditional (diffs : list Diff) : list string :=
  flat_map markup_traditional diffs.

Definition _markup_side_by_side (diffs : list Diff) (show_number : bool)
    (width : option Z) : list string :=
  flat_map (fun d => markup_side_by_side d show_number width) diffs.

(** [DiffMarkup(stream).markup(side_by_side, show_number, width)] on the Diffs
    the constructor parsed. *)
Definition markup (diffs : list Diff) (side_by_side show_number : bool)
    (width : option Z) : list string :=
  if side_by_side then _markup_side_by_side diffs show_number width
  else _markup_traditional diffs.

Definition DiffMarkup (s : list string) (side_by_side show_number : bool)
    (width : option Z) : result (list string) :=
  diffs <- DiffParser s ;;
  Ok (markup diffs side_by_side show_number width).

(** ** Notions the claims on rendering are stated with *)



(** Number of characters of a column that show on the terminal. *)
Definition visible_width (s : string) : nat := String.length (strip_ansi s).

(** A column fitted to 80 display columns, as C8 describes every column:
    some content, padded with blanks to 80 visible columns when narrower and
    left as it is otherwise. *)
Definition fitted_to_80 (column : string) : Prop :=
  exists content,
    column =
    if visible_width content <? 80
    then (content ++ Py.rep " " (80 - visible_width content))%string
    else content.

Definition every_column_fitted : Prop :=
  forall (d : Diff) (h : Hunk) (row : Difflib.mrow),
    In h (_hunks d) -> In row (mdiff h) ->
    fitted_to_80 (fst (side_by_side_columns 80 row)) /\
    fitted_to_80 (snd (side_by_side_columns 80 row)).

(** The round trip of C1: the traditional rendering of a parsed input,
    stripped of its escape sequences, is the input. *)
Definition traditional_round_trip : Prop :=
  forall (s : list string) (diffs : list Diff),
    DiffParser s = Ok diffs ->
    map strip_ansi (markup diffs false false (Some 0%Z)) = s.






(** Text without the escape character. *)
Fixpoint esc_freeb (s : string) : bool :=
  match s with
  | "" => true
  | String c rest => negb (Ascii.eqb c "027") && esc_freeb rest
  end.

Definition esc_free (s : string) : Prop := esc_freeb s = true.

(** Text without the escape character in which every NUL opens a marker. *)
Fixpoint well_marked (s : string) : bool :=
  match s with
  | "" => true
  | String c rest =>
      if Ascii.eqb c "027" then false
      else if Ascii.eqb c "000" then
        match rest with
        | String key rest' => Py.mem key "-+^" && well_marked rest'
        | "" => false
        end
      else well_marked rest
  end.

(** A marked text without its markers. *)
Fixpoint unmark (s : string) : string :=
  match s with
  | "" => ""
  | String c rest =>
      if Ascii.eqb c "000" then
        match rest with
        | String key rest' =>
            if Py.mem key "-+^" then unmark rest' else String c (unmark rest)
        | "" => String c ""
        end
      else if Ascii.eqb c "001" then unmark rest
      else String c (unmark rest)
  end.

(** What a row of the aligner shows in the traditional rendering once the
    escape sequences are gone. *)
Definition plain_row (row : Difflib.mrow) : list string :=
  let '(old, new, changed) := row in
  if changed then
    if negb (Difflib.lineno_true (fst old)) then
      [Py.strip (Py.NUL ++ Py.SOH) (snd new)]
    else if negb (Difflib.lineno_true (fst new)) then
      [Py.strip (Py.NUL ++ Py.SOH) (snd old)]
    else
      [ ("-" ++ unmark (snd old))%string; ("+" ++ unmark (snd new))%string ]
  else
    [ (" " ++ snd old)%string ].

Definition clean_row (row : Difflib.mrow) : Prop :=
  well_marked (snd (fst (fst row))) = true /\
  well_marked (snd (snd (fst row))) = true.

Definition clean_hunk (h : Hunk) : Prop :=
  esc_free (get_header h) /\ Forall clean_row (mdiff h).

Definition clean_diff (d : Diff) : Prop :=
  Forall esc_free (_headers d) /\
  esc_free (_old_path d) /\
  esc_free (_new_path d) /\
  Forall clean_hunk (_hunks d).

(** A patch that replaces two lines by two others. *)
Definition two_line_replacement : list string :=
  [Py.ln "--- a"; Py.ln "+++ b"; Py.ln "@@ -1,2 +1,2 @@";
   Py.ln "-a"; Py.ln "-b"; Py.ln "+c"; Py.ln "+d"].

(** The four replacements of [_markup_mix], before the line is colorized. *)
Definition mix_codes (line base_color : string) : string :=
  let del_code := (ansi_code "reverse" ++ ansi_code base_color)%string in
  let add_code := (ansi_code "reverse" ++ ansi_code base_color)%string in
  let chg_code := (ansi_code "underline" ++ ansi_code base_color)%string in
  let rst_code := (ansi_code "reset" ++ ansi_code base_color)%string in
  let line := Py.replace line (Py.NUL ++ "-") del_code in
  let line := Py.replace line (Py.NUL ++ "+") add_code in
  let line := Py.replace line (Py.NUL ++ "^") chg_code in
  Py.replace line Py.SOH rst_code.

(** The Diff [two_line_replacement] parses to. *)
Definition two_line_diff : Diff :=
  mkDiff [] (Py.ln "--- a") (Py.ln "+++ b")
    [mkHunk (Py.ln "@@ -1,2 +1,2 @@")
       [("-", Py.ln "a"); ("-", Py.ln "b"); ("+", Py.ln "c"); ("+", Py.ln "d")]].


(** ** Plain text *)

(** Text without the escape character and without NUL: what the aligner is
    expected to be fed. *)
Fixpoint plainb (s : string) : bool :=
  match s with
  | "" => true
  | String c rest =>
      negb (Ascii.eqb c "027") && negb (Ascii.eqb c "000") && plainb rest
  end.

Definition plain (s : string) : Prop := plainb s = true.

Definition plain_hunk (h : Hunk) : Prop :=
  plain (get_header h) /\ Forall (fun item => plain (snd item)) (_hunk_list h).

Definition plain_diff (d : Diff) : Prop :=
  Forall plain (_headers d) /\
  plain (_old_path d) /\
  plain (_new_path d) /\
  Forall plain_hunk (_hunks d).

(** The spans [sub_info] finds: in order, apart, inside [lo, hi), each with
    one of the three marker characters. *)
Fixpoint spans_ok (lo : nat) (infos : list (ascii * (nat * nat))) (hi : nat) : Prop :=
  match infos with
  | [] => True
  | (key, (begin, end_)) :: rest =>
      Py.mem key "-+^" = true /\ lo <= begin /\ begin < end_ /\ end_ <= hi /\
      spans_ok end_ rest hi
  end.

(** A delta whose [?] lines each follow a line at least as long as their
    tags. *)
Definition fits (prev line : string) : Prop :=
  exists tags, line = (tags ++ Py.LF)%string /\ String.length tags <= String.length prev.

Fixpoint delta_ok (prev : option string) (delta : list string) : Prop :=
  match delta with
  | [] => True
  | line :: rest =>
      plain line /\
      (Py.startswith line "?" = true ->
       match prev with
       | Some p => fits p line
       | None => False
       end) /\
      delta_ok (Some line) rest
  end.

(** Rows and half rows whose texts are well marked. *)
Definition side_ok (side : option Difflib.mline) : Prop :=
  match side with
  | Some l => well_marked (snd l) = true
  | None => True
  end.

Definition half_row_ok (row : Difflib.half_row) : Prop :=
  side_ok (fst (fst row)) /\ side_ok (snd (fst row)).

(** The same of an answer that may be missing. *)
Definition answer_ok (delta : option (list string)) : Prop :=
  match delta with
  | Some d => delta_ok None d
  | None => True
  end.

Definition rows_ok (rows : option (list Difflib.half_row)) : Prop :=
  match rows with
  | Some r => Forall half_row_ok r
  | None => True
  end.

(** The locals hold plain text only. *)
Record plain_state (st : locals) : Prop := mkPlainState {
  ps_stream : Forall plain (stream st);
  ps_out : Forall plain_diff (out_diffs st);
  ps_headers : Forall plain (headers st);
  ps_old : forall o, old_path st = Some o -> plain o;
  ps_new : forall n, new_path st = Some n -> plain n;
  ps_hunks : Forall plain_hunk (hunks st);
  ps_hunk : forall h, hunk st = Some h -> plain_hunk h
}.

(** The traditional rendering of a Diff without its escape sequences. *)
Definition plain_rendering (d : Diff) : list string :=
  _headers d ++ [_old_path d; _new_path d] ++
  flat_map (fun h => get_header h :: flat_map plain_row (mdiff h)) (_hunks d).

(** ** Measures for the matcher's queue loop *)

Definition inside (alo ahi : nat) (blk : Difflib.block) : Prop :=
  alo <= fst (fst blk) /\ fst (fst blk) + snd blk <= ahi.

Definition lengths_below (n : nat) (j2len : list (nat * nat)) : Prop :=
  forall p, In p j2len -> snd p <= n.

Definition rows_of (r : nat * nat * nat * nat) : nat :=
  let '(alo, ahi, _, _) := r in ahi - alo.

Definition ordered (r : nat * nat * nat * nat) : Prop :=
  let '(alo, ahi, _, _) := r in alo <= ahi.

Fixpoint weight (queue : list (nat * nat * nat * nat)) : nat :=
  match queue with
  | [] => 0
  | r :: queue' => 2 * rows_of r + 1 + weight queue'
  end.

(** ** What the aligner's loops rely on *)

(** The pairs the search of [_fancy_replace] has bound lie in the ranges
    searched, and the best ratio has moved only with a pair. *)
Definition in_ranges (alo ahi blo bhi : nat) (ij : option (nat * nat)) : Prop :=
  match ij with
  | Some (i, j) => alo <= i < ahi /\ blo <= j < bhi
  | None => True
  end.

Record search_inside (alo ahi blo bhi : nat) (st : Difflib.search) : Prop :=
  mkSearchInside {
  si_eq : in_ranges alo ahi blo bhi (Difflib.eq_ij st);
  si_best : in_ranges alo ahi blo bhi (Difflib.best_ij st);
  si_ratio : Difflib.best_ij st = None ->
             Difflib.best_ratio st = Difflib.initial_best_ratio
}.

(** The deltas [_line_iterator] is written for: lines of context, deleted
    and added lines, and the groups of [_qformat], in which alone a [?] line
    occurs, its tags after a blank. *)
Inductive shaped : list string -> Prop :=
| shaped_end : shaped []
| shaped_line c t rest :
    Py.mem c " -+" = true -> shaped rest -> shaped (String c t :: rest)
| shaped_both ta qa tb qb rest :
    shaped rest ->
    shaped (String "-" ta :: String "?" (String " " qa) ::
            String "+" tb :: String "?" (String " " qb) :: rest)
| shaped_old ta qa tb rest :
    shaped rest ->
    shaped (String "-" ta :: String "?" (String " " qa) :: String "+" tb :: rest)
| shaped_new ta tb qb rest :
    shaped rest ->
    shaped (String "-" ta :: String "+" tb :: String "?" (String " " qb) :: rest).

(** ** What the matcher returns *)

(** [a[i:i+k] == b[j:j+k]], both slices inside their lists. *)
Definition agree {A : Type} (a b : list A) (i j k : nat) : Prop :=
  forall d, d < k ->
  exists x, nth_error a (i + d) = Some x /\ nth_error b (j + d) = Some x.

(** A block of equal elements inside the rectangle searched. *)
Definition block_in {A : Type} (a b : list A) (alo ahi blo bhi : nat)
    (blk : Difflib.block) : Prop :=
  alo <= fst (fst blk) /\ fst (fst blk) + snd blk <= ahi /\
  blo <= snd (fst blk) /\ snd (fst blk) + snd blk <= bhi /\
  agree a b (fst (fst blk)) (snd (fst blk)) (snd blk).

(** [j2len] after the rows below [i]: each entry is the length of a run of
    equal elements that ends in row [i - 1] and column [j]. *)
Definition row_ok {A : Type} (a b : list A) (alo blo bhi i : nat)
    (j2len : list (nat * nat)) : Prop :=
  forall j k, In (j, k) j2len ->
  1 <= k /\ k <= i - alo /\ k <= S j - blo /\ j < bhi /\
  agree a b (i - k) (S j - k) k.

(** The queue loop of [get_matching_blocks] works on a chain that runs from
    one corner of the two sequences to the other: blocks found, and
    rectangles still to be searched between them. *)
Inductive entry : Type :=
| Found (blk : Difflib.block)
| Pending (rect : nat * nat * nat * nat).

Definition entry_lo (e : entry) : nat * nat :=
  match e with
  | Found (i, j, _) => (i, j)
  | Pending (alo, _, blo, _) => (alo, blo)
  end.

Definition entry_hi (e : entry) : nat * nat :=
  match e with
  | Found (i, j, k) => (i + k, j + k)
  | Pending (_, ahi, _, bhi) => (ahi, bhi)
  end.

Definition before (p q : nat * nat) : Prop :=
  fst p <= fst q /\ snd p <= snd q.

Fixpoint chain (lo : nat * nat) (l : list entry) (hi : nat * nat) : Prop :=
  match l with
  | [] => before lo hi
  | e :: l' =>
      before lo (entry_lo e) /\ before (entry_lo e) (entry_hi e) /\
      chain (entry_hi e) l' hi
  end.

Definition founds (l : list entry) : list Difflib.block :=
  flat_map (fun e => match e with Found blk => [blk] | Pending _ => [] end) l.

Definition pendings (l : list entry) : list (nat * nat * nat * nat) :=
  flat_map (fun e => match e with Found _ => [] | Pending r => [r] end) l.

(** A block of at least one pair of equal elements. *)
Definition block_good {A : Type} (a b : list A) (blk : Difflib.block) : Prop :=
  1 <= snd blk /\ agree a b (fst (fst blk)) (snd (fst blk)) (snd blk).

Definition entry_good {A : Type} (a b : list A) (e : entry) : Prop :=
  match e with
  | Found blk => block_good a b blk
  | Pending _ => True
  end.

(** Blocks in a chain from [lo] to [hi]. *)
Definition blocks_chain (lo : nat * nat) (blocks : list Difflib.block)
    (hi : nat * nat) : Prop :=
  chain lo (map Found blocks) hi.

Definition key_lt (x y : Difflib.block) : Prop := fst (fst x) < fst (fst y).
Definition key_le (x y : Difflib.block) : Prop := fst (fst x) <= fst (fst y).

(** Opcodes that tile both sequences from [(i, j)] to their ends. *)
Fixpoint tiles {A : Type} (a b : list A) (ops : list Difflib.opcode) (i j : nat)
    : Prop :=
  match ops with
  | [] => i = List.length a /\ j = List.length b
  | (t, i1, i2, j1, j2) :: ops' =>
      i1 = i /\ j1 = j /\ i2 <= List.length a /\ j2 <= List.length b /\
      match t with
      | Difflib.Replace => i1 < i2 /\ j1 < j2
      | Difflib.Delete => i1 < i2 /\ j1 = j2
      | Difflib.Insert => i1 = i2 /\ j1 < j2
      | Difflib.Equal => i1 <= i2 /\ j2 = j1 + (i2 - i1) /\ agree a b i1 j1 (i2 - i1)
      end /\
      tiles a b ops' i2 j2
  end.

(** ** What a delta holds *)

(** [x[lo:hi]] *)
Definition slice (x : list string) (lo hi : nat) : list string :=
  map (fun i => nth i x "") (seq lo (hi - lo)).

(** The old and the new text a delta is about: its lines without the two
    characters of their tag, the [?] lines left out. *)
Definition old_of (delta : list string) : list string :=
  map (Py.drop 2)
    (filter (fun l => Py.startswith l "-" || Py.startswith l " ") delta).

Definition new_of (delta : list string) : list string :=
  map (Py.drop 2)
    (filter (fun l => Py.startswith l "+" || Py.startswith l " ") delta).

(** The pair of identical lines the search has bound holds the same line
    twice. *)
Definition eq_pair_equal (a b : list string) (st : Difflib.search) : Prop :=
  forall i j, Difflib.eq_ij st = Some (i, j) -> nth i a "" = nth j b "".

(** A delta that holds the slices [a[alo:ahi]] and [b[blo:bhi]]. *)
Definition holds (delta : list string) (a : list string) (alo ahi : nat)
    (b : list string) (blo bhi : nat) : Prop :=
  old_of delta = slice a alo ahi /\ new_of delta = slice b blo bhi.

(** ** What the rows show *)

(** Text without escape, NUL and SOH characters: text that neither the
    marks of the aligner nor the color codes can be mistaken for. *)
Fixpoint ordinaryb (s : string) : bool :=
  match s with
  | "" => true
  | String c rest =>
      negb (Ascii.eqb c "027") && negb (Ascii.eqb c "000") &&
      negb (Ascii.eqb c "001") && ordinaryb rest
  end.

Definition ordinary (s : string) : Prop := ordinaryb s = true.

(** A line of text the renderer shows as it is: ordinary and not empty. *)
Definition showable (s : string) : Prop := ordinary s /\ s <> "".

(** The lines of a rendered hunk body that stand for the old text, and
    those that stand for the new text, without their first character. *)
Definition minus_side (body : list string) : list string :=
  map text_of (filter (fun l => negb (Py.startswith l "+")) body).

Definition plus_side (body : list string) : list string :=
  map text_of (filter (fun l => negb (Py.startswith l "-")) body).

(** [_line_pair_iterator] pairs the k-th from line with the k-th to line. *)
Fixpoint zip_rows (fromlines tolines : list (Difflib.mline * bool))
    : list Difflib.mrow :=
  match fromlines, tolines with
  | (f, fd) :: fs, (t, td) :: ts => (f, t, fd || td) :: zip_rows fs ts
  | _, _ => []
  end.

Definition froms (rows : list Difflib.half_row) : list (Difflib.mline * bool) :=
  flat_map (fun row : Difflib.half_row =>
              match fst (fst row) with
              | Some l => [(l, snd row)]
              | None => []
              end) rows.

Definition tos (rows : list Difflib.half_row) : list (Difflib.mline * bool) :=
  flat_map (fun row : Difflib.half_row =>
              match snd (fst row) with
              | Some l => [(l, snd row)]
              | None => []
              end) rows.

(** The lines waiting in the queues of [_line_pair_iterator]: deleted lines
    waiting for a partner, or added ones; [e] is the number before the line
    and its text. *)
Definition del_half (e : nat * string) : Difflib.mline * bool :=
  ((Difflib.LineNo (S (fst e)), (Py.NUL ++ "-" ++ snd e ++ Py.SOH)%string), true).

Definition add_half (e : nat * string) : Difflib.mline * bool :=
  ((Difflib.LineNo (S (fst e)), (Py.NUL ++ "+" ++ snd e ++ Py.SOH)%string), true).

Definition blank_half : Difflib.mline * bool := (Difflib.blank, true).

(** [num_blanks_pending] counts the added lines waiting, or below zero the
    deleted ones; never both. *)
Definition queues_ok (pending : Z) (dels adds : list (nat * string)) : Prop :=
  (dels = [] \/ adds = []) /\
  pending = (Z.of_nat (List.length adds) - Z.of_nat (List.length dels))%Z.

(** The next turn of [_line_iterator] does not yield both sides at once. *)
Definition one_side_next (lines : list string) : Prop :=
  Py.startswith (Difflib.lookahead lines) "-?+" = false /\
  Py.startswith (Difflib.lookahead lines) "-+?" = false /\
  Py.startswith (Difflib.lookahead lines) " " = false.

(** The text lines of a delta can be shown. *)
Definition text_ok (line : string) : Prop :=
  Py.startswith line "?" = false -> showable (Py.drop 2 line).

(** What a list of rows shows of the old text, and of the new. *)
Definition shown_old (rows : list Difflib.mrow) : list string :=
  minus_side (flat_map plain_row rows).

Definition shown_new (rows : list Difflib.mrow) : list string :=
  plus_side (flat_map plain_row rows).

(** The rows of deleted lines paired with blanks, and of blanks paired with
    added lines. *)
Definition del_row (e : nat * string) : Difflib.mrow :=
  (fst (del_half e), Difflib.blank, true).

Definition add_row (e : nat * string) : Difflib.mrow :=
  (Difflib.blank, fst (add_half e), true).

Definition shows (rows : list Difflib.mrow) (olds news : list string) : Prop :=
  shown_old rows = olds /\ shown_new rows = news.

Definition all_showable (l : list (nat * string)) : Prop :=
  Forall (fun e : nat * string => showable (snd e)) l.

(** ** The round trip *)

(** An input line the round trip keeps: without escape, NUL and SOH
    characters and, if it is a content line, with some text after its
    first character. *)
Definition kept_line (line : string) : Prop :=
  ordinary line /\ (is_content line = true -> text_of line <> "").

(** The rendered body of a hunk stands for the texts of the hunk: its lines
    that do not start with [+] are, after their first character, the old
    text, and those that do not start with [-] the new text. *)
Definition body_keeps_texts (h : Hunk) : Prop :=
  minus_side (flat_map plain_row (mdiff h)) = _get_old_text h /\
  plus_side (flat_map plain_row (mdiff h)) = _get_new_text h.

(** ** What the parser keeps of its input *)

(** A line that none of the tests of [Udiff] accepts: the empty line, and a
    line that starts with [@] without being a hunk header. *)
Definition unclassified (line : string) : bool :=
  match line with
  | "" => true
  | String c _ => Ascii.eqb c "@" && negb (is_hunk_header line)
  end.

(** The answers of the eight tests of [Udiff] on a line, in the order of
    the class. *)
Definition tests (line : string) : list bool :=
  [is_old_path line; is_new_path line; is_hunk_header line; is_old line;
   is_new line; is_common line; is_eof line; is_header line].

Definition not_eof (line : string) : bool := negb (is_eof line).

(** The hunk headers and the hunk lines of a Diff, hunk after hunk. *)
Definition hunk_headers_of (d : Diff) : list string :=
  map get_header (_hunks d).

Definition hunk_lines_of (d : Diff) : list (string * string) :=
  flat_map _hunk_list (_hunks d).

(** The hunks of the Diff in progress: those closed, then the open one. *)
Definition hunks_so_far (st : locals) : list Hunk :=
  hunks st ++ opt_list (hunk st).

(** The loop invariant that accounts for every line popped, class by class:
    what the emitted Diffs and the locals hold of a class, followed by the
    lines of the class still in the stream, are the lines of the class in
    the input [s]. *)
Record kept (s : list string) (st : locals) : Prop := mkKept {
  kept_headers :
    flat_map _headers (out_diffs st) ++ headers st ++
      filter is_header (stream st) = filter is_header s;
  kept_old :
    map _old_path (out_diffs st) ++ opt_list (old_path st) ++
      filter is_old_path (stream st) = filter is_old_path s;
  kept_new :
    map _new_path (out_diffs st) ++ opt_list (new_path st) ++
      filter is_new_path (stream st) = filter is_new_path s;
  kept_hunk_headers :
    flat_map hunk_headers_of (out_diffs st) ++ map get_header (hunks_so_far st) ++
      filter is_hunk_header (stream st) = filter is_hunk_header s;
  kept_lines :
    flat_map hunk_lines_of (out_diffs st) ++ flat_map _hunk_list (hunks_so_far st) ++
      map kind_and_text (filter is_content (stream st)) =
    map kind_and_text (filter is_content s);
  kept_idle :
    old_path st = None -> new_path st = None /\ hunks st = [] /\ hunk st = None;
  kept_old_path : forall o, old_path st = Some o -> is_old_path o = true;
  kept_new_path : forall n, new_path st = Some n -> is_new_path n = true;
  kept_open :
    hunk st = None ->
    hunks st = [] \/
    exists line rest, stream st = line :: rest /\ is_hunk_header line = true;
  kept_fresh :
    old_path st = None -> headers st = [] ->
    out_diffs st = [] \/
    exists line rest, stream st = line :: rest /\
                      is_header line || is_old_path line = true
}.

(** ** What a parsed Diff looks like *)

(** A hunk line as the parser stores it: one of the three kinds, and no
    text that would have made its line a path line. *)
Definition hunk_line_wf (item : string * string) : bool :=
  let '(attr, text) := item in
  (String.eqb attr "-" && negb (Py.startswith text "-- ")) ||
  (String.eqb attr "+" && negb (Py.startswith text "++ ")) ||
  String.eqb attr " ".

Definition hunk_wf (h : Hunk) : Prop :=
  is_hunk_header (get_header h) = true /\
  Forall (fun item => hunk_line_wf item = true) (_hunk_list h).

Definition diff_wf (d : Diff) : Prop :=
  Forall (fun line => is_header line = true) (_headers d) /\
  is_old_path (_old_path d) = true /\
  is_new_path (_new_path d) = true /\
  Forall hunk_wf (_hunks d).

(** ** One patch after another *)

(** The locals of a run that started with the Diffs [ds] already emitted
    and has the lines [more] after its own. *)
Definition resumed (st : locals) (ds : list Diff) (more : list string) : locals :=
  mkLocals (stream st ++ more) (ds ++ out_diffs st) (headers st)
    (old_path st) (new_path st) (hunks st) (hunk st).

(** A line that makes the parser emit the Diff [d] it is working on: an
    old-path line, or a header line when [d] has headers. *)
Definition starts_new_diff (d : Diff) (line : string) : bool :=
  is_old_path line || (is_header line && nonempty (_headers d)).

(** The locals with the backslash lines taken out of the stream. *)
Definition without_eof (st : locals) : locals :=
  mkLocals (filter not_eof (stream st)) (out_diffs st) (headers st)
    (old_path st) (new_path st) (hunks st) (hunk st).

(** Two patches of one file each, the first with a line without a final
    newline; the two in one patch; and the Diffs they parse to. *)
Definition file_f_patch : list string :=
  [Py.ln "diff --git a/f b/f"; Py.ln "--- a/f"; Py.ln "+++ b/f";
   Py.ln "@@ -1,2 +1,2 @@"; Py.ln " one"; Py.ln "-two"; Py.ln "+2";
   Py.ln "\ No newline at end of file"].

Definition file_g_patch : list string :=
  [Py.ln "diff --git a/g b/g"; Py.ln "--- a/g"; Py.ln "+++ b/g";
   Py.ln "@@ -0,0 +1 @@"; Py.ln "+new"].

Definition two_file_patch : list string := file_f_patch ++ file_g_patch.

Definition file_f_diff : Diff :=
  mkDiff [Py.ln "diff --git a/f b/f"] (Py.ln "--- a/f") (Py.ln "+++ b/f")
    [mkHunk (Py.ln "@@ -1,2 +1,2 @@")
       [(" ", Py.ln "one"); ("-", Py.ln "two"); ("+", Py.ln "2")]].

Definition file_g_diff : Diff :=
  mkDiff [Py.ln "diff --git a/g b/g"] (Py.ln "--- a/g") (Py.ln "+++ b/g")
    [mkHunk (Py.ln "@@ -0,0 +1 @@") [("+", Py.ln "new")]].

Definition two_file_diffs : list Diff := [file_f_diff; file_g_diff].

(** ** The patch text of Diffs *)

(** The lines a Diff was parsed from, if it was parsed from its own lines
    in their usual order: headers, the two paths, and hunk after hunk its
    header and its lines, each line its kind followed by its text. *)
Definition raw_line (item : string * string) : string :=
  (fst item ++ snd item)%string.

Definition hunk_text (h : Hunk) : list string :=
  get_header h :: map raw_line (_hunk_list h).

Definition diff_text (d : Diff) : list string :=
  _headers d ++ [_old_path d; _new_path d] ++ flat_map hunk_text (_hunks d).

Definition patch_text (diffs : list Diff) : list string :=
  flat_map diff_text diffs.

(** The first line of a Diff with headers makes the parser emit the Diff
    before it only if that one has headers too. *)
Definition may_follow (d d' : Diff) : bool :=
  negb (nonempty (_headers d')) || nonempty (_headers d).

Fixpoint chained (diffs : list Diff) : Prop :=
  match diffs with
  | d :: (d' :: _) as rest => may_follow d d' = true /\ chained rest
  | _ => True
  end.

(** [steps n st st']: [n] turns of the loop lead from [st] to [st']. *)
Definition steps (n : nat) (st st' : locals) : Prop :=
  forall fuel, while_stream (n + fuel) st = while_stream fuel st'.

(** ** Hunks that only add or only delete *)

(** What [_make_line] puts between the marks of a line that is added or
    deleted as a whole: its text, or a blank if the text is empty. *)
Definition whole_line (text : string) : string :=
  if String.eqb text "" then " " else text.

(** Texts with their numbers, the first one after [k]. *)
Fixpoint numbered (k : nat) (texts : list string) : list (nat * string) :=
  match texts with
  | [] => []
  | t :: rest => (k, t) :: numbered (S k) rest
  end.

(** One row for each added line, its left side blank; and one row for each
    deleted line, its right side blank. *)
Definition insertion_rows (texts : list string) : list Difflib.mrow :=
  map add_row (numbered 0 (map whole_line texts)).

Definition deletion_rows (texts : list string) : list Difflib.mrow :=
  map del_row (numbered 0 (map whole_line texts)).

Definition only_kind (kind : string) (h : Hunk) : Prop :=
  Forall (fun item : string * string => fst item = kind) (_hunk_list h).

(** A hunk that adds three lines, the second one empty. *)
Definition new_file_hunk : Hunk :=
  mkHunk (Py.ln "@@ -0,0 +1,3 @@")
    [("+", Py.ln "a"); ("+", ""); ("+", Py.ln "++i;")].

Definition old_file_hunk : Hunk :=
  mkHunk (Py.ln "@@ -1,3 +0,0 @@")
    [("-", Py.ln "a"); ("-", ""); ("-", Py.ln "--i;")].

(** ** Escape sequences next to other text *)

(** Text that cannot complete an escape sequence begun before it: empty,
    or with a first character that is no digit and none of [m], [;]
    and the bracket. *)
Definition inert (u : string) : bool :=
  match u with
  | "" => true
  | String c _ =>
      negb (is_digit c || Ascii.eqb c "m" || Ascii.eqb c ";" || Ascii.eqb c "[")
  end.

(** ** Signs at the start of a text *)

(** The hunk with the header [hdr] whose lines are the [texts], all of the
    kind [kind]. *)
Definition one_kind_hunk (hdr kind : string) (texts : list string) : Hunk :=
  mkHunk hdr (map (fun t => (kind, t)) texts).

(** The rows [markup_side_by_side] yields for a hunk. *)
Definition side_by_side_rows (h : Hunk) : list string :=
  map (side_by_side_row 80) (mdiff h).

(** ** What a side-by-side row shows *)

(** [s.ljust(width)]: [s] followed by blanks up to [width] characters. *)
Definition ljust (s : string) (width : nat) : string :=
  (s ++ Py.rep " " (width - String.length s))%string.

(** The two columns of a side-by-side row without their escape sequences:
    the texts without tabs, newlines and marks, filled with blanks to 80
    characters. *)
Definition shown_columns (row : Difflib.mrow) : string * string :=
  let '(old, new, changed) := row in
  let left := _normalize (snd old) in
  let right := _normalize (snd new) in
  if changed then
    if negb (Difflib.lineno_true (fst old)) then
      (Py.rep " " 80,
       ljust (Py.rstrip Py.SOH (Py.lstrip (Py.NUL ++ "+") right)) 80)
    else if negb (Difflib.lineno_true (fst new)) then
      (ljust (Py.rstrip Py.SOH (Py.lstrip (Py.NUL ++ "-") left)) 80, "")
    else
      (ljust (unmark left) 80, ljust (unmark right) 80)
  else
    (ljust left 80, ljust right 80).

Definition shown_row (row : Difflib.mrow) : string :=
  (fst (shown_columns row) ++ " | " ++ snd (shown_columns row) ++ Py.LF)%string.

(** The side-by-side rendering of a Diff without its escape sequences. *)
Definition side_by_side_shown (d : Diff) : list string :=
  _headers d ++ [_old_path d; _new_path d] ++
  flat_map (fun h => get_header h :: map shown_row (mdiff h)) (_hunks d).

(** ** Lines out of place *)

(** Lines that open no hunk and belong to none: headers, backslash lines
    and path lines; and those of them that are no new path. *)
Definition before_hunks (line : string) : bool :=
  is_header line || is_eof line || is_old_path line || is_new_path line.

Definition before_new_path (line : string) : bool :=
  is_header line || is_eof line || is_old_path line.
(** * Proofs *)

(** ** Line classification *)

Lemma startswith_cons s c p :
  Py.startswith s (String c p) = true ->
  exists t, s = String c t /\ Py.startswith t p = true.
Proof.
  destruct s as [| a s]; simpl; [discriminate | ].
  intros H. apply andb_true_iff in H. destruct H as (H1 & H2).
  apply Ascii.eqb_eq in H1. subst. eauto.
Qed.

Lemma new_path_line_class line :
  is_new_path line = true ->
  is_header line = false /\ is_old_path line = false.
Proof.
  intros H. apply startswith_cons in H. destruct H as (t & -> & _).
  split; reflexivity.
Qed.

Lemma old_path_line_class line :
  is_old_path line = true -> is_header line = false.
Proof.
  intros H. apply startswith_cons in H. destruct H as (t & -> & _).
  reflexivity.
Qed.

(** ** Termination of the parsing loop *)


Ltac break_body :=
  repeat match goal with
  | H : bind ?m _ = Ok _ |- _ =>
      let E := fresh "E" in destruct m eqn:E; simpl in H; [ | discriminate H]
  | H : assert_not_None ?v = Ok _ |- _ =>
      destruct v eqn:?; simpl in H; [ | discriminate H]
  | H : assert_None ?v = Ok _ |- _ =>
      destruct v eqn:?; simpl in H; [discriminate H | ]
  | H : Ok _ = Ok _ |- _ => injection H as H; subst
  | H : Raise _ = Ok _ |- _ => discriminate H
  | H : (if ?b then _ else _) = Ok _ |- _ => destruct b eqn:?
  | H : match ?v with Some _ => _ | None => _ end = Ok _ |- _ => destruct v eqn:?
  | H : match ?l with EmptyString => _ | String _ _ => _ end = Ok _ |- _ =>
      destruct l eqn:?
  end.

Lemma emit_and_reset_stream st old_p st' :
  emit_and_reset st old_p = Ok st' ->
  stream st' = stream st /\ old_path st' = None /\ hunk st' = None.
Proof.
  unfold emit_and_reset. intros H. break_body. simpl. auto.
Qed.

Lemma loop_body_progress st line rest st' :
  stream st = line :: rest ->
  loop_body st line rest = Ok st' ->
  stream st' = rest \/ (stream st' = line :: rest /\ settled st' line).
Proof.
  intros Hs H. unfold loop_body in H.
  destruct (is_header line) eqn:Hh.
  { destruct (old_path st) eqn:Ho.
    - destruct (nonempty (headers st) && truthy (Some s)) eqn:G.
      + apply emit_and_reset_stream in H. destruct H as (H1 & H2 & H3).
        right. rewrite H1, Hs. split; [reflexivity | left; auto].
      + injection H as <-. left. reflexivity.
    - injection H as <-. left. reflexivity. }
  destruct (is_old_path line) eqn:Hop.
  { destruct (old_path st) eqn:Ho.
    - destruct (truthy (Some s)) eqn:G.
      + apply emit_and_reset_stream in H. destruct H as (H1 & H2 & H3).
        right. rewrite H1, Hs. split; [reflexivity | right; left; auto].
      + injection H as <-. left. reflexivity.
    - injection H as <-. left. reflexivity. }
  destruct (is_new_path line) eqn:Hnp.
  { break_body. left. reflexivity. }
  destruct (is_hunk_header line) eqn:Hhh.
  { break_body; simpl.
    - right. split; [assumption | right; right; auto 6].
    - left. reflexivity. }
  break_body; left; reflexivity.
Qed.

Lemma settled_pops st line rest st' :
  settled st line ->
  loop_body st line rest = Ok st' ->
  stream st' = rest.
Proof.
  intros [(Hh & Ho) | [(Hh & Hop & Ho) | (Hh & Hop & Hnp & Hhh & Hk)]] H;
    unfold loop_body in H.
  - rewrite Hh, Ho in H. injection H as <-. reflexivity.
  - rewrite Hh, Hop, Ho in H. injection H as <-. reflexivity.
  - rewrite Hh, Hop, Hnp, Hhh in H. break_body; try discriminate. reflexivity.
Qed.

Lemma while_stream_total_aux fuel : forall st,
  2 * List.length (stream st) + 1 <= fuel \/
  (2 * List.length (stream st) <= fuel /\
   exists line rest, stream st = line :: rest /\ settled st line) ->
  exists r, while_stream fuel st = Some r.
Proof.
  induction fuel as [| fuel IH]; intros st Hf.
  - destruct Hf as [Hf | (Hf & line & rest & Hs & _)].
    + lia.
    + rewrite Hs in Hf. simpl in Hf. lia.
  - simpl. destruct (stream st) as [| line rest] eqn:Hs.
    + eexists. reflexivity.
    + destruct (loop_body st line rest) as [st' | e] eqn:Hb.
      2:{ eexists. reflexivity. }
      apply IH. destruct Hf as [Hf | (Hf & line' & rest' & Hs' & Hset)].
      * destruct (loop_body_progress _ _ _ _ Hs Hb) as [Hr | (Hr & Hset)].
        -- left. rewrite Hr. simpl in Hf. lia.
        -- right. split.
           ++ rewrite Hr. simpl in *. lia.
           ++ eauto.
      * injection Hs' as <- <-.
        left. rewrite (settled_pops _ _ _ _ Hset Hb). simpl in Hf. lia.
Qed.

Lemma while_stream_total s :
  exists r, while_stream (parse_fuel s) (initial s) = Some r.
Proof.
  apply while_stream_total_aux. left. unfold parse_fuel. simpl. lia.
Qed.

Lemma _parse_udiff_within_total s :
  _parse_udiff_within (parse_fuel s) s = Some (_parse_udiff s).
Proof.
  unfold _parse_udiff. destruct (while_stream_total s) as [r Hr].
  unfold _parse_udiff_within. rewrite Hr. destruct r; reflexivity.
Qed.

(** More fuel does not change a finished run. *)
Lemma while_stream_more fuel : forall st r k,
  while_stream fuel st = Some r -> while_stream (fuel + k) st = Some r.
Proof.
  induction fuel as [| fuel IH]; intros st r k H; simpl in *.
  - destruct (stream st) eqn:Hs; [ | discriminate].
    destruct k; simpl; rewrite Hs; assumption.
  - destruct (stream st) eqn:Hs; [assumption | ].
    destruct (loop_body st s l); [ | assumption].
    apply IH. assumption.
Qed.


(** A run that reaches [st] after [n] iterations continues as the run from
    [st]. *)
Lemma while_stream_iterate n : forall st st' fuel r,
  iterate n st = Ok st' ->
  while_stream fuel st = Some r ->
  exists fuel', while_stream fuel' st' = Some r.
Proof.
  induction n as [| n IH]; intros st st' fuel r Hi Hw; simpl in Hi.
  - injection Hi as <-. eauto.
  - destruct (iteration st) as [st1 | e] eqn:Hit; simpl in Hi; [ | discriminate].
    unfold iteration in Hit. destruct (stream st) as [| line rest] eqn:Hs.
    + injection Hit as <-. eapply IH; eauto.
    + destruct fuel as [| fuel]; simpl in Hw; rewrite Hs in Hw; [discriminate | ].
      rewrite Hit in Hw. eapply IH; eauto.
Qed.

(** ** What the parser can raise *)


Lemma emit_and_reset_raise st old_p e :
  emit_and_reset st old_p = Raise e -> e = AssertionError.
Proof.
  unfold emit_and_reset.
  destruct (new_path st); simpl; [ | congruence].
  destruct (hunk st); simpl; congruence.
Qed.

Lemma loop_body_raise st line rest e :
  loop_body st line rest = Raise e -> parse_error e.
Proof.
  unfold loop_body, parse_error. intros H.
  repeat match type of H with
  | (if ?b then _ else _) = _ => destruct b
  | match ?v with Some _ => _ | None => _ end = _ => destruct v eqn:?
  | bind (assert_not_None ?v) _ = _ => destruct v eqn:?; simpl in H
  | bind (assert_None ?v) _ = _ => destruct v eqn:?; simpl in H
  | match ?l with EmptyString => _ | String _ _ => _ end = _ => destruct l
  | emit_and_reset _ _ = Raise _ => apply emit_and_reset_raise in H
  end;
  try discriminate; try (injection H as <-); auto.
  right; right. exists (": " ++ line)%string. reflexivity.
Qed.

Lemma last_patch_raise st e :
  last_patch st = Raise e -> parse_error e.
Proof.
  unfold last_patch, parse_error. intros H.
  repeat match type of H with
  | (if ?b then _ else _) = _ => destruct b
  | match ?v with Some _ => _ | None => _ end = _ => destruct v eqn:?
  end;
  try discriminate; injection H as <-; right; right.
  1,2: exists (" after " ++ Py.DQUOTE ++ s ++ Py.DQUOTE)%string; reflexivity.
  all: exists (": " ++ Py.join Py.LF (headers st))%string; reflexivity.
Qed.

Lemma while_stream_raise fuel : forall st e,
  while_stream fuel st = Some (Raise e) -> parse_error e.
Proof.
  induction fuel as [| fuel IH]; intros st e H; simpl in H.
  - destruct (stream st); discriminate.
  - destruct (stream st) as [| line rest]; [discriminate | ].
    destruct (loop_body st line rest) eqn:Hb.
    + eapply IH; eassumption.
    + injection H as <-. eapply loop_body_raise; eassumption.
Qed.

Lemma _parse_udiff_raise s e :
  _parse_udiff s = Raise e -> parse_error e.
Proof.
  intros H. pose proof (_parse_udiff_within_total s) as T.
  rewrite H in T. unfold _parse_udiff_within in T.
  destruct (while_stream (parse_fuel s) (initial s)) as [[st | e'] | ] eqn:W;
    try discriminate.
  - injection T as T. eapply last_patch_raise; eassumption.
  - injection T as ->. eapply while_stream_raise; eassumption.
Qed.

Lemma DiffParser_sniffed s :
  sniff s = true ->
  (exists diffs, DiffParser s = Ok diffs) \/
  (exists e, DiffParser s = Raise e /\ MalformedPatch e).
Proof.
  intros Hs. unfold DiffParser. rewrite Hs.
  destruct (_parse_udiff s) as [diffs | e] eqn:Hp.
  - left. eauto.
  - right. apply _parse_udiff_raise in Hp.
    destruct Hp as [-> | [-> | (r & ->)]]; eexists; (split; [reflexivity | ]).
    + left. reflexivity.
    + left. reflexivity.
    + right. eauto.
Qed.

Lemma MalformedPatch_not_UnsupportedFormat e :
  MalformedPatch e -> ~ UnsupportedFormat e.
Proof.
  unfold MalformedPatch, UnsupportedFormat.
  intros [-> | (r & ->)] H; discriminate H.
Qed.

Lemma sniff_false_iff s :
  sniff s = false <->
  forall line, In line (firstn 10 s) -> Py.startswith line "+++ " = false.
Proof.
  unfold sniff. split.
  - intros H line Hin. destruct (Py.startswith line "+++ ") eqn:E; [ | reflexivity].
    assert (X : existsb (fun l => Py.startswith l "+++ ") (firstn 10 s) = true)
      by (apply existsb_exists; eauto).
    congruence.
  - intros H. destruct (existsb _ _) eqn:E; [ | reflexivity].
    apply existsb_exists in E. destruct E as (line & Hin & Hp).
    rewrite (H line Hin) in Hp. discriminate.
Qed.

(** ** The format sniff and the error kinds *)

(** C4: the parser raises the unsupported-format error exactly when none of
    the first ten lines starts with the new-path prefix; when one does, the
    parsing loop runs to its end and the outcome is either a list of Diffs or
    a malformed-patch error, never the unsupported-format one. *)
Theorem unsupported_format_iff_sniff_fails (s : list string) :
  (DiffParser s = Raise (RuntimeError "unknown diff type") <->
   forall line, In line (firstn 10 s) -> Py.startswith line "+++ " = false)
  /\
  ((exists line, In line (firstn 10 s) /\ Py.startswith line "+++ " = true) ->
   _parse_udiff_within (parse_fuel s) s = Some (_parse_udiff s) /\
   ((exists diffs, DiffParser s = Ok diffs) \/
    (exists e, DiffParser s = Raise e /\ MalformedPatch e /\
               ~ UnsupportedFormat e))).
Proof.
  split.
  - rewrite <- sniff_false_iff. split.
    + intros H. destruct (sniff s) eqn:Hs; [ | reflexivity].
      destruct (DiffParser_sniffed s Hs) as [(d & Hd) | (e & He & Hm)].
      * congruence.
      * rewrite He in H. injection H as ->.
        exfalso. eapply MalformedPatch_not_UnsupportedFormat; [eassumption | ].
        reflexivity.
    + intros Hs. unfold DiffParser. rewrite Hs. reflexivity.
  - intros (line & Hin & Hp).
    assert (Hs : sniff s = true).
    { unfold sniff. apply existsb_exists. eauto. }
    split; [apply _parse_udiff_within_total | ].
    destruct (DiffParser_sniffed s Hs) as [Hd | (e & He & Hm)]; [left; exact Hd | ].
    right. exists e. auto using MalformedPatch_not_UnsupportedFormat.
Qed.

(** ** New-path lines *)

Lemma iterate_raise_parse n : forall st e,
  iterate n st = Raise e -> parse_error e.
Proof.
  induction n as [| n IH]; intros st e H; simpl in H; [discriminate | ].
  destruct (iteration st) as [st' | e'] eqn:Hi; simpl in H.
  - eauto.
  - injection H as <-. unfold iteration in Hi.
    destruct (stream st); [discriminate | ].
    eapply loop_body_raise; eassumption.
Qed.

(** A turn that raises after [n] turns is what the whole parse raises. *)
Lemma _parse_udiff_iterate s n st line rest e :
  iterate n (initial s) = Ok st ->
  stream st = line :: rest ->
  loop_body st line rest = Raise e ->
  _parse_udiff s = Raise e.
Proof.
  intros Hi Hs Hb.
  pose proof (_parse_udiff_within_total s) as T.
  unfold _parse_udiff_within in T.
  destruct (while_stream (parse_fuel s) (initial s)) as [r | ] eqn:W;
    [ | discriminate].
  destruct (while_stream_iterate _ _ _ _ _ Hi W) as (fuel' & W').
  destruct fuel' as [| fuel']; simpl in W'; rewrite Hs in W'; [discriminate | ].
  rewrite Hb in W'. injection W' as <-. injection T as <-. reflexivity.
Qed.

(** C5: on an input that passes the sniff, a new-path line met while an old
    path is held and no new path is set is accepted (it becomes the new path
    and is popped); met in any other state it fails the whole parse with the
    malformed-patch error, so no Diff is returned.  The two-line input
    [+++ b], [@@ -1 +1 @@] fails that way. *)
Theorem new_path_needs_pending_old_path
    (s : list string) (n : nat) (st : locals) (line : string)
    (rest : list string) :
  sniff s = true ->
  iterate n (initial s) = Ok st ->
  stream st = line :: rest ->
  is_new_path line = true ->
  ((exists old_p, old_path st = Some old_p) /\ new_path st = None ->
   iteration st =
   Ok (mkLocals rest (out_diffs st) (headers st) (old_path st) (Some line)
         (hunks st) (hunk st)))
  /\
  (old_path st = None \/ (exists new_p, new_path st = Some new_p) ->
   DiffParser s = Raise (RuntimeError "invalid patch format") /\
   MalformedPatch (RuntimeError "invalid patch format"))
  /\
  DiffParser [Py.ln "+++ b"; Py.ln "@@ -1 +1 @@"] =
  Raise (RuntimeError "invalid patch format").
Proof.
  intros Hsn Hi Hs Hnp.
  destruct (new_path_line_class _ Hnp) as (Hh & Hop).
  split; [ | split].
  - intros ((old_p & Ho) & Hn). unfold iteration. rewrite Hs.
    unfold loop_body. rewrite Hh, Hop, Hnp, Ho, Hn. reflexivity.
  - intros Hbad.
    assert (Hb : loop_body st line rest = Raise AssertionError).
    { unfold loop_body. rewrite Hh, Hop, Hnp.
      destruct Hbad as [Ho | (new_p & Hn)].
      - rewrite Ho. reflexivity.
      - rewrite Hn. destruct (old_path st); reflexivity. }
    split; [ | left; reflexivity].
    unfold DiffParser. rewrite Hsn.
    rewrite (_parse_udiff_iterate _ _ _ _ _ _ Hi Hs Hb). reflexivity.
  - reflexivity.
Qed.

Lemma new_path_needs_pending_old_path_witness :
  DiffParser [Py.ln "+++ b"; Py.ln "@@ -1 +1 @@"] =
    Raise (RuntimeError "invalid patch format")
  /\
  DiffParser [Py.ln "--- a"; Py.ln "+++ b"; Py.ln "+++ c"] =
    Raise (RuntimeError "invalid patch format").
Proof.
  split.
  - refine (proj1 (proj1 (proj2 (new_path_needs_pending_old_path
             [Py.ln "+++ b"; Py.ln "@@ -1 +1 @@"] 0
             (initial [Py.ln "+++ b"; Py.ln "@@ -1 +1 @@"])
             (Py.ln "+++ b") [Py.ln "@@ -1 +1 @@"] _ _ _ _)) _));
      try reflexivity.
    left. reflexivity.
  - refine (proj1 (proj1 (proj2 (new_path_needs_pending_old_path
             [Py.ln "--- a"; Py.ln "+++ b"; Py.ln "+++ c"] 2
             (mkLocals [Py.ln "+++ c"] [] [] (Some (Py.ln "--- a"))
                (Some (Py.ln "+++ b")) [] None)
             (Py.ln "+++ c") [] _ _ _ _)) _));
      try reflexivity.
    right. eexists. reflexivity.
Defined.

(** ** Diffs finalized at end of input *)

(** C6: end of input.  A stream that holds only the two path lines parses
    to one Diff whose hunk list is empty, whereas the same Diff closed by the
    next file's old-path line is refused by [assert hunk is not None]. *)
Theorem paths_without_hunk_give_hunkless_diff :
  DiffParser [Py.ln "--- a"; Py.ln "+++ b"] =
    Ok [mkDiff [] (Py.ln "--- a") (Py.ln "+++ b") []]
  /\
  DiffParser [Py.ln "--- a"; Py.ln "+++ b"; Py.ln "--- c"; Py.ln "+++ d"] =
    Raise (RuntimeError "invalid patch format").
Proof.
  split; reflexivity.
Qed.

(** Only there: every Diff emitted before the end of the input has a hunk,
    so in the list a parse returns only the last Diff can be without one. *)
Lemma emit_has_hunk st old_p st' :
  Forall (fun d => _hunks d <> []) (out_diffs st) ->
  emit_and_reset st old_p = Ok st' ->
  Forall (fun d => _hunks d <> []) (out_diffs st').
Proof.
  intros F H. unfold emit_and_reset in H.
  destruct (new_path st) as [new_p | ]; simpl in H; [ | discriminate].
  destruct (hunk st) as [h | ]; simpl in H; [ | discriminate].
  injection H as <-. simpl. apply Forall_app. split; [exact F | ].
  constructor; [ | constructor]. simpl. intros E.
  apply app_eq_nil in E. destruct E as [_ E]. discriminate E.
Qed.

Lemma step_has_hunk st line rest st' :
  Forall (fun d => _hunks d <> []) (out_diffs st) ->
  loop_body st line rest = Ok st' ->
  Forall (fun d => _hunks d <> []) (out_diffs st').
Proof.
  intros F Hb. unfold loop_body in Hb.
  destruct (is_header line).
  { destruct (old_path st) as [old_p | ].
    - destruct (nonempty (headers st) && truthy (Some old_p)).
      + eapply emit_has_hunk; eassumption.
      + injection Hb as <-. exact F.
    - injection Hb as <-. exact F. }
  destruct (is_old_path line).
  { destruct (old_path st) as [old_p | ].
    - destruct (truthy (Some old_p)).
      + eapply emit_has_hunk; eassumption.
      + injection Hb as <-. exact F.
    - injection Hb as <-. exact F. }
  destruct (is_new_path line).
  { destruct (old_path st); simpl in Hb; [ | discriminate].
    destruct (new_path st); simpl in Hb; [discriminate | ].
    injection Hb as <-. exact F. }
  destruct (is_hunk_header line).
  { destruct (old_path st); simpl in Hb; [ | discriminate].
    destruct (new_path st); simpl in Hb; [ | discriminate].
    destruct (hunk st); injection Hb as <-; exact F. }
  destruct (is_old line || is_new line || is_common line).
  { destruct (old_path st); simpl in Hb; [ | discriminate].
    destruct (new_path st); simpl in Hb; [ | discriminate].
    destruct (hunk st); simpl in Hb; [ | discriminate].
    destruct line; [discriminate | ]. injection Hb as <-. exact F. }
  destruct (is_eof line); [ | discriminate].
  injection Hb as <-. exact F.
Qed.

Lemma while_has_hunk fuel : forall st st',
  Forall (fun d => _hunks d <> []) (out_diffs st) ->
  while_stream fuel st = Some (Ok st') ->
  Forall (fun d => _hunks d <> []) (out_diffs st').
Proof.
  induction fuel as [| fuel IH]; intros st st' F H; simpl in H.
  - destruct (stream st); [ | discriminate]. injection H as <-. exact F.
  - destruct (stream st) as [| line rest].
    + injection H as <-. exact F.
    + destruct (loop_body st line rest) as [st1 | e] eqn:Hb; [ | discriminate].
      eapply IH; [ | exact H]. eapply step_has_hunk; eassumption.
Qed.

Lemma removelast_In {A : Type} (l : list A) (x : A) :
  In x (removelast l) -> In x l.
Proof.
  induction l as [| y l IH]; [intros [] | ].
  destruct l as [| z l]; [intros [] | ].
  intros [-> | H]; [left; reflexivity | right; apply IH, H].
Qed.

(** X8: of the Diffs a successful parse returns, every one but the last
    has at least one hunk: the two branches that emit a Diff inside the
    loop assert an open hunk, the statements after the loop do not. *)
Lemma only_last_diff_can_lack_hunks (s : list string) (diffs : list Diff) :
  DiffParser s = Ok diffs ->
  Forall (fun d => _hunks d <> []) (removelast diffs).
Proof.
  intros H. unfold DiffParser in H.
  destruct (sniff s); [ | discriminate].
  destruct (_parse_udiff s) as [diffs' | e] eqn:Hp; [ | destruct e; discriminate].
  injection H as ->.
  pose proof (_parse_udiff_within_total s) as T. rewrite Hp in T.
  unfold _parse_udiff_within in T.
  destruct (while_stream (parse_fuel s) (initial s)) as [[st | e] | ] eqn:W;
    try discriminate.
  injection T as T.
  pose proof (while_has_hunk _ (initial s) st (Forall_nil _) W) as F.
  assert (R : forall l (d : Diff),
            Forall (fun d => _hunks d <> []) l ->
            Forall (fun d => _hunks d <> []) (removelast (l ++ [d]))).
  { intros l d Hl. rewrite removelast_last. exact Hl. }
  assert (R' : forall l : list Diff,
            Forall (fun d => _hunks d <> []) l ->
            Forall (fun d => _hunks d <> []) (removelast l)).
  { intros l Hl. apply Forall_forall. intros d Hd.
    rewrite Forall_forall in Hl. apply Hl, removelast_In, Hd. }
  unfold last_patch in T.
  destruct (old_path st) as [old_p | ].
  - destruct (truthy (Some old_p)).
    + destruct (new_path st) as [new_p | ]; [ | discriminate].
      destruct (truthy (Some new_p)); [ | discriminate].
      injection T as <-. apply R, F.
    + destruct (nonempty (headers st)); [discriminate | ].
      injection T as <-. apply R', F.
  - destruct (nonempty (headers st)); [discriminate | ].
    injection T as <-. apply R', F.
Qed.

(** ** Lines that start a new Diff *)

(** C7, as stated, fails: after [h], [--- a], [+++ b] the header line [h2]
    is met while an old path is held, and the turn raises instead of
    emitting a Diff. *)
Lemma header_after_paths_not_emitted : ~ new_diff_line_always_emits.
Proof.
  intros C.
  destruct (C [Py.ln "h"; Py.ln "--- a"; Py.ln "+++ b"; Py.ln "h2"] 3
              (mkLocals [Py.ln "h2"] [] [Py.ln "h"] (Some (Py.ln "--- a"))
                 (Some (Py.ln "+++ b")) [] None)
              (Py.ln "h2") [] eq_refl eq_refl eq_refl eq_refl
              (ex_intro _ (Py.ln "--- a") eq_refl)) as (d & Hd).
  discriminate Hd.
Qed.

(** A header line met while the Diff in progress has paths and an open hunk
    but no header of its own is not a new Diff either: it is appended to the
    headers of the Diff in progress. *)
Example header_joins_headerless_diff :
  DiffParser [Py.ln "--- a"; Py.ln "+++ b"; Py.ln "@@ -1 +1 @@"; Py.ln " x";
              Py.ln "h2"] =
  Ok [mkDiff [Py.ln "h2"] (Py.ln "--- a") (Py.ln "+++ b")
        [mkHunk (Py.ln "@@ -1 +1 @@") [(" ", Py.ln "x")]]].
Proof. reflexivity. Qed.

(** C7, amended: when a header line is met while headers and an old path are
    held, or an old-path line while an old path is held, and the Diff in
    progress also has its new path and an open hunk, the turn appends the
    open hunk to the hunk list, emits the Diff with that list and resets the
    locals without popping; the next turn pops the line as the first header,
    respectively the old path, of a new Diff.  Without a new path or an open
    hunk the turn raises the assertion error instead. *)
Theorem new_diff_line_emits_complete_diff
    (st : locals) (line : string) (rest : list string) (old_p : string) :
  stream st = line :: rest ->
  old_path st = Some old_p ->
  old_p <> "" ->
  (is_header line = true /\ headers st <> []) \/ is_old_path line = true ->
  (forall new_p h,
     new_path st = Some new_p -> hunk st = Some h ->
     let emitted := out_diffs st ++
                    [mkDiff (headers st) old_p new_p (hunks st ++ [h])] in
     iteration st = Ok (mkLocals (line :: rest) emitted [] None None [] None)
     /\
     iteration (mkLocals (line :: rest) emitted [] None None [] None) =
     Ok (if is_header line
         then mkLocals rest emitted [line] None None [] None
         else mkLocals rest emitted [] (Some line) None [] None))
  /\
  (new_path st = None \/ hunk st = None ->
   iteration st = Raise AssertionError).
Proof.
  intros Hs Ho Hne Hline.
  assert (Ht : truthy (Some old_p) = true).
  { simpl. destruct (String.eqb_spec old_p ""); [contradiction | reflexivity]. }
  assert (Hbody : loop_body st line rest = emit_and_reset st old_p).
  { unfold loop_body. destruct Hline as [(Hh & Hhs) | Hop].
    - rewrite Hh, Ho.
      destruct (headers st); [contradiction | ]. simpl nonempty.
      rewrite Ht. reflexivity.
    - rewrite (old_path_line_class _ Hop), Hop, Ho, Ht. reflexivity. }
  split.
  - intros new_p h Hn Hk emitted. split.
    + unfold iteration. rewrite Hs, Hbody. unfold emit_and_reset.
      rewrite Hn, Hk, Hs. reflexivity.
    + unfold iteration. simpl stream. unfold loop_body. simpl.
      destruct (is_header line) eqn:Hh; [reflexivity | ].
      destruct Hline as [(Hh' & _) | Hop]; [congruence | ].
      rewrite Hop. reflexivity.
  - intros Hbad. unfold iteration. rewrite Hs, Hbody. unfold emit_and_reset.
    destruct Hbad as [Hn | Hk].
    + rewrite Hn. reflexivity.
    + rewrite Hk. destruct (new_path st); reflexivity.
Qed.

Lemma new_diff_line_emits_complete_diff_witness :
  iteration
    (mkLocals [Py.ln "--- c"] [] [] (Some (Py.ln "--- a")) (Some (Py.ln "+++ b"))
       [] (Some (mkHunk (Py.ln "@@ -1 +1 @@") [("-", Py.ln "x")]))) =
  Ok (mkLocals [Py.ln "--- c"]
        [mkDiff [] (Py.ln "--- a") (Py.ln "+++ b")
           [mkHunk (Py.ln "@@ -1 +1 @@") [("-", Py.ln "x")]]]
        [] None None [] None).
Proof.
  refine (proj1 (proj1 (new_diff_line_emits_complete_diff
    (mkLocals [Py.ln "--- c"] [] [] (Some (Py.ln "--- a")) (Some (Py.ln "+++ b"))
       [] (Some (mkHunk (Py.ln "@@ -1 +1 @@") [("-", Py.ln "x")])))
    (Py.ln "--- c") [] (Py.ln "--- a") _ _ _ _) _ _ _ _)); try reflexivity.
  - discriminate.
  - right. reflexivity.
Defined.

(** ** Hunk texts against the raw patch lines *)

Lemma collect_unless_filter skip l : forall out,
  collect_unless skip l out =
  out ++ map snd (filter (fun p => negb (String.eqb (fst p) skip)) l).
Proof.
  induction l as [| [attr line] l IH]; intros out; simpl.
  - rewrite app_nil_r. reflexivity.
  - destruct (negb (String.eqb attr skip)); simpl; rewrite IH.
    + rewrite <- app_assoc. reflexivity.
    + reflexivity.
Qed.

Lemma content_line_kind l :
  is_content l = true ->
  snd (kind_and_text l) = text_of l /\
  negb (String.eqb (fst (kind_and_text l)) "+") = (is_old l || is_common l) /\
  negb (String.eqb (fst (kind_and_text l)) "-") = (is_new l || is_common l).
Proof.
  unfold is_content, is_old, is_new, is_common, is_old_path, is_new_path.
  destruct l as [| c t]; [discriminate | ]. simpl.
  destruct (Ascii.eqb c "-") eqn:E1; destruct (Ascii.eqb c "+") eqn:E2;
    destruct (Ascii.eqb c " ") eqn:E3; simpl;
    try (apply Ascii.eqb_eq in E1); try (apply Ascii.eqb_eq in E2);
    try (apply Ascii.eqb_eq in E3); try congruence; intros H;
    rewrite ?orb_false_r, ?andb_false_r in *; rewrite ?H; auto.
Qed.

Lemma non_content_line l :
  is_content l = false ->
  is_old l || is_common l = false /\ is_new l || is_common l = false.
Proof.
  unfold is_content. destruct (is_old l), (is_new l), (is_common l);
    simpl; auto; discriminate.
Qed.

Lemma hunk_list_texts items body :
  items = map kind_and_text (filter is_content body) ->
  collect_unless "+" items [] = pre_image body /\
  collect_unless "-" items [] = post_image body.
Proof.
  intros ->. rewrite !collect_unless_filter. simpl.
  unfold pre_image, post_image.
  induction body as [| l body (IH1 & IH2)]; simpl; [auto | ].
  destruct (is_content l) eqn:Hc.
  - destruct (content_line_kind _ Hc) as (Ht & Ho & Hn).
    simpl. rewrite Ho, Hn.
    destruct (is_old l || is_common l), (is_new l || is_common l);
      simpl; rewrite ?Ht, IH1, IH2; auto.
  - destruct (non_content_line _ Hc) as (-> & ->). auto.
Qed.

Lemma header_not_content l : is_header l = true -> is_content l = false.
Proof.
  unfold is_header, is_content, is_old, is_new, is_common.
  destruct l as [| c t]; [reflexivity | ]. simpl. intros H.
  destruct (Ascii.eqb c "+"), (Ascii.eqb c "-"), (Ascii.eqb c " ");
    simpl in *; try reflexivity; try discriminate;
    rewrite ?orb_true_r in H; discriminate.
Qed.

Lemma old_path_not_content l : is_old_path l = true -> is_content l = false.
Proof.
  intros H. unfold is_content, is_old. rewrite H.
  apply startswith_cons in H. destruct H as (t & -> & _).
  simpl. rewrite ?andb_false_r. reflexivity.
Qed.

Lemma new_path_not_content l : is_new_path l = true -> is_content l = false.
Proof.
  intros H. unfold is_content, is_new. rewrite H.
  apply startswith_cons in H. destruct H as (t & -> & _).
  simpl. rewrite ?andb_false_r. reflexivity.
Qed.

Lemma hunk_header_not_content l :
  is_hunk_header l = true -> is_content l = false.
Proof.
  intros H. apply startswith_cons in H. destruct H as (t & -> & _).
  reflexivity.
Qed.

Lemma pre_image_app a b : pre_image (a ++ b) = pre_image a ++ pre_image b.
Proof. unfold pre_image. rewrite filter_app, map_app. reflexivity. Qed.

Lemma post_image_app a b : post_image (a ++ b) = post_image a ++ post_image b.
Proof. unfold post_image. rewrite filter_app, map_app. reflexivity. Qed.

Lemma no_content_images raw :
  no_content raw -> pre_image raw = [] /\ post_image raw = [].
Proof.
  unfold pre_image, post_image.
  induction 1 as [| l raw Hl _ (IH1 & IH2)]; simpl; [auto | ].
  destruct (non_content_line _ Hl) as (-> & ->). auto.
Qed.

Lemma hunk_covers_texts h seg :
  hunk_covers h seg ->
  _get_old_text h = pre_image seg /\ _get_new_text h = post_image seg.
Proof.
  intros (body & -> & Hh & Hl).
  destruct (hunk_list_texts _ _ Hl) as (H1 & H2).
  pose proof (hunk_header_not_content _ Hh) as Hc.
  destruct (non_content_line _ Hc) as (Ho & Hn).
  unfold _get_old_text, _get_new_text, pre_image, post_image. simpl.
  rewrite Ho, Hn. auto.
Qed.

Lemma hunks_cover_texts hs : forall hsegs,
  Forall2 hunk_covers hs hsegs ->
  flat_map _get_old_text hs = pre_image (concat hsegs) /\
  flat_map _get_new_text hs = post_image (concat hsegs).
Proof.
  induction 1 as [| h seg hs hsegs Hc _ (IH1 & IH2)]; simpl; [auto | ].
  destruct (hunk_covers_texts _ _ Hc) as (H1 & H2).
  rewrite pre_image_app, post_image_app, H1, H2, IH1, IH2. auto.
Qed.

Lemma diff_covers_texts d seg :
  diff_covers d seg ->
  flat_map _get_old_text (_hunks d) = pre_image seg /\
  flat_map _get_new_text (_hunks d) = post_image seg.
Proof.
  intros (pre & hsegs & -> & Hp & _ & _ & Hh).
  destruct (no_content_images _ Hp) as (P1 & P2).
  destruct (hunks_cover_texts _ _ Hh) as (H1 & H2).
  rewrite pre_image_app, post_image_app, P1, P2, H1, H2. auto.
Qed.

(** ** The loop invariant *)

Lemma hunk_covers_skip h seg line :
  is_content line = false -> hunk_covers h seg -> hunk_covers h (seg ++ [line]).
Proof.
  intros Hc (body & -> & Hh & Hl). exists (body ++ [line]).
  repeat split; auto.
  rewrite filter_app. simpl. rewrite Hc, app_nil_r. exact Hl.
Qed.

Lemma hunk_covers_append h seg c text :
  is_content (String c text) = true ->
  hunk_covers h seg ->
  hunk_covers (Hunk_append h (String c "") text) (seg ++ [String c text]).
Proof.
  intros Hc (body & -> & Hh & Hl). exists (body ++ [String c text]).
  repeat split; auto. simpl.
  rewrite filter_app, map_app. simpl. rewrite Hc, Hl. reflexivity.
Qed.

Lemma add_to_last_concat hsegs line :
  hsegs <> [] -> concat (add_to_last hsegs line) = concat hsegs ++ [line].
Proof.
  induction hsegs as [| x r IH]; intros Hne; [contradiction | ].
  destruct r as [| y r].
  - simpl. rewrite !app_nil_r. reflexivity.
  - change (add_to_last (x :: y :: r) line) with (x :: add_to_last (y :: r) line).
    change (concat (x :: add_to_last (y :: r) line))
      with (x ++ concat (add_to_last (y :: r) line)).
    rewrite IH by discriminate. simpl. rewrite !app_assoc. reflexivity.
Qed.

Lemma add_to_last_covers line : forall hs hsegs,
  is_content line = false ->
  Forall2 hunk_covers hs hsegs ->
  Forall2 hunk_covers hs (add_to_last hsegs line).
Proof.
  intros hs hsegs Hc H. induction H as [| h x hs r Hx Hr IH]; [constructor | ].
  destruct r as [| y r].
  - inversion Hr; subst. simpl. constructor; [ | constructor].
    apply hunk_covers_skip; assumption.
  - change (add_to_last (x :: y :: r) line) with (x :: add_to_last (y :: r) line).
    constructor; assumption.
Qed.

Lemma covers_no_hunks s st segs pre hsegs :
  covers s st segs pre hsegs -> new_path st = None -> hsegs = [].
Proof.
  intros C Hn. destruct (cov_nohunk _ _ _ _ _ C Hn) as (H1 & H2).
  pose proof (cov_hunks _ _ _ _ _ C) as H. rewrite H1, H2 in H. simpl in H.
  inversion H. reflexivity.
Qed.

Lemma covers_skip s st segs pre hsegs line rest hdrs :
  covers s st segs pre hsegs ->
  stream st = line :: rest ->
  is_content line = false ->
  (old_path st = None -> hdrs = [] ->
   is_eof line = true /\ is_header line || is_old_path line = false /\
   headers st = []) ->
  covers s
    (mkLocals rest (out_diffs st) hdrs (old_path st) (new_path st) (hunks st)
       (hunk st))
    segs
    (match hsegs with [] => pre ++ [line] | _ :: _ => pre end)
    (add_to_last hsegs line).
Proof.
  intros C Hs Hc Hidle. destruct C as [Sp Out Pre Hk Old New NoH NoN Idle].
  apply mkCovers; simpl.
  - rewrite Sp, Hs. destruct hsegs as [| x r].
    + simpl. rewrite <- !app_assoc. reflexivity.
    + rewrite add_to_last_concat by discriminate.
      rewrite <- !app_assoc. reflexivity.
  - assumption.
  - destruct hsegs; [ | assumption].
    apply Forall_app. split; [assumption | ]. constructor; [assumption | constructor].
  - apply add_to_last_covers; assumption.
  - intros o Ho. destruct (Old o Ho) as (Hin & Hp). split; [ | assumption].
    destruct hsegs; [apply in_or_app; left | ]; assumption.
  - intros n Hn. destruct (New n Hn) as (Hin & Hp). split; [ | assumption].
    destruct hsegs; [apply in_or_app; left | ]; assumption.
  - assumption.
  - assumption.
  - intros Ho Hh. destruct (Hidle Ho Hh) as (He & Hcls & Hhs).
    destruct (Idle Ho Hhs) as [(O1 & O2 & O3) | (_ & l & r & Hl & Hcl)].
    + left. subst hsegs. simpl. repeat split; auto.
      apply Forall_app. split; [assumption | ]. constructor; [assumption | constructor].
    + rewrite Hs in Hl. injection Hl as <- <-. congruence.
Qed.

Lemma covers_emit s st segs pre hsegs line rest old_p st' :
  covers s st segs pre hsegs ->
  stream st = line :: rest ->
  is_header line || is_old_path line = true ->
  old_path st = Some old_p ->
  emit_and_reset st old_p = Ok st' ->
  covers s st' (segs ++ [pre ++ concat hsegs]) [] [].
Proof.
  intros C Hs Hcl Ho He. destruct C as [Sp Out Pre Hk Old New NoH NoN Idle].
  unfold emit_and_reset in He.
  destruct (new_path st) as [new_p | ] eqn:Hn; simpl in He; [ | discriminate].
  destruct (hunk st) as [h | ] eqn:Hh; simpl in He; [ | discriminate].
  injection He as <-.
  apply mkCovers; simpl.
  - rewrite Sp, concat_app. simpl. rewrite !app_nil_r, <- !app_assoc. reflexivity.
  - apply Forall2_app; [assumption | ]. constructor; [ | constructor].
    exists pre, hsegs. simpl. repeat split; auto.
    + apply (Old old_p Ho).
    + apply (New new_p eq_refl).
  - constructor.
  - constructor.
  - intros; discriminate.
  - intros; discriminate.
  - auto.
  - auto.
  - intros _ _. right. split; [reflexivity | ]. eauto.
Qed.

(** A path line joins the preamble: no hunk has been opened yet. *)
Lemma covers_path s st segs pre line rest old' new' :
  covers s st segs pre [] ->
  stream st = line :: rest ->
  is_content line = false ->
  new_path st = None ->
  (old' = Some line /\ is_old_path line = true /\ new' = None \/
   old' = old_path st /\ old' <> None /\ new' = Some line /\
   is_new_path line = true) ->
  covers s
    (mkLocals rest (out_diffs st) (headers st) old' new' (hunks st) (hunk st))
    segs (pre ++ [line]) [].
Proof.
  intros C Hs Hc Hn Hcase. destruct C as [Sp Out Pre Hk Old New NoH NoN Idle].
  destruct (NoH Hn) as (H1 & H2).
  apply mkCovers; simpl.
  - rewrite Sp, Hs. simpl. rewrite <- !app_assoc. reflexivity.
  - assumption.
  - apply Forall_app. split; [assumption | ]. constructor; [assumption | constructor].
  - assumption.
  - intros o Ho. destruct Hcase as [(-> & Hp & _) | (-> & _ & _ & _)].
    + injection Ho as <-. split; [ | assumption].
      apply in_or_app. right. left. reflexivity.
    + destruct (Old o Ho) as (Hin & Hp). split; [ | assumption].
      apply in_or_app. left. assumption.
  - intros n Hn'. destruct Hcase as [(_ & _ & ->) | (_ & _ & -> & Hp)];
      [discriminate | ].
    injection Hn' as <-. split; [ | assumption].
    apply in_or_app. right. left. reflexivity.
  - auto.
  - intros Ho. destruct Hcase as [(-> & _) | (-> & Hne & _)];
      [discriminate | contradiction].
  - intros Ho. destruct Hcase as [(-> & _) | (-> & Hne & _)];
      [discriminate | contradiction].
Qed.

Lemma covers_step s st segs pre hsegs line rest st' :
  covers s st segs pre hsegs ->
  stream st = line :: rest ->
  loop_body st line rest = Ok st' ->
  exists segs' pre' hsegs', covers s st' segs' pre' hsegs'.
Proof.
  intros C Hs Hb. unfold loop_body in Hb.
  destruct (is_header line) eqn:Hh.
  { pose proof (header_not_content _ Hh) as Hc.
    assert (Happ : covers s
              (mkLocals rest (out_diffs st) (headers st ++ [line]) (old_path st)
                 (new_path st) (hunks st) (hunk st))
              segs (match hsegs with [] => pre ++ [line] | _ :: _ => pre end)
              (add_to_last hsegs line)).
    { apply covers_skip; auto. intros _ E. destruct (headers st); discriminate E. }
    destruct (old_path st) as [old_p | ] eqn:Ho.
    - destruct (nonempty (headers st) && truthy (Some old_p)).
      + do 3 eexists. refine (covers_emit _ _ _ _ _ _ _ _ _ C Hs _ Ho Hb).
        rewrite Hh. reflexivity.
      + injection Hb as <-. eauto.
    - injection Hb as <-. eauto. }
  destruct (is_old_path line) eqn:Hop.
  { pose proof (old_path_not_content _ Hop) as Hc.
    destruct (old_path st) as [old_p | ] eqn:Ho.
    - destruct (truthy (Some old_p)) eqn:Ht.
      + do 3 eexists. refine (covers_emit _ _ _ _ _ _ _ _ _ C Hs _ Ho Hb).
        rewrite Hop, orb_true_r. reflexivity.
      + destruct (cov_old _ _ _ _ _ C _ Ho) as (_ & Hp).
        apply startswith_cons in Hp. destruct Hp as (t & -> & _). discriminate Ht.
    - injection Hb as <-.
      pose proof (cov_nonew _ _ _ _ _ C Ho) as Hn.
      pose proof (covers_no_hunks _ _ _ _ _ C Hn) as ->.
      do 3 eexists. eapply covers_path; eauto. }
  destruct (is_new_path line) eqn:Hnp.
  { pose proof (new_path_not_content _ Hnp) as Hc.
    destruct (old_path st) as [old_p | ] eqn:Ho; simpl in Hb; [ | discriminate].
    destruct (new_path st) as [new_p | ] eqn:Hn; simpl in Hb; [discriminate | ].
    injection Hb as <-.
    pose proof (covers_no_hunks _ _ _ _ _ C Hn) as ->.
    do 3 eexists. eapply covers_path; eauto.
    right. rewrite Ho. repeat split; auto. discriminate. }
  destruct (is_hunk_header line) eqn:Hhh.
  { destruct (old_path st) as [old_p | ] eqn:Ho; simpl in Hb; [ | discriminate].
    destruct (new_path st) as [new_p | ] eqn:Hn; simpl in Hb; [ | discriminate].
    destruct C as [Sp Out Pre Hk Old New NoH NoN Idle].
    rewrite Ho, Hn in *.
    destruct (hunk st) as [h | ] eqn:Hk'; injection Hb as <-.
    - exists segs, pre, hsegs.
      apply mkCovers; simpl; try (intros; discriminate); try assumption.
      simpl in Hk. rewrite app_nil_r. assumption.
    - exists segs, pre, (hsegs ++ [[line]]).
      apply mkCovers; simpl; try (intros; discriminate); try assumption.
      + rewrite Sp, Hs, concat_app. simpl. rewrite <- !app_assoc. reflexivity.
      + simpl in Hk. rewrite app_nil_r in Hk.
        apply Forall2_app; [assumption | ]. constructor; [ | constructor].
        exists []. repeat split; auto. }
  destruct (is_old line || is_new line || is_common line) eqn:Hc.
  { destruct (old_path st) as [old_p | ] eqn:Ho; simpl in Hb; [ | discriminate].
    destruct (new_path st) as [new_p | ] eqn:Hn; simpl in Hb; [ | discriminate].
    destruct (hunk st) as [h | ] eqn:Hk'; simpl in Hb; [ | discriminate].
    destruct line as [| c text]; [discriminate | ]. injection Hb as <-.
    destruct C as [Sp Out Pre Hk Old New NoH NoN Idle].
    rewrite Ho, Hn, Hk' in *.
    simpl in Hk. apply Forall2_app_inv_l in Hk.
    destruct Hk as (hs0 & last & Hk0 & Hlast & ->).
    inversion Hlast as [| ? oseg ? ? Hh' Hnil]; subst.
    inversion Hnil; subst.
    exists segs, pre, (hs0 ++ [oseg ++ [String c text]]).
    apply mkCovers; simpl; try (intros; discriminate); try assumption.
    - rewrite Hs, !concat_app. simpl. rewrite <- !app_assoc. reflexivity.
    - apply Forall2_app; [assumption | ]. constructor; [ | constructor].
      apply hunk_covers_append; assumption. }
  destruct (is_eof line) eqn:He; [ | discriminate].
  injection Hb as <-. do 3 eexists. apply covers_skip; eauto.
  intros _ E. rewrite Hh, Hop. auto.
Qed.

Lemma covers_initial s : covers s (initial s) [] [] [].
Proof.
  apply mkCovers; simpl; try (intros; discriminate); try constructor; auto.
Qed.

Lemma covers_while fuel : forall s st segs pre hsegs st',
  covers s st segs pre hsegs ->
  while_stream fuel st = Some (Ok st') ->
  stream st' = [] /\ exists segs' pre' hsegs', covers s st' segs' pre' hsegs'.
Proof.
  induction fuel as [| fuel IH]; intros s st segs pre hsegs st' C H; simpl in H.
  - destruct (stream st) eqn:Hs; [ | discriminate].
    injection H as <-. eauto 6.
  - destruct (stream st) as [| line rest] eqn:Hs.
    + injection H as <-. eauto 6.
    + destruct (loop_body st line rest) as [st1 | e] eqn:Hb; [ | discriminate].
      destruct (covers_step _ _ _ _ _ _ _ _ C Hs Hb) as (segs1 & pre1 & hsegs1 & C1).
      eapply IH; eassumption.
Qed.

(** ** Old and new text of the parsed Diffs *)

Lemma sniffed_line s :
  sniff s = true -> exists line, In line s /\ is_new_path line = true.
Proof.
  unfold sniff. intros H. apply existsb_exists in H.
  destruct H as (line & Hin & Hp). exists line. split; [ | exact Hp].
  rewrite <- (firstn_skipn 10 s). apply in_or_app. left. exact Hin.
Qed.

Lemma covers_last s st segs pre hsegs diffs :
  covers s st segs pre hsegs ->
  stream st = [] ->
  sniff s = true ->
  last_patch st = Ok diffs ->
  exists segs', concat segs' = s /\ Forall2 diff_covers diffs segs'.
Proof.
  intros C Hs Hsn Hl. destruct C as [Sp Out Pre Hk Old New NoH NoN Idle].
  rewrite Hs, app_nil_r in Sp.
  assert (Hall : (match hunk st with Some h => hunks st ++ [h] | None => hunks st end)
                 = hunks st ++ opt_list (hunk st)).
  { destruct (hunk st); simpl; [reflexivity | rewrite app_nil_r; reflexivity]. }
  assert (Hemit : forall old_p new_p,
            old_path st = Some old_p -> new_path st = Some new_p ->
            exists segs',
              concat segs' = s /\
              Forall2 diff_covers
                (out_diffs st ++
                 [mkDiff (headers st) old_p new_p
                    (match hunk st with
                     | Some h => hunks st ++ [h]
                     | None => hunks st
                     end)]) segs').
  { intros old_p new_p Ho Hn. exists (segs ++ [pre ++ concat hsegs]). split.
    - rewrite Sp, concat_app. simpl. rewrite app_nil_r. reflexivity.
    - apply Forall2_app; [assumption | ]. constructor; [ | constructor].
      exists pre, hsegs. simpl. rewrite Hall. repeat split; auto.
      + apply (Old _ Ho).
      + apply (New _ Hn). }
  assert (Hidle : old_path st = None -> nonempty (headers st) = false ->
                  diffs = out_diffs st ->
                  exists segs', concat segs' = s /\ Forall2 diff_covers diffs segs').
  { intros Ho Hh ->. exfalso.
    assert (Hh' : headers st = []) by (destruct (headers st); [reflexivity | discriminate]).
    destruct (Idle Ho Hh') as [(O1 & O2 & O3) | (_ & l & r & Hlr & _)];
      [ | rewrite Hs in Hlr; discriminate].
    rewrite O1 in Out. inversion Out; subst. simpl in *.
    destruct (sniffed_line _ Hsn) as (line & Hin & Hnp).
    rewrite app_nil_r in Hin.
    rewrite Forall_forall in O3. specialize (O3 line Hin).
    apply startswith_cons in Hnp. destruct Hnp as (t & -> & _). discriminate O3. }
  unfold last_patch in Hl.
  destruct (old_path st) as [old_p | ] eqn:Ho.
  - destruct (Old old_p eq_refl) as (_ & Hp).
    assert (Ht : truthy (Some old_p) = true).
    { apply startswith_cons in Hp. destruct Hp as (t & -> & _). reflexivity. }
    rewrite Ht in Hl.
    destruct (new_path st) as [new_p | ] eqn:Hn; [ | discriminate].
    destruct (truthy (Some new_p)); [ | discriminate].
    injection Hl as <-. apply Hemit; reflexivity.
  - destruct (nonempty (headers st)) eqn:Hh; [discriminate | ].
    injection Hl as <-. apply Hidle; reflexivity.
Qed.

Lemma hunk_covers_reconstructs h hseg :
  hunk_covers h hseg -> hunk_reconstructs h hseg.
Proof.
  intros H. destruct (hunk_covers_texts _ _ H) as (H1 & H2).
  unfold hunk_reconstructs. repeat split; auto.
  - unfold _get_old_text. rewrite collect_unless_filter. reflexivity.
  - unfold _get_new_text. rewrite collect_unless_filter. reflexivity.
Qed.

Lemma diff_covers_reconstructs d seg :
  diff_covers d seg -> diff_reconstructs d seg.
Proof.
  intros H. destruct (diff_covers_texts _ _ H) as (H1 & H2).
  destruct H as (pre & hsegs & E & Hp & Ho & Hn & Hh).
  exists pre, hsegs. repeat split; auto.
  eapply Forall2_impl; [ | exact Hh]. apply hunk_covers_reconstructs.
Qed.

Lemma DiffParser_covers (s : list string) (diffs : list Diff) :
  DiffParser s = Ok diffs ->
  exists segs, concat segs = s /\ Forall2 diff_covers diffs segs.
Proof.
  intros H. unfold DiffParser in H.
  destruct (sniff s) eqn:Hsn; [ | discriminate].
  destruct (_parse_udiff s) as [diffs' | e] eqn:Hp.
  2:{ destruct e; discriminate. }
  injection H as ->.
  pose proof (_parse_udiff_within_total s) as T. rewrite Hp in T.
  unfold _parse_udiff_within in T.
  destruct (while_stream (parse_fuel s) (initial s)) as [[st | e] | ] eqn:W;
    try discriminate.
  injection T as T.
  destruct (covers_while _ _ _ _ _ _ _ (covers_initial s) W)
    as (Hs & segs & pre & hsegs & C).
  exact (covers_last _ _ _ _ _ _ C Hs Hsn T).
Qed.

(** C2: a successful parse cuts the input into one segment per Diff, each a
    content-free preamble holding the Diff's path lines followed by one
    segment per Hunk that starts with the Hunk's header.  For every Hunk the
    lines of kind other than ['+'] are, in order, the pre-image of its
    segment and those of kind other than ['-'] its post-image; concatenated
    over the hunks of a Diff they are the pre-image and the post-image of the
    Diff's segment. *)
Theorem hunk_texts_reconstruct_patch (s : list string) (diffs : list Diff) :
  DiffParser s = Ok diffs ->
  exists segs,
    concat segs = s /\ Forall2 diff_reconstructs diffs segs.
Proof.
  intros H. destruct (DiffParser_covers _ _ H) as (segs & E & F).
  exists segs. split; [exact E | ].
  eapply Forall2_impl; [ | exact F]. apply diff_covers_reconstructs.
Qed.

Lemma hunk_texts_reconstruct_patch_witness :
  exists segs,
    concat segs =
      [Py.ln "--- a"; Py.ln "+++ b"; Py.ln "@@ -1,2 +1,2 @@"; Py.ln " k";
       Py.ln "-x"; Py.ln "+y"] /\
    Forall2 diff_reconstructs
      [mkDiff [] (Py.ln "--- a") (Py.ln "+++ b")
         [mkHunk (Py.ln "@@ -1,2 +1,2 @@")
            [(" ", Py.ln "k"); ("-", Py.ln "x"); ("+", Py.ln "y")]]]
      segs.
Proof.
  apply (hunk_texts_reconstruct_patch
           [Py.ln "--- a"; Py.ln "+++ b"; Py.ln "@@ -1,2 +1,2 @@"; Py.ln " k";
            Py.ln "-x"; Py.ln "+y"]).
  reflexivity.
Defined.

(** ** The width argument *)

(** C10: the width handed to [markup_side_by_side] (an integer or [None])
    does not reach the output, on a single Diff and through
    [DiffMarkup.markup]. *)
Theorem side_by_side_ignores_width :
  (forall (d : Diff) (show_number : bool) (w1 w2 : option Z),
     markup_side_by_side d show_number w1 = markup_side_by_side d show_number w2)
  /\
  (forall (diffs : list Diff) (show_number : bool) (w1 w2 : option Z),
     markup diffs true show_number w1 = markup diffs true show_number w2).
Proof.
  split; reflexivity.
Qed.

(** ** The worked example *)


(** ** Intraline marks *)


(** ** Escape sequences and column width *)

Lemma rep_length c n : String.length (Py.rep c n) = n.
Proof. induction n; simpl; congruence. Qed.

Lemma string_app_length (s t : string) :
  String.length (s ++ t) = String.length s + String.length t.
Proof. induction s; simpl; congruence. Qed.

Lemma string_app_nil_r (s : string) : (s ++ "")%string = s.
Proof. induction s; simpl; congruence. Qed.

Lemma string_app_assoc (s t u : string) :
  ((s ++ t) ++ u)%string = (s ++ t ++ u)%string.
Proof. induction s; simpl; congruence. Qed.

Lemma digits_m_blanks r k : digits_m (r ++ Py.rep " " k) = digits_m r.
Proof.
  destruct r as [| d1 [| d2 [| m r]]]; simpl.
  - destruct k as [| [| k]]; reflexivity.
  - destruct k as [| k]; simpl; [reflexivity | ].
    destruct (is_digit d1); reflexivity.
  - destruct k as [| k]; simpl; [reflexivity | ].
    destruct (is_digit d1), (is_digit d2); reflexivity.
  - reflexivity.
Qed.

Lemma optional_prefix_blanks rest k :
  (if Py.startswith (rest ++ Py.rep " " k) "1;"
   then digits_m (Py.drop 2 (rest ++ Py.rep " " k)) else None) =
  (if Py.startswith rest "1;" then digits_m (Py.drop 2 rest) else None).
Proof.
  destruct rest as [| c1 [| c2 rest]]; simpl.
  - destruct k as [| [| k]]; reflexivity.
  - destruct k as [| k]; simpl; rewrite ?andb_false_r; reflexivity.
  - rewrite digits_m_blanks. reflexivity.
Qed.

Lemma ansi_match_blanks s k : ansi_match (s ++ Py.rep " " k) = ansi_match s.
Proof.
  destruct s as [| e [| br rest]].
  - destruct k as [| [| k]]; reflexivity.
  - destruct k as [| k]; simpl; [reflexivity | ].
    rewrite andb_false_r. reflexivity.
  - change (String e (String br rest) ++ Py.rep " " k)%string
      with (String e (String br (rest ++ Py.rep " " k))).
    unfold ansi_match.
    rewrite optional_prefix_blanks, digits_m_blanks. reflexivity.
Qed.

Lemma digits_m_bound s n : digits_m s = Some n -> n <= String.length s.
Proof.
  destruct s as [| d1 [| d2 rest]]; simpl; try discriminate.
  destruct (is_digit d1); [ | discriminate].
  destruct (is_digit d2).
  - destruct rest as [| m rest]; [discriminate | ].
    destruct (Ascii.eqb m "m"); [ | discriminate].
    intros H. injection H as <-. simpl. lia.
  - destruct (Ascii.eqb d2 "m"); [ | discriminate].
    intros H. injection H as <-. lia.
Qed.

Lemma ansi_match_bound s n : ansi_match s = Some n -> n <= String.length s.
Proof.
  destruct s as [| e [| br rest]]; try (simpl; discriminate).
  unfold ansi_match.
  destruct (Ascii.eqb e "027" && Ascii.eqb br "["); [ | discriminate].
  cbn [String.length].
  destruct (Py.startswith rest "1;") eqn:Hp.
  - apply startswith_cons in Hp. destruct Hp as (t & -> & Hp).
    apply startswith_cons in Hp. destruct Hp as (u & -> & _).
    cbn [Py.drop String.length].
    destruct (digits_m u) as [m | ] eqn:Hu.
    + apply digits_m_bound in Hu. intros H. injection H as <-. lia.
    + simpl. discriminate.
  - destruct (digits_m rest) as [m | ] eqn:Hd; [ | discriminate].
    apply digits_m_bound in Hd. intros H. injection H as <-. lia.
Qed.

Lemma sub_ansi_only_blanks k : sub_ansi 0 (Py.rep " " k) = Py.rep " " k.
Proof.
  induction k as [| k IH]; [reflexivity | ].
  simpl Py.rep. unfold sub_ansi; fold sub_ansi.
  replace (ansi_match (String " " (Py.rep " " k))) with (@None nat).
  - rewrite IH. reflexivity.
  - destruct k; reflexivity.
Qed.

Lemma sub_ansi_blanks k s : forall skip,
  skip <= String.length s ->
  sub_ansi skip (s ++ Py.rep " " k) = (sub_ansi skip s ++ Py.rep " " k)%string.
Proof.
  induction s as [| c s IH]; intros skip Hs.
  - simpl in Hs. assert (skip = 0) as -> by lia. simpl. apply sub_ansi_only_blanks.
  - change (String c s ++ Py.rep " " k)%string with (String c (s ++ Py.rep " " k)).
    unfold sub_ansi; fold sub_ansi.
    destruct skip as [| skip].
    + change (String c (s ++ Py.rep " " k)) with (String c s ++ Py.rep " " k)%string.
      rewrite ansi_match_blanks.
      destruct (ansi_match (String c s)) as [[| n] | ] eqn:Hm.
      * simpl. rewrite IH by lia. reflexivity.
      * apply ansi_match_bound in Hm. simpl in Hm. apply IH. lia.
      * simpl. rewrite IH by lia. reflexivity.
    + apply IH. simpl in Hs. lia.
Qed.

Lemma visible_width_blanks s k :
  visible_width (s ++ Py.rep " " k) = visible_width s + k.
Proof.
  unfold visible_width, strip_ansi.
  rewrite sub_ansi_blanks by lia.
  rewrite string_app_length, rep_length. reflexivity.
Qed.

Lemma _fit_width_narrow markup width :
  visible_width markup < width ->
  _fit_width markup width =
    (markup ++ Py.rep " " (width - visible_width markup))%string /\
  visible_width (_fit_width markup width) = width.
Proof.
  intros H. unfold _fit_width. fold (visible_width markup).
  apply Nat.ltb_lt in H. rewrite H. apply Nat.ltb_lt in H.
  split; [reflexivity | ]. rewrite visible_width_blanks. lia.
Qed.

Lemma _fit_width_wide markup width :
  width <= visible_width markup -> _fit_width markup width = markup.
Proof.
  intros H. unfold _fit_width. fold (visible_width markup).
  apply Nat.ltb_ge in H. rewrite H. reflexivity.
Qed.

Lemma _fit_width_fitted markup : fitted_to_80 (_fit_width markup 80).
Proof.
  exists markup. unfold _fit_width. reflexivity.
Qed.

Lemma fitted_not_empty column : fitted_to_80 column -> column <> "".
Proof.
  intros (content & ->) H.
  destruct (visible_width content <? 80) eqn:Hw.
  - apply Nat.ltb_lt in Hw.
    assert (L : String.length
                  (content ++ Py.rep " " (80 - visible_width content)) = 0)
      by (rewrite H; reflexivity).
    rewrite string_app_length, rep_length in L. lia.
  - apply Nat.ltb_ge in Hw. subst content. vm_compute in Hw. lia.
Qed.

(** C8, as stated, fails: the row of a hunk that only deletes the line [x]
    has an empty right column, which no content fitted to 80 columns
    gives. *)
Lemma deletion_row_right_column_empty : ~ every_column_fitted.
Proof.
  intros C.
  pose (h := mkHunk (Py.ln "@@ -1 +0,0 @@") [("-", Py.ln "x")]).
  pose (row := ((Difflib.LineNo 1, (Py.NUL ++ "-" ++ Py.ln "x" ++ Py.SOH)%string),
                Difflib.blank, true) : Difflib.mrow).
  destruct (C (mkDiff [] (Py.ln "--- a") (Py.ln "+++ b") [h]) h row) as (_ & R).
  - left. reflexivity.
  - vm_compute. left. reflexivity.
  - apply fitted_not_empty in R. apply R. reflexivity.
Qed.

(** C8, amended: with the width fixed at 80, each column of a side-by-side
    row is the result of [_fit_width] on its markup, except the left column
    of an insertion-only row, which is 80 blanks, and the right column of a
    deletion-only row, which is empty.  [_fit_width] pads a markup whose
    visible width is under 80 with blanks to exactly 80 visible columns and
    returns any other markup as it is; the markup is always a prefix of the
    result. *)
Theorem side_by_side_columns_fit :
  (forall old new changed,
     let columns := side_by_side_columns 80 (old, new, changed) in
     let insertion_only := changed && negb (Difflib.lineno_true (fst old)) in
     let deletion_only :=
       changed && Difflib.lineno_true (fst old) &&
       negb (Difflib.lineno_true (fst new)) in
     (if insertion_only then fst columns = Py.rep " " 80
      else exists markup, fst columns = _fit_width markup 80) /\
     (if deletion_only then snd columns = ""
      else exists markup, snd columns = _fit_width markup 80))
  /\
  (forall markup,
     (visible_width markup < 80 ->
      _fit_width markup 80 =
        (markup ++ Py.rep " " (80 - visible_width markup))%string /\
      visible_width (_fit_width markup 80) = 80) /\
     (80 <= visible_width markup -> _fit_width markup 80 = markup) /\
     (exists pad, _fit_width markup 80 = (markup ++ Py.rep " " pad)%string)).
Proof.
  split.
  - intros old new changed. unfold side_by_side_columns.
    destruct changed; simpl.
    + destruct (Difflib.lineno_true (fst old)); simpl.
      * destruct (Difflib.lineno_true (fst new)); simpl; split; eauto.
      * split; eauto.
    + split; eauto.
  - intros markup. split; [apply _fit_width_narrow | ].
    split; [apply _fit_width_wide | ].
    unfold _fit_width. destruct (_ <? _).
    + eauto.
    + exists 0. simpl. rewrite string_app_nil_r. reflexivity.
Qed.

(** The markup of a one-sided row is not always the whole line: before the
    column is fitted, [lstrip] takes with the mark every [+] the text of an
    added line starts with, and every [-] of a deleted one. *)
Example added_line_loses_leading_plus :
  mdiff (mkHunk (Py.ln "@@ -0,0 +1 @@") [("+", Py.ln "++i;")]) =
    [(Difflib.blank,
      (Difflib.LineNo 1, (Py.NUL ++ "+" ++ Py.ln "++i;" ++ Py.SOH)%string), true)] /\
  snd (side_by_side_columns 80
         (Difflib.blank,
          (Difflib.LineNo 1, (Py.NUL ++ "+" ++ Py.ln "++i;" ++ Py.SOH)%string), true)) =
    _fit_width (_markup_new "i;") 80.
Proof. split; vm_compute; reflexivity. Qed.
(** ** The traditional rendering without its escape sequences *)

(** C1, as stated, fails: of the hunk [-a], [-b], [+c], [+d] the rendering
    shows [-a], [+c], [-b], [+d]. *)
Lemma replacement_block_is_interleaved : ~ traditional_round_trip.
Proof.
  intros C.
  specialize (C two_line_replacement
                [mkDiff [] (Py.ln "--- a") (Py.ln "+++ b")
                   [mkHunk (Py.ln "@@ -1,2 +1,2 @@")
                      [("-", Py.ln "a"); ("-", Py.ln "b");
                       ("+", Py.ln "c"); ("+", Py.ln "d")]]]
                eq_refl).
  vm_compute in C. discriminate C.
Qed.

Example replacement_block_rendering :
  match DiffMarkup two_line_replacement false false (Some 0%Z) with
  | Ok lines => map strip_ansi lines
  | Raise _ => []
  end =
  [Py.ln "--- a"; Py.ln "+++ b"; Py.ln "@@ -1,2 +1,2 @@";
   Py.ln "-a"; Py.ln "+c"; Py.ln "-b"; Py.ln "+d"].
Proof. vm_compute. reflexivity. Qed.

Lemma ansi_match_not_esc c s : Ascii.eqb c "027" = false -> ansi_match (String c s) = None.
Proof.
  intros H. destruct s as [| br rest]; simpl; [reflexivity | ].
  rewrite H. reflexivity.
Qed.

Lemma sub_ansi_cons c s :
  Ascii.eqb c "027" = false -> sub_ansi 0 (String c s) = String c (sub_ansi 0 s).
Proof.
  intros H. unfold sub_ansi; fold sub_ansi.
  rewrite (ansi_match_not_esc _ _ H). reflexivity.
Qed.

Lemma esc_free_cons c s :
  esc_free (String c s) <-> Ascii.eqb c "027" = false /\ esc_free s.
Proof.
  unfold esc_free. cbn [esc_freeb].
  destruct (Ascii.eqb c "027"); simpl; intuition congruence.
Qed.

Lemma sub_ansi_esc_free s t :
  esc_free s -> sub_ansi 0 (s ++ t) = (s ++ sub_ansi 0 t)%string.
Proof.
  induction s as [| c s IH]; intros H; [reflexivity | ].
  apply esc_free_cons in H. destruct H as (Hc & Hs).
  change (String c s ++ t)%string with (String c (s ++ t)).
  rewrite sub_ansi_cons by assumption. rewrite IH by assumption. reflexivity.
Qed.

Lemma strip_ansi_esc_free s : esc_free s -> strip_ansi s = s.
Proof.
  intros H. unfold strip_ansi.
  rewrite <- (string_app_nil_r s) at 1.
  rewrite sub_ansi_esc_free by assumption. simpl. apply string_app_nil_r.
Qed.

(** The codes the renderer uses are matched whole, whatever follows. *)
Lemma strip_ansi_colorize text start :
  In start ["cyan"; "yellow"; "lightblue"; "reset"; "lightred"; "lightgreen";
            "red"; "green"] ->
  esc_free text ->
  strip_ansi (colorize text start "reset") = text.
Proof.
  intros Hin Ht. unfold colorize, strip_ansi.
  assert (E : forall rest, sub_ansi 0 (ansi_code start ++ rest) = sub_ansi 0 rest).
  { intros rest. simpl in Hin.
    repeat (destruct Hin as [<- | Hin]; [reflexivity | ]). contradiction. }
  rewrite E. rewrite sub_ansi_esc_free by assumption.
  simpl. apply string_app_nil_r.
Qed.

Lemma replace_cons_other c s old_c old_rest new_ :
  Ascii.eqb c old_c = false ->
  Py.replace (String c s) (String old_c old_rest) new_ =
  String c (Py.replace s (String old_c old_rest) new_).
Proof.
  intros H. unfold Py.replace. cbn [Py.replace_from Py.startswith].
  rewrite H. reflexivity.
Qed.

Lemma mix_codes_cons c s base :
  Ascii.eqb c "000" = false -> Ascii.eqb c "001" = false ->
  mix_codes (String c s) base = String c (mix_codes s base).
Proof.
  intros H0 H1. unfold mix_codes, Py.SOH, Py.NUL.
  cbn [append].
  rewrite !replace_cons_other by assumption. reflexivity.
Qed.

Lemma _markup_mix_codes line base :
  _markup_mix line base = colorize (mix_codes line base) base "reset".
Proof. reflexivity. Qed.

Lemma mix_codes_unmark base (Hb : base = "red" \/ base = "green") n : forall t,
  String.length t <= n ->
  well_marked t = true ->
  sub_ansi 0 (mix_codes t base ++ ansi_code "reset") = unmark t.
Proof.
  induction n as [| n IH]; intros t Hlen Hw.
  - destruct t; [ | simpl in Hlen; lia]. destruct Hb as [-> | ->]; reflexivity.
  - destruct t as [| c r]; [destruct Hb as [-> | ->]; reflexivity | ].
    simpl in Hlen. cbn [well_marked] in Hw.
    destruct (Ascii.eqb c "027") eqn:He; [discriminate | ].
    destruct (Ascii.eqb_spec c "000") as [-> | Hn].
    + destruct r as [| key r']; [discriminate | ].
      apply andb_true_iff in Hw. destruct Hw as (Hk & Hw).
      simpl in Hlen.
      assert (IH' := IH r' ltac:(lia) Hw).
      cbn [Py.mem] in Hk. rewrite orb_false_r in Hk.
      apply orb_true_iff in Hk. destruct Hk as [Hk | Hk];
        [ | apply orb_true_iff in Hk; destruct Hk as [Hk | Hk]];
        apply Ascii.eqb_eq in Hk; subst key;
        destruct Hb as [-> | ->]; exact IH'.
    + destruct (Ascii.eqb_spec c "001") as [-> | Hs].
      * assert (IH' := IH r ltac:(lia) Hw).
        destruct Hb as [-> | ->]; exact IH'.
      * apply Ascii.eqb_neq in Hn. apply Ascii.eqb_neq in Hs.
        rewrite mix_codes_cons by assumption.
        change (String c (mix_codes r base) ++ ansi_code "reset")%string
          with (String c (mix_codes r base ++ ansi_code "reset")).
        rewrite sub_ansi_cons by assumption.
        cbn [unmark]. rewrite Hn, Hs. f_equal. apply IH; [lia | assumption].
Qed.

Lemma well_marked_esc_free n : forall t,
  String.length t <= n -> well_marked t = true -> esc_free t.
Proof.
  induction n as [| n IH]; intros t Hlen Hw.
  - destruct t; [reflexivity | simpl in Hlen; lia].
  - destruct t as [| c r]; [reflexivity | ].
    simpl in Hlen. cbn [well_marked] in Hw.
    apply esc_free_cons.
    destruct (Ascii.eqb c "027") eqn:He; [discriminate | ].
    split; [reflexivity | ].
    destruct (Ascii.eqb c "000").
    + destruct r as [| key r']; [discriminate | ].
      apply andb_true_iff in Hw. destruct Hw as (Hk & Hw).
      apply esc_free_cons. simpl in Hlen. split.
      * cbn [Py.mem] in Hk.
        destruct (Ascii.eqb_spec key "027") as [-> | ]; [discriminate | reflexivity].
      * apply IH; [lia | assumption].
    + apply IH; [lia | assumption].
Qed.

Lemma esc_free_lstrip chars s : esc_free s -> esc_free (Py.lstrip chars s).
Proof.
  induction s as [| c s IH]; intros H; [exact H | ].
  cbn [Py.lstrip]. destruct (Py.mem c chars); [ | exact H].
  apply IH. apply esc_free_cons in H. apply H.
Qed.

Lemma esc_free_rstrip chars s : esc_free s -> esc_free (Py.rstrip chars s).
Proof.
  induction s as [| c s IH]; intros H; [exact H | ].
  apply esc_free_cons in H. destruct H as (Hc & Hs).
  cbn [Py.rstrip]. specialize (IH Hs).
  destruct (Py.rstrip chars s) as [| c' r].
  - destruct (Py.mem c chars); [reflexivity | ].
    apply esc_free_cons. split; [assumption | reflexivity].
  - apply esc_free_cons. split; assumption.
Qed.

Lemma esc_free_strip chars s : esc_free s -> esc_free (Py.strip chars s).
Proof.
  intros H. unfold Py.strip. apply esc_free_rstrip, esc_free_lstrip, H.
Qed.

Lemma traditional_row_plain row :
  clean_row row -> map strip_ansi (traditional_row row) = plain_row row.
Proof.
  destruct row as [[[on ot] [nn nt]] changed].
  unfold clean_row, traditional_row, plain_row. cbn [fst snd].
  intros (Ho & Hn).
  pose proof (well_marked_esc_free _ _ (le_n _) Ho) as Eo.
  pose proof (well_marked_esc_free _ _ (le_n _) Hn) as En.
  destruct changed.
  - destruct (Difflib.lineno_true on); cbn [negb map].
    + destruct (Difflib.lineno_true nn); cbn [negb map].
      * f_equal; [ | f_equal].
        -- unfold _markup_old_mix. rewrite _markup_mix_codes.
           change (strip_ansi (_markup_old "-" ++ colorize (mix_codes ot "red") "red" "reset"))
             with (String "-" (sub_ansi 0 (mix_codes ot "red" ++ ansi_code "reset"))).
           rewrite (mix_codes_unmark "red" (or_introl eq_refl) _ _ (le_n _) Ho).
           reflexivity.
        -- unfold _markup_new_mix. rewrite _markup_mix_codes.
           change (strip_ansi (_markup_new "+" ++ colorize (mix_codes nt "green") "green" "reset"))
             with (String "+" (sub_ansi 0 (mix_codes nt "green" ++ ansi_code "reset"))).
           rewrite (mix_codes_unmark "green" (or_intror eq_refl) _ _ (le_n _) Hn).
           reflexivity.
      * f_equal. unfold _markup_old. apply strip_ansi_colorize.
        -- simpl. auto 10.
        -- apply esc_free_strip. assumption.
    + f_equal. unfold _markup_new. apply strip_ansi_colorize.
      * simpl. auto 10.
      * apply esc_free_strip. assumption.
  - cbn [map]. f_equal. unfold _markup_common. apply strip_ansi_colorize.
    + simpl. auto 10.
    + apply esc_free_cons. split; [reflexivity | assumption].
Qed.

Lemma map_flat_map {A B C : Type} (f : B -> C) (g : A -> list B) l :
  map f (flat_map g l) = flat_map (fun x => map f (g x)) l.
Proof.
  induction l as [| x l IH]; simpl; [reflexivity | ].
  rewrite map_app, IH. reflexivity.
Qed.

Lemma flat_map_ext_Forall {A B : Type} (P : A -> Prop) (f g : A -> list B) l :
  Forall P l -> (forall x, P x -> f x = g x) -> flat_map f l = flat_map g l.
Proof.
  induction 1 as [| x l Hx _ IH]; intros E; simpl; [reflexivity | ].
  rewrite (E x Hx), (IH E). reflexivity.
Qed.

Lemma markup_traditional_clean (d : Diff) :
  clean_diff d -> map strip_ansi (markup_traditional d) = plain_rendering d.
Proof.
  intros (Hh & Ho & Hn & Hk). unfold markup_traditional, plain_rendering.
  rewrite !map_app. f_equal; [ | f_equal].
  - induction Hh as [| x l Hx _ IH]; simpl; [reflexivity | ].
    rewrite IH. f_equal. apply strip_ansi_colorize; [simpl; auto 10 | assumption].
  - simpl. f_equal; [ | f_equal];
      apply strip_ansi_colorize; try assumption; simpl; auto 10.
  - rewrite map_flat_map.
    apply (flat_map_ext_Forall clean_hunk); [assumption | ].
    intros h (Hhd & Hrows). simpl. f_equal.
    + apply strip_ansi_colorize; [simpl; auto 10 | assumption].
    + rewrite map_flat_map.
      apply (flat_map_ext_Forall clean_row); [assumption | ].
      apply traditional_row_plain.
Qed.

(** ** One old line replaced by one new line *)







(** ** Plain text through the aligner *)

Lemma plain_cons c s :
  plain (String c s) <->
  Ascii.eqb c "027" = false /\ Ascii.eqb c "000" = false /\ plain s.
Proof.
  unfold plain. cbn [plainb].
  destruct (Ascii.eqb c "027"), (Ascii.eqb c "000"); simpl; intuition congruence.
Qed.

Lemma plain_app s t : plain (s ++ t) <-> plain s /\ plain t.
Proof.
  induction s as [| c s IH]; simpl.
  - unfold plain at 2. simpl. intuition.
  - rewrite !plain_cons, IH. intuition.
Qed.

Lemma plain_rep c n :
  Ascii.eqb c "027" = false -> Ascii.eqb c "000" = false -> plain (Py.rep c n).
Proof.
  intros H1 H2. induction n; simpl; [reflexivity | ].
  apply plain_cons. auto.
Qed.

Lemma plain_take n : forall s, plain s -> plain (Py.take n s).
Proof.
  induction n as [| n IH]; intros [| c s] H; simpl; try reflexivity.
  apply plain_cons in H. apply plain_cons. intuition.
Qed.

Lemma plain_drop n : forall s, plain s -> plain (Py.drop n s).
Proof.
  induction n as [| n IH]; intros [| c s] H; simpl; try assumption.
  apply plain_cons in H. apply IH. apply H.
Qed.

Lemma plain_rstrip chars s : plain s -> plain (Py.rstrip chars s).
Proof.
  induction s as [| c s IH]; intros H; [exact H | ].
  apply plain_cons in H. destruct H as (H1 & H2 & Hs).
  cbn [Py.rstrip]. specialize (IH Hs).
  destruct (Py.rstrip chars s) as [| c' r].
  - destruct (Py.mem c chars); [reflexivity | ].
    apply plain_cons. repeat split; assumption.
  - apply plain_cons. repeat split; assumption.
Qed.

Lemma plain_well_marked s : plain s -> well_marked s = true.
Proof.
  induction s as [| c s IH]; intros H; [reflexivity | ].
  apply plain_cons in H. destruct H as (H1 & H2 & Hs).
  cbn [well_marked]. rewrite H1, H2. auto.
Qed.

Lemma plain_esc_free s : plain s -> esc_free s.
Proof.
  induction s as [| c s IH]; intros H; [reflexivity | ].
  apply plain_cons in H. destruct H as (H1 & H2 & Hs).
  apply esc_free_cons. auto.
Qed.

Lemma plain_nth x i : Forall plain x -> plain (nth i x "").
Proof.
  intros H. revert i. induction H as [| y x Hy _ IH]; intros [| i]; simpl; auto;
    reflexivity.
Qed.

(** *** The delta of [compare] *)

Lemma take_length n : forall s, n <= String.length s -> String.length (Py.take n s) = n.
Proof.
  induction n as [| n IH]; intros [| c s] H; simpl in *; try lia.
  rewrite IH; lia.
Qed.

Lemma _keep_original_ws_plain s : forall tags,
  plain s -> plain tags -> plain (Difflib._keep_original_ws s tags).
Proof.
  induction s as [| c s IH]; intros [| t tags] Hs Ht; simpl; try reflexivity.
  apply plain_cons in Hs. apply plain_cons in Ht.
  apply plain_cons.
  destruct (Ascii.eqb t " " && Py.isspace c); intuition.
Qed.

Lemma _keep_original_ws_length s : forall tags,
  String.length (Difflib._keep_original_ws s tags) <= String.length s.
Proof.
  induction s as [| c s IH]; intros [| t tags]; simpl; try lia.
  specialize (IH tags). lia.
Qed.

Lemma rstrip_length chars s : String.length (Py.rstrip chars s) <= String.length s.
Proof.
  induction s as [| c s IH]; simpl; [lia | ].
  destruct (Py.rstrip chars s); [destruct (Py.mem c chars) | ]; simpl in *; lia.
Qed.

Lemma delta_ok_weaken delta : forall prev,
  delta_ok None delta -> delta_ok prev delta.
Proof.
  destruct delta as [| line rest]; intros prev H; [exact I | ].
  destruct H as (Hp & Hq & Hr). repeat split; auto.
  intros Hs. destruct (Hq Hs).
Qed.

Lemma delta_ok_app l1 l2 : forall prev,
  delta_ok prev l1 -> delta_ok None l2 -> delta_ok prev (l1 ++ l2).
Proof.
  induction l1 as [| line l1 IH]; intros prev H1 H2; simpl.
  - apply delta_ok_weaken. exact H2.
  - destruct H1 as (Hp & Hq & Hr). repeat split; auto.
Qed.

Lemma delta_ok_tagged tag text rest :
  (tag = "-"%char \/ tag = "+"%char \/ tag = " "%char) ->
  plain text ->
  delta_ok (Some (String tag (String " " text))) rest ->
  delta_ok None (String tag (String " " text) :: rest).
Proof.
  intros Ht Hp Hr. repeat split; [ | | exact Hr].
  - apply plain_cons.
    destruct Ht as [-> | [-> | ->]]; repeat split; try reflexivity;
      apply plain_cons; repeat split; try reflexivity; assumption.
  - destruct Ht as [-> | [-> | ->]]; discriminate.
Qed.

Lemma _dump_ok tag x lo hi :
  (tag = "-"%char \/ tag = "+"%char \/ tag = " "%char) ->
  Forall plain x ->
  delta_ok None (Difflib._dump (String tag "") x lo hi).
Proof.
  intros Ht Hx. unfold Difflib._dump.
  generalize (seq lo (hi - lo)) as rows.
  induction rows as [| i rows IH]; [exact I | ].
  cbn [map]. apply (delta_ok_tagged tag (nth i x "") _ Ht).
  - apply plain_nth. assumption.
  - apply delta_ok_weaken. exact IH.
Qed.

Lemma _plain_replace_ok a alo ahi b blo bhi :
  Forall plain a -> Forall plain b ->
  delta_ok None (Difflib._plain_replace a alo ahi b blo bhi).
Proof.
  intros Ha Hb. unfold Difflib._plain_replace.
  destruct (bhi - blo <? ahi - alo); apply delta_ok_app; apply _dump_ok; auto.
Qed.

Lemma tag_strings_plain ops : forall atags btags,
  plain atags -> plain btags ->
  plain (fst (Difflib.tag_strings ops atags btags)) /\
  plain (snd (Difflib.tag_strings ops atags btags)).
Proof.
  induction ops as [| [[[[t ai1] ai2] bj1] bj2] ops IH]; intros atags btags Ha Hb;
    [split; assumption | ].
  cbn [Difflib.tag_strings].
  destruct t; apply IH; try assumption;
    apply plain_app; split; try assumption; apply plain_rep; reflexivity.
Qed.

Lemma question_line_fits line tags :
  String.length tags <= String.length line ->
  fits (String "-" (String " " line)) ("? " ++ tags ++ Py.LF) /\
  fits (String "+" (String " " line)) ("? " ++ tags ++ Py.LF).
Proof.
  intros H. split; exists ("? " ++ tags)%string; simpl; split; try reflexivity; lia.
Qed.

Lemma _qformat_ok aline bline atags btags :
  plain aline -> plain bline -> plain atags -> plain btags ->
  delta_ok None (Difflib._qformat aline bline atags btags).
Proof.
  intros Ha Hb Hat Hbt. unfold Difflib._qformat.
  set (at' := Py.rstrip Py.whitespace (Difflib._keep_original_ws aline atags)).
  set (bt' := Py.rstrip Py.whitespace (Difflib._keep_original_ws bline btags)).
  assert (Pa : plain at') by (apply plain_rstrip, _keep_original_ws_plain; assumption).
  assert (Pb : plain bt') by (apply plain_rstrip, _keep_original_ws_plain; assumption).
  assert (La : String.length at' <= String.length aline).
  { unfold at'. etransitivity; [apply rstrip_length | apply _keep_original_ws_length]. }
  assert (Lb : String.length bt' <= String.length bline).
  { unfold bt'. etransitivity; [apply rstrip_length | apply _keep_original_ws_length]. }
  assert (Q : forall tag line tags rest,
            (tag = "-"%char \/ tag = "+"%char) ->
            plain tags -> String.length tags <= String.length line ->
            delta_ok None rest ->
            delta_ok (Some (String tag (String " " line)))
              ((if String.eqb tags "" then [] else ["? " ++ tags ++ Py.LF]%string)
               ++ rest)).
  { intros tag line tags rest Ht Hp Hl Hr.
    destruct (String.eqb tags ""); [apply delta_ok_weaken; exact Hr | ].
    cbn [app]. repeat split.
    - apply plain_cons. repeat split; try reflexivity.
      apply plain_cons. repeat split; try reflexivity.
      apply plain_app. split; [assumption | reflexivity].
    - intros _. destruct (question_line_fits line tags Hl) as (F1 & F2).
      destruct Ht as [-> | ->]; assumption.
    - apply delta_ok_weaken. exact Hr. }
  cbn [app]. apply (delta_ok_tagged "-" aline); auto.
  apply Q; auto.
  apply (delta_ok_tagged "+" bline); auto.
  rewrite <- (app_nil_r (if String.eqb bt' "" then [] else _)).
  apply Q; auto. exact I.
Qed.

Lemma _fancy_replace_within_ok fuel : forall a alo ahi b blo bhi,
  Forall plain a -> Forall plain b ->
  answer_ok (Difflib._fancy_replace_within fuel a alo ahi b blo bhi).
Proof.
  induction fuel as [| fuel IH]; intros a alo ahi b blo bhi Ha Hb; [exact I | ].
  assert (Hh : forall alo ahi blo bhi,
            answer_ok
              (if alo <? ahi
               then if blo <? bhi
                    then Difflib._fancy_replace_within fuel a alo ahi b blo bhi
                    else Some (Difflib._dump "-" a alo ahi)
               else if blo <? bhi then Some (Difflib._dump "+" b blo bhi)
                    else Some [])).
  { intros alo' ahi' blo' bhi'.
    destruct (alo' <? ahi'), (blo' <? bhi'); simpl; auto using _dump_ok. }
  assert (Hs : forall best_i best_j (identical : bool),
            delta_ok None
              ((if identical then ["  " ++ nth best_i a ""]%string
                else
                  let '(atags, btags) :=
                    Difflib.tag_strings
                      (Difflib.get_opcodes Ascii.eqb Difflib.IS_CHARACTER_JUNK
                         (Difflib.chars (nth best_i a ""))
                         (Difflib.chars (nth best_j b ""))) "" "" in
                  Difflib._qformat (nth best_i a "") (nth best_j b "") atags btags))).
  { intros best_i best_j [|].
    - apply (delta_ok_tagged " " (nth best_i a "") []); auto using plain_nth.
      exact I.
    - destruct (Difflib.tag_strings _ "" "") as [atags btags] eqn:E.
      pose proof (tag_strings_plain
                    (Difflib.get_opcodes Ascii.eqb Difflib.IS_CHARACTER_JUNK
                       (Difflib.chars (nth best_i a ""))
                       (Difflib.chars (nth best_j b ""))) "" ""
                    eq_refl eq_refl) as (P1 & P2).
      rewrite E in P1, P2. apply _qformat_ok; auto using plain_nth. }
  assert (Hy : forall best_i best_j (identical : bool) before after,
            answer_ok before -> answer_ok after ->
            answer_ok
              match before, after with
              | Some before, Some after =>
                  Some (before ++
                        (if identical then ["  " ++ nth best_i a ""]%string
                         else
                           let '(atags, btags) :=
                             Difflib.tag_strings
                               (Difflib.get_opcodes Ascii.eqb Difflib.IS_CHARACTER_JUNK
                                  (Difflib.chars (nth best_i a ""))
                                  (Difflib.chars (nth best_j b ""))) "" "" in
                           Difflib._qformat (nth best_i a "") (nth best_j b "")
                             atags btags) ++
                        after)
              | _, _ => None
              end).
  { intros best_i best_j identical [before | ] [after | ] H1 H2; try exact I.
    simpl in H1, H2. simpl.
    apply delta_ok_app; [exact H1 | ].
    apply delta_ok_app; [apply (Hs best_i best_j identical) | exact H2]. }
  cbn [Difflib._fancy_replace_within].
  destruct (Difflib.ratio_lt _ _).
  - destruct (Difflib.eq_ij _) as [[eqi eqj] | ].
    + exact (Hy eqi eqj true _ _ (Hh alo eqi blo eqj) (Hh (eqi + 1) ahi (eqj + 1) bhi)).
    + apply _plain_replace_ok; assumption.
  - destruct (Difflib.best_ij _) as [[best_i best_j] | ]; [ | exact I].
    exact (Hy best_i best_j false _ _
             (Hh alo best_i blo best_j) (Hh (best_i + 1) ahi (best_j + 1) bhi)).
Qed.

Lemma _fancy_replace_ok a alo ahi b blo bhi :
  Forall plain a -> Forall plain b ->
  delta_ok None (Difflib._fancy_replace a alo ahi b blo bhi).
Proof.
  intros Ha Hb. unfold Difflib._fancy_replace.
  pose proof (_fancy_replace_within_ok ((ahi - alo) + (bhi - blo))
                a alo ahi b blo bhi Ha Hb) as H.
  destruct (Difflib._fancy_replace_within _ a alo ahi b blo bhi); [exact H | exact I].
Qed.

Lemma compare_ok a b :
  Forall plain a -> Forall plain b -> delta_ok None (Difflib.compare a b).
Proof.
  intros Ha Hb. unfold Difflib.compare.
  generalize (Difflib.get_opcodes String.eqb Difflib.no_junk a b) as ops.
  induction ops as [| [[[[t alo] ahi] blo] bhi] ops IH]; [exact I | ].
  cbn [flat_map]. apply delta_ok_app; [ | exact IH].
  destruct t; auto using _fancy_replace_ok, _dump_ok.
Qed.

(** *** Marks inserted by [_make_line] *)

Lemma take_drop n : forall s, (Py.take n s ++ Py.drop n s)%string = s.
Proof.
  induction n as [| n IH]; intros [| c s]; simpl; try reflexivity.
  rewrite IH. reflexivity.
Qed.

Lemma take_take n : forall m s, n <= m -> Py.take n (Py.take m s) = Py.take n s.
Proof.
  induction n as [| n IH]; intros [| m] [| c s] H; simpl; try reflexivity; try lia.
  rewrite IH by lia. reflexivity.
Qed.

Lemma take_app n : forall p s,
  n <= String.length p -> Py.take n (p ++ s) = Py.take n p.
Proof.
  induction n as [| n IH]; intros p s H; [reflexivity | ].
  destruct p as [| c p]; simpl in *; [lia | ].
  rewrite IH by lia. reflexivity.
Qed.

Lemma take_all n : forall s, String.length s <= n -> Py.take n s = s.
Proof.
  induction n as [| n IH]; intros [| c s] H; simpl in *; try reflexivity; try lia.
  rewrite IH by lia. reflexivity.
Qed.

Lemma take_drop_swap b : forall e s,
  b <= e -> Py.take (e - b) (Py.drop b s) = Py.drop b (Py.take e s).
Proof.
  induction b as [| b IH]; intros e s H.
  - rewrite Nat.sub_0_r. destruct s; destruct e; reflexivity.
  - destruct e as [| e]; [lia | ]. destruct s as [| c s].
    + simpl. destruct (e - b); reflexivity.
    + simpl. apply IH. lia.
Qed.

Lemma marker_key_plain key :
  Py.mem key "-+^" = true ->
  Ascii.eqb key "027" = false /\ Ascii.eqb key "000" = false.
Proof.
  cbn [Py.mem]. intros H.
  destruct (Ascii.eqb key "-") eqn:E1;
    [apply Ascii.eqb_eq in E1; subst; split; reflexivity | ].
  destruct (Ascii.eqb key "+") eqn:E2;
    [apply Ascii.eqb_eq in E2; subst; split; reflexivity | ].
  destruct (Ascii.eqb key "^") eqn:E3;
    [apply Ascii.eqb_eq in E3; subst; split; reflexivity | ].
  discriminate.
Qed.

Lemma well_marked_plain_app p s :
  plain p -> well_marked (p ++ s) = well_marked s.
Proof.
  induction p as [| c p IH]; intros H; [reflexivity | ].
  apply plain_cons in H. destruct H as (H1 & H2 & Hp).
  cbn [append well_marked]. rewrite H1, H2. auto.
Qed.

Lemma well_marked_tail c s :
  well_marked (String c s) = true -> well_marked s = true.
Proof.
  cbn [well_marked]. destruct (Ascii.eqb c "027"); [discriminate | ].
  destruct (Ascii.eqb c "000"); [ | auto].
  destruct s as [| key r]; [discriminate | ].
  intros H. apply andb_true_iff in H. destruct H as (Hk & Hr).
  destruct (marker_key_plain _ Hk) as (K1 & K2).
  cbn [well_marked]. rewrite K1, K2. exact Hr.
Qed.

Lemma well_marked_drop n : forall s,
  well_marked s = true -> well_marked (Py.drop n s) = true.
Proof.
  induction n as [| n IH]; intros [| c s] H; simpl; try assumption.
  apply IH. eapply well_marked_tail. eassumption.
Qed.

Lemma mark_well_marked text key begin end_ :
  Py.mem key "-+^" = true ->
  plain (Py.take begin text) ->
  plain (Py.take (end_ - begin) (Py.drop begin text)) ->
  well_marked text = true ->
  well_marked (Difflib.mark text (key, (begin, end_))) = true.
Proof.
  intros Hk Hp Hm Hw. unfold Difflib.mark.
  rewrite well_marked_plain_app by assumption.
  unfold Py.NUL, Py.SOH. cbn [append well_marked Ascii.eqb Bool.eqb].
  rewrite Hk. cbn [andb].
  rewrite well_marked_plain_app by assumption.
  cbn [well_marked Ascii.eqb Bool.eqb]. apply well_marked_drop. assumption.
Qed.

Lemma marks_well_marked text hi (Hhi : hi <= String.length text) (Hp : plain text) :
  forall infos lo,
    spans_ok lo infos hi ->
    well_marked (fold_right (fun i acc => Difflib.mark acc i) text infos) = true /\
    Py.take lo (fold_right (fun i acc => Difflib.mark acc i) text infos) =
    Py.take lo text.
Proof.
  induction infos as [| [key [begin end_]] infos IH]; intros lo H.
  - split; [apply plain_well_marked; assumption | reflexivity].
  - destruct H as (Hk & Hlo & Hbe & Hehi & Hrest).
    destruct (IH end_ Hrest) as (Hw & Ht).
    cbn [fold_right].
    set (r := fold_right (fun i acc => Difflib.mark acc i) text infos) in *.
    assert (T1 : Py.take begin r = Py.take begin text).
    { rewrite <- (take_take begin end_ r) by lia. rewrite Ht.
      apply take_take. lia. }
    assert (T2 : Py.take (end_ - begin) (Py.drop begin r) =
                 Py.drop begin (Py.take end_ text)).
    { rewrite take_drop_swap by lia. rewrite Ht. reflexivity. }
    split.
    + apply mark_well_marked; try assumption.
      * rewrite T1. apply plain_take. assumption.
      * rewrite T2. apply plain_drop, plain_take. assumption.
    + unfold Difflib.mark. rewrite T1.
      rewrite take_app by (rewrite take_length; lia).
      apply take_take. lia.
Qed.

Lemma spans_ok_lo infos hi : forall lo lo',
  lo' <= lo -> spans_ok lo infos hi -> spans_ok lo' infos hi.
Proof.
  destruct infos as [| [key [begin end_]] infos]; intros lo lo' Hl H; [exact I | ].
  destruct H as (Hk & Hlo & Hbe & Hehi & Hrest). repeat split; auto. lia.
Qed.

Lemma run_length_bound c s : Difflib.run_length c s <= String.length s.
Proof.
  induction s as [| d s IH]; simpl; [lia | ].
  destruct (Ascii.eqb c d); lia.
Qed.

Lemma marker_sets c : Py.mem c "+-^" = Py.mem c "-+^".
Proof.
  cbn [Py.mem]. destruct (Ascii.eqb c "+"), (Ascii.eqb c "-"); reflexivity.
Qed.

Lemma sub_info_spans s : forall skip pos,
  spans_ok (pos + skip) (Difflib.sub_info skip pos s) (pos + String.length s).
Proof.
  induction s as [| c s IH]; intros skip pos; [exact I | ].
  cbn [Difflib.sub_info String.length].
  destruct skip as [| skip].
  - destruct (Py.mem c "+-^") eqn:Hm.
    + rewrite marker_sets in Hm.
      pose proof (run_length_bound c s) as Hr.
      repeat split; try assumption; try lia.
      specialize (IH (S (Difflib.run_length c s) - 1) (S pos)).
      replace (S pos + (S (Difflib.run_length c s) - 1))
        with (pos + S (Difflib.run_length c s)) in IH by lia.
      replace (S pos + String.length s) with (pos + S (String.length s)) in IH by lia.
      exact IH.
    + specialize (IH 0 (S pos)).
      replace (S pos + String.length s) with (pos + S (String.length s)) in IH by lia.
      eapply spans_ok_lo; [ | exact IH]. lia.
  - specialize (IH skip (S pos)).
    replace (S pos + skip) with (pos + S skip) in IH by lia.
    replace (S pos + String.length s) with (pos + S (String.length s)) in IH by lia.
    exact IH.
Qed.

Lemma run_length_newline c s :
  Py.mem c "+-^" = true ->
  Difflib.run_length c (s ++ Py.LF) = Difflib.run_length c s.
Proof.
  intros Hm. induction s as [| d s IH]; simpl.
  - destruct (Ascii.eqb c "010") eqn:E; [ | reflexivity].
    apply Ascii.eqb_eq in E. subst. discriminate.
  - rewrite IH. reflexivity.
Qed.

Lemma sub_info_newline s : forall skip pos,
  Difflib.sub_info skip pos (s ++ Py.LF) = Difflib.sub_info skip pos s.
Proof.
  induction s as [| c s IH]; intros skip pos.
  - destruct skip; reflexivity.
  - cbn [append Difflib.sub_info]. destruct skip as [| skip]; [ | apply IH].
    destruct (Py.mem c "+-^") eqn:Hm; [ | apply IH].
    rewrite run_length_newline by assumption. rewrite IH. reflexivity.
Qed.

Lemma marked_text_ok text markers :
  plain text -> fits text markers ->
  well_marked
    (Py.drop 2 (fold_left Difflib.mark (rev (Difflib.sub_info 0 0 markers)) text))
  = true.
Proof.
  intros Hp (tags & -> & Hl).
  rewrite sub_info_newline.
  apply well_marked_drop.
  change (fold_left Difflib.mark (rev (Difflib.sub_info 0 0 tags)) text)
    with (fold_left (fun acc i => (fun i acc => Difflib.mark acc i) i acc)
            (rev (Difflib.sub_info 0 0 tags)) text).
  rewrite <- (fold_left_rev_right (fun i acc => Difflib.mark acc i)).
  rewrite rev_involutive.
  pose proof (sub_info_spans tags 0 0) as Hs. simpl in Hs.
  apply (marks_well_marked text (String.length tags) Hl Hp _ 0 Hs).
Qed.

(** *** The line iterators *)

Lemma _make_line_plain lines prev key side num_lines :
  delta_ok prev lines ->
  key = None \/ key = Some "-"%char \/ key = Some "+"%char ->
  well_marked (snd (fst (fst (Difflib._make_line lines key side num_lines)))) = true /\
  snd (fst (Difflib._make_line lines key side num_lines)) = tl lines /\
  exists p, delta_ok p (tl lines).
Proof.
  intros Hd Hk.
  assert (Hl : plain (fst (Difflib.pop0 lines)) /\ snd (Difflib.pop0 lines) = tl lines /\
               exists p, delta_ok p (tl lines)).
  { destruct lines as [| d r]; simpl.
    - split; [reflexivity | ]. split; [reflexivity | ]. exists None. exact I.
    - destruct Hd as (Hp & _ & Hr). eauto. }
  destruct Hl as (Hp & Ht & He).
  unfold Difflib._make_line.
  destruct (Difflib.pop0 lines) as [l rest]. simpl in Hp, Ht.
  destruct Hk as [-> | [-> | ->]]; cbn [Ascii.eqb Bool.eqb fst snd];
    (split; [ | split; assumption]).
  - apply plain_well_marked, plain_drop. assumption.
  - destruct (String.eqb (Py.drop 2 l) "") eqn:E.
    + reflexivity.
    + unfold Py.NUL, Py.SOH. cbn [append well_marked Ascii.eqb Bool.eqb Py.mem orb andb].
      rewrite well_marked_plain_app by (apply plain_drop; assumption). reflexivity.
  - destruct (String.eqb (Py.drop 2 l) "") eqn:E.
    + reflexivity.
    + unfold Py.NUL, Py.SOH. cbn [append well_marked Ascii.eqb Bool.eqb Py.mem orb andb].
      rewrite well_marked_plain_app by (apply plain_drop; assumption). reflexivity.
Qed.

Lemma peek_question lines k :
  Difflib.peek lines k = "?"%char ->
  exists t, nth_error lines k = Some (String "?" t).
Proof.
  unfold Difflib.peek. destruct (nth_error lines k) as [[| c t] | ]; intros H.
  - discriminate.
  - subst c. eauto.
  - discriminate.
Qed.

Lemma _make_line_question lines prev side num_lines :
  delta_ok prev lines ->
  Difflib.peek lines 1 = "?"%char ->
  well_marked
    (snd (fst (fst (Difflib._make_line lines (Some "?"%char) side num_lines)))) = true /\
  snd (fst (Difflib._make_line lines (Some "?"%char) side num_lines)) = tl (tl lines) /\
  exists p, delta_ok p (tl (tl lines)).
Proof.
  intros Hd Hq. apply peek_question in Hq. destruct Hq as (t & Hq).
  destruct lines as [| d1 [| d2 r]]; try discriminate.
  simpl in Hq. injection Hq as ->.
  destruct Hd as (Hp1 & _ & Hp2 & Hf & Hr).
  specialize (Hf eq_refl).
  unfold Difflib._make_line. cbn [Ascii.eqb Bool.eqb Difflib.pop0 fst snd tl].
  split; [ | split; [reflexivity | eauto]].
  apply marked_text_ok; assumption.
Qed.

Lemma peek_tl lines k :
  lines <> [] -> Difflib.peek (tl lines) k = Difflib.peek lines (S k).
Proof.
  destruct lines; [contradiction | reflexivity].
Qed.

Lemma peek_not_X lines c :
  Difflib.peek lines 0 = c -> c <> "X"%char -> lines <> [].
Proof.
  intros H Hc ->. apply Hc. rewrite <- H. reflexivity.
Qed.

Lemma catch_up_ok n : Forall half_row_ok (Difflib.catch_up n).
Proof.
  unfold Difflib.catch_up.
  destruct (n <? 0)%Z; apply Forall_forall; intros x Hx;
    apply repeat_spec in Hx; subst x; split; simpl; auto.
Qed.

Ltac peeks B :=
  unfold Difflib.lookahead in B; cbn [Py.startswith] in B;
  rewrite ?andb_true_r in B;
  repeat match type of B with
  | _ && _ = true =>
      let P := fresh "P" in
      apply andb_true_iff in B; destruct B as (P & B);
      apply Ascii.eqb_eq in P
  end;
  try apply Ascii.eqb_eq in B.

(** One plain [_make_line] call in the goal: name its result and keep what
    is known of it. *)
Ltac plain_line Hd key_case :=
  match goal with
  | |- context [Difflib._make_line ?L ?K ?S ?N] =>
      let W := fresh "W" in
      let R := fresh "R" in
      let p := fresh "p" in
      let D := fresh "D" in
      let fl := fresh "line" in
      let ls := fresh "lines" in
      let nl := fresh "num_lines" in
      destruct (_make_line_plain L _ K S N Hd key_case) as (W & R & (p & D));
      destruct (Difflib._make_line L K S N) as [[fl ls] nl];
      cbn [fst snd] in W, R; subst ls
  end.

Ltac question_line Hd Hq :=
  match goal with
  | |- context [Difflib._make_line ?L (Some "?"%char) ?S ?N] =>
      let W := fresh "W" in
      let R := fresh "R" in
      let p := fresh "p" in
      let D := fresh "D" in
      let fl := fresh "line" in
      let ls := fresh "lines" in
      let nl := fresh "num_lines" in
      destruct (_make_line_question L _ S N Hd Hq) as (W & R & (p & D));
      destruct (Difflib._make_line L (Some "?"%char) S N) as [[fl ls] nl];
      cbn [fst snd] in W, R; subst ls
  end.

Lemma _line_iterator_within_ok fuel : forall lines prev num_lines pending,
  delta_ok prev lines ->
  rows_ok (Difflib._line_iterator_within fuel lines num_lines pending).
Proof.
  induction fuel as [| fuel IH]; intros lines prev num_lines pending Hd;
    [exact I | ].
  assert (KN : @None ascii = None \/ @None ascii = Some "-"%char \/
               @None ascii = Some "+"%char) by auto.
  assert (KM : Some "-"%char = None \/ Some "-"%char = Some "-"%char \/
               Some "-"%char = Some "+"%char) by auto.
  assert (KP : Some "+"%char = None \/ Some "+"%char = Some "-"%char \/
               Some "+"%char = Some "+"%char) by auto.
  assert (Row : forall (f t : option Difflib.mline) (d : bool) rest,
            side_ok f -> side_ok t -> rows_ok rest ->
            rows_ok (Difflib.yield (f, t, d) rest)).
  { intros f t d [rest | ] Hf Ht Hr; [ | exact I].
    constructor; [split; assumption | assumption]. }
  assert (Blanks : forall n rest,
            rows_ok rest -> rows_ok (option_map (app (Difflib.catch_up n)) rest)).
  { intros n [rest | ] Hr; [ | exact I].
    apply Forall_app. split; [apply catch_up_ok | exact Hr]. }
  cbn [Difflib._line_iterator_within].
  destruct (Py.startswith (Difflib.lookahead lines) "X");
    [exact (catch_up_ok pending) | ].
  destruct (Py.startswith (Difflib.lookahead lines) "-?+?") eqn:B1.
  { peeks B1. destruct (peek_question _ _ P0) as (t & Hq).
    destruct lines as [| d1 [| d2 r]]; try discriminate.
    question_line Hd P0. cbn [tl] in *.
    question_line D B1.
    apply Row; simpl; eauto. }
  destruct (Py.startswith (Difflib.lookahead lines) "--++") eqn:B2.
  { plain_line Hd KM. apply Row; simpl; eauto. }
  destruct (Py.startswith (Difflib.lookahead lines) "--?+" ||
            Py.startswith (Difflib.lookahead lines) "--+" ||
            Py.startswith (Difflib.lookahead lines) "- ") eqn:B3.
  { plain_line Hd KM. apply Blanks.
    apply Row; simpl; eauto. }
  destruct (Py.startswith (Difflib.lookahead lines) "-+?") eqn:B4.
  { peeks B4. destruct lines as [| d1 r]; [discriminate | ].
    plain_line Hd KN. cbn [tl] in *.
    question_line D B4.
    apply Row; simpl; eauto. }
  destruct (Py.startswith (Difflib.lookahead lines) "-?+") eqn:B5.
  { peeks B5. question_line Hd P0.
    plain_line D KN.
    apply Row; simpl; eauto. }
  destruct (Py.startswith (Difflib.lookahead lines) "-") eqn:B6.
  { plain_line Hd KM. apply Row; simpl; eauto. }
  destruct (Py.startswith (Difflib.lookahead lines) "+--") eqn:B7.
  { plain_line Hd KP. apply Row; simpl; eauto. }
  destruct (Py.startswith (Difflib.lookahead lines) "+ " ||
            Py.startswith (Difflib.lookahead lines) "+-") eqn:B8.
  { plain_line Hd KP. apply Blanks.
    apply Row; simpl; eauto. }
  destruct (Py.startswith (Difflib.lookahead lines) "+") eqn:B9.
  { plain_line Hd KP. apply Row; simpl; eauto. }
  destruct (Py.startswith (Difflib.lookahead lines) " ") eqn:B10; [ | exact I].
  destruct (_make_line_plain lines _ None 0 num_lines Hd KN) as (W1 & _ & _).
  destruct (Difflib._make_line lines None 0 num_lines) as [[fl ls] nl].
  cbn [fst snd] in W1.
  plain_line Hd KN. apply Row; simpl; eauto.
Qed.

Lemma _line_iterator_ok lines :
  delta_ok None lines -> Forall half_row_ok (Difflib._line_iterator lines).
Proof.
  intros Hd. unfold Difflib._line_iterator.
  pose proof (_line_iterator_within_ok (S (List.length lines)) lines None (0, 0) 0%Z Hd)
    as H.
  destruct (Difflib._line_iterator_within _ lines (0, 0) 0%Z); [exact H | constructor].
Qed.

Lemma drain_ok fromlines : forall tolines,
  Forall (fun x : Difflib.mline * bool => well_marked (snd (fst x)) = true) fromlines ->
  Forall (fun x : Difflib.mline * bool => well_marked (snd (fst x)) = true) tolines ->
  Forall clean_row (fst (fst (Difflib.drain fromlines tolines))) /\
  Forall (fun x : Difflib.mline * bool => well_marked (snd (fst x)) = true)
    (snd (fst (Difflib.drain fromlines tolines))) /\
  Forall (fun x : Difflib.mline * bool => well_marked (snd (fst x)) = true)
    (snd (Difflib.drain fromlines tolines)).
Proof.
  induction fromlines as [| [fl fd] fromlines IH]; intros tolines Hf Ht.
  - simpl. auto.
  - destruct tolines as [| [tl_ td] tolines]; [simpl; auto | ].
    inversion Hf as [| ? ? Hf1 Hf2]; subst. inversion Ht as [| ? ? Ht1 Ht2]; subst.
    specialize (IH tolines Hf2 Ht2). cbn [Difflib.drain].
    destruct (Difflib.drain fromlines tolines) as [[out f] t].
    cbn [fst snd] in *. destruct IH as (I1 & I2 & I3).
    repeat split; auto. constructor; [ | assumption]. split; assumption.
Qed.

Lemma _line_pair_iterator_ok rows : forall fromlines tolines,
  Forall half_row_ok rows ->
  Forall (fun x : Difflib.mline * bool => well_marked (snd (fst x)) = true) fromlines ->
  Forall (fun x : Difflib.mline * bool => well_marked (snd (fst x)) = true) tolines ->
  Forall clean_row (Difflib._line_pair_iterator rows fromlines tolines).
Proof.
  induction rows as [| [[f t] d] rows IH]; intros fromlines tolines Hr Hf Ht;
    [constructor | ].
  inversion Hr as [| ? ? (H1 & H2) Hr']; subst. cbn [fst snd] in H1, H2.
  cbn [Difflib._line_pair_iterator].
  set (fromlines' := match f with Some l => fromlines ++ [(l, d)] | None => fromlines end).
  set (tolines' := match t with Some l => tolines ++ [(l, d)] | None => tolines end).
  assert (Hf' : Forall (fun x : Difflib.mline * bool => well_marked (snd (fst x)) = true)
                  fromlines').
  { unfold fromlines'. destruct f; [ | assumption].
    apply Forall_app. split; [assumption | ]. constructor; [exact H1 | constructor]. }
  assert (Ht' : Forall (fun x : Difflib.mline * bool => well_marked (snd (fst x)) = true)
                  tolines').
  { unfold tolines'. destruct t; [ | assumption].
    apply Forall_app. split; [assumption | ]. constructor; [exact H2 | constructor]. }
  destruct (drain_ok fromlines' tolines' Hf' Ht') as (D1 & D2 & D3).
  destruct (Difflib.drain fromlines' tolines') as [[out f'] t'].
  cbn [fst snd] in *. apply Forall_app. split; [assumption | ].
  apply IH; assumption.
Qed.

Lemma _mdiff_clean a b :
  Forall plain a -> Forall plain b -> Forall clean_row (Difflib._mdiff a b).
Proof.
  intros Ha Hb. unfold Difflib._mdiff, Difflib.ndiff.
  apply _line_pair_iterator_ok; try constructor.
  apply _line_iterator_ok. apply compare_ok; assumption.
Qed.

Lemma collect_unless_plain skip items :
  Forall (fun item : string * string => plain (snd item)) items ->
  Forall plain (collect_unless skip items []).
Proof.
  intros H. rewrite collect_unless_filter. simpl.
  apply Forall_forall. intros x Hx. apply in_map_iff in Hx.
  destruct Hx as (item & <- & Hin). apply filter_In in Hin.
  rewrite Forall_forall in H. apply H. apply Hin.
Qed.

Lemma plain_hunk_clean h : plain_hunk h -> clean_hunk h.
Proof.
  intros (Hh & Hl). split; [apply plain_esc_free; assumption | ].
  unfold mdiff. apply _mdiff_clean; apply collect_unless_plain; assumption.
Qed.

Lemma plain_diff_clean d : plain_diff d -> clean_diff d.
Proof.
  intros (Hh & Ho & Hn & Hk). repeat split.
  - eapply Forall_impl; [ | exact Hh]. apply plain_esc_free.
  - apply plain_esc_free. assumption.
  - apply plain_esc_free. assumption.
  - eapply Forall_impl; [ | exact Hk]. apply plain_hunk_clean.
Qed.

(** ** Plain input gives plain Diffs *)

Lemma plain_text_of c text : plain (String c text) -> plain text.
Proof. intros H. apply plain_cons in H. apply H. Qed.

Lemma plain_emit st old_p st' :
  plain_state st ->
  old_path st = Some old_p ->
  emit_and_reset st old_p = Ok st' ->
  plain_state st'.
Proof.
  intros [Ps Po Ph Pold Pnew Pk Pk'] Ho H. unfold emit_and_reset in H.
  destruct (new_path st) as [new_p | ] eqn:Hn; simpl in H; [ | discriminate].
  destruct (hunk st) as [h | ] eqn:Hh; simpl in H; [ | discriminate].
  injection H as <-.
  apply mkPlainState; simpl; try (intros; discriminate); try constructor; auto.
  apply Forall_app. split; [assumption | ].
  constructor; [ | constructor].
  repeat split; simpl; auto.
  apply Forall_app. split; [assumption | ]. constructor; [auto | constructor].
Qed.

Lemma plain_step st line rest st' :
  plain_state st ->
  stream st = line :: rest ->
  loop_body st line rest = Ok st' ->
  plain_state st'.
Proof.
  intros P Hs Hb.
  pose proof (ps_stream _ P) as Pl. rewrite Hs in Pl.
  inversion Pl as [| ? ? Pline Prest]; subst.
  assert (Keep : forall hdrs o n hk,
            Forall plain hdrs ->
            (forall x, o = Some x -> plain x) ->
            (forall x, n = Some x -> plain x) ->
            (forall x, hk = Some x -> plain_hunk x) ->
            plain_state (mkLocals rest (out_diffs st) hdrs o n (hunks st) hk)).
  { intros. destruct P. apply mkPlainState; simpl; auto. }
  assert (One : forall x y : string, plain x -> Some x = Some y -> plain y)
    by (intros x y Hx E; injection E as <-; exact Hx).
  unfold loop_body in Hb.
  destruct (is_header line).
  { assert (PH : Forall plain (headers st ++ [line])).
    { apply Forall_app. split; [apply P | ]. constructor; [assumption | constructor]. }
    destruct (old_path st) as [old_p | ] eqn:Ho.
    - destruct (nonempty (headers st) && truthy (Some old_p)).
      + eapply plain_emit; eassumption.
      + injection Hb as <-. apply Keep; auto; try apply P.
        rewrite <- Ho. apply P.
    - injection Hb as <-. apply Keep; auto; try apply P. discriminate. }
  destruct (is_old_path line).
  { destruct (old_path st) as [old_p | ] eqn:Ho.
    - destruct (truthy (Some old_p)).
      + eapply plain_emit; eassumption.
      + injection Hb as <-. apply Keep; eauto; apply P.
    - injection Hb as <-. apply Keep; eauto; apply P. }
  destruct (is_new_path line).
  { destruct (old_path st) as [old_p | ] eqn:Ho; simpl in Hb; [ | discriminate].
    destruct (new_path st) as [new_p | ] eqn:Hn; simpl in Hb; [discriminate | ].
    injection Hb as <-. apply Keep; eauto; try apply P.
    rewrite <- Ho. apply P. }
  destruct (is_hunk_header line).
  { destruct (old_path st) as [old_p | ] eqn:Ho; simpl in Hb; [ | discriminate].
    destruct (new_path st) as [new_p | ] eqn:Hn; simpl in Hb; [ | discriminate].
    destruct (hunk st) as [h | ] eqn:Hh; injection Hb as <-.
    - destruct P as [Ps Po Ph Pold Pnew Pk Pk'].
      apply mkPlainState; simpl; try (intros; discriminate); try assumption.
      + rewrite <- Ho. assumption.
      + rewrite <- Hn. assumption.
      + apply Forall_app. split; [assumption | ]. constructor; [auto | constructor].
    - apply Keep; try apply P.
      + rewrite <- Ho. apply P.
      + rewrite <- Hn. apply P.
      + intros x E. injection E as <-. split; [assumption | constructor]. }
  destruct (is_old line || is_new line || is_common line).
  { destruct (old_path st) as [old_p | ] eqn:Ho; simpl in Hb; [ | discriminate].
    destruct (new_path st) as [new_p | ] eqn:Hn; simpl in Hb; [ | discriminate].
    destruct (hunk st) as [h | ] eqn:Hh; simpl in Hb; [ | discriminate].
    destruct line as [| c text]; [discriminate | ]. injection Hb as <-.
    apply Keep; try apply P.
    - rewrite <- Ho. apply P.
    - rewrite <- Hn. apply P.
    - intros x E. injection E as <-.
      destruct (ps_hunk _ P h Hh) as (H1 & H2). split; [exact H1 | ].
      simpl. apply Forall_app. split; [assumption | ].
      constructor; [ | constructor]. simpl. eapply plain_text_of. eassumption. }
  destruct (is_eof line); [ | discriminate].
  injection Hb as <-. apply Keep; apply P.
Qed.

Lemma plain_while fuel : forall st st',
  plain_state st -> while_stream fuel st = Some (Ok st') -> plain_state st'.
Proof.
  induction fuel as [| fuel IH]; intros st st' P H; simpl in H.
  - destruct (stream st); [ | discriminate]. injection H as <-. exact P.
  - destruct (stream st) as [| line rest] eqn:Hs.
    + injection H as <-. exact P.
    + destruct (loop_body st line rest) as [st1 | e] eqn:Hb; [ | discriminate].
      eapply IH; [ | exact H]. eapply plain_step; eassumption.
Qed.

Lemma plain_last st diffs :
  plain_state st -> last_patch st = Ok diffs -> Forall plain_diff diffs.
Proof.
  intros [Ps Po Ph Pold Pnew Pk Pk'] H. unfold last_patch in H.
  assert (Hk : Forall plain_hunk
                 (match hunk st with Some h => hunks st ++ [h] | None => hunks st end)).
  { destruct (hunk st) as [h | ]; [ | assumption].
    apply Forall_app. split; [assumption | ]. constructor; [auto | constructor]. }
  destruct (old_path st) as [old_p | ].
  - destruct (truthy (Some old_p)).
    + destruct (new_path st) as [new_p | ]; [ | discriminate].
      destruct (truthy (Some new_p)); [ | discriminate].
      injection H as <-. apply Forall_app. split; [assumption | ].
      constructor; [ | constructor]. repeat split; simpl; auto.
    + destruct (nonempty (headers st)); [discriminate | ].
      injection H as <-. assumption.
  - destruct (nonempty (headers st)); [discriminate | ].
    injection H as <-. assumption.
Qed.

Lemma DiffParser_plain s diffs :
  Forall plain s -> DiffParser s = Ok diffs -> Forall plain_diff diffs.
Proof.
  intros Hs H. unfold DiffParser in H.
  destruct (sniff s); [ | discriminate].
  destruct (_parse_udiff s) as [diffs' | e] eqn:Hp; [ | destruct e; discriminate].
  injection H as ->.
  pose proof (_parse_udiff_within_total s) as T. rewrite Hp in T.
  unfold _parse_udiff_within in T.
  destruct (while_stream (parse_fuel s) (initial s)) as [[st | e] | ] eqn:W;
    try discriminate.
  injection T as T. eapply plain_last; [ | exact T].
  eapply plain_while; [ | exact W].
  apply mkPlainState; simpl; try constructor; try (intros; discriminate). assumption.
Qed.
(** ** The matcher's queue loop never runs out of steps

    [find_longest_match] answers with a block inside the rows it was given,
    so each rectangle taken from the queue is replaced by rectangles whose
    rows add up to fewer, and [blocks_fuel] steps empty any queue that
    starts with the whole of [a]. *)

Lemma j2len_get_below (n : nat) (j2len : list (nat * nat)) (j : nat) :
  lengths_below n j2len -> Difflib.j2len_get j2len j <= n.
Proof.
  intros H. unfold Difflib.j2len_get.
  destruct (find _ j2len) as [p |] eqn:E; [| lia].
  apply find_some in E. apply H, E.
Qed.

Lemma scan_row_inside (alo ahi : nat) (js : list nat) :
  forall (i blo bhi : nat) (j2len newj2len : list (nat * nat)) (best : Difflib.block),
  alo <= i < ahi ->
  lengths_below (i - alo) j2len ->
  lengths_below (S i - alo) newj2len ->
  inside alo ahi best ->
  lengths_below (S i - alo) (fst (Difflib.scan_row js i blo bhi j2len newj2len best)) /\
  inside alo ahi (snd (Difflib.scan_row js i blo bhi j2len newj2len best)).
Proof.
  induction js as [| j js IH]; intros i blo bhi j2len newj2len best Hi Hold Hnew Hbest;
    simpl.
  - split; assumption.
  - destruct (j <? blo); [apply IH; assumption |].
    destruct (bhi <=? j); [split; assumption |].
    destruct best as [[besti bestj] bestsize].
    set (k := match j with O => 0 | S j' => Difflib.j2len_get j2len j' end + 1).
    assert (Hk : k <= S i - alo).
    { unfold k. destruct j as [| j'].
      - lia.
      - pose proof (j2len_get_below (i - alo) j2len j' Hold). lia. }
    apply IH; try assumption.
    + intros p [<- | Hp]; [exact Hk | apply Hnew, Hp].
    + destruct (bestsize <? k); [| assumption].
      unfold inside; simpl. lia.
Qed.

Lemma scan_rows_inside {A : Type} (eqb : A -> A -> bool) (isjunk : A -> bool)
  (a b : list A) (alo ahi : nat) (n : nat) :
  forall (i0 blo bhi : nat) (j2len : list (nat * nat)) (best : Difflib.block),
  alo <= i0 -> i0 + n <= ahi ->
  lengths_below (i0 - alo) j2len ->
  inside alo ahi best ->
  inside alo ahi (Difflib.scan_rows eqb isjunk a b (seq i0 n) blo bhi j2len best).
Proof.
  induction n as [| n IH]; intros i0 blo bhi j2len best Hlo Hhi Hlen Hbest; simpl.
  - assumption.
  - set (js := match nth_error a i0 with
               | Some x => Difflib.b2j eqb isjunk b x
               | None => []
               end).
    assert (Hnil : lengths_below (S i0 - alo) []) by (intros p []).
    destruct (scan_row_inside alo ahi js i0 blo bhi j2len [] best
                ltac:(lia) Hlen Hnil Hbest) as [H1 H2].
    destruct (Difflib.scan_row js i0 blo bhi j2len [] best) as [newj2len best'].
    apply IH; try assumption; lia.
Qed.

Lemma extend_back_inside {A : Type} (eqb : A -> A -> bool) (isjunk : A -> bool)
  (a b : list A) (junk : bool) (alo ahi blo : nat) :
  forall (besti bestj bestsize : nat),
  inside alo ahi (besti, bestj, bestsize) ->
  inside alo ahi (Difflib.extend_back eqb isjunk a b junk alo blo besti bestj bestsize).
Proof.
  induction besti as [| i' IH]; intros bestj bestsize H; simpl.
  - assumption.
  - destruct bestj as [| j']; [assumption |].
    destruct ((alo <? S i') && (blo <? S j') &&
              Difflib.same_at eqb isjunk a b junk i' j') eqn:E; [| assumption].
    apply IH. apply andb_prop in E. destruct E as [E _].
    apply andb_prop in E. destruct E as [E _]. apply Nat.ltb_lt in E.
    unfold inside in *; simpl in *. lia.
Qed.

Lemma extend_fwd_inside {A : Type} (eqb : A -> A -> bool) (isjunk : A -> bool)
  (a b : list A) (junk : bool) (alo ahi bhi besti bestj : nat) (room : nat) :
  forall (bestsize : nat),
  inside alo ahi (besti, bestj, bestsize) ->
  inside alo ahi
    (besti, bestj,
     Difflib.extend_fwd eqb isjunk a b room junk ahi bhi besti bestj bestsize).
Proof.
  induction room as [| room IH]; intros bestsize H; simpl.
  - assumption.
  - destruct ((besti + bestsize <? ahi) && (bestj + bestsize <? bhi) &&
              Difflib.same_at eqb isjunk a b junk (besti + bestsize) (bestj + bestsize))
      eqn:E; [| assumption].
    apply IH. apply andb_prop in E. destruct E as [E _].
    apply andb_prop in E. destruct E as [E _]. apply Nat.ltb_lt in E.
    unfold inside in *; simpl in *. lia.
Qed.

Lemma find_longest_match_inside {A : Type} (eqb : A -> A -> bool) (isjunk : A -> bool)
  (a b : list A) (alo ahi blo bhi : nat) :
  alo <= ahi ->
  inside alo ahi (Difflib.find_longest_match eqb isjunk a b alo ahi blo bhi).
Proof.
  intros Hle. unfold Difflib.find_longest_match.
  assert (H0 : inside alo ahi
                 (Difflib.scan_rows eqb isjunk a b (seq alo (ahi - alo)) blo bhi []
                    (alo, blo, 0))).
  { apply scan_rows_inside; try lia.
    - intros p [].
    - unfold inside; simpl; lia. }
  destruct (Difflib.scan_rows _ _ _ _ _ _ _ _ _) as [[i0 j0] k0].
  pose proof (extend_back_inside eqb isjunk a b false alo ahi blo i0 j0 k0 H0) as H1.
  destruct (Difflib.extend_back _ _ _ _ false _ _ _ _ _) as [[i1 j1] k1].
  pose proof (extend_fwd_inside eqb isjunk a b false alo ahi bhi i1 j1
                (ahi - (i1 + k1)) k1 H1) as H2.
  set (k2 := Difflib.extend_fwd _ _ _ _ _ false _ _ _ _ _) in *.
  pose proof (extend_back_inside eqb isjunk a b true alo ahi blo i1 j1 k2 H2) as H3.
  destruct (Difflib.extend_back _ _ _ _ true _ _ _ _ _) as [[i3 j3] k3].
  apply extend_fwd_inside, H3.
Qed.

Lemma blocks_loop_total {A : Type} (eqb : A -> A -> bool) (isjunk : A -> bool)
  (a b : list A) (fuel : nat) :
  forall (queue : list (nat * nat * nat * nat)) (matching_blocks : list Difflib.block),
  Forall ordered queue ->
  weight queue <= fuel ->
  exists found,
    Difflib.blocks_loop eqb isjunk a b fuel queue matching_blocks = Some found.
Proof.
  induction fuel as [| fuel IH]; intros queue m Hord Hw.
  - destruct queue as [| r queue]; simpl in *; [eauto | lia].
  - destruct queue as [| [[[alo ahi] blo] bhi] queue]; simpl; [eauto |].
    inversion Hord as [| ? ? Hr Hq]; subst. simpl in Hr, Hw.
    pose proof (find_longest_match_inside eqb isjunk a b alo ahi blo bhi Hr) as Hin.
    destruct (Difflib.find_longest_match eqb isjunk a b alo ahi blo bhi)
      as [[i j] k].
    unfold inside in Hin; simpl in Hin.
    destruct (k =? 0) eqn:Ek.
    + apply IH; [assumption | lia].
    + apply Nat.eqb_neq in Ek.
      apply IH.
      * destruct ((i + k <? ahi) && (j + k <? bhi)) eqn:E2;
          destruct ((alo <? i) && (blo <? j)) eqn:E1;
          repeat (apply Forall_cons; simpl; try lia); assumption.
      * destruct ((i + k <? ahi) && (j + k <? bhi)) eqn:E2;
          destruct ((alo <? i) && (blo <? j)) eqn:E1; simpl; lia.
Qed.

(** The queue of [get_matching_blocks] is emptied within [blocks_fuel]
    steps: the default taken for a loop cut short is never used. *)
Lemma get_matching_blocks_total {A : Type} (eqb : A -> A -> bool) (isjunk : A -> bool)
  (a b : list A) :
  exists found,
    Difflib.blocks_loop eqb isjunk a b (Difflib.blocks_fuel a)
      [(0, List.length a, 0, List.length b)] [] = Some found.
Proof.
  apply blocks_loop_total.
  - repeat constructor. simpl. lia.
  - unfold Difflib.blocks_fuel. simpl. lia.
Qed.

(** ** The synch pair of [_fancy_replace] is always bound, and its depth
    bounded *)

Lemma search_row_inside (a : list string) (bj : string) (alo ahi blo bhi j : nat)
  (rows : list nat) :
  forall st,
  (forall i, In i rows -> alo <= i < ahi) ->
  blo <= j < bhi ->
  search_inside alo ahi blo bhi st ->
  search_inside alo ahi blo bhi (Difflib.search_row rows a bj j st).
Proof.
  induction rows as [| i rows IH]; intros st Hrows Hj Hst; [exact Hst | ].
  assert (Hi : alo <= i < ahi) by (apply Hrows; left; reflexivity).
  assert (Hrows' : forall i', In i' rows -> alo <= i' < ahi)
    by (intros i' H'; apply Hrows; right; exact H').
  destruct Hst as [H1 H2 H3].
  cbn [Difflib.search_row].
  destruct (String.eqb (nth i a "") bj).
  - apply IH; try assumption.
    destruct (Difflib.eq_ij st) eqn:E.
    + split; [rewrite E; exact H1 | exact H2 | exact H3].
    + split; simpl; auto.
  - destruct (Difflib.ratio_gt _ _ && Difflib.ratio_gt _ _ && Difflib.ratio_gt _ _).
    + apply IH; try assumption.
      split; simpl; auto. discriminate.
    + apply IH; try assumption. split; assumption.
Qed.

Lemma search_all_inside (a b : list string) (alo ahi blo bhi : nat) (cols : list nat) :
  forall st,
  (forall j, In j cols -> blo <= j < bhi) ->
  search_inside alo ahi blo bhi st ->
  search_inside alo ahi blo bhi (Difflib.search_all cols a alo ahi b st).
Proof.
  induction cols as [| j cols IH]; intros st Hcols Hst; [exact Hst | ].
  cbn [Difflib.search_all]. apply IH.
  - intros j' H'. apply Hcols. right. exact H'.
  - apply search_row_inside; try assumption.
    + intros i Hi. apply in_seq in Hi. lia.
    + apply Hcols. left. reflexivity.
Qed.

Lemma search_inside_ranges (a b : list string) (alo ahi blo bhi : nat) :
  search_inside alo ahi blo bhi
    (Difflib.search_all (seq blo (bhi - blo)) a alo ahi b
       (Difflib.mkSearch Difflib.initial_best_ratio None None)).
Proof.
  apply search_all_inside.
  - intros j Hj. apply in_seq in Hj. lia.
  - split; simpl; auto.
Qed.

(** [_fancy_replace] answers within [(ahi - alo) + (bhi - blo)] levels on
    ranges that are not empty, the only ones [compare] calls it on. *)
Lemma _fancy_replace_within_total (a b : list string) (fuel : nat) :
  forall alo ahi blo bhi,
  alo < ahi -> blo < bhi ->
  (ahi - alo) + (bhi - blo) <= fuel ->
  exists delta, Difflib._fancy_replace_within fuel a alo ahi b blo bhi = Some delta.
Proof.
  induction fuel as [| fuel IH]; intros alo ahi blo bhi Ha Hb Hf; [lia | ].
  assert (Hh : forall alo' ahi' blo' bhi',
            (ahi' - alo') + (bhi' - blo') <= fuel ->
            exists delta,
              (if alo' <? ahi'
               then if blo' <? bhi'
                    then Difflib._fancy_replace_within fuel a alo' ahi' b blo' bhi'
                    else Some (Difflib._dump "-" a alo' ahi')
               else if blo' <? bhi' then Some (Difflib._dump "+" b blo' bhi')
                    else Some []) = Some delta).
  { intros alo' ahi' blo' bhi' Hf'.
    destruct (alo' <? ahi') eqn:E1; destruct (blo' <? bhi') eqn:E2; eauto.
    apply Nat.ltb_lt in E1, E2. apply IH; assumption. }
  pose proof (search_inside_ranges a b alo ahi blo bhi) as [H1 H2 H3].
  cbn [Difflib._fancy_replace_within].
  destruct (Difflib.ratio_lt _ _) eqn:R.
  - destruct (Difflib.eq_ij _) as [[eqi eqj] | ]; [ | eauto].
    simpl in H1.
    destruct (Hh alo eqi blo eqj ltac:(lia)) as [before ->].
    destruct (Hh (eqi + 1) ahi (eqj + 1) bhi ltac:(lia)) as [after ->].
    eauto.
  - destruct (Difflib.best_ij _) as [[best_i best_j] | ].
    + simpl in H2.
      destruct (Hh alo best_i blo best_j ltac:(lia)) as [before ->].
      destruct (Hh (best_i + 1) ahi (best_j + 1) bhi ltac:(lia)) as [after ->].
      eauto.
    + rewrite (H3 eq_refl) in R. discriminate R.
Qed.

Lemma opcodes_loop_replace (blocks : list Difflib.block) :
  forall (i j : nat) (answer : list Difflib.opcode) alo ahi blo bhi,
  (In (Difflib.Replace, alo, ahi, blo, bhi) answer -> alo < ahi /\ blo < bhi) ->
  In (Difflib.Replace, alo, ahi, blo, bhi) (Difflib.opcodes_loop blocks i j answer) ->
  alo < ahi /\ blo < bhi.
Proof.
  induction blocks as [| [[ai bj] size] blocks IH];
    intros i j answer alo ahi blo bhi Hans Hin; [auto | ].
  cbn [Difflib.opcodes_loop] in Hin.
  refine (IH _ _ _ alo ahi blo bhi _ Hin). clear Hin IH. intros Hin.
  assert (H1 : In (Difflib.Replace, alo, ahi, blo, bhi)
                 (if (i <? ai) && (j <? bj)
                  then answer ++ [(Difflib.Replace, i, ai, j, bj)]
                  else if i <? ai then answer ++ [(Difflib.Delete, i, ai, j, bj)]
                  else if j <? bj then answer ++ [(Difflib.Insert, i, ai, j, bj)]
                  else answer) ->
               alo < ahi /\ blo < bhi).
  { destruct ((i <? ai) && (j <? bj)) eqn:E.
    - intros H. apply in_app_or in H. destruct H as [H | [H | []]]; [auto | ].
      injection H as <- <- <- <-.
      apply andb_prop in E. destruct E as [E1 E2].
      apply Nat.ltb_lt in E1, E2. auto.
    - destruct (i <? ai); [ | destruct (j <? bj)]; intros H; auto;
        apply in_app_or in H; destruct H as [H | [H | []]]; auto; discriminate H. }
  destruct (size =? 0); [auto | ].
  apply in_app_or in Hin. destruct Hin as [H | [H | []]]; [auto | discriminate H].
Qed.

(** Every [replace] opcode that reaches [_fancy_replace] from [compare]
    gets its answer: the default for a missing one is never used. *)
Lemma compare_fancy_replace_total (a b : list string) (alo ahi blo bhi : nat) :
  In (Difflib.Replace, alo, ahi, blo, bhi)
     (Difflib.get_opcodes String.eqb Difflib.no_junk a b) ->
  exists delta,
    Difflib._fancy_replace_within ((ahi - alo) + (bhi - blo)) a alo ahi b blo bhi =
    Some delta.
Proof.
  intros Hin. unfold Difflib.get_opcodes in Hin.
  apply opcodes_loop_replace in Hin; [ | intros []].
  destruct Hin as [Ha Hb]. apply _fancy_replace_within_total; auto.
Qed.

(** ** [_line_iterator] reads a whole delta *)

Lemma shaped_app l1 l2 : shaped l1 -> shaped l2 -> shaped (l1 ++ l2).
Proof.
  intros H1 H2. induction H1; simpl; auto using shaped.
Qed.

Lemma shaped_head lines : shaped lines -> Difflib.peek lines 0 <> "?"%char.
Proof.
  intros H. inversion H as [| c t rest Hc | | | ]; subst; try discriminate.
  cbn [Difflib.peek nth_error]. intros ->. discriminate Hc.
Qed.

Lemma _dump_shaped tag x lo hi :
  Py.mem tag " -+" = true -> shaped (Difflib._dump (String tag "") x lo hi).
Proof.
  intros Ht. unfold Difflib._dump.
  induction (seq lo (hi - lo)) as [| i l IH]; simpl; auto using shaped.
Qed.

Lemma _plain_replace_shaped a alo ahi b blo bhi :
  shaped (Difflib._plain_replace a alo ahi b blo bhi).
Proof.
  unfold Difflib._plain_replace.
  destruct (bhi - blo <? ahi - alo); apply shaped_app; apply _dump_shaped; reflexivity.
Qed.

Lemma _qformat_shaped aline bline atags btags :
  shaped (Difflib._qformat aline bline atags btags).
Proof.
  unfold Difflib._qformat.
  destruct (String.eqb _ ""); destruct (String.eqb _ ""); cbn [app append];
    auto using shaped.
Qed.

Lemma _fancy_replace_within_shaped fuel : forall a alo ahi b blo bhi delta,
  Difflib._fancy_replace_within fuel a alo ahi b blo bhi = Some delta ->
  shaped delta.
Proof.
  induction fuel as [| fuel IH]; intros a alo ahi b blo bhi delta E; [discriminate E | ].
  assert (Hh : forall alo ahi blo bhi d,
            (if alo <? ahi
             then if blo <? bhi
                  then Difflib._fancy_replace_within fuel a alo ahi b blo bhi
                  else Some (Difflib._dump "-" a alo ahi)
             else if blo <? bhi then Some (Difflib._dump "+" b blo bhi)
                  else Some []) = Some d ->
            shaped d).
  { intros alo' ahi' blo' bhi' d.
    destruct (alo' <? ahi'), (blo' <? bhi'); intros H; eauto;
      injection H as <-; auto using shaped; apply _dump_shaped; reflexivity. }
  assert (Hy : forall best_i best_j (identical : bool) before after,
            match before, after with
            | Some before, Some after =>
                Some (before ++
                      (if identical then ["  " ++ nth best_i a ""]%string
                       else
                         let '(atags, btags) :=
                           Difflib.tag_strings
                             (Difflib.get_opcodes Ascii.eqb Difflib.IS_CHARACTER_JUNK
                                (Difflib.chars (nth best_i a ""))
                                (Difflib.chars (nth best_j b ""))) "" "" in
                         Difflib._qformat (nth best_i a "") (nth best_j b "")
                           atags btags) ++
                      after)
            | _, _ => None
            end = Some delta ->
            (forall d, before = Some d -> shaped d) ->
            (forall d, after = Some d -> shaped d) ->
            shaped delta).
  { intros best_i best_j identical [before | ] [after | ] H H1 H2; try discriminate H.
    injection H as <-.
    apply shaped_app; [auto | ]. apply shaped_app; [ | auto].
    destruct identical.
    - apply shaped_line; [reflexivity | apply shaped_end].
    - destruct (Difflib.tag_strings _ "" "") as [atags btags].
      apply _qformat_shaped. }
  cbn [Difflib._fancy_replace_within] in E.
  destruct (Difflib.ratio_lt _ _).
  - destruct (Difflib.eq_ij _) as [[eqi eqj] | ].
    + exact (Hy eqi eqj true _ _ E (Hh alo eqi blo eqj) (Hh (eqi + 1) ahi (eqj + 1) bhi)).
    + injection E as <-. apply _plain_replace_shaped.
  - destruct (Difflib.best_ij _) as [[best_i best_j] | ]; [ | discriminate E].
    exact (Hy best_i best_j false _ _ E
             (Hh alo best_i blo best_j) (Hh (best_i + 1) ahi (best_j + 1) bhi)).
Qed.

Lemma compare_shaped a b : shaped (Difflib.compare a b).
Proof.
  unfold Difflib.compare.
  generalize (Difflib.get_opcodes String.eqb Difflib.no_junk a b) as ops.
  induction ops as [| [[[[t alo] ahi] blo] bhi] ops IH]; [apply shaped_end | ].
  cbn [flat_map]. apply shaped_app; [ | exact IH].
  destruct t; try (apply _dump_shaped; reflexivity).
  unfold Difflib._fancy_replace.
  destruct (Difflib._fancy_replace_within _ a alo ahi b blo bhi) eqn:E.
  - eapply _fancy_replace_within_shaped. exact E.
  - apply shaped_end.
Qed.

Lemma _make_line_rest lines key side num_lines :
  snd (fst (Difflib._make_line lines key side num_lines)) =
  match key with
  | Some k => if Ascii.eqb k "?" then tl (tl lines) else tl lines
  | None => tl lines
  end.
Proof.
  unfold Difflib._make_line.
  destruct key as [k | ]; [destruct (Ascii.eqb k "?") | ];
    destruct lines as [| l1 [| l2 r]]; reflexivity.
Qed.

Lemma length_tl {A : Type} (l : list A) : List.length (tl l) <= List.length l.
Proof.
  destruct l; simpl; lia.
Qed.

(** A line taken alone leaves a delta of the same kind, unless it opens a
    group. *)
Lemma shaped_tl lines :
  shaped lines ->
  Py.startswith (Difflib.lookahead lines) "-?+" = false ->
  Py.startswith (Difflib.lookahead lines) "-+?" = false ->
  shaped (tl lines).
Proof.
  intros H Q1 Q2. inversion H; subst; cbn [tl].
  - apply shaped_end.
  - assumption.
  - lazy in Q1. discriminate Q1.
  - lazy in Q1. discriminate Q1.
  - lazy in Q2. discriminate Q2.
Qed.

Lemma shaped_tl_new lines :
  shaped lines ->
  Py.startswith (Difflib.lookahead lines) "-+?" = true ->
  shaped (tl (tl (tl lines))).
Proof.
  intros H Q. inversion H as [| c t rest Hc Hr | | | ]; subst; cbn [tl].
  - discriminate Q.
  - exfalso. peeks Q. cbn [Difflib.peek nth_error] in P, P0, Q.
    change (Difflib.peek rest 0 = "+"%char) in P0.
    change (Difflib.peek rest 1 = "?"%char) in Q.
    inversion Hr as [| c' t' rest' Hc' Hr' | | | ]; subst; try discriminate P0.
    apply (shaped_head rest' Hr'). exact Q.
  - lazy in Q. discriminate Q.
  - lazy in Q. discriminate Q.
  - assumption.
Qed.

Lemma shaped_tl_both lines :
  shaped lines ->
  Py.startswith (Difflib.lookahead lines) "-?+?" = true ->
  shaped (tl (tl (tl (tl lines)))).
Proof.
  intros H Q. inversion H as [| c t rest Hc Hr | | ? ? ? rest Hr | ]; subst;
    cbn [tl].
  - discriminate Q.
  - exfalso. peeks Q. apply (shaped_head rest Hr). exact P0.
  - assumption.
  - exfalso. peeks Q. apply (shaped_head rest Hr). exact Q.
  - lazy in Q. discriminate Q.
Qed.

Lemma shaped_tl_old lines :
  shaped lines ->
  Py.startswith (Difflib.lookahead lines) "-?+?" = false ->
  Py.startswith (Difflib.lookahead lines) "-?+" = true ->
  shaped (tl (tl (tl lines))).
Proof.
  intros H Q1 Q. inversion H as [| c t rest Hc Hr | | | ]; subst; cbn [tl].
  - discriminate Q.
  - exfalso. peeks Q. apply (shaped_head rest Hr). exact P0.
  - lazy in Q1. discriminate Q1.
  - assumption.
  - lazy in Q. discriminate Q.
Qed.

(** The pattern of the goal is not met when the pattern of [B] is. *)
Ltac other_pattern B :=
  match goal with
  | |- ?X = false =>
      let Q := fresh "Q" in
      destruct X eqn:Q; [exfalso; peeks Q; peeks B; congruence | reflexivity]
  end.

(** Name the result of the next [_make_line] and the lines it leaves. *)
Ltac make_line :=
  match goal with
  | |- context [Difflib._make_line ?L ?K ?S ?N] =>
      let R := fresh "R" in
      let fl := fresh "line" in
      let ls := fresh "lines" in
      let nl := fresh "num_lines" in
      pose proof (_make_line_rest L K S N) as R;
      destruct (Difflib._make_line L K S N) as [[fl ls] nl];
      simpl in R; subst ls
  end.

Lemma _line_iterator_within_total fuel : forall lines num_lines pending,
  shaped lines ->
  List.length lines < fuel ->
  exists rows,
    Difflib._line_iterator_within fuel lines num_lines pending = Some rows.
Proof.
  induction fuel as [| fuel IH]; intros lines num_lines pending Hs Hl; [lia | ].
  assert (Next : forall lines' num_lines' pending' row,
            shaped lines' -> List.length lines' < fuel ->
            exists rows,
              Difflib.yield row
                (Difflib._line_iterator_within fuel lines' num_lines' pending') =
              Some rows).
  { intros lines' num_lines' pending' row Hs' Hl'.
    destruct (IH lines' num_lines' pending' Hs' Hl') as [rest ->].
    simpl. eauto. }
  assert (Blanks : forall n (rest : option (list Difflib.half_row)),
            (exists rows, rest = Some rows) ->
            exists rows, option_map (app (Difflib.catch_up n)) rest = Some rows).
  { intros n rest [rows ->]. simpl. eauto. }
  cbn [Difflib._line_iterator_within].
  destruct (Py.startswith (Difflib.lookahead lines) "X") eqn:BX; [eauto | ].
  destruct lines as [| l0 r0]; [discriminate BX | ].
  simpl in Hl.
  pose proof (length_tl r0) as L1.
  pose proof (length_tl (tl r0)) as L2.
  pose proof (length_tl (tl (tl r0))) as L3.
  destruct (Py.startswith (Difflib.lookahead (l0 :: r0)) "-?+?") eqn:B1.
  { apply shaped_tl_both in Hs; [ | exact B1]. cbn [tl] in Hs.
    make_line. make_line. apply Next; [exact Hs | lia]. }
  destruct (Py.startswith (Difflib.lookahead (l0 :: r0)) "--++") eqn:B2.
  { apply shaped_tl in Hs; [ | other_pattern B2 | other_pattern B2]. cbn [tl] in Hs.
    make_line. apply Next; [exact Hs | lia]. }
  destruct (Py.startswith (Difflib.lookahead (l0 :: r0)) "--?+" ||
            Py.startswith (Difflib.lookahead (l0 :: r0)) "--+" ||
            Py.startswith (Difflib.lookahead (l0 :: r0)) "- ") eqn:B3.
  { assert (Hs' : shaped r0).
    { apply orb_true_iff in B3. destruct B3 as [B3 | B3];
        [apply orb_true_iff in B3; destruct B3 as [B3 | B3] | ];
        (apply shaped_tl in Hs; [exact Hs | other_pattern B3 | other_pattern B3]). }
    make_line. apply Blanks, Next; [exact Hs' | lia]. }
  destruct (Py.startswith (Difflib.lookahead (l0 :: r0)) "-+?") eqn:B4.
  { apply shaped_tl_new in Hs; [ | exact B4]. cbn [tl] in Hs.
    make_line. make_line. apply Next; [exact Hs | lia]. }
  destruct (Py.startswith (Difflib.lookahead (l0 :: r0)) "-?+") eqn:B5.
  { apply shaped_tl_old in Hs; [ | exact B1 | exact B5]. cbn [tl] in Hs.
    make_line. make_line. apply Next; [exact Hs | lia]. }
  pose proof (shaped_tl _ Hs B5 B4) as Hs'. cbn [tl] in Hs'.
  destruct (Py.startswith (Difflib.lookahead (l0 :: r0)) "-") eqn:B6.
  { make_line. apply Next; [exact Hs' | lia]. }
  destruct (Py.startswith (Difflib.lookahead (l0 :: r0)) "+--") eqn:B7.
  { make_line. apply Next; [exact Hs' | lia]. }
  destruct (Py.startswith (Difflib.lookahead (l0 :: r0)) "+ " ||
            Py.startswith (Difflib.lookahead (l0 :: r0)) "+-") eqn:B8.
  { make_line. apply Blanks, Next; [exact Hs' | lia]. }
  destruct (Py.startswith (Difflib.lookahead (l0 :: r0)) "+") eqn:B9.
  { make_line. apply Next; [exact Hs' | lia]. }
  destruct (Py.startswith (Difflib.lookahead (l0 :: r0)) " ") eqn:B10.
  { make_line. make_line. apply Next; [exact Hs' | lia]. }
  exfalso. inversion Hs as [| c t rest Hc Hr | | | ]; subst;
    try (lazy in B6; discriminate B6).
  cbn [Difflib.lookahead Difflib.peek nth_error Py.startswith] in B6, B9, B10.
  rewrite andb_true_r in B6, B9, B10.
  cbn [Py.mem] in Hc. rewrite B10, B6, B9 in Hc. discriminate Hc.
Qed.

(** [_line_iterator] reads every delta [ndiff] hands it to the end: the
    default for a missing answer is never used by [_mdiff]. *)
Lemma _line_iterator_total (a b : list string) :
  exists rows,
    Difflib._line_iterator_within (S (List.length (Difflib.ndiff a b)))
      (Difflib.ndiff a b) (0, 0) 0%Z = Some rows.
Proof.
  apply _line_iterator_within_total; [apply compare_shaped | lia].
Qed.
(** ** The matcher finds blocks of equal elements *)

Section Matcher.

Context {A : Type}.
Variable eqb : A -> A -> bool.
Hypothesis eqb_eq : forall x y, eqb x y = true -> x = y.
Variable isjunk : A -> bool.
Variables a b : list A.

Lemma indices_spec (x : A) (l : list A) :
  forall i0 j, In j (Difflib.indices eqb x l i0) ->
  i0 <= j /\ nth_error l (j - i0) = Some x.
Proof.
  induction l as [| y l IH]; intros i0 j Hin; [destruct Hin | ].
  cbn [Difflib.indices] in Hin.
  assert (Hrest : In j (Difflib.indices eqb x l (S i0)) ->
                  i0 <= j /\ nth_error (y :: l) (j - i0) = Some x).
  { intros H. apply IH in H. destruct H as [H1 H2]. split; [lia | ].
    replace (j - i0) with (S (j - S i0)) by lia. exact H2. }
  destruct (eqb y x) eqn:E; [ | auto].
  destruct Hin as [<- | Hin]; [ | auto].
  split; [lia | ]. rewrite Nat.sub_diag. simpl. f_equal. apply eqb_eq, E.
Qed.

Lemma b2j_spec (x : A) (j : nat) :
  In j (Difflib.b2j eqb isjunk b x) -> nth_error b j = Some x.
Proof.
  unfold Difflib.b2j. intros Hin.
  assert (H : In j (Difflib.indices eqb x b 0)).
  { destruct (isjunk x); [destruct Hin | ].
    destruct ((200 <=? List.length b) && _); [destruct Hin | exact Hin]. }
  apply indices_spec in H. destruct H as [_ H].
  rewrite Nat.sub_0_r in H. exact H.
Qed.

Lemma j2len_get_in (j2len : list (nat * nat)) (j : nat) :
  Difflib.j2len_get j2len j = 0 \/ In (j, Difflib.j2len_get j2len j) j2len.
Proof.
  unfold Difflib.j2len_get.
  destruct (find _ j2len) as [[j' k] | ] eqn:E; [ | auto].
  right. apply find_some in E. destruct E as [Hin E]. simpl in E.
  apply Nat.eqb_eq in E. subst j'. exact Hin.
Qed.

Lemma agree_one (i j : nat) (x : A) :
  nth_error a i = Some x -> nth_error b j = Some x -> agree a b i j 1.
Proof.
  intros Ha Hb d Hd. assert (d = 0) by lia. subst d.
  rewrite !Nat.add_0_r. eauto.
Qed.

Lemma agree_snoc (i j k : nat) (x : A) :
  agree a b i j k ->
  nth_error a (i + k) = Some x -> nth_error b (j + k) = Some x ->
  agree a b i j (S k).
Proof.
  intros H Ha Hb d Hd.
  destruct (Nat.eq_dec d k) as [-> | Hne]; [eauto | ].
  apply H. lia.
Qed.

Lemma agree_cons (i j k : nat) (x : A) :
  agree a b (S i) (S j) k ->
  nth_error a i = Some x -> nth_error b j = Some x ->
  agree a b i j (S k).
Proof.
  intros H Ha Hb [| d] Hd.
  - rewrite !Nat.add_0_r. eauto.
  - destruct (H d ltac:(lia)) as (y & H1 & H2).
    exists y. rewrite <- !plus_n_Sm. auto.
Qed.

Lemma scan_row_ok (alo ahi blo bhi i : nat) (x : A) (j2len : list (nat * nat))
  (js : list nat) :
  forall (newj2len : list (nat * nat)) (best : Difflib.block),
  alo <= i < ahi ->
  nth_error a i = Some x ->
  (forall j, In j js -> nth_error b j = Some x) ->
  row_ok a b alo blo bhi i j2len ->
  row_ok a b alo blo bhi (S i) newj2len ->
  block_in a b alo ahi blo bhi best ->
  row_ok a b alo blo bhi (S i)
    (fst (Difflib.scan_row js i blo bhi j2len newj2len best)) /\
  block_in a b alo ahi blo bhi
    (snd (Difflib.scan_row js i blo bhi j2len newj2len best)).
Proof.
  intros newj2len best Hi Hx. revert newj2len best.
  induction js as [| j js IH]; intros newj2len best Hjs Hold Hnew Hbest;
    cbn [Difflib.scan_row].
  - split; assumption.
  - assert (Hjs' : forall j', In j' js -> nth_error b j' = Some x)
      by (intros j' H'; apply Hjs; right; exact H').
    assert (Hj : nth_error b j = Some x) by (apply Hjs; left; reflexivity).
    destruct (j <? blo) eqn:E1; [apply IH; assumption | ].
    destruct (bhi <=? j) eqn:E2; [split; assumption | ].
    apply Nat.ltb_ge in E1. apply Nat.leb_gt in E2.
    destruct best as [[besti bestj] bestsize].
    set (k' := match j with O => 0 | S j' => Difflib.j2len_get j2len j' end).
    assert (Hk : 1 <= k' + 1 /\ k' + 1 <= S i - alo /\ k' + 1 <= S j - blo /\
                 agree a b (S i - (k' + 1)) (S j - (k' + 1)) (k' + 1)).
    { assert (H0 : agree a b (S i - 1) (S j - 1) 1).
      { apply (agree_one _ _ x).
        - replace (S i - 1) with i by lia. exact Hx.
        - replace (S j - 1) with j by lia. exact Hj. }
      destruct j as [| j'];
        [subst k'; cbn [Nat.add]; split; [lia | ]; split; [lia | ];
         split; [lia | exact H0] | ].
      destruct (j2len_get_in j2len j') as [Hz | Hin].
      - subst k'. rewrite Hz. cbn [Nat.add]. split; [lia | ]. split; [lia | ].
        split; [lia | exact H0].
      - subst k'. apply Hold in Hin.
        destruct Hin as (H1 & H2 & H3 & H4 & H5).
        set (k := Difflib.j2len_get j2len j') in *.
        split; [lia | ]. split; [lia | ]. split; [lia | ].
        replace (k + 1) with (S k) by lia.
        replace (S i - S k) with (i - k) by lia.
        replace (S (S j') - S k) with (S j' - k) by lia.
        apply (agree_snoc _ _ _ x); [exact H5 | | ].
        + replace (i - k + k) with i by lia. exact Hx.
        + replace (S j' - k + k) with (S j') by lia. exact Hj. }
    destruct Hk as (K1 & K2 & K3 & K4).
    apply IH; try assumption.
    + intros j0 k0 [H | H]; [ | apply Hnew, H].
      injection H as <- <-. repeat split; try lia. exact K4.
    + destruct (bestsize <? k' + 1); [ | assumption].
      unfold block_in; cbn [fst snd]. rewrite !Nat.add_1_r in *.
      repeat split; try lia. exact K4.
Qed.

Lemma scan_rows_ok (alo ahi blo bhi : nat) (n : nat) :
  forall (i0 : nat) (j2len : list (nat * nat)) (best : Difflib.block),
  alo <= i0 -> i0 + n <= ahi ->
  row_ok a b alo blo bhi i0 j2len ->
  block_in a b alo ahi blo bhi best ->
  block_in a b alo ahi blo bhi
    (Difflib.scan_rows eqb isjunk a b (seq i0 n) blo bhi j2len best).
Proof.
  induction n as [| n IH]; intros i0 j2len best Hlo Hhi Hrow Hbest;
    cbn [seq Difflib.scan_rows].
  - assumption.
  - assert (Hnil : row_ok a b alo blo bhi (S i0) []) by (intros j k []).
    destruct (nth_error a i0) as [x | ] eqn:Hx.
    + destruct (scan_row_ok alo ahi blo bhi i0 x j2len
                  (Difflib.b2j eqb isjunk b x) [] best
                  ltac:(lia) Hx (b2j_spec x) Hrow Hnil Hbest) as [H1 H2].
      destruct (Difflib.scan_row _ i0 blo bhi j2len [] best) as [newj2len best'].
      apply IH; try assumption; lia.
    + cbn [Difflib.scan_row]. apply IH; try assumption; lia.
Qed.

Lemma same_at_spec (junk : bool) (i j : nat) :
  Difflib.same_at eqb isjunk a b junk i j = true ->
  exists x, nth_error a i = Some x /\ nth_error b j = Some x.
Proof.
  unfold Difflib.same_at.
  destruct (nth_error a i) as [x | ]; [ | discriminate].
  destruct (nth_error b j) as [y | ]; [ | discriminate].
  intros H. apply andb_prop in H. destruct H as [_ H].
  apply eqb_eq in H. subst y. eauto.
Qed.

Lemma extend_back_ok (junk : bool) (alo ahi blo bhi : nat) :
  forall (besti bestj bestsize : nat),
  block_in a b alo ahi blo bhi (besti, bestj, bestsize) ->
  block_in a b alo ahi blo bhi
    (Difflib.extend_back eqb isjunk a b junk alo blo besti bestj bestsize).
Proof.
  induction besti as [| i' IH]; intros bestj bestsize H; cbn [Difflib.extend_back].
  - assumption.
  - destruct bestj as [| j']; [assumption | ].
    destruct ((alo <? S i') && (blo <? S j') &&
              Difflib.same_at eqb isjunk a b junk i' j') eqn:E; [ | assumption].
    apply IH. apply andb_prop in E. destruct E as [E E3].
    apply andb_prop in E. destruct E as [E1 E2].
    apply Nat.ltb_lt in E1, E2. apply same_at_spec in E3.
    destruct E3 as (x & Hx & Hy).
    destruct H as (H1 & H2 & H3 & H4 & H5). cbn [fst snd] in *.
    unfold block_in; cbn [fst snd].
    repeat split; try lia. apply (agree_cons _ _ _ x); assumption.
Qed.

Lemma extend_fwd_ok (junk : bool) (alo ahi blo bhi besti bestj : nat) (room : nat) :
  forall (bestsize : nat),
  block_in a b alo ahi blo bhi (besti, bestj, bestsize) ->
  block_in a b alo ahi blo bhi
    (besti, bestj,
     Difflib.extend_fwd eqb isjunk a b room junk ahi bhi besti bestj bestsize).
Proof.
  induction room as [| room IH]; intros bestsize H; cbn [Difflib.extend_fwd].
  - assumption.
  - destruct ((besti + bestsize <? ahi) && (bestj + bestsize <? bhi) &&
              Difflib.same_at eqb isjunk a b junk (besti + bestsize) (bestj + bestsize))
      eqn:E; [ | assumption].
    apply IH. apply andb_prop in E. destruct E as [E E3].
    apply andb_prop in E. destruct E as [E1 E2].
    apply Nat.ltb_lt in E1, E2. apply same_at_spec in E3.
    destruct E3 as (x & Hx & Hy).
    destruct H as (H1 & H2 & H3 & H4 & H5). cbn [fst snd] in *.
    unfold block_in; cbn [fst snd].
    repeat split; try lia. apply (agree_snoc _ _ _ x); assumption.
Qed.

Lemma find_longest_match_ok (alo ahi blo bhi : nat) :
  alo <= ahi -> blo <= bhi ->
  block_in a b alo ahi blo bhi
    (Difflib.find_longest_match eqb isjunk a b alo ahi blo bhi).
Proof.
  intros Ha Hb. unfold Difflib.find_longest_match.
  assert (H0 : block_in a b alo ahi blo bhi
                 (Difflib.scan_rows eqb isjunk a b (seq alo (ahi - alo)) blo bhi []
                    (alo, blo, 0))).
  { apply scan_rows_ok; try lia.
    - intros j k [].
    - unfold block_in; cbn [fst snd]. repeat split; try lia. intros d Hd. lia. }
  destruct (Difflib.scan_rows _ _ _ _ _ _ _ _ _) as [[i0 j0] k0].
  pose proof (extend_back_ok false alo ahi blo bhi i0 j0 k0 H0) as H1.
  destruct (Difflib.extend_back _ _ _ _ false _ _ _ _ _) as [[i1 j1] k1].
  pose proof (extend_fwd_ok false alo ahi blo bhi i1 j1 (ahi - (i1 + k1)) k1 H1) as H2.
  set (k2 := Difflib.extend_fwd _ _ _ _ _ false _ _ _ _ _) in *.
  pose proof (extend_back_ok true alo ahi blo bhi i1 j1 k2 H2) as H3.
  destruct (Difflib.extend_back _ _ _ _ true _ _ _ _ _) as [[i3 j3] k3].
  apply extend_fwd_ok, H3.
Qed.

End Matcher.
(** ** The matching blocks form a chain *)

Lemma before_refl p : before p p.
Proof. split; lia. Qed.

Lemma before_trans p q r : before p q -> before q r -> before p r.
Proof. intros [H1 H2] [H3 H4]. split; lia. Qed.

Lemma chain_before l : forall lo hi, chain lo l hi -> before lo hi.
Proof.
  induction l as [| e l IH]; intros lo hi H; [exact H | ].
  destruct H as (H1 & H2 & H3).
  eapply before_trans; [exact H1 | ]. eapply before_trans; [exact H2 | ].
  apply IH, H3.
Qed.

Lemma chain_lower l : forall lo lo' hi,
  before lo' lo -> chain lo l hi -> chain lo' l hi.
Proof.
  destruct l as [| e l]; intros lo lo' hi Hb H.
  - eapply before_trans; eassumption.
  - destruct H as (H1 & H2 & H3). split; [ | split; assumption].
    eapply before_trans; eassumption.
Qed.

Lemma chain_raise l : forall lo hi hi',
  before hi hi' -> chain lo l hi -> chain lo l hi'.
Proof.
  induction l as [| e l IH]; intros lo hi hi' Hb H.
  - eapply before_trans; eassumption.
  - destruct H as (H1 & H2 & H3). split; [assumption | split; [assumption | ]].
    eapply IH; eassumption.
Qed.

Lemma chain_app l1 l2 lo mid hi :
  chain lo l1 mid -> chain mid l2 hi -> chain lo (l1 ++ l2) hi.
Proof.
  revert lo. induction l1 as [| e l1 IH]; intros lo H1 H2; simpl.
  - eapply chain_lower; eassumption.
  - destruct H1 as (A1 & A2 & A3). auto.
Qed.

Lemma chain_split l1 l2 : forall lo hi,
  chain lo (l1 ++ l2) hi -> exists mid, chain lo l1 mid /\ chain mid l2 hi.
Proof.
  induction l1 as [| e l1 IH]; intros lo hi H; simpl in H.
  - exists lo. split; [apply before_refl | exact H].
  - destruct H as (A1 & A2 & A3). destruct (IH _ _ A3) as (mid & B1 & B2).
    exists mid. simpl. auto.
Qed.

Lemma founds_app l1 l2 : founds (l1 ++ l2) = founds l1 ++ founds l2.
Proof. apply flat_map_app. Qed.

Lemma pendings_app l1 l2 : pendings (l1 ++ l2) = pendings l1 ++ pendings l2.
Proof. apply flat_map_app. Qed.

Lemma pendings_split r l :
  In r (pendings l) -> exists l1 l2, l = l1 ++ Pending r :: l2.
Proof.
  intros H. unfold pendings in H. apply in_flat_map in H.
  destruct H as (e & He & Hr). destruct e as [blk | r']; [destruct Hr | ].
  destruct Hr as [-> | []]. apply in_split, He.
Qed.

Lemma no_pendings l : pendings l = [] -> l = map Found (founds l).
Proof.
  induction l as [| [blk | r] l IH]; intros H; simpl in *.
  - reflexivity.
  - f_equal. apply IH, H.
  - discriminate H.
Qed.

Section Blocks.

Context {A : Type}.
Variable eqb : A -> A -> bool.
Hypothesis eqb_eq : forall x y, eqb x y = true -> x = y.
Variable isjunk : A -> bool.
Variables a b : list A.

Lemma blocks_loop_chain (fuel : nat) :
  forall (queue : list (nat * nat * nat * nat)) (matching_blocks : list Difflib.block)
         (found : list Difflib.block) (l : list entry) (lo hi : nat * nat),
  chain lo l hi ->
  Forall (entry_good a b) l ->
  Permutation (founds l) matching_blocks ->
  Permutation (pendings l) queue ->
  Difflib.blocks_loop eqb isjunk a b fuel queue matching_blocks = Some found ->
  exists blocks,
    blocks_chain lo blocks hi /\ Forall (block_good a b) blocks /\
    Permutation blocks found.
Proof.
  induction fuel as [| fuel IH]; intros queue mb found l lo hi Hc Hg Pf Pq E.
  - destruct queue as [| [[[alo ahi] blo] bhi] queue]; [ | discriminate E].
    injection E as <-. apply Permutation_sym, Permutation_nil in Pq.
    exists (founds l). unfold blocks_chain. rewrite <- (no_pendings l Pq).
    split; [exact Hc | ]. split; [ | exact Pf].
    apply Forall_forall. intros blk Hin. unfold founds in Hin.
    apply in_flat_map in Hin. destruct Hin as (e & He & Hb).
    destruct e as [blk' | r]; [ | destruct Hb]. destruct Hb as [-> | []].
    rewrite Forall_forall in Hg. exact (Hg _ He).
  - destruct queue as [| [[[alo ahi] blo] bhi] queue].
    { injection E as <-. apply Permutation_sym, Permutation_nil in Pq.
      exists (founds l). unfold blocks_chain. rewrite <- (no_pendings l Pq).
      split; [exact Hc | ]. split; [ | exact Pf].
      apply Forall_forall. intros blk Hin. unfold founds in Hin.
      apply in_flat_map in Hin. destruct Hin as (e & He & Hb).
      destruct e as [blk' | r]; [ | destruct Hb]. destruct Hb as [-> | []].
      rewrite Forall_forall in Hg. exact (Hg _ He). }
    assert (Hin : In (alo, ahi, blo, bhi) (pendings l)).
    { eapply Permutation_in; [apply Permutation_sym, Pq | left; reflexivity]. }
    destruct (pendings_split _ _ Hin) as (l1 & l2 & ->).
    destruct (chain_split _ _ _ _ Hc) as (mid & C1 & C2).
    destruct C2 as (C2 & C3 & C4). cbn [entry_lo entry_hi] in C2, C3, C4.
    destruct C3 as [C3a C3b]. cbn [fst snd] in C3a, C3b.
    apply Forall_app in Hg. destruct Hg as [G1 G2].
    inversion G2 as [| ? ? _ G3]; subst.
    rewrite founds_app in Pf. cbn [founds flat_map app] in Pf.
    fold (founds l2) in Pf.
    rewrite pendings_app in Pq. cbn [pendings flat_map app] in Pq.
    fold (pendings l2) in Pq.
    apply Permutation_sym, Permutation_cons_app_inv, Permutation_sym in Pq.
    cbn [Difflib.blocks_loop] in E.
    pose proof (find_longest_match_ok eqb eqb_eq isjunk a b alo ahi blo bhi C3a C3b)
      as Hm.
    destruct (Difflib.find_longest_match eqb isjunk a b alo ahi blo bhi)
      as [[i j] k].
    destruct Hm as (M1 & M2 & M3 & M4 & M5). cbn [fst snd] in M1, M2, M3, M4, M5.
    destruct (k =? 0) eqn:Ek.
    + apply (IH queue mb found (l1 ++ l2) lo hi); try assumption.
      * apply (chain_app _ _ _ mid); [exact C1 | ].
        apply (chain_lower _ (ahi, bhi)); [ | exact C4].
        eapply before_trans; [exact C2 | split; assumption].
      * apply Forall_app. split; assumption.
      * rewrite founds_app. exact Pf.
      * rewrite pendings_app. exact Pq.
    + apply Nat.eqb_neq in Ek.
      set (c1 := (alo <? i) && (blo <? j)) in *.
      set (c2 := (i + k <? ahi) && (j + k <? bhi)) in *.
      set (lpart := if c1 then [Pending (alo, i, blo, j)] else []).
      set (rpart := if c2 then [Pending (i + k, ahi, j + k, bhi)] else []).
      refine (IH _ _ found (l1 ++ lpart ++ Found (i, j, k) :: rpart ++ l2) lo hi
                _ _ _ _ E).
      * apply (chain_app _ _ _ mid); [exact C1 | ].
        apply (chain_app _ _ _ (i, j)).
        { unfold lpart. destruct c1; simpl.
          - split; [exact C2 | ]. split; split; simpl; lia.
          - eapply before_trans; [exact C2 | split; simpl; lia]. }
        split; [apply before_refl | ]. split; [split; simpl; lia | ].
        cbn [entry_hi].
        apply (chain_app _ _ _ (ahi, bhi)); [ | exact C4].
        unfold rpart. destruct c2; simpl.
        { split; [apply before_refl | ]. split; split; simpl; lia. }
        split; simpl; lia.
      * apply Forall_app. split; [exact G1 | ].
        apply Forall_app. split.
        { unfold lpart. destruct c1; repeat constructor. }
        constructor; [split; simpl; [lia | exact M5] | ].
        apply Forall_app. split; [ | exact G3].
        unfold rpart. destruct c2; repeat constructor.
      * assert (Hl : founds lpart = []) by (unfold lpart; destruct c1; reflexivity).
        assert (Hr : founds rpart = []) by (unfold rpart; destruct c2; reflexivity).
        rewrite !founds_app. cbn [founds flat_map app]. fold (founds l2).
        fold (founds rpart). rewrite founds_app.
        fold (founds rpart). rewrite Hl, Hr. cbn [app].
        apply Permutation_sym.
        eapply Permutation_trans; [apply Permutation_app_comm | ].
        cbn [app]. apply Permutation_cons_app, Permutation_sym, Pf.
      * assert (Hl : pendings lpart = if c1 then [(alo, i, blo, j)] else [])
          by (unfold lpart; destruct c1; reflexivity).
        assert (Hr : pendings rpart = if c2 then [(i + k, ahi, j + k, bhi)] else [])
          by (unfold rpart; destruct c2; reflexivity).
        rewrite !pendings_app. cbn [pendings flat_map app]. fold (pendings l2).
        fold (pendings rpart). rewrite pendings_app. fold (pendings rpart).
        rewrite Hl, Hr.
        destruct c1; destruct c2; cbn [app].
        -- apply Permutation_sym.
           replace (pendings l1 ++
                    (alo, i, blo, j) :: (i + k, ahi, j + k, bhi) :: pendings l2)
             with ((pendings l1 ++ [(alo, i, blo, j)]) ++
                   (i + k, ahi, j + k, bhi) :: pendings l2)
             by (rewrite <- app_assoc; reflexivity).
           apply Permutation_cons_app. rewrite <- app_assoc. cbn [app].
           apply Permutation_cons_app, Permutation_sym, Pq.
        -- apply Permutation_sym, Permutation_cons_app, Permutation_sym, Pq.
        -- apply Permutation_sym, Permutation_cons_app, Permutation_sym, Pq.
        -- exact Pq.
Qed.

Lemma insert_block_perm (x : Difflib.block) (l : list Difflib.block) :
  Permutation (x :: l) (Difflib.insert_block x l).
Proof.
  induction l as [| y l IH]; cbn [Difflib.insert_block]; [apply Permutation_refl | ].
  destruct (Difflib.block_leb x y); [apply Permutation_refl | ].
  eapply Permutation_trans; [apply perm_swap | ]. apply perm_skip, IH.
Qed.

Lemma sort_blocks_perm (l : list Difflib.block) :
  Permutation l (Difflib.sort_blocks l).
Proof.
  unfold Difflib.sort_blocks. induction l as [| x l IH]; cbn [fold_right].
  - apply Permutation_refl.
  - eapply Permutation_trans; [apply perm_skip, IH | apply insert_block_perm].
Qed.

Lemma block_leb_key (x y : Difflib.block) :
  if Difflib.block_leb x y then key_le x y else key_le y x.
Proof.
  destruct x as [[i1 j1] k1]. destruct y as [[i2 j2] k2].
  unfold Difflib.block_leb, key_le. cbn [fst snd].
  destruct (i1 <? i2) eqn:E1; cbn [orb].
  - apply Nat.ltb_lt in E1. lia.
  - apply Nat.ltb_ge in E1. destruct (i1 =? i2) eqn:E2; cbn [andb].
    + apply Nat.eqb_eq in E2. destruct (_ || _); lia.
    + exact E1.
Qed.

Lemma insert_block_sorted (x : Difflib.block) (l : list Difflib.block) :
  StronglySorted key_le l -> StronglySorted key_le (Difflib.insert_block x l).
Proof.
  induction l as [| y l IH]; intros H; cbn [Difflib.insert_block].
  - repeat constructor.
  - inversion H as [| ? ? Hs Hf]; subst.
    pose proof (block_leb_key x y) as K.
    destruct (Difflib.block_leb x y).
    + constructor; [exact H | ]. constructor; [exact K | ].
      eapply Forall_impl; [ | exact Hf]. unfold key_le in *. intros z Hz. lia.
    + constructor; [apply IH, Hs | ].
      eapply Permutation_Forall; [apply insert_block_perm | ].
      constructor; assumption.
Qed.

Lemma sort_blocks_sorted (l : list Difflib.block) :
  StronglySorted key_le (Difflib.sort_blocks l).
Proof.
  unfold Difflib.sort_blocks. induction l as [| x l IH]; cbn [fold_right].
  - constructor.
  - apply insert_block_sorted, IH.
Qed.

Lemma chain_keys (blocks : list Difflib.block) :
  forall lo hi,
  blocks_chain lo blocks hi ->
  Forall (block_good a b) blocks ->
  StronglySorted key_lt blocks /\
  Forall (fun blk => fst lo <= fst (fst blk)) blocks.
Proof.
  induction blocks as [| [[i j] k] blocks IH]; intros lo hi Hc Hg.
  - split; constructor.
  - destruct Hc as (C1 & C2 & C3). inversion Hg as [| ? ? [G1 _] G2]; subst.
    cbn [entry_lo entry_hi fst snd] in *.
    destruct (IH _ _ C3 G2) as [S1 S2]. cbn [fst] in S2.
    destruct C1 as [C1 _]. cbn [fst] in C1.
    split.
    + constructor; [exact S1 | ].
      eapply Forall_impl; [ | exact S2]. unfold key_lt. cbn [fst]. intros z Hz. lia.
    + constructor; [exact C1 | ].
      eapply Forall_impl; [ | exact S2]. cbn [fst]. intros z Hz. lia.
Qed.

Lemma key_lt_inj (l : list Difflib.block) :
  StronglySorted key_lt l ->
  forall x y, In x l -> In y l -> fst (fst x) = fst (fst y) -> x = y.
Proof.
  induction 1 as [| z l Hs IH Hf]; intros x y Hx Hy E; [destruct Hx | ].
  rewrite Forall_forall in Hf. unfold key_lt in Hf.
  destruct Hx as [-> | Hx]; destruct Hy as [-> | Hy]; auto.
  - specialize (Hf _ Hy). lia.
  - specialize (Hf _ Hx). lia.
Qed.

Lemma key_lt_NoDup (l : list Difflib.block) : StronglySorted key_lt l -> NoDup l.
Proof.
  induction 1 as [| z l Hs IH Hf]; constructor; [ | exact IH].
  intros Hin. rewrite Forall_forall in Hf. specialize (Hf _ Hin).
  unfold key_lt in Hf. lia.
Qed.

Lemma key_le_lt (l : list Difflib.block) :
  StronglySorted key_le l -> NoDup l ->
  (forall x y, In x l -> In y l -> fst (fst x) = fst (fst y) -> x = y) ->
  StronglySorted key_lt l.
Proof.
  induction 1 as [| z l Hs IH Hf]; intros Hn Hinj; [constructor | ].
  inversion Hn as [| ? ? Hz Hn']; subst.
  constructor.
  - apply IH; [exact Hn' | ]. intros x y Hx Hy. apply Hinj; right; assumption.
  - rewrite Forall_forall in *. intros y Hy. specialize (Hf _ Hy).
    unfold key_le in Hf. unfold key_lt.
    destruct (Nat.eq_dec (fst (fst z)) (fst (fst y))) as [E | E]; [ | lia].
    exfalso. apply Hz. rewrite (Hinj z y); auto; [left; reflexivity | right; exact Hy].
Qed.

Lemma key_lt_unique (l1 : list Difflib.block) :
  forall l2,
  StronglySorted key_lt l1 -> StronglySorted key_lt l2 ->
  Permutation l1 l2 -> l1 = l2.
Proof.
  induction l1 as [| x l1 IH]; intros l2 S1 S2 P.
  - apply Permutation_nil in P. auto.
  - destruct l2 as [| y l2]; [apply Permutation_sym, Permutation_nil in P; discriminate | ].
    inversion S1 as [| ? ? S1' F1]; subst. inversion S2 as [| ? ? S2' F2]; subst.
    assert (E : x = y).
    { assert (Hy : In y (x :: l1))
        by (eapply Permutation_in; [apply Permutation_sym, P | left; reflexivity]).
      assert (Hx : In x (y :: l2))
        by (eapply Permutation_in; [exact P | left; reflexivity]).
      destruct Hy as [Hy | Hy]; [exact Hy | ].
      destruct Hx as [Hx | Hx]; [auto | ].
      rewrite Forall_forall in F1, F2.
      specialize (F1 _ Hy). specialize (F2 _ Hx). unfold key_lt in *. lia. }
    subst y. f_equal. apply IH; try assumption.
    eapply Permutation_cons_inv. exact P.
Qed.

(** Sorting the blocks found puts them back in the order of the chain. *)
Lemma sort_blocks_chain (blocks found : list Difflib.block) (lo hi : nat * nat) :
  blocks_chain lo blocks hi ->
  Forall (block_good a b) blocks ->
  Permutation blocks found ->
  Difflib.sort_blocks found = blocks.
Proof.
  intros Hc Hg P. destruct (chain_keys _ _ _ Hc Hg) as [S1 _].
  symmetry. apply key_lt_unique; [exact S1 | | ].
  - apply key_le_lt.
    + apply sort_blocks_sorted.
    + eapply Permutation_NoDup; [ | apply key_lt_NoDup, S1].
      eapply Permutation_trans; [exact P | apply sort_blocks_perm].
    + assert (P' : Permutation (Difflib.sort_blocks found) blocks).
      { apply Permutation_sym.
        eapply Permutation_trans; [exact P | apply sort_blocks_perm]. }
      intros x y Hx Hy. apply (key_lt_inj _ S1); eapply Permutation_in; eassumption.
  - eapply Permutation_trans; [exact P | apply sort_blocks_perm].
Qed.

Lemma agree_app (i j k1 k2 : nat) :
  agree a b i j k1 -> agree a b (i + k1) (j + k1) k2 -> agree a b i j (k1 + k2).
Proof.
  intros H1 H2 d Hd. destruct (Nat.lt_ge_cases d k1) as [L | L]; [apply H1, L | ].
  destruct (H2 (d - k1) ltac:(lia)) as (x & Hx & Hy). exists x.
  replace (i + d) with (i + k1 + (d - k1)) by lia.
  replace (j + d) with (j + k1 + (d - k1)) by lia. auto.
Qed.

Lemma blocks_chain_snoc (blocks : list Difflib.block) (lo hi : nat * nat)
  (i j k : nat) :
  blocks_chain lo blocks (i, j) ->
  before (i + k, j + k) hi ->
  blocks_chain lo (blocks ++ [(i, j, k)]) hi.
Proof.
  intros H1 H2. unfold blocks_chain. rewrite map_app.
  apply (chain_app _ _ _ (i, j)); [exact H1 | ].
  simpl. split; [apply before_refl | ]. split; [split; simpl; lia | exact H2].
Qed.

Lemma collapse_chain (blocks : list Difflib.block) (hi : nat * nat) :
  forall (i1 j1 k1 : nat) (non_adjacent : list Difflib.block),
  blocks_chain (0, 0) non_adjacent (i1, j1) ->
  Forall (block_good a b) non_adjacent ->
  agree a b i1 j1 k1 ->
  blocks_chain (i1 + k1, j1 + k1) blocks hi ->
  Forall (block_good a b) blocks ->
  blocks_chain (0, 0) (Difflib.collapse blocks i1 j1 k1 non_adjacent) hi /\
  Forall (block_good a b) (Difflib.collapse blocks i1 j1 k1 non_adjacent).
Proof.
  induction blocks as [| [[i2 j2] k2] blocks IH];
    intros i1 j1 k1 non_adjacent Hn Gn Hk Hc Gb; cbn [Difflib.collapse].
  - unfold blocks_chain in Hc. simpl in Hc.
    destruct (k1 =? 0) eqn:E.
    + split; [ | exact Gn]. eapply chain_raise; [ | exact Hn].
      eapply before_trans; [ | exact Hc]. split; simpl; lia.
    + apply Nat.eqb_neq in E. split.
      * apply blocks_chain_snoc; assumption.
      * apply Forall_app. split; [exact Gn | ].
        constructor; [split; simpl; [lia | exact Hk] | constructor].
  - destruct Hc as (C1 & C2 & C3). cbn [entry_lo entry_hi] in C1, C2, C3.
    inversion Gb as [| ? ? [G1 G2] Gb']; subst. cbn [fst snd] in G1, G2.
    destruct ((i1 + k1 =? i2) && (j1 + k1 =? j2)) eqn:E.
    + apply andb_prop in E. destruct E as [E1 E2].
      apply Nat.eqb_eq in E1, E2. subst i2 j2.
      apply IH; try assumption.
      * apply agree_app; assumption.
      * rewrite <- !Nat.add_assoc in C3. exact C3.
    + apply IH; try assumption.
      * destruct (k1 =? 0) eqn:E0.
        -- eapply chain_raise; [ | exact Hn].
           eapply before_trans; [ | exact C1]. split; simpl; lia.
        -- apply blocks_chain_snoc; assumption.
      * destruct (k1 =? 0) eqn:E0; [exact Gn | ].
        apply Nat.eqb_neq in E0. apply Forall_app. split; [exact Gn | ].
        constructor; [split; simpl; [lia | exact Hk] | constructor].
Qed.

(** The matching blocks before the closing dummy: blocks of equal elements,
    each past the one before in both sequences. *)
Lemma get_matching_blocks_chain :
  exists blocks,
    Difflib.get_matching_blocks eqb isjunk a b =
      blocks ++ [(List.length a, List.length b, 0)] /\
    blocks_chain (0, 0) blocks (List.length a, List.length b) /\
    Forall (block_good a b) blocks.
Proof.
  unfold Difflib.get_matching_blocks.
  destruct (get_matching_blocks_total eqb isjunk a b) as [found E]. rewrite E.
  destruct (blocks_loop_chain _ _ _ _
              [Pending (0, List.length a, 0, List.length b)]
              (0, 0) (List.length a, List.length b)
              ltac:(simpl; repeat split; simpl; lia)
              ltac:(repeat constructor)
              (Permutation_refl _) (Permutation_refl _) E)
    as (blocks & Hc & Hg & P).
  rewrite (sort_blocks_chain blocks found _ _ Hc Hg P).
  destruct (collapse_chain blocks (List.length a, List.length b) 0 0 0 []
              ltac:(unfold blocks_chain; simpl; split; simpl; lia)
              ltac:(constructor)
              ltac:(intros d Hd; lia)
              Hc Hg) as [H1 H2].
  eauto.
Qed.

Lemma opcodes_loop_app (blocks : list Difflib.block) :
  forall (i j : nat) (answer : list Difflib.opcode),
  Difflib.opcodes_loop blocks i j answer =
  answer ++ Difflib.opcodes_loop blocks i j [].
Proof.
  induction blocks as [| [[ai bj] size] blocks IH]; intros i j answer;
    cbn [Difflib.opcodes_loop].
  - rewrite app_nil_r. reflexivity.
  - rewrite IH. rewrite (IH _ _ (if size =? 0 then _ else _)).
    rewrite app_assoc. f_equal.
    destruct ((i <? ai) && (j <? bj)); [ | destruct (i <? ai); [ | destruct (j <? bj)]];
      destruct (size =? 0); cbn [app]; rewrite ?app_nil_r, <- ?app_assoc; reflexivity.
Qed.

Lemma opcodes_loop_tiles (blocks : list Difflib.block) :
  forall (i j : nat),
  blocks_chain (i, j) blocks (List.length a, List.length b) ->
  Forall (block_good a b) blocks ->
  tiles a b
    (Difflib.opcodes_loop (blocks ++ [(List.length a, List.length b, 0)]) i j [])
    i j.
Proof.
  induction blocks as [| [[ai bj] size] blocks IH]; intros i j Hc Hg.
  - destruct Hc as [C1 C2]. cbn [fst snd] in C1, C2.
    cbn [app Difflib.opcodes_loop Nat.eqb].
    destruct (Nat.ltb_spec i (List.length a)) as [E1 | E1];
      destruct (Nat.ltb_spec j (List.length b)) as [E2 | E2];
      cbn [andb app tiles]; repeat split; lia.
  - destruct Hc as (C1 & C2 & C3). cbn [entry_lo entry_hi] in C1, C2, C3.
    destruct C1 as [C1a C1b]. cbn [fst snd] in C1a, C1b.
    inversion Hg as [| ? ? [G1 G2] Hg']; subst. cbn [fst snd] in G1, G2.
    pose proof (chain_before _ _ _ C3) as [B1 B2]. cbn [fst snd] in B1, B2.
    specialize (IH _ _ C3 Hg').
    cbn [app Difflib.opcodes_loop]. rewrite opcodes_loop_app.
    destruct (size =? 0) eqn:E0; [apply Nat.eqb_eq in E0; lia | ].
    assert (He : tiles a b
                   ((Difflib.Equal, ai, ai + size, bj, bj + size)
                    :: Difflib.opcodes_loop
                         (blocks ++ [(List.length a, List.length b, 0)])
                         (ai + size) (bj + size) []) ai bj).
    { cbn [tiles]. replace (ai + size - ai) with size by lia.
      repeat split; try lia; assumption. }
    destruct (Nat.ltb_spec i ai) as [E1 | E1];
      destruct (Nat.ltb_spec j bj) as [E2 | E2]; cbn [andb app tiles].
    + refine (conj eq_refl (conj eq_refl (conj _ (conj _ (conj _ He))))); lia.
    + assert (j = bj) by lia. subst j.
      refine (conj eq_refl (conj eq_refl (conj _ (conj _ (conj _ He))))); lia.
    + assert (i = ai) by lia. subst i.
      refine (conj eq_refl (conj eq_refl (conj _ (conj _ (conj _ He))))); lia.
    + assert (i = ai) by lia. assert (j = bj) by lia. subst i j. exact He.
Qed.

(** The opcodes tile both sequences: each starts where the one before
    ends, and an [equal] opcode spans equal elements. *)
Lemma get_opcodes_tiles : tiles a b (Difflib.get_opcodes eqb isjunk a b) 0 0.
Proof.
  unfold Difflib.get_opcodes.
  destruct get_matching_blocks_chain as (blocks & -> & Hc & Hg).
  apply opcodes_loop_tiles; assumption.
Qed.

End Blocks.
(** ** The delta of [compare] holds both texts *)

Lemma old_of_app d1 d2 : old_of (d1 ++ d2) = old_of d1 ++ old_of d2.
Proof. unfold old_of. rewrite filter_app, map_app. reflexivity. Qed.

Lemma new_of_app d1 d2 : new_of (d1 ++ d2) = new_of d1 ++ new_of d2.
Proof. unfold new_of. rewrite filter_app, map_app. reflexivity. Qed.

Lemma slice_empty x lo hi : hi <= lo -> slice x lo hi = [].
Proof.
  intros H. unfold slice. replace (hi - lo) with 0 by lia. reflexivity.
Qed.

Lemma slice_app x lo mid hi :
  lo <= mid -> mid <= hi -> slice x lo hi = slice x lo mid ++ slice x mid hi.
Proof.
  intros H1 H2. unfold slice.
  replace (hi - lo) with ((mid - lo) + (hi - mid)) by lia.
  rewrite seq_app, map_app. replace (lo + (mid - lo)) with mid by lia. reflexivity.
Qed.

Lemma slice_one x i : slice x i (i + 1) = [nth i x ""].
Proof.
  unfold slice. replace (i + 1 - i) with 1 by lia. reflexivity.
Qed.

Lemma slice_all x : slice x 0 (List.length x) = x.
Proof.
  unfold slice. rewrite Nat.sub_0_r.
  apply nth_ext with (d := "") (d' := "").
  - rewrite length_map, length_seq. reflexivity.
  - intros n Hn. rewrite length_map, length_seq in Hn.
    rewrite (nth_indep _ "" (nth 0 x "")) by (rewrite length_map, length_seq; exact Hn).
    rewrite (map_nth (fun i => nth i x "") (seq 0 (List.length x)) 0 n).
    rewrite seq_nth by exact Hn. reflexivity.
Qed.

Lemma slice_agree (a b : list string) i j k :
  agree a b i j k -> slice a i (i + k) = slice b j (j + k).
Proof.
  intros H. unfold slice.
  replace (i + k - i) with k by lia. replace (j + k - j) with k by lia.
  revert i j H. induction k as [| k IH]; intros i j H; [reflexivity | ].
  cbn [seq map]. f_equal.
  - destruct (H 0 ltac:(lia)) as (x & Hx & Hy). rewrite !Nat.add_0_r in *.
    rewrite (nth_error_nth _ _ _ Hx), (nth_error_nth _ _ _ Hy). reflexivity.
  - apply IH. intros d Hd. destruct (H (S d) ltac:(lia)) as (x & Hx & Hy).
    exists x. rewrite <- !plus_n_Sm in Hx, Hy. auto.
Qed.

Lemma old_of_tagged (c : ascii) (t : string) (d : list string) :
  old_of ((String c "" ++ " " ++ t)%string :: d) =
  if Ascii.eqb c "-" || Ascii.eqb c " " then t :: old_of d else old_of d.
Proof.
  unfold old_of. cbn [filter append Py.startswith]. rewrite !andb_true_r.
  destruct (_ || _); reflexivity.
Qed.

Lemma new_of_tagged (c : ascii) (t : string) (d : list string) :
  new_of ((String c "" ++ " " ++ t)%string :: d) =
  if Ascii.eqb c "+" || Ascii.eqb c " " then t :: new_of d else new_of d.
Proof.
  unfold new_of. cbn [filter append Py.startswith]. rewrite !andb_true_r.
  destruct (_ || _); reflexivity.
Qed.

Lemma _dump_old x lo hi :
  old_of (Difflib._dump "-" x lo hi) = slice x lo hi /\
  new_of (Difflib._dump "-" x lo hi) = [].
Proof.
  unfold Difflib._dump, slice.
  induction (seq lo (hi - lo)) as [| i l [IH1 IH2]]; [split; reflexivity | ].
  cbn [map]. rewrite (old_of_tagged "-"), (new_of_tagged "-"), IH1, IH2.
  split; reflexivity.
Qed.

Lemma _dump_new x lo hi :
  old_of (Difflib._dump "+" x lo hi) = [] /\
  new_of (Difflib._dump "+" x lo hi) = slice x lo hi.
Proof.
  unfold Difflib._dump, slice.
  induction (seq lo (hi - lo)) as [| i l [IH1 IH2]]; [split; reflexivity | ].
  cbn [map]. rewrite (old_of_tagged "+"), (new_of_tagged "+"), IH1, IH2.
  split; reflexivity.
Qed.

Lemma _dump_common x lo hi :
  old_of (Difflib._dump " " x lo hi) = slice x lo hi /\
  new_of (Difflib._dump " " x lo hi) = slice x lo hi.
Proof.
  unfold Difflib._dump, slice.
  induction (seq lo (hi - lo)) as [| i l [IH1 IH2]]; [split; reflexivity | ].
  cbn [map]. rewrite (old_of_tagged " "), (new_of_tagged " "), IH1, IH2.
  split; reflexivity.
Qed.

Lemma holds_app d1 d2 a alo amid ahi b blo bmid bhi :
  alo <= amid -> amid <= ahi -> blo <= bmid -> bmid <= bhi ->
  holds d1 a alo amid b blo bmid -> holds d2 a amid ahi b bmid bhi ->
  holds (d1 ++ d2) a alo ahi b blo bhi.
Proof.
  intros A1 A2 B1 B2 [H1 H2] [H3 H4]. split.
  - rewrite old_of_app, H1, H3. symmetry. apply slice_app; assumption.
  - rewrite new_of_app, H2, H4. symmetry. apply slice_app; assumption.
Qed.

Lemma _plain_replace_holds a alo ahi b blo bhi :
  holds (Difflib._plain_replace a alo ahi b blo bhi) a alo ahi b blo bhi.
Proof.
  unfold Difflib._plain_replace, holds.
  destruct (_dump_old a alo ahi) as [O1 O2].
  destruct (_dump_new b blo bhi) as [N1 N2].
  destruct (bhi - blo <? ahi - alo); rewrite old_of_app, new_of_app, O1, O2, N1, N2;
    rewrite ?app_nil_r; split; reflexivity.
Qed.

Lemma _qformat_holds aline bline atags btags :
  old_of (Difflib._qformat aline bline atags btags) = [aline] /\
  new_of (Difflib._qformat aline bline atags btags) = [bline].
Proof.
  unfold Difflib._qformat.
  destruct (String.eqb _ ""); destruct (String.eqb _ ""); split; reflexivity.
Qed.

Lemma search_row_eq_pair (a b : list string) (j : nat) (rows : list nat) :
  forall st,
  eq_pair_equal a b st ->
  eq_pair_equal a b (Difflib.search_row rows a (nth j b "") j st).
Proof.
  induction rows as [| i rows IH]; intros st Hst; [exact Hst | ].
  cbn [Difflib.search_row].
  destruct (String.eqb (nth i a "") (nth j b "")) eqn:E.
  - apply IH. destruct (Difflib.eq_ij st) eqn:Q; [exact Hst | ].
    intros i' j' H. simpl in H. injection H as <- <-.
    apply String.eqb_eq, E.
  - destruct (Difflib.ratio_gt _ _ && Difflib.ratio_gt _ _ && Difflib.ratio_gt _ _).
    + apply IH. intros i' j' H. simpl in H. apply Hst, H.
    + apply IH, Hst.
Qed.

Lemma search_all_eq_pair (a b : list string) (alo ahi : nat) (cols : list nat) :
  forall st,
  eq_pair_equal a b st ->
  eq_pair_equal a b (Difflib.search_all cols a alo ahi b st).
Proof.
  induction cols as [| j cols IH]; intros st Hst; [exact Hst | ].
  cbn [Difflib.search_all]. apply IH, search_row_eq_pair, Hst.
Qed.

Lemma _fancy_replace_within_holds fuel : forall a alo ahi b blo bhi delta,
  Difflib._fancy_replace_within fuel a alo ahi b blo bhi = Some delta ->
  holds delta a alo ahi b blo bhi.
Proof.
  induction fuel as [| fuel IH]; intros a alo ahi b blo bhi delta E; [discriminate E | ].
  assert (Hh : forall alo ahi blo bhi d,
            (if alo <? ahi
             then if blo <? bhi
                  then Difflib._fancy_replace_within fuel a alo ahi b blo bhi
                  else Some (Difflib._dump "-" a alo ahi)
             else if blo <? bhi then Some (Difflib._dump "+" b blo bhi)
                  else Some []) = Some d ->
            holds d a alo ahi b blo bhi).
  { intros alo' ahi' blo' bhi' d.
    destruct (Nat.ltb_spec alo' ahi') as [L1 | L1];
      destruct (Nat.ltb_spec blo' bhi') as [L2 | L2]; intros H.
    - apply IH, H.
    - injection H as <-. destruct (_dump_old a alo' ahi') as [O1 O2].
      split; [exact O1 | ]. rewrite O2. symmetry. apply slice_empty, L2.
    - injection H as <-. destruct (_dump_new b blo' bhi') as [N1 N2].
      split; [ | exact N2]. rewrite N1. symmetry. apply slice_empty, L1.
    - injection H as <-. split; symmetry; apply slice_empty; assumption. }
  assert (Hy : forall best_i best_j (identical : bool) before after,
            match before, after with
            | Some before, Some after =>
                Some (before ++
                      (if identical then ["  " ++ nth best_i a ""]%string
                       else
                         let '(atags, btags) :=
                           Difflib.tag_strings
                             (Difflib.get_opcodes Ascii.eqb Difflib.IS_CHARACTER_JUNK
                                (Difflib.chars (nth best_i a ""))
                                (Difflib.chars (nth best_j b ""))) "" "" in
                         Difflib._qformat (nth best_i a "") (nth best_j b "")
                           atags btags) ++
                      after)
            | _, _ => None
            end = Some delta ->
            alo <= best_i < ahi -> blo <= best_j < bhi ->
            (identical = true -> nth best_i a "" = nth best_j b "") ->
            (forall d, before = Some d -> holds d a alo best_i b blo best_j) ->
            (forall d, after = Some d ->
                       holds d a (best_i + 1) ahi b (best_j + 1) bhi) ->
            holds delta a alo ahi b blo bhi).
  { intros best_i best_j identical [before | ] [after | ] H Ri Rj Hid H1 H2;
      try discriminate H.
    injection H as <-.
    apply (holds_app _ _ a alo best_i ahi b blo best_j bhi); try lia; [auto | ].
    apply (holds_app _ _ a best_i (best_i + 1) ahi b best_j (best_j + 1) bhi);
      try lia; [ | auto].
    unfold holds. rewrite !slice_one.
    destruct identical.
    - rewrite <- (Hid eq_refl). split; reflexivity.
    - destruct (Difflib.tag_strings _ "" "") as [atags btags].
      apply _qformat_holds. }
  pose proof (search_inside_ranges a b alo ahi blo bhi) as [H1 H2 H3].
  pose proof (search_all_eq_pair a b alo ahi (seq blo (bhi - blo))
                (Difflib.mkSearch Difflib.initial_best_ratio None None)
                ltac:(intros i j H; discriminate H)) as Heq.
  unfold eq_pair_equal in Heq.
  cbn [Difflib._fancy_replace_within] in E.
  destruct (Difflib.ratio_lt _ _).
  - destruct (Difflib.eq_ij _) as [[eqi eqj] | ].
    + simpl in H1. specialize (Heq eqi eqj eq_refl).
      exact (Hy eqi eqj true _ _ E (proj1 H1) (proj2 H1) (fun _ => Heq)
               (Hh alo eqi blo eqj) (Hh (eqi + 1) ahi (eqj + 1) bhi)).
    + injection E as <-. apply _plain_replace_holds.
  - destruct (Difflib.best_ij _) as [[best_i best_j] | ]; [ | discriminate E].
    simpl in H2.
    refine (Hy best_i best_j false _ _ E (proj1 H2) (proj2 H2) _
              (Hh alo best_i blo best_j) (Hh (best_i + 1) ahi (best_j + 1) bhi)).
    intros H. discriminate H.
Qed.

Lemma compare_tiles (a b : list string) (ops : list Difflib.opcode) :
  forall i j,
  tiles a b ops i j ->
  holds
    (flat_map
       (fun op : Difflib.opcode =>
          let '(t, alo, ahi, blo, bhi) := op in
          match t with
          | Difflib.Replace => Difflib._fancy_replace a alo ahi b blo bhi
          | Difflib.Delete => Difflib._dump "-" a alo ahi
          | Difflib.Insert => Difflib._dump "+" b blo bhi
          | Difflib.Equal => Difflib._dump " " a alo ahi
          end) ops)
    a i (List.length a) b j (List.length b).
Proof.
  induction ops as [| [[[[t i1] i2] j1] j2] ops IH]; intros i j H.
  - destruct H as [-> ->]. split; symmetry; apply slice_empty; lia.
  - destruct H as (-> & -> & L1 & L2 & Ht & Hr). specialize (IH _ _ Hr).
    cbn [flat_map].
    destruct t.
    + destruct Ht as [T1 T2].
      apply (holds_app _ _ a i i2 _ b j j2 _); try lia; [ | exact IH].
      unfold Difflib._fancy_replace.
      destruct (_fancy_replace_within_total a b ((i2 - i) + (j2 - j)) i i2 j j2
                  T1 T2 (Nat.le_refl _)) as [delta E].
      rewrite E. eapply _fancy_replace_within_holds. exact E.
    + destruct Ht as [T1 <-].
      apply (holds_app _ _ a i i2 _ b j j _); try lia; [ | exact IH].
      destruct (_dump_old a i i2) as [O1 O2]. split; [exact O1 | ].
      rewrite O2. symmetry. apply slice_empty. lia.
    + destruct Ht as [<- T2].
      apply (holds_app _ _ a i i _ b j j2 _); try lia; [ | exact IH].
      destruct (_dump_new b j j2) as [N1 N2]. split; [ | exact N2].
      rewrite N1. symmetry. apply slice_empty. lia.
    + destruct Ht as (T1 & -> & T3).
      apply (holds_app _ _ a i i2 _ b j (j + (i2 - i)) _); try lia; [ | exact IH].
      destruct (_dump_common a i i2) as [C1 C2]. split; [exact C1 | ].
      rewrite C2. replace i2 with (i + (i2 - i)) at 1 by lia.
      apply slice_agree, T3.
Qed.

(** The delta of [compare] holds the whole of both texts, each in its
    order. *)
Lemma compare_holds (a b : list string) :
  old_of (Difflib.compare a b) = a /\ new_of (Difflib.compare a b) = b.
Proof.
  pose proof (compare_tiles a b _ 0 0
                (get_opcodes_tiles String.eqb
                   (fun x y H => proj1 (String.eqb_eq x y) H)
                   Difflib.no_junk a b)) as [H1 H2].
  unfold Difflib.compare. rewrite H1, H2, !slice_all. split; reflexivity.
Qed.
(** ** The rows of [_mdiff] show both texts *)

(** *** Ordinary text *)

Lemma ordinary_cons c s :
  ordinary (String c s) <->
  Ascii.eqb c "027" = false /\ Ascii.eqb c "000" = false /\
  Ascii.eqb c "001" = false /\ ordinary s.
Proof.
  unfold ordinary. cbn [ordinaryb].
  rewrite !andb_true_iff, !negb_true_iff. tauto.
Qed.

Lemma ordinary_app s t : ordinary (s ++ t) <-> ordinary s /\ ordinary t.
Proof.
  induction s as [| c s IH]; cbn [append].
  - split; [intros H; split; [reflexivity | exact H] | intros [_ H]; exact H].
  - rewrite !ordinary_cons, IH. tauto.
Qed.

Lemma ordinary_plain s : ordinary s -> plain s.
Proof.
  induction s as [| c s IH]; intros H; [reflexivity | ].
  apply ordinary_cons in H. destruct H as (H1 & H2 & _ & H4).
  apply plain_cons. auto.
Qed.

Lemma ordinary_take n : forall s, ordinary s -> ordinary (Py.take n s).
Proof.
  induction n as [| n IH]; intros [| c s] H; try reflexivity.
  apply ordinary_cons in H. cbn [Py.take]. apply ordinary_cons.
  destruct H as (H1 & H2 & H3 & H4). auto.
Qed.

Lemma ordinary_drop n : forall s, ordinary s -> ordinary (Py.drop n s).
Proof.
  induction n as [| n IH]; intros [| c s] H; try assumption.
  apply ordinary_cons in H. cbn [Py.drop]. apply IH, H.
Qed.

Lemma unmark_ordinary_app p s : ordinary p -> unmark (p ++ s) = (p ++ unmark s)%string.
Proof.
  induction p as [| c p IH]; intros H; [reflexivity | ].
  apply ordinary_cons in H. destruct H as (_ & H2 & H3 & H4).
  cbn [append unmark]. rewrite H2, H3, IH by assumption. reflexivity.
Qed.

Lemma unmark_ordinary s : ordinary s -> unmark s = s.
Proof.
  induction s as [| c s IH]; intros H; [reflexivity | ].
  apply ordinary_cons in H. destruct H as (_ & H2 & H3 & H4).
  cbn [unmark]. rewrite H2, H3, IH by assumption. reflexivity.
Qed.

Lemma unmark_marker key s :
  Py.mem key "-+^" = true -> unmark (Py.NUL ++ String key s) = unmark s.
Proof.
  intros H. unfold Py.NUL. cbn [append unmark Ascii.eqb Bool.eqb].
  rewrite H. reflexivity.
Qed.

Lemma unmark_end s : unmark (Py.SOH ++ s) = unmark s.
Proof. reflexivity. Qed.

Lemma rstrip_marks t :
  ordinary t -> Py.rstrip (Py.NUL ++ Py.SOH) (t ++ Py.SOH) = t.
Proof.
  induction t as [| c t IH]; intros H; [reflexivity | ].
  apply ordinary_cons in H. destruct H as (_ & H2 & H3 & H4).
  cbn [append Py.rstrip]. rewrite IH by assumption.
  destruct t as [| d t]; [ | reflexivity].
  unfold Py.NUL, Py.SOH. cbn [append Py.mem]. rewrite H2, H3. reflexivity.
Qed.

Lemma strip_marked key t :
  Py.mem key "-+" = true -> ordinary t ->
  Py.strip (Py.NUL ++ Py.SOH) (Py.NUL ++ String key "" ++ t ++ Py.SOH) = String key t.
Proof.
  intros Hk Ht. unfold Py.strip.
  assert (Ho : ordinary (String key t)).
  { apply ordinary_cons. cbn [Py.mem] in Hk.
    destruct (Ascii.eqb key "-") eqn:E1;
      [apply Ascii.eqb_eq in E1; subst; repeat split; auto | ].
    destruct (Ascii.eqb key "+") eqn:E2;
      [apply Ascii.eqb_eq in E2; subst; repeat split; auto | discriminate Hk]. }
  assert (Hl : Py.lstrip (Py.NUL ++ Py.SOH) (Py.NUL ++ String key "" ++ t ++ Py.SOH) =
               (String key t ++ Py.SOH)%string).
  { apply ordinary_cons in Ho. destruct Ho as (_ & H2 & H3 & _).
    unfold Py.NUL at 2. cbn [append Py.lstrip].
    unfold Py.NUL, Py.SOH. cbn [append Py.mem Ascii.eqb Bool.eqb orb].
    rewrite H2, H3. reflexivity. }
  rewrite Hl. apply rstrip_marks, Ho.
Qed.

(** *** The marks come off *)

Lemma drop_app n : forall p s,
  n <= String.length p -> Py.drop n (p ++ s) = (Py.drop n p ++ s)%string.
Proof.
  induction n as [| n IH]; intros p s H.
  - destruct p; reflexivity.
  - destruct p as [| c p]; simpl in *; [lia | ]. apply IH. lia.
Qed.

Lemma drop_drop n : forall m s, Py.drop m (Py.drop n s) = Py.drop (n + m) s.
Proof.
  induction n as [| n IH]; intros m s.
  - destruct s; reflexivity.
  - destruct s as [| c s]; cbn [Py.drop Nat.add].
    + destruct m; reflexivity.
    + apply IH.
Qed.

Lemma append_assoc (s t u : string) : ((s ++ t) ++ u = s ++ t ++ u)%string.
Proof.
  induction s as [| c s IH]; cbn [append]; [reflexivity | ]. rewrite IH. reflexivity.
Qed.

Lemma pieces lo b e t :
  lo <= b -> b <= e -> e <= String.length t ->
  (Py.drop lo (Py.take b t) ++ Py.drop b (Py.take e t) ++ Py.drop e t)%string =
  Py.drop lo t.
Proof.
  intros H1 H2 H3.
  assert (E : t = (Py.take b t ++ Py.drop b (Py.take e t) ++ Py.drop e t)%string).
  { rewrite <- (take_take b e t) by exact H2.
    rewrite <- append_assoc, (take_drop b (Py.take e t)), take_drop. reflexivity. }
  symmetry. etransitivity; [apply f_equal, E | ].
  apply drop_app. rewrite take_length; lia.
Qed.

Lemma marks_unmark text hi (Hhi : hi <= String.length text) :
  forall infos lo,
  spans_ok lo infos hi ->
  ordinary (Py.drop lo text) ->
  Py.take lo (fold_right (fun i acc => Difflib.mark acc i) text infos) =
    Py.take lo text /\
  unmark (Py.drop lo (fold_right (fun i acc => Difflib.mark acc i) text infos)) =
    Py.drop lo text.
Proof.
  induction infos as [| [key [begin end_]] infos IH]; intros lo H Ho.
  - split; [reflexivity | apply unmark_ordinary, Ho].
  - destruct H as (Hk & Hlo & Hbe & Hehi & Hrest).
    assert (Hoe : ordinary (Py.drop end_ text)).
    { replace end_ with (lo + (end_ - lo)) by lia. rewrite <- drop_drop.
      apply ordinary_drop, Ho. }
    destruct (IH end_ Hrest Hoe) as (Ht & Hu).
    cbn [fold_right].
    set (r := fold_right (fun i acc => Difflib.mark acc i) text infos) in *.
    assert (T1 : Py.take begin r = Py.take begin text).
    { rewrite <- (take_take begin end_ r) by lia. rewrite Ht.
      apply take_take. lia. }
    assert (T2 : Py.take (end_ - begin) (Py.drop begin r) =
                 Py.drop begin (Py.take end_ text)).
    { rewrite take_drop_swap by lia. rewrite Ht. reflexivity. }
    unfold Difflib.mark. rewrite T1, T2. split.
    + rewrite take_app by (rewrite take_length; lia). apply take_take. lia.
    + rewrite drop_app by (rewrite take_length; lia).
      assert (O1 : ordinary (Py.drop lo (Py.take begin text))).
      { rewrite <- take_drop_swap by lia. apply ordinary_take, Ho. }
      assert (O2 : ordinary (Py.drop begin (Py.take end_ text))).
      { rewrite <- take_drop_swap by lia. apply ordinary_take.
        replace begin with (lo + (begin - lo)) by lia. rewrite <- drop_drop.
        apply ordinary_drop, Ho. }
      rewrite unmark_ordinary_app by exact O1.
      change (Py.NUL ++ String key "" ++ ?x)%string with (Py.NUL ++ String key x)%string.
      rewrite unmark_marker by exact Hk.
      rewrite unmark_ordinary_app by exact O2.
      rewrite unmark_end, Hu.
      apply pieces; lia.
Qed.

Lemma marked_text_unmark text markers :
  fits text (String "?" (String " " markers)) ->
  ordinary (Py.drop 2 text) ->
  unmark (Py.drop 2
            (fold_left Difflib.mark
               (rev (Difflib.sub_info 0 0 (String "?" (String " " markers)))) text))
  = Py.drop 2 text.
Proof.
  intros (tags & E & Hl) Ho.
  destruct tags as [| c1 [| c2 tags]]; try discriminate E.
  cbn [append] in E. injection E as <- <- ->.
  change (Difflib.sub_info 0 0 (String "?" (String " " (tags ++ Py.LF))))
    with (Difflib.sub_info 0 2 (tags ++ Py.LF)).
  rewrite sub_info_newline.
  change (fold_left Difflib.mark (rev (Difflib.sub_info 0 2 tags)) text)
    with (fold_left (fun acc i => (fun i acc => Difflib.mark acc i) i acc)
            (rev (Difflib.sub_info 0 2 tags)) text).
  rewrite <- (fold_left_rev_right (fun i acc => Difflib.mark acc i)).
  rewrite rev_involutive.
  pose proof (sub_info_spans tags 0 2) as Hs.
  rewrite Nat.add_0_r in Hs. cbn [String.length] in Hl.
  replace (2 + String.length tags) with (S (S (String.length tags))) in Hs by lia.
  exact (proj2 (marks_unmark text (S (S (String.length tags))) Hl _ 2 Hs Ho)).
Qed.

(** *** Pairing *)

Lemma zip_rows_nil_r fq : zip_rows fq [] = [].
Proof. destruct fq as [| [f fd] fq]; reflexivity. Qed.

Lemma drain_zip fq : forall tq X Y,
  (snd (fst (Difflib.drain fq tq)) = [] \/ snd (Difflib.drain fq tq) = []) /\
  zip_rows (fq ++ X) (tq ++ Y) =
  fst (fst (Difflib.drain fq tq)) ++
  zip_rows (snd (fst (Difflib.drain fq tq)) ++ X) (snd (Difflib.drain fq tq) ++ Y).
Proof.
  induction fq as [| [f fd] fq IH]; intros tq X Y.
  - destruct tq; simpl; auto.
  - destruct tq as [| [t td] tq]; [simpl; auto | ].
    specialize (IH tq X Y). cbn [Difflib.drain].
    destruct (Difflib.drain fq tq) as [[out f'] t']. cbn [fst snd] in *.
    destruct IH as [IH1 IH2]. split; [exact IH1 | ].
    cbn [app zip_rows]. rewrite IH2. reflexivity.
Qed.

Lemma _line_pair_iterator_zip rows : forall fq tq,
  fq = [] \/ tq = [] ->
  Difflib._line_pair_iterator rows fq tq =
  zip_rows (fq ++ froms rows) (tq ++ tos rows).
Proof.
  induction rows as [| [[f t] d] rows IH]; intros fq tq Hq.
  - cbn [froms tos flat_map Difflib._line_pair_iterator]. rewrite !app_nil_r.
    destruct Hq as [-> | ->]; [reflexivity | symmetry; apply zip_rows_nil_r].
  - cbn [Difflib._line_pair_iterator].
    set (fq1 := match f with Some l => fq ++ [(l, d)] | None => fq end).
    set (tq1 := match t with Some l => tq ++ [(l, d)] | None => tq end).
    assert (Ef : fq ++ froms ((f, t, d) :: rows) = fq1 ++ froms rows).
    { unfold fq1, froms. cbn [flat_map fst snd].
      destruct f; [rewrite <- app_assoc | ]; reflexivity. }
    assert (Et : tq ++ tos ((f, t, d) :: rows) = tq1 ++ tos rows).
    { unfold tq1, tos. cbn [flat_map fst snd].
      destruct t; [rewrite <- app_assoc | ]; reflexivity. }
    transitivity (zip_rows (fq1 ++ froms rows) (tq1 ++ tos rows));
      [ | f_equal; symmetry; assumption].
    destruct (drain_zip fq1 tq1 (froms rows) (tos rows)) as [D1 D2].
    rewrite D2.
    destruct (Difflib.drain fq1 tq1) as [[out f'] t']. cbn [fst snd] in *.
    f_equal. apply IH, D1.
Qed.

(** *** What each kind of row shows *)

Lemma shown_old_app r1 r2 : shown_old (r1 ++ r2) = shown_old r1 ++ shown_old r2.
Proof.
  unfold shown_old, minus_side. rewrite flat_map_app, filter_app, map_app. reflexivity.
Qed.

Lemma shown_new_app r1 r2 : shown_new (r1 ++ r2) = shown_new r1 ++ shown_new r2.
Proof.
  unfold shown_new, plus_side. rewrite flat_map_app, filter_app, map_app. reflexivity.
Qed.

Lemma append_nil_r (s : string) : (s ++ "")%string = s.
Proof.
  induction s as [| c s IH]; cbn [append]; [reflexivity | ]. rewrite IH. reflexivity.
Qed.

Lemma unmark_marked key t :
  Py.mem key "-+^" = true -> ordinary t ->
  unmark (Py.NUL ++ String key "" ++ t ++ Py.SOH) = t.
Proof.
  intros Hk Ht.
  change (Py.NUL ++ String key "" ++ t ++ Py.SOH)%string
    with (Py.NUL ++ String key (t ++ Py.SOH))%string.
  rewrite unmark_marker by exact Hk.
  rewrite unmark_ordinary_app by exact Ht.
  cbn. apply append_nil_r.
Qed.

Lemma del_row_shows e :
  ordinary (snd e) ->
  shown_old [del_row e] = [snd e] /\ shown_new [del_row e] = [].
Proof.
  intros H. unfold shown_old, shown_new, del_row, del_half.
  cbn [flat_map plain_row fst snd Difflib.lineno_true Difflib.blank Nat.eqb negb app].
  rewrite (strip_marked "-" (snd e) eq_refl H). split; reflexivity.
Qed.

Lemma add_row_shows e :
  ordinary (snd e) ->
  shown_old [add_row e] = [] /\ shown_new [add_row e] = [snd e].
Proof.
  intros H. unfold shown_old, shown_new, add_row, add_half.
  cbn [flat_map plain_row fst snd Difflib.lineno_true Difflib.blank Nat.eqb negb app].
  rewrite (strip_marked "+" (snd e) eq_refl H). split; reflexivity.
Qed.

Lemma pair_row_shows n m u1 u2 :
  shown_old [((Difflib.LineNo (S n), u1), (Difflib.LineNo (S m), u2), true)] =
    [unmark u1] /\
  shown_new [((Difflib.LineNo (S n), u1), (Difflib.LineNo (S m), u2), true)] =
    [unmark u2].
Proof. split; reflexivity. Qed.

Lemma common_row_shows n m t :
  shown_old [((Difflib.LineNo n, t), (Difflib.LineNo m, t), false)] = [t] /\
  shown_new [((Difflib.LineNo n, t), (Difflib.LineNo m, t), false)] = [t].
Proof. split; reflexivity. Qed.

Lemma del_add_row_shows d e :
  ordinary (snd d) -> ordinary (snd e) ->
  shown_old (zip_rows [del_half d] [add_half e]) = [snd d] /\
  shown_new (zip_rows [del_half d] [add_half e]) = [snd e].
Proof.
  intros Hd He.
  change (zip_rows [del_half d] [add_half e])
    with [((Difflib.LineNo (S (fst d)), (Py.NUL ++ "-" ++ snd d ++ Py.SOH)%string),
           (Difflib.LineNo (S (fst e)), (Py.NUL ++ "+" ++ snd e ++ Py.SOH)%string),
           true)].
  destruct (pair_row_shows (fst d) (fst e)
              (Py.NUL ++ "-" ++ snd d ++ Py.SOH) (Py.NUL ++ "+" ++ snd e ++ Py.SOH))
    as [-> ->].
  rewrite (unmark_marked "-" (snd d) eq_refl Hd).
  rewrite (unmark_marked "+" (snd e) eq_refl He). split; reflexivity.
Qed.

Lemma del_rows_show dels :
  Forall (fun e : nat * string => showable (snd e)) dels ->
  shown_old (map del_row dels) = map snd dels /\ shown_new (map del_row dels) = [].
Proof.
  induction 1 as [| e dels [He _] _ [IH1 IH2]]; [split; reflexivity | ].
  cbn [map]. change (del_row e :: map del_row dels) with ([del_row e] ++ map del_row dels).
  rewrite shown_old_app, shown_new_app, IH1, IH2.
  destruct (del_row_shows e He) as [-> ->]. split; reflexivity.
Qed.

Lemma add_rows_show adds :
  Forall (fun e : nat * string => showable (snd e)) adds ->
  shown_old (map add_row adds) = [] /\ shown_new (map add_row adds) = map snd adds.
Proof.
  induction 1 as [| e adds [He _] _ [IH1 IH2]]; [split; reflexivity | ].
  cbn [map]. change (add_row e :: map add_row adds) with ([add_row e] ++ map add_row adds).
  rewrite shown_old_app, shown_new_app, IH1, IH2.
  destruct (add_row_shows e He) as [-> ->]. split; reflexivity.
Qed.

Lemma flush_dels dels : forall F T,
  zip_rows (map del_half dels ++ F) (repeat blank_half (List.length dels) ++ T) =
  map del_row dels ++ zip_rows F T.
Proof.
  induction dels as [| e dels IH]; intros F T; [reflexivity | ].
  cbn [map app List.length repeat]. unfold del_half at 1, blank_half at 1.
  cbn [zip_rows]. rewrite IH. reflexivity.
Qed.

Lemma flush_adds adds : forall F T,
  zip_rows (repeat blank_half (List.length adds) ++ F) (map add_half adds ++ T) =
  map add_row adds ++ zip_rows F T.
Proof.
  induction adds as [| e adds IH]; intros F T; [reflexivity | ].
  cbn [map app List.length repeat]. unfold add_half at 1, blank_half at 1.
  cbn [zip_rows]. rewrite IH. reflexivity.
Qed.

Lemma froms_app r1 r2 : froms (r1 ++ r2) = froms r1 ++ froms r2.
Proof. apply flat_map_app. Qed.

Lemma tos_app r1 r2 : tos (r1 ++ r2) = tos r1 ++ tos r2.
Proof. apply flat_map_app. Qed.

Lemma catch_up_sides n :
  froms (Difflib.catch_up n) =
    (if (n <? 0)%Z then [] else repeat blank_half (Z.to_nat n)) /\
  tos (Difflib.catch_up n) =
    (if (n <? 0)%Z then repeat blank_half (Z.to_nat (- n)) else []).
Proof.
  unfold Difflib.catch_up. destruct (n <? 0)%Z.
  - induction (Z.to_nat (- n)) as [| k [IH1 IH2]]; [split; reflexivity | ].
    cbn [repeat]. split; [exact IH1 | ].
    change (tos ((None, Some Difflib.blank, true) :: repeat (None, Some Difflib.blank, true) k))
      with (blank_half :: tos (repeat (None, Some Difflib.blank, true) k)).
    rewrite IH2. reflexivity.
  - induction (Z.to_nat n) as [| k [IH1 IH2]]; [split; reflexivity | ].
    cbn [repeat]. split; [ | exact IH2].
    change (froms ((Some Difflib.blank, None, true) :: repeat (Some Difflib.blank, None, true) k))
      with (blank_half :: froms (repeat (Some Difflib.blank, None, true) k)).
    rewrite IH1. reflexivity.
Qed.

(** *** One turn of [_line_iterator], seen from the queues *)

Lemma shows_app r1 r2 o1 n1 o2 n2 :
  shows r1 o1 n1 -> shows r2 o2 n2 -> shows (r1 ++ r2) (o1 ++ o2) (n1 ++ n2).
Proof.
  intros [H1 H2] [H3 H4]. split.
  - rewrite shown_old_app, H1, H3. reflexivity.
  - rewrite shown_new_app, H2, H4. reflexivity.
Qed.

Lemma zip_rows_cons d e F T :
  zip_rows (d :: F) (e :: T) = zip_rows [d] [e] ++ zip_rows F T.
Proof. destruct d, e. reflexivity. Qed.

Lemma step_del pending dels adds n t :
  queues_ok pending dels adds -> all_showable dels -> all_showable adds ->
  showable t ->
  exists dels' adds',
    queues_ok (pending - 1) dels' adds' /\ all_showable dels' /\ all_showable adds' /\
    forall F T ro rn,
      shows (zip_rows (map del_half dels' ++ F) (map add_half adds' ++ T))
        (map snd dels' ++ ro) (map snd adds' ++ rn) ->
      shows (zip_rows (map del_half dels ++ del_half (n, t) :: F)
               (map add_half adds ++ T))
        (map snd dels ++ t :: ro) (map snd adds ++ rn).
Proof.
  intros [Hq Hp] Hd Ha Ht.
  destruct adds as [| a adds0].
  - exists (dels ++ [(n, t)]), []. split; [ | split; [ | split]].
    + split; [right; reflexivity | ]. rewrite length_app. cbn [List.length] in *. lia.
    + apply Forall_app. split; [exact Hd | ]. constructor; [exact Ht | constructor].
    + constructor.
    + intros F T ro rn H. rewrite !map_app, <- !app_assoc in H. exact H.
  - destruct Hq as [-> | Hq]; [ | discriminate Hq].
    inversion Ha as [| ? ? [Ha1 _] Ha2]; subst.
    exists [], adds0. split; [ | split; [ | split]].
    + split; [left; reflexivity | ]. cbn [List.length] in *. lia.
    + constructor.
    + exact Ha2.
    + intros F T ro rn H. cbn [map app] in *. rewrite zip_rows_cons.
      apply (shows_app _ _ [t] [snd a]); [ | exact H].
      apply (del_add_row_shows (n, t) a); [apply Ht | exact Ha1].
Qed.

Lemma step_add pending dels adds n t :
  queues_ok pending dels adds -> all_showable dels -> all_showable adds ->
  showable t ->
  exists dels' adds',
    queues_ok (pending + 1) dels' adds' /\ all_showable dels' /\ all_showable adds' /\
    forall F T ro rn,
      shows (zip_rows (map del_half dels' ++ F) (map add_half adds' ++ T))
        (map snd dels' ++ ro) (map snd adds' ++ rn) ->
      shows (zip_rows (map del_half dels ++ F)
               (map add_half adds ++ add_half (n, t) :: T))
        (map snd dels ++ ro) (map snd adds ++ t :: rn).
Proof.
  intros [Hq Hp] Hd Ha Ht.
  destruct dels as [| d dels0].
  - exists [], (adds ++ [(n, t)]). split; [ | split; [ | split]].
    + split; [left; reflexivity | ]. rewrite length_app. cbn [List.length] in *. lia.
    + constructor.
    + apply Forall_app. split; [exact Ha | ]. constructor; [exact Ht | constructor].
    + intros F T ro rn H. rewrite !map_app, <- !app_assoc in H. exact H.
  - destruct Hq as [Hq | ->]; [discriminate Hq | ].
    inversion Hd as [| ? ? [Hd1 _] Hd2]; subst.
    exists dels0, []. split; [ | split; [ | split]].
    + split; [right; reflexivity | ]. cbn [List.length] in *. lia.
    + exact Hd2.
    + constructor.
    + intros F T ro rn H. cbn [map app] in *. rewrite zip_rows_cons.
      apply (shows_app _ _ [snd d] [t]); [ | exact H].
      apply (del_add_row_shows d (n, t)); [exact Hd1 | apply Ht].
Qed.

Lemma step_end pending dels adds :
  queues_ok pending dels adds -> all_showable dels -> all_showable adds ->
  shows (zip_rows (map del_half dels ++ froms (Difflib.catch_up pending))
           (map add_half adds ++ tos (Difflib.catch_up pending)))
    (map snd dels) (map snd adds).
Proof.
  intros [Hq Hp] Hd Ha. destruct (catch_up_sides pending) as [-> ->].
  destruct Hq as [-> | ->]; cbn [List.length map app] in *.
  - destruct (Z.ltb_spec pending 0) as [L | L]; [lia | ].
    replace (Z.to_nat pending) with (List.length adds) by lia.
    rewrite <- (app_nil_r (repeat _ _)).
    rewrite flush_adds. cbn [zip_rows]. rewrite app_nil_r.
    destruct (add_rows_show adds Ha) as [H1 H2]. split; assumption.
  - destruct (Z.ltb_spec pending 0) as [L | L].
    + replace (Z.to_nat (- pending)) with (List.length dels) by lia.
      rewrite <- (app_nil_r (repeat _ _)). rewrite flush_dels.
      cbn [zip_rows]. rewrite app_nil_r.
      destruct (del_rows_show dels Hd) as [H1 H2]. split; assumption.
    + assert (dels = []) by (destruct dels; [reflexivity | cbn [List.length] in *; lia]).
      subst dels. replace (Z.to_nat pending) with 0 by (cbn [List.length] in *; lia).
      split; reflexivity.
Qed.

Lemma step_del_catch_up pending dels adds n t :
  queues_ok pending dels adds -> all_showable dels -> all_showable adds ->
  showable t ->
  forall F T ro rn,
    shows (zip_rows F T) ro rn ->
    shows (zip_rows
             (map del_half dels ++ froms (Difflib.catch_up (pending - 1)) ++
              del_half (n, t) :: F)
             (map add_half adds ++ tos (Difflib.catch_up (pending - 1)) ++ T))
      (map snd dels ++ t :: ro) (map snd adds ++ rn).
Proof.
  intros [Hq Hp] Hd Ha Ht F T ro rn H.
  destruct (catch_up_sides (pending - 1)) as [-> ->].
  destruct adds as [| a0 adds0] eqn:Ea.
  - cbn [List.length map app] in *.
    destruct (Z.ltb_spec (pending - 1) 0) as [L | L]; [ | lia].
    replace (Z.to_nat (- (pending - 1))) with (List.length (dels ++ [(n, t)]))
      by (rewrite length_app; cbn [List.length]; lia).
    cbn [app].
    replace (map del_half dels ++ del_half (n, t) :: F)
      with (map del_half (dels ++ [(n, t)]) ++ F)
      by (rewrite map_app, <- app_assoc; reflexivity).
    rewrite flush_dels.
    replace (map snd dels ++ t :: ro) with (map snd (dels ++ [(n, t)]) ++ ro)
      by (rewrite map_app, <- app_assoc; reflexivity).
    apply (shows_app _ _ _ [] _ _); [ | exact H].
    apply del_rows_show. apply Forall_app. split; [exact Hd | ].
    constructor; [exact Ht | constructor].
  - destruct Hq as [-> | Hq]; [ | discriminate Hq].
    rewrite <- Ea in *.
    destruct (exists_last (l := adds) ltac:(rewrite Ea; discriminate))
      as (front & a & ->).
    rewrite length_app in Hp. cbn [List.length map app] in *.
    destruct (Z.ltb_spec (pending - 1) 0) as [L | L]; [lia | ].
    replace (Z.to_nat (pending - 1)) with (List.length front) by lia.
    apply Forall_app in Ha. destruct Ha as [Ha1 Ha2].
    inversion Ha2 as [| ? ? [Ha3 _] _]; subst.
    rewrite map_app, <- app_assoc. cbn [map app].
    rewrite flush_adds, zip_rows_cons.
    rewrite map_app. cbn [map]. rewrite <- app_assoc. cbn [app].
    apply (shows_app _ _ [] _ _ _); [apply add_rows_show, Ha1 | ].
    apply (shows_app _ _ [t] [snd a]); [ | exact H].
    apply (del_add_row_shows (n, t) a); [apply Ht | exact Ha3].
Qed.

Lemma step_add_catch_up pending dels adds n t :
  queues_ok pending dels adds -> all_showable dels -> all_showable adds ->
  showable t ->
  forall F T ro rn,
    shows (zip_rows F T) ro rn ->
    shows (zip_rows
             (map del_half dels ++ froms (Difflib.catch_up (pending + 1)) ++ F)
             (map add_half adds ++ tos (Difflib.catch_up (pending + 1)) ++
              add_half (n, t) :: T))
      (map snd dels ++ ro) (map snd adds ++ t :: rn).
Proof.
  intros [Hq Hp] Hd Ha Ht F T ro rn H.
  destruct (catch_up_sides (pending + 1)) as [-> ->].
  destruct dels as [| d0 dels0] eqn:Ed.
  - cbn [List.length map app] in *.
    destruct (Z.ltb_spec (pending + 1) 0) as [L | L]; [lia | ].
    replace (Z.to_nat (pending + 1)) with (List.length (adds ++ [(n, t)]))
      by (rewrite length_app; cbn [List.length]; lia).
    cbn [app].
    replace (map add_half adds ++ add_half (n, t) :: T)
      with (map add_half (adds ++ [(n, t)]) ++ T)
      by (rewrite map_app, <- app_assoc; reflexivity).
    rewrite flush_adds.
    replace (map snd adds ++ t :: rn) with (map snd (adds ++ [(n, t)]) ++ rn)
      by (rewrite map_app, <- app_assoc; reflexivity).
    apply (shows_app _ _ [] _ _ _); [ | exact H].
    apply add_rows_show. apply Forall_app. split; [exact Ha | ].
    constructor; [exact Ht | constructor].
  - destruct Hq as [Hq | ->]; [discriminate Hq | ].
    rewrite <- Ed in *.
    destruct (exists_last (l := dels) ltac:(rewrite Ed; discriminate))
      as (front & d & ->).
    rewrite length_app in Hp. cbn [List.length map app] in *.
    replace (if (pending + 1 <? 0)%Z
             then repeat blank_half (Z.to_nat (- (pending + 1))) else [])
      with (repeat blank_half (List.length front))
      by (destruct (Z.ltb_spec (pending + 1) 0) as [L | L];
          [f_equal; lia | destruct front; [reflexivity | cbn [List.length] in *; lia]]).
    replace (if (pending + 1 <? 0)%Z
             then [] else repeat blank_half (Z.to_nat (pending + 1)))
      with (@nil (Difflib.mline * bool))
      by (destruct (Z.ltb_spec (pending + 1) 0) as [L | L];
          [reflexivity | replace (Z.to_nat (pending + 1)) with 0 by lia; reflexivity]).
    apply Forall_app in Hd. destruct Hd as [Hd1 Hd2].
    inversion Hd2 as [| ? ? [Hd3 _] _]; subst.
    rewrite map_app, <- app_assoc. cbn [map app].
    rewrite flush_dels, zip_rows_cons.
    rewrite map_app. cbn [map]. rewrite <- app_assoc. cbn [app].
    apply (shows_app _ _ _ [] _ _); [apply del_rows_show, Hd1 | ].
    apply (shows_app _ _ [snd d] [t]); [ | exact H].
    apply (del_add_row_shows d (n, t)); [exact Hd3 | apply Ht].
Qed.

(** *** What the next turn can be *)

(** Both lookaheads as characters: the four of the buffer, and the one that
    comes into view when its first line is gone. *)
Ltac five_chars l0 r0 :=
  unfold one_side_next, Difflib.lookahead;
  change (Difflib.peek (l0 :: r0) 1) with (Difflib.peek r0 0);
  change (Difflib.peek (l0 :: r0) 2) with (Difflib.peek r0 1);
  change (Difflib.peek (l0 :: r0) 3) with (Difflib.peek r0 2);
  generalize (Difflib.peek (l0 :: r0) 0), (Difflib.peek r0 0), (Difflib.peek r0 1),
             (Difflib.peek r0 2), (Difflib.peek r0 3);
  cbn [Py.startswith].

Ltac eqb_cases :=
  repeat match goal with
  | |- context [Ascii.eqb ?c ?k] =>
      let E := fresh "E" in
      destruct (Ascii.eqb c k) eqn:E;
      [apply Ascii.eqb_eq in E; subst | ]
  end;
  cbn [andb orb] in *; try discriminate; try reflexivity.

Lemma next_after_del_block l0 r0 :
  Py.startswith (Difflib.lookahead (l0 :: r0)) "--++" = true -> one_side_next r0.
Proof.
  five_chars l0 r0. intros c0 c1 c2 c3 c4 H.
  repeat (apply andb_true_iff in H; destruct H as [?E H]).
  repeat match goal with
         | K : Ascii.eqb _ _ = true |- _ => apply Ascii.eqb_eq in K; subst
         end.
  repeat split; reflexivity.
Qed.

Lemma next_after_del l0 r0 :
  Py.startswith (Difflib.lookahead (l0 :: r0)) "-" = true ->
  Py.startswith (Difflib.lookahead (l0 :: r0)) "--?+" ||
  Py.startswith (Difflib.lookahead (l0 :: r0)) "--+" ||
  Py.startswith (Difflib.lookahead (l0 :: r0)) "- " = false ->
  one_side_next r0.
Proof.
  five_chars l0 r0. intros c0 c1 c2 c3 c4 H1 H2.
  rewrite andb_true_r in H1. apply Ascii.eqb_eq in H1. subst c0.
  cbn [Ascii.eqb Bool.eqb andb] in H2.
  repeat split.
  - destruct (Ascii.eqb c1 "-") eqn:E1; [ | reflexivity].
    destruct (Ascii.eqb c2 "?") eqn:E2; [ | reflexivity].
    destruct (Ascii.eqb c3 "+") eqn:E3; [ | reflexivity].
    cbn [andb orb] in H2. discriminate H2.
  - destruct (Ascii.eqb c1 "-") eqn:E1; [ | reflexivity].
    destruct (Ascii.eqb c2 "+") eqn:E2; [ | reflexivity].
    cbn [andb orb] in H2. rewrite orb_true_r in H2. discriminate H2.
  - destruct (Ascii.eqb c1 " ") eqn:E1; [ | reflexivity].
    cbn [andb orb] in H2. rewrite !orb_true_r in H2. discriminate H2.
Qed.

Lemma next_after_add_block l0 r0 :
  Py.startswith (Difflib.lookahead (l0 :: r0)) "+--" = true -> one_side_next r0.
Proof.
  five_chars l0 r0. intros c0 c1 c2 c3 c4 H.
  repeat (apply andb_true_iff in H; destruct H as [?E H]).
  repeat match goal with
         | K : Ascii.eqb _ _ = true |- _ => apply Ascii.eqb_eq in K; subst
         end.
  repeat split; reflexivity.
Qed.

Lemma next_after_add l0 r0 :
  Py.startswith (Difflib.lookahead (l0 :: r0)) "+" = true ->
  Py.startswith (Difflib.lookahead (l0 :: r0)) "+ " ||
  Py.startswith (Difflib.lookahead (l0 :: r0)) "+-" = false ->
  one_side_next r0.
Proof.
  five_chars l0 r0. intros c0 c1 c2 c3 c4 H1 H2.
  rewrite andb_true_r in H1. apply Ascii.eqb_eq in H1. subst c0.
  cbn [Ascii.eqb Bool.eqb andb] in H2.
  repeat split.
  - destruct (Ascii.eqb c1 "-") eqn:E1; [ | reflexivity].
    cbn [andb orb] in H2. rewrite orb_true_r in H2. discriminate H2.
  - destruct (Ascii.eqb c1 "-") eqn:E1; [ | reflexivity].
    cbn [andb orb] in H2. rewrite orb_true_r in H2. discriminate H2.
  - destruct (Ascii.eqb c1 " ") eqn:E1; [ | reflexivity].
    cbn [andb orb] in H2. discriminate H2.
Qed.

Lemma both_sides_prefix lines :
  Py.startswith (Difflib.lookahead lines) "-?+?" = true ->
  Py.startswith (Difflib.lookahead lines) "-?+" = true.
Proof.
  unfold Difflib.lookahead.
  generalize (Difflib.peek lines 0), (Difflib.peek lines 1), (Difflib.peek lines 2),
             (Difflib.peek lines 3).
  intros c0 c1 c2 c3 H. cbn [Py.startswith] in *.
  repeat (apply andb_true_iff in H; destruct H as [?E H]).
  rewrite E, E0, E1. reflexivity.
Qed.

Lemma queues_empty dels adds : queues_ok 0 dels adds -> dels = [] /\ adds = [].
Proof.
  intros [[-> | ->] H]; cbn [List.length] in H.
  - split; [reflexivity | ]. destruct adds; [reflexivity | cbn [List.length] in H; lia].
  - split; [ | reflexivity]. destruct dels; [reflexivity | cbn [List.length] in H; lia].
Qed.

(** *** The lines a turn takes *)

Lemma shaped_line_inv lines :
  shaped lines ->
  Py.startswith (Difflib.lookahead lines) "X" = false ->
  Py.startswith (Difflib.lookahead lines) "-?+" = false ->
  Py.startswith (Difflib.lookahead lines) "-+?" = false ->
  exists c t rest,
    lines = String c t :: rest /\ Py.mem c " -+" = true /\ shaped rest.
Proof.
  intros H Q0 Q1 Q2. inversion H as [| c t rest Hc Hr | | | ]; subst.
  - discriminate Q0.
  - exists c, t, rest. auto.
  - lazy in Q1. discriminate Q1.
  - lazy in Q1. discriminate Q1.
  - lazy in Q2. discriminate Q2.
Qed.

Lemma shaped_both_inv lines :
  shaped lines ->
  Py.startswith (Difflib.lookahead lines) "-?+?" = true ->
  exists ta qa tb qb rest,
    lines = String "-" ta :: String "?" (String " " qa) ::
            String "+" tb :: String "?" (String " " qb) :: rest /\
    shaped rest.
Proof.
  intros H Q. inversion H as [| c t rest Hc Hr | | ? ? ? rest Hr | ]; subst.
  - discriminate Q.
  - exfalso. peeks Q. apply (shaped_head rest Hr). exact P0.
  - repeat eexists. assumption.
  - exfalso. peeks Q. apply (shaped_head rest Hr). exact Q.
  - lazy in Q. discriminate Q.
Qed.

Lemma shaped_old_inv lines :
  shaped lines ->
  Py.startswith (Difflib.lookahead lines) "-?+?" = false ->
  Py.startswith (Difflib.lookahead lines) "-?+" = true ->
  exists ta qa tb rest,
    lines = String "-" ta :: String "?" (String " " qa) :: String "+" tb :: rest /\
    shaped rest.
Proof.
  intros H Q1 Q. inversion H as [| c t rest Hc Hr | | | ]; subst.
  - discriminate Q.
  - exfalso. peeks Q. apply (shaped_head rest Hr). exact P0.
  - lazy in Q1. discriminate Q1.
  - repeat eexists. assumption.
  - lazy in Q. discriminate Q.
Qed.

Lemma shaped_new_inv lines :
  shaped lines ->
  Py.startswith (Difflib.lookahead lines) "-+?" = true ->
  exists ta tb qb rest,
    lines = String "-" ta :: String "+" tb :: String "?" (String " " qb) :: rest /\
    shaped rest.
Proof.
  intros H Q. inversion H as [| c t rest Hc Hr | | | ]; subst.
  - discriminate Q.
  - exfalso. peeks Q. cbn [Difflib.peek nth_error] in P, P0, Q.
    change (Difflib.peek rest 0 = "+"%char) in P0.
    change (Difflib.peek rest 1 = "?"%char) in Q.
    inversion Hr as [| c' t' rest' Hc' Hr' | | | ]; subst; try discriminate P0.
    apply (shaped_head rest' Hr'). exact Q.
  - lazy in Q. discriminate Q.
  - lazy in Q. discriminate Q.
  - repeat eexists. assumption.
Qed.

Lemma yield_Some row rest hr :
  Difflib.yield row rest = Some hr ->
  exists hr', rest = Some hr' /\ hr = row :: hr'.
Proof.
  destruct rest as [hr' | ]; [ | discriminate].
  intros H. injection H as <-. eauto.
Qed.

Lemma blanks_Some (pre : list Difflib.half_row) rest hr :
  option_map (app pre) rest = Some hr ->
  exists hr', rest = Some hr' /\ hr = pre ++ hr'.
Proof.
  destruct rest as [hr' | ]; [ | discriminate].
  intros H. injection H as <-. eauto.
Qed.

Lemma make_del l0 r0 nl :
  Py.drop 2 l0 <> "" ->
  Difflib._make_line (l0 :: r0) (Some "-"%char) 0 nl =
  (fst (del_half (fst nl, Py.drop 2 l0)), r0, Difflib.bump 0 nl).
Proof.
  intros H. apply String.eqb_neq in H. unfold Difflib._make_line.
  cbn [Ascii.eqb Bool.eqb andb Difflib.pop0]. rewrite H. reflexivity.
Qed.

Lemma make_add l0 r0 nl :
  Py.drop 2 l0 <> "" ->
  Difflib._make_line (l0 :: r0) (Some "+"%char) 1 nl =
  (fst (add_half (snd nl, Py.drop 2 l0)), r0, Difflib.bump 1 nl).
Proof.
  intros H. apply String.eqb_neq in H. unfold Difflib._make_line.
  cbn [Ascii.eqb Bool.eqb andb Difflib.pop0]. rewrite H. reflexivity.
Qed.

Lemma old_of_cons l d :
  old_of (l :: d) =
  if Py.startswith l "-" || Py.startswith l " " then Py.drop 2 l :: old_of d
  else old_of d.
Proof.
  unfold old_of. cbn [filter]. destruct (_ || _); reflexivity.
Qed.

Lemma new_of_cons l d :
  new_of (l :: d) =
  if Py.startswith l "+" || Py.startswith l " " then Py.drop 2 l :: new_of d
  else new_of d.
Proof.
  unfold new_of. cbn [filter]. destruct (_ || _); reflexivity.
Qed.

Lemma first_char l0 r0 c :
  Py.startswith (Difflib.lookahead (l0 :: r0)) (String c "") = true ->
  c <> "000"%char ->
  exists t, l0 = String c t.
Proof.
  unfold Difflib.lookahead. cbn [Py.startswith Difflib.peek nth_error].
  rewrite andb_true_r. intros H Hc. apply Ascii.eqb_eq in H.
  destruct l0 as [| c' t]; [congruence | ]. subst c'. eauto.
Qed.

Lemma single_line lines c :
  Py.mem c " -+" = true ->
  shaped lines ->
  Py.startswith (Difflib.lookahead lines) (String c "") = true ->
  Py.startswith (Difflib.lookahead lines) "-?+" = false ->
  Py.startswith (Difflib.lookahead lines) "-+?" = false ->
  exists t rest, lines = String c t :: rest /\ shaped rest.
Proof.
  intros Hm Hs B Q1 Q2.
  assert (BX : Py.startswith (Difflib.lookahead lines) "X" = false).
  { destruct lines as [| l0 r0].
    { exfalso. cbn [Difflib.lookahead Difflib.peek nth_error Py.startswith] in B.
      rewrite andb_true_r in B. apply Ascii.eqb_eq in B. subst c. discriminate Hm. }
    inversion Hs as [| c' t rest Hc Hr | | | ]; subst; try reflexivity.
    cbn [Difflib.lookahead Difflib.peek nth_error Py.startswith].
    rewrite andb_true_r.
    destruct (Ascii.eqb c' "X") eqn:E; [ | reflexivity].
    apply Ascii.eqb_eq in E. subst c'. discriminate Hc. }
  destruct (shaped_line_inv _ Hs BX Q1 Q2) as (c' & t & rest & -> & Hc & Hr).
  cbn [Difflib.lookahead Difflib.peek nth_error Py.startswith] in B.
  rewrite andb_true_r in B. apply Ascii.eqb_eq in B. subst c'. eauto.
Qed.

Lemma starts_del_block lines :
  Py.startswith (Difflib.lookahead lines) "--++" = true ->
  Py.startswith (Difflib.lookahead lines) "-" = true /\
  Py.startswith (Difflib.lookahead lines) "-?+" = false /\
  Py.startswith (Difflib.lookahead lines) "-+?" = false.
Proof.
  unfold Difflib.lookahead.
  generalize (Difflib.peek lines 0), (Difflib.peek lines 1), (Difflib.peek lines 2),
             (Difflib.peek lines 3).
  intros c0 c1 c2 c3 H. cbn [Py.startswith] in *.
  repeat (apply andb_true_iff in H; destruct H as [?E H]).
  repeat match goal with
         | K : Ascii.eqb _ _ = true |- _ => apply Ascii.eqb_eq in K; subst
         end.
  repeat split; reflexivity.
Qed.

Lemma starts_del_catch_up lines :
  Py.startswith (Difflib.lookahead lines) "--?+" ||
  Py.startswith (Difflib.lookahead lines) "--+" ||
  Py.startswith (Difflib.lookahead lines) "- " = true ->
  Py.startswith (Difflib.lookahead lines) "-" = true /\
  Py.startswith (Difflib.lookahead lines) "-?+" = false /\
  Py.startswith (Difflib.lookahead lines) "-+?" = false.
Proof.
  unfold Difflib.lookahead.
  generalize (Difflib.peek lines 0), (Difflib.peek lines 1), (Difflib.peek lines 2),
             (Difflib.peek lines 3).
  intros c0 c1 c2 c3 H. cbn [Py.startswith] in *.
  apply orb_true_iff in H. destruct H as [H | H];
    [apply orb_true_iff in H; destruct H as [H | H] | ];
    repeat (apply andb_true_iff in H; destruct H as [?E H]);
    repeat match goal with
           | K : Ascii.eqb _ _ = true |- _ => apply Ascii.eqb_eq in K; subst
           end;
    repeat split; reflexivity.
Qed.

Lemma starts_add lines :
  Py.startswith (Difflib.lookahead lines) "+" = true ->
  Py.startswith (Difflib.lookahead lines) "-?+" = false /\
  Py.startswith (Difflib.lookahead lines) "-+?" = false.
Proof.
  unfold Difflib.lookahead.
  generalize (Difflib.peek lines 0), (Difflib.peek lines 1), (Difflib.peek lines 2),
             (Difflib.peek lines 3).
  intros c0 c1 c2 c3 H. cbn [Py.startswith] in *.
  rewrite andb_true_r in H. apply Ascii.eqb_eq in H. subst c0.
  split; reflexivity.
Qed.

Lemma starts_with_first lines c p :
  Py.startswith (Difflib.lookahead lines) (String c p) = true ->
  Py.startswith (Difflib.lookahead lines) (String c "") = true.
Proof.
  unfold Difflib.lookahead. cbn [Py.startswith]. intros H.
  apply andb_true_iff in H. destruct H as [H _]. rewrite H. reflexivity.
Qed.

Lemma starts_add_catch_up lines :
  Py.startswith (Difflib.lookahead lines) "+ " ||
  Py.startswith (Difflib.lookahead lines) "+-" = true ->
  Py.startswith (Difflib.lookahead lines) "+" = true.
Proof.
  intros H. apply orb_true_iff in H.
  destruct H as [H | H]; eapply starts_with_first; exact H.
Qed.

(** The turns of [_line_iterator], paired by [_line_pair_iterator], show
    the lines waiting in the queues and then the old and the new text of
    the delta, each in its order. *)
Lemma halves_show fuel :
  forall lines prev nl pending hr dels adds,
  Difflib._line_iterator_within fuel lines nl pending = Some hr ->
  shaped lines -> delta_ok prev lines -> Forall text_ok lines ->
  queues_ok pending dels adds -> all_showable dels -> all_showable adds ->
  (pending <> 0%Z -> one_side_next lines) ->
  shows (zip_rows (map del_half dels ++ froms hr) (map add_half adds ++ tos hr))
    (map snd dels ++ old_of lines) (map snd adds ++ new_of lines).
Proof.
  induction fuel as [| fuel IH];
    intros lines prev nl pending hr dels adds E Hs Hd Ht Hq Hds Has HJ;
    [discriminate E | ].
  cbn [Difflib._line_iterator_within] in E.
  destruct (Py.startswith (Difflib.lookahead lines) "X") eqn:BX.
  { injection E as <-.
    assert (lines = []) as ->.
    { inversion Hs as [| c t rest Hc Hr | | | ]; subst; try reflexivity;
        try (lazy in BX; discriminate BX).
      exfalso. cbn [Difflib.lookahead Difflib.peek nth_error Py.startswith] in BX.
      rewrite andb_true_r in BX. apply Ascii.eqb_eq in BX. subst c.
      discriminate Hc. }
    rewrite !app_nil_r. apply step_end; assumption. }
  assert (Both : Py.startswith (Difflib.lookahead lines) "-?+" = true \/
                 Py.startswith (Difflib.lookahead lines) "-+?" = true \/
                 Py.startswith (Difflib.lookahead lines) " " = true ->
                 pending = 0%Z /\ dels = [] /\ adds = []).
  { intros Hb.
    assert (pending = 0%Z) as ->.
    { destruct (Z.eq_dec pending 0) as [Hz | Hz]; [exact Hz | exfalso].
      destruct (HJ Hz) as (J1 & J2 & J3).
      destruct Hb as [Hb | [Hb | Hb]]; congruence. }
    split; [reflexivity | apply queues_empty, Hq]. }
  destruct (Py.startswith (Difflib.lookahead lines) "-?+?") eqn:B1.
  { destruct (Both (or_introl (both_sides_prefix _ B1))) as (-> & -> & ->).
    destruct (shaped_both_inv _ Hs B1) as (ta & qa & tb & qb & rest & -> & Hr).
    cbv beta match zeta delta [Difflib._make_line Difflib.pop0] in E.
    cbn [Ascii.eqb Bool.eqb andb] in E.
    apply yield_Some in E. destruct E as (hr' & E & ->).
    destruct Hd as (P1 & _ & P2 & F2 & P3 & _ & P4 & F4 & Hd').
    specialize (F2 eq_refl). specialize (F4 eq_refl).
    inversion Ht as [| ? ? T1 Ht1]; subst. inversion Ht1 as [| ? ? _ Ht2]; subst.
    inversion Ht2 as [| ? ? T3 Ht3]; subst. inversion Ht3 as [| ? ? _ Ht4]; subst.
    destruct (T1 eq_refl) as [O1 _]. destruct (T3 eq_refl) as [O3 _].
    specialize (IH rest _ _ _ hr' [] [] E Hr Hd' Ht4
                  ltac:(split; [left; reflexivity | reflexivity])
                  ltac:(constructor) ltac:(constructor)
                  ltac:(intros Hz; exfalso; apply Hz; reflexivity)).
    cbn [map app] in IH |- *.
    change (old_of (String "-" ta :: String "?" (String " " qa) ::
                    String "+" tb :: String "?" (String " " qb) :: rest))
      with ([Py.drop 2 (String "-" ta)] ++ old_of rest).
    change (new_of (String "-" ta :: String "?" (String " " qa) ::
                    String "+" tb :: String "?" (String " " qb) :: rest))
      with ([Py.drop 2 (String "+" tb)] ++ new_of rest).
    cbn [froms tos flat_map fst snd app zip_rows orb].
    apply (shows_app [_] _ [Py.drop 2 (String "-" ta)] [Py.drop 2 (String "+" tb)]
             (old_of rest) (new_of rest)); [ | exact IH].
    split.
    - apply (f_equal (fun x => [x])).
      apply (marked_text_unmark (String "-" ta) qa F2 O1).
    - apply (f_equal (fun x => [x])).
      apply (marked_text_unmark (String "+" tb) qb F4 O3). }
  destruct (Py.startswith (Difflib.lookahead lines) "--++") eqn:B2.
  { destruct (starts_del_block _ B2) as (S1 & Q1 & Q2).
    destruct (single_line _ "-" eq_refl Hs S1 Q1 Q2) as (t & rest & -> & Hr).
    pose proof (next_after_del_block _ _ B2) as J.
    destruct Hd as (_ & _ & Hd'). inversion Ht as [| ? ? T0 Ht']; subst.
    specialize (T0 eq_refl).
    rewrite make_del in E by apply T0. cbv beta match zeta in E.
    apply yield_Some in E. destruct E as (hr' & E & ->).
    destruct (step_del pending dels adds (fst nl) (Py.drop 2 (String "-" t))
                Hq Hds Has T0) as (dels' & adds' & Hq' & Hds' & Has' & Hstep).
    specialize (IH rest _ _ _ hr' dels' adds' E Hr Hd' Ht' Hq' Hds' Has' (fun _ => J)).
    exact (Hstep _ _ _ _ IH). }
  destruct (Py.startswith (Difflib.lookahead lines) "--?+" ||
            Py.startswith (Difflib.lookahead lines) "--+" ||
            Py.startswith (Difflib.lookahead lines) "- ") eqn:B3.
  { destruct (starts_del_catch_up _ B3) as (S1 & Q1 & Q2).
    destruct (single_line _ "-" eq_refl Hs S1 Q1 Q2) as (t & rest & -> & Hr).
    destruct Hd as (_ & _ & Hd'). inversion Ht as [| ? ? T0 Ht']; subst.
    specialize (T0 eq_refl).
    rewrite make_del in E by apply T0. cbv beta match zeta in E.
    apply blanks_Some in E. destruct E as (hr1 & E & ->).
    apply yield_Some in E. destruct E as (hr' & E & ->).
    specialize (IH rest _ _ _ hr' [] [] E Hr Hd' Ht'
                  ltac:(split; [left; reflexivity | reflexivity])
                  ltac:(constructor) ltac:(constructor)
                  ltac:(intros Hz; exfalso; apply Hz; reflexivity)).
    rewrite froms_app, tos_app.
    exact (step_del_catch_up pending dels adds (fst nl) _ Hq Hds Has T0 _ _ _ _ IH). }
  destruct (Py.startswith (Difflib.lookahead lines) "-+?") eqn:B4.
  { destruct (Both (or_intror (or_introl eq_refl))) as (-> & -> & ->).
    destruct (shaped_new_inv _ Hs B4) as (ta & tb & qb & rest & -> & Hr).
    cbv beta match zeta delta [Difflib._make_line Difflib.pop0] in E.
    cbn [Ascii.eqb Bool.eqb andb] in E.
    apply yield_Some in E. destruct E as (hr' & E & ->).
    destruct Hd as (P1 & _ & P3 & _ & P4 & F4 & Hd').
    specialize (F4 eq_refl).
    inversion Ht as [| ? ? T1 Ht1]; subst. inversion Ht1 as [| ? ? T3 Ht2]; subst.
    inversion Ht2 as [| ? ? _ Ht3]; subst.
    destruct (T1 eq_refl) as [O1 _]. destruct (T3 eq_refl) as [O3 _].
    specialize (IH rest _ _ _ hr' [] [] E Hr Hd' Ht3
                  ltac:(split; [left; reflexivity | reflexivity])
                  ltac:(constructor) ltac:(constructor)
                  ltac:(intros Hz; exfalso; apply Hz; reflexivity)).
    apply (shows_app [_] _ [Py.drop 2 (String "-" ta)] [Py.drop 2 (String "+" tb)]
             (old_of rest) (new_of rest)); [ | exact IH].
    split.
    - apply (f_equal (fun x => [x])). apply (unmark_ordinary _ O1).
    - apply (f_equal (fun x => [x])).
      apply (marked_text_unmark (String "+" tb) qb F4 O3). }
  destruct (Py.startswith (Difflib.lookahead lines) "-?+") eqn:B5.
  { destruct (Both (or_introl eq_refl)) as (-> & -> & ->).
    destruct (shaped_old_inv _ Hs B1 B5) as (ta & qa & tb & rest & -> & Hr).
    cbv beta match zeta delta [Difflib._make_line Difflib.pop0] in E.
    cbn [Ascii.eqb Bool.eqb andb] in E.
    apply yield_Some in E. destruct E as (hr' & E & ->).
    destruct Hd as (P1 & _ & P2 & F2 & P3 & _ & Hd').
    specialize (F2 eq_refl).
    inversion Ht as [| ? ? T1 Ht1]; subst. inversion Ht1 as [| ? ? _ Ht2]; subst.
    inversion Ht2 as [| ? ? T3 Ht3]; subst.
    destruct (T1 eq_refl) as [O1 _]. destruct (T3 eq_refl) as [O3 _].
    specialize (IH rest _ _ _ hr' [] [] E Hr Hd' Ht3
                  ltac:(split; [left; reflexivity | reflexivity])
                  ltac:(constructor) ltac:(constructor)
                  ltac:(intros Hz; exfalso; apply Hz; reflexivity)).
    apply (shows_app [_] _ [Py.drop 2 (String "-" ta)] [Py.drop 2 (String "+" tb)]
             (old_of rest) (new_of rest)); [ | exact IH].
    split.
    - apply (f_equal (fun x => [x])).
      apply (marked_text_unmark (String "-" ta) qa F2 O1).
    - apply (f_equal (fun x => [x])). apply (unmark_ordinary _ O3). }
  destruct (Py.startswith (Difflib.lookahead lines) "-") eqn:B6.
  { destruct (single_line _ "-" eq_refl Hs B6 B5 B4) as (t & rest & -> & Hr).
    pose proof (next_after_del _ _ B6 B3) as J.
    destruct Hd as (_ & _ & Hd'). inversion Ht as [| ? ? T0 Ht']; subst.
    specialize (T0 eq_refl).
    rewrite make_del in E by apply T0. cbv beta match zeta in E.
    apply yield_Some in E. destruct E as (hr' & E & ->).
    destruct (step_del pending dels adds (fst nl) (Py.drop 2 (String "-" t))
                Hq Hds Has T0) as (dels' & adds' & Hq' & Hds' & Has' & Hstep).
    specialize (IH rest _ _ _ hr' dels' adds' E Hr Hd' Ht' Hq' Hds' Has' (fun _ => J)).
    exact (Hstep _ _ _ _ IH). }
  destruct (Py.startswith (Difflib.lookahead lines) "+--") eqn:B7.
  { pose proof (starts_with_first _ _ _ B7) as S1.
    destruct (single_line _ "+" eq_refl Hs S1 B5 B4) as (t & rest & -> & Hr).
    pose proof (next_after_add_block _ _ B7) as J.
    destruct Hd as (_ & _ & Hd'). inversion Ht as [| ? ? T0 Ht']; subst.
    specialize (T0 eq_refl).
    rewrite make_add in E by apply T0. cbv beta match zeta in E.
    apply yield_Some in E. destruct E as (hr' & E & ->).
    destruct (step_add pending dels adds (snd nl) (Py.drop 2 (String "+" t))
                Hq Hds Has T0) as (dels' & adds' & Hq' & Hds' & Has' & Hstep).
    specialize (IH rest _ _ _ hr' dels' adds' E Hr Hd' Ht' Hq' Hds' Has' (fun _ => J)).
    exact (Hstep _ _ _ _ IH). }
  destruct (Py.startswith (Difflib.lookahead lines) "+ " ||
            Py.startswith (Difflib.lookahead lines) "+-") eqn:B8.
  { pose proof (starts_add_catch_up _ B8) as S1.
    destruct (single_line _ "+" eq_refl Hs S1 B5 B4) as (t & rest & -> & Hr).
    destruct Hd as (_ & _ & Hd'). inversion Ht as [| ? ? T0 Ht']; subst.
    specialize (T0 eq_refl).
    rewrite make_add in E by apply T0. cbv beta match zeta in E.
    apply blanks_Some in E. destruct E as (hr1 & E & ->).
    apply yield_Some in E. destruct E as (hr' & E & ->).
    specialize (IH rest _ _ _ hr' [] [] E Hr Hd' Ht'
                  ltac:(split; [left; reflexivity | reflexivity])
                  ltac:(constructor) ltac:(constructor)
                  ltac:(intros Hz; exfalso; apply Hz; reflexivity)).
    rewrite froms_app, tos_app.
    exact (step_add_catch_up pending dels adds (snd nl) _ Hq Hds Has T0 _ _ _ _ IH). }
  destruct (Py.startswith (Difflib.lookahead lines) "+") eqn:B9.
  { destruct (single_line _ "+" eq_refl Hs B9 B5 B4) as (t & rest & -> & Hr).
    pose proof (next_after_add _ _ B9 B8) as J.
    destruct Hd as (_ & _ & Hd'). inversion Ht as [| ? ? T0 Ht']; subst.
    specialize (T0 eq_refl).
    rewrite make_add in E by apply T0. cbv beta match zeta in E.
    apply yield_Some in E. destruct E as (hr' & E & ->).
    destruct (step_add pending dels adds (snd nl) (Py.drop 2 (String "+" t))
                Hq Hds Has T0) as (dels' & adds' & Hq' & Hds' & Has' & Hstep).
    specialize (IH rest _ _ _ hr' dels' adds' E Hr Hd' Ht' Hq' Hds' Has' (fun _ => J)).
    exact (Hstep _ _ _ _ IH). }
  destruct (Py.startswith (Difflib.lookahead lines) " ") eqn:B10; [ | discriminate E].
  destruct (Both (or_intror (or_intror eq_refl))) as (-> & -> & ->).
  destruct (single_line _ " " eq_refl Hs B10 B5 B4) as (t & rest & -> & Hr).
  cbv beta match zeta delta [Difflib._make_line Difflib.pop0] in E.
  apply yield_Some in E. destruct E as (hr' & E & ->).
  destruct Hd as (_ & _ & Hd'). inversion Ht as [| ? ? T0 Ht']; subst.
  specialize (IH rest _ _ _ hr' [] [] E Hr Hd' Ht'
                ltac:(split; [left; reflexivity | reflexivity])
                ltac:(constructor) ltac:(constructor)
                ltac:(intros Hz; exfalso; apply Hz; reflexivity)).
  apply (shows_app [_] _ [Py.drop 2 (String " " t)] [Py.drop 2 (String " " t)]
           (old_of rest) (new_of rest)); [ | exact IH].
  apply common_row_shows.
Qed.

(** *** The rows of [_mdiff] *)

Lemma shaped_first_chars d :
  shaped d ->
  Forall (fun l => exists c t, l = String c t /\ Py.mem c " -+?" = true) d.
Proof.
  induction 1 as [| c t rest Hc _ IH | ta qa tb qb rest _ IH | ta qa tb rest _ IH
                  | ta tb qb rest _ IH].
  - constructor.
  - constructor; [ | exact IH]. exists c, t. split; [reflexivity | ].
    cbn [Py.mem] in *. rewrite !orb_false_r in Hc.
    apply orb_true_iff in Hc. destruct Hc as [-> | Hc]; [reflexivity | ].
    apply orb_true_iff in Hc. destruct Hc as [-> | ->]; rewrite ?orb_true_r; reflexivity.
  - repeat (constructor; [eexists; eexists; split; reflexivity | ]). exact IH.
  - repeat (constructor; [eexists; eexists; split; reflexivity | ]). exact IH.
  - repeat (constructor; [eexists; eexists; split; reflexivity | ]). exact IH.
Qed.

Lemma in_old_of l d :
  In l d -> Py.startswith l "-" || Py.startswith l " " = true ->
  In (Py.drop 2 l) (old_of d).
Proof.
  intros Hin Hc. unfold old_of. apply in_map. apply filter_In. auto.
Qed.

Lemma in_new_of l d :
  In l d -> Py.startswith l "+" || Py.startswith l " " = true ->
  In (Py.drop 2 l) (new_of d).
Proof.
  intros Hin Hc. unfold new_of. apply in_map. apply filter_In. auto.
Qed.

Lemma compare_text_ok a b :
  Forall showable a -> Forall showable b -> Forall text_ok (Difflib.compare a b).
Proof.
  intros Ha Hb. destruct (compare_holds a b) as [Ho Hn].
  pose proof (shaped_first_chars _ (compare_shaped a b)) as Hc.
  rewrite Forall_forall in *. intros l Hin Hq.
  destruct (Hc l Hin) as (c & t & -> & Hm).
  cbn [Py.startswith] in Hq. rewrite andb_true_r in Hq.
  cbn [Py.mem] in Hm. rewrite Hq, !orb_false_r in Hm.
  destruct (Ascii.eqb c "+") eqn:E.
  - apply Hb. rewrite <- Hn. apply in_new_of; [exact Hin | ].
    cbn [Py.startswith]. rewrite E. reflexivity.
  - rewrite orb_false_r in Hm. apply Ha. rewrite <- Ho. apply in_old_of; [exact Hin | ].
    cbn [Py.startswith]. rewrite !andb_true_r.
    destruct (Ascii.eqb c "-"); [reflexivity | ].
    rewrite orb_false_r in Hm. rewrite Hm. reflexivity.
Qed.

Lemma showable_plain l : Forall showable l -> Forall plain l.
Proof.
  intros H. eapply Forall_impl; [ | exact H].
  intros s [Hs _]. apply ordinary_plain, Hs.
Qed.

(** The rows of [_mdiff] show the whole of both texts, each in its order. *)
Lemma _mdiff_shows a b :
  Forall showable a -> Forall showable b -> shows (Difflib._mdiff a b) a b.
Proof.
  intros Ha Hb. unfold Difflib._mdiff, Difflib._line_iterator.
  destruct (_line_iterator_total a b) as [hr E]. rewrite E.
  rewrite _line_pair_iterator_zip by (left; reflexivity).
  pose proof (halves_show _ _ None _ _ hr [] [] E
                (compare_shaped a b)
                (compare_ok a b (showable_plain _ Ha) (showable_plain _ Hb))
                (compare_text_ok a b Ha Hb)
                ltac:(split; [left; reflexivity | reflexivity])
                ltac:(constructor) ltac:(constructor)
                ltac:(intros Hz; exfalso; apply Hz; reflexivity)) as H.
  unfold Difflib.ndiff in *.
  destruct (compare_holds a b) as [Ho Hn]. rewrite Ho, Hn in H. exact H.
Qed.
(** ** The round trip through the traditional rendering *)

Lemma text_of_ordinary l : ordinary l -> ordinary (text_of l).
Proof.
  destruct l as [| c t]; intros H; [exact H | ].
  apply ordinary_cons in H. apply H.
Qed.

Lemma kept_plain s : Forall kept_line s -> Forall plain s.
Proof.
  intros H. eapply Forall_impl; [ | exact H].
  intros l [Hl _]. apply ordinary_plain, Hl.
Qed.

Lemma images_showable seg :
  Forall kept_line seg ->
  Forall showable (pre_image seg) /\ Forall showable (post_image seg).
Proof.
  intros H. rewrite Forall_forall in H.
  split; apply Forall_forall; intros t Ht; apply in_map_iff in Ht;
    destruct Ht as (l & <- & Hl); apply filter_In in Hl; destruct Hl as [Hin Hc];
    destruct (H l Hin) as [Ho Hne];
    (split; [apply text_of_ordinary, Ho | apply Hne]);
    unfold is_content; apply orb_true_iff in Hc; destruct Hc as [-> | ->];
    rewrite ?orb_true_r; reflexivity.
Qed.

Lemma hunk_body_keeps_texts h hseg :
  hunk_covers h hseg -> Forall kept_line hseg -> body_keeps_texts h.
Proof.
  intros Hc Hk. destruct (hunk_covers_texts _ _ Hc) as [Eo En].
  destruct (images_showable _ Hk) as [So Sn]. rewrite <- Eo in So. rewrite <- En in Sn.
  exact (_mdiff_shows _ _ So Sn).
Qed.

Lemma hunks_keep_texts hs : forall hsegs,
  Forall2 hunk_covers hs hsegs -> Forall (Forall kept_line) hsegs ->
  Forall body_keeps_texts hs.
Proof.
  induction 1 as [| h hseg hs hsegs Hc _ IH]; intros Hk; [constructor | ].
  inversion Hk; subst. constructor; [eapply hunk_body_keeps_texts; eassumption | auto].
Qed.

Lemma diffs_keep_texts diffs : forall segs,
  Forall2 diff_covers diffs segs -> Forall (Forall kept_line) segs ->
  Forall (fun d => Forall body_keeps_texts (_hunks d)) diffs.
Proof.
  induction 1 as [| d seg diffs segs Hc _ IH]; intros Hk; [constructor | ].
  inversion Hk as [| ? ? Hseg Hk']; subst. constructor; [ | auto].
  destruct Hc as (pre & hsegs & -> & _ & _ & _ & Hh).
  apply Forall_app in Hseg. destruct Hseg as [_ Hseg].
  apply Forall_concat in Hseg.
  eapply hunks_keep_texts; eassumption.
Qed.

(** Why a content line needs text: the aligner puts a blank into an empty
    deleted or added line, so that there is something to mark. *)
Example bare_prefix_line_gains_blank :
  map strip_ansi
    (markup_traditional
       (mkDiff [] (Py.ln "--- a") (Py.ln "+++ b")
          [mkHunk (Py.ln "@@ -1 +0,0 @@") [("-", "")]])) =
  [Py.ln "--- a"; Py.ln "+++ b"; Py.ln "@@ -1 +0,0 @@"; "- "].
Proof. vm_compute. reflexivity. Qed.

(** C1, amended: for an input that parses and whose lines hold no escape,
    NUL or SOH character, and some text after the first character of each
    content line, the traditional rendering stripped of its escape
    sequences is, Diff by Diff, the headers, the old path, the new path and
    then, hunk by hunk, the hunk header followed by the rows of the aligner
    in its order: the new text of an inserted row under [+], the old text of
    a deleted row under [-], the old text under [-] and then the new text
    under [+] for a replacement row, the text under a blank for an unchanged
    row.  Every line of the hunk is there with its text: the body lines that
    do not start with [+] are, after their first character, the old text of
    the hunk in its order, and those that do not start with [-] its new
    text.  Only the interleaving of old and new lines is the aligner's, not
    the patch's: the lines of a replacement block alternate pair by pair. *)
Theorem traditional_rendering_stripped (s : list string) (diffs : list Diff) :
  Forall kept_line s ->
  DiffParser s = Ok diffs ->
  map strip_ansi (markup diffs false false (Some 0%Z)) =
    flat_map plain_rendering diffs /\
  Forall (fun d => Forall body_keeps_texts (_hunks d)) diffs.
Proof.
  intros Hs Hp. split.
  - pose proof (DiffParser_plain _ _ (kept_plain _ Hs) Hp) as Hd.
    unfold markup, _markup_traditional. rewrite map_flat_map.
    apply (flat_map_ext_Forall plain_diff); [assumption | ].
    intros d Pd. apply markup_traditional_clean, plain_diff_clean. assumption.
  - destruct (DiffParser_covers _ _ Hp) as (segs & E & F).
    apply (diffs_keep_texts _ segs F). apply Forall_concat. rewrite E. exact Hs.
Qed.

Lemma traditional_rendering_stripped_witness :
  map strip_ansi (markup [two_line_diff] false false (Some 0%Z)) =
    [Py.ln "--- a"; Py.ln "+++ b"; Py.ln "@@ -1,2 +1,2 @@";
     Py.ln "-a"; Py.ln "+c"; Py.ln "-b"; Py.ln "+d"] /\
  Forall (fun d => Forall body_keeps_texts (_hunks d)) [two_line_diff].
Proof.
  apply (traditional_rendering_stripped two_line_replacement [two_line_diff]).
  - repeat constructor; intros _; discriminate.
  - reflexivity.
Defined.

(** ** The tests of [Udiff] on a line *)

Lemma startswith_String c t b p :
  Py.startswith (String c t) (String b p) = Ascii.eqb c b && Py.startswith t p.
Proof. reflexivity. Qed.

Lemma startswith_nil t : Py.startswith t "" = true.
Proof. destruct t; reflexivity. Qed.

Ltac by_first_char c t :=
  unfold is_header, is_content, is_old, is_new, is_common, is_eof, unclassified,
    is_old_path, is_new_path, is_hunk_header;
  rewrite ?startswith_String, ?startswith_nil; cbn [Py.mem];
  destruct (Ascii.eqb_spec c "+") as [-> | _];
    [destruct (Py.startswith t "++ "); reflexivity | ];
  destruct (Ascii.eqb_spec c "@") as [-> | _];
    [destruct (Py.startswith t "@ -"); reflexivity | ];
  destruct (Ascii.eqb_spec c "\") as [-> | _]; [reflexivity | ];
  destruct (Ascii.eqb_spec c " ") as [-> | _]; [reflexivity | ];
  destruct (Ascii.eqb_spec c "-") as [-> | _];
    [destruct (Py.startswith t "-- "); reflexivity | ];
  reflexivity.

Lemma line_classes (line : string) :
  match is_header line, is_old_path line, is_new_path line,
        is_hunk_header line, is_content line, is_eof line with
  | true, false, false, false, false, false
  | false, true, false, false, false, false
  | false, false, true, false, false, false
  | false, false, false, true, false, false
  | false, false, false, false, true, false
  | false, false, false, false, false, true => unclassified line = false
  | false, false, false, false, false, false => unclassified line = true
  | _, _, _, _, _, _ => False
  end.
Proof.
  destruct line as [| c t]; [reflexivity | ]. by_first_char c t.
Qed.

(** X7: the tests of [Udiff] split the lines into classes: on every line
    exactly one of [is_old_path], [is_new_path], [is_hunk_header], [is_old],
    [is_new], [is_common], [is_eof] and [is_header] holds; except on the
    empty line and on a line that starts with [@] without being a hunk
    header, where none does. *)
Theorem one_test_per_line (line : string) :
  count_occ bool_dec (tests line) true = if unclassified line then 0 else 1.
Proof.
  unfold tests. destruct line as [| c t]; [reflexivity | ]. by_first_char c t.
Qed.

(** ** Every line popped is accounted for *)

Lemma kept_initial s : kept s (initial s).
Proof.
  constructor; cbn [initial stream out_diffs headers old_path new_path hunks hunk
                    hunks_so_far flat_map map app opt_list];
    auto; discriminate.
Qed.

Ltac lists :=
  unfold hunks_so_far, hunk_headers_of, hunk_lines_of;
  cbn [stream out_diffs headers old_path new_path hunks hunk
       _headers _old_path _new_path _hunks opt_list];
  rewrite ?flat_map_app, ?map_app;
  cbn [flat_map map opt_list _headers _old_path _new_path _hunks get_header
       _hunk_header _hunk_list Hunk_new Hunk_append];
  rewrite ?flat_map_app, ?map_app;
  cbn [flat_map map];
  rewrite ?app_nil_r; repeat rewrite <- app_assoc;
  cbn [app].

Ltac by_kept K :=
  generalize K; lists;
  let X := fresh in
  intros X; first [exact X | rewrite <- X; reflexivity].

Lemma kept_emit s st st' old_p line rest :
  kept s st ->
  stream st = line :: rest ->
  is_header line || is_old_path line = true ->
  old_path st = Some old_p ->
  emit_and_reset st old_p = Ok st' ->
  kept s st'.
Proof.
  intros [K1 K2 K3 K4 K5 K6 K7 K8 K9 K10] Hs Hl Ho H.
  unfold emit_and_reset in H.
  destruct (new_path st) as [new_p | ] eqn:Hn; simpl in H; [ | discriminate].
  destruct (hunk st) as [h | ] eqn:Hh; simpl in H; [ | discriminate].
  injection H as <-.
  unfold hunks_so_far in *. rewrite ?Ho, ?Hn, ?Hh in *.
  constructor;
    [by_kept K1 | by_kept K2 | by_kept K3 | by_kept K4 | by_kept K5 | .. ];
    cbn [stream out_diffs headers old_path new_path hunks hunk];
    try discriminate; auto.
  intros _ _. right. eauto.
Qed.

Lemma is_old_path_truthy o : is_old_path o = true -> truthy (Some o) = true.
Proof.
  intros H. apply startswith_cons in H. destruct H as (t & -> & _). reflexivity.
Qed.

Lemma is_new_path_truthy n : is_new_path n = true -> truthy (Some n) = true.
Proof.
  intros H. apply startswith_cons in H. destruct H as (t & -> & _). reflexivity.
Qed.

Lemma kept_step s st line rest st' :
  kept s st ->
  stream st = line :: rest ->
  loop_body st line rest = Ok st' ->
  kept s st'.
Proof.
  intros K Hs H. pose proof (line_classes line) as C.
  unfold loop_body in H.
  change (is_old line || is_new line || is_common line) with (is_content line) in H.
  destruct (is_header line) eqn:C1, (is_old_path line) eqn:C2,
    (is_new_path line) eqn:C3, (is_hunk_header line) eqn:C4,
    (is_content line) eqn:C5, (is_eof line) eqn:C6;
    try contradiction; clear C.
  all: try discriminate H.
  all: destruct (old_path st) as [old_p | ] eqn:Ho; cbn [assert_not_None bind] in H;
    try discriminate H.
  all: try (rewrite (is_old_path_truthy old_p) in H
              by (apply (kept_old_path _ _ K), Ho)).
  all: try (rewrite andb_true_r in H; destruct (nonempty (headers st)) eqn:Hne).
  all: try (eapply kept_emit; [exact K | exact Hs | | exact Ho | exact H];
            rewrite ?C1, ?C2; reflexivity).
  all: destruct (new_path st) as [new_p | ] eqn:Hn;
    cbn [assert_not_None assert_None bind] in H; try discriminate H.
  all: destruct (hunk st) as [h | ] eqn:Hk;
    cbn [assert_not_None assert_None bind] in H; try discriminate H.
  all: try (destruct line as [| c text]; [discriminate H | ]).
  all: injection H as <-.
  all: destruct K as [K1 K2 K3 K4 K5 K6 K7 K8 K9 K10].
  all: unfold hunks_so_far in *; rewrite ?Ho, ?Hn, ?Hk, ?Hs in *.
  all: cbn [filter] in K1, K2, K3, K4, K5; rewrite ?C1, ?C2, ?C3, ?C4, ?C5 in *.
  all: constructor;
    [lists; cbn [filter]; rewrite ?C1; by_kept K1
    |lists; cbn [filter]; rewrite ?C2; by_kept K2
    |lists; cbn [filter]; rewrite ?C3; by_kept K3
    |lists; cbn [filter]; rewrite ?C4; by_kept K4
    |lists; cbn [filter]; rewrite ?C5; by_kept K5 | .. ];
    cbn [stream out_diffs headers old_path new_path hunks hunk];
    try discriminate; auto.
  all: intros.
  all: try match goal with
       | E : _ ++ [_] = [] |- _ =>
           apply app_eq_nil in E; destruct E as [_ E]; discriminate E
       | E : Some _ = Some _ |- _ => injection E as <-; assumption
       end.
  all: try (right; eauto; fail).
  all: try (destruct K9 as [K9 | (l0 & r0 & E & Hl)];
            [reflexivity | left; exact K9 | injection E as <- <-; congruence]).
  all: try (destruct K10 as [K10 | (l0 & r0 & E & Hl)];
            [reflexivity | assumption | left; exact K10
            | injection E as <- <-; rewrite C1, C2 in Hl; discriminate Hl]).
Qed.

Lemma kept_while s fuel : forall st st',
  kept s st -> while_stream fuel st = Some (Ok st') ->
  kept s st' /\ stream st' = [].
Proof.
  induction fuel as [| fuel IH]; intros st st' K H; simpl in H.
  - destruct (stream st) eqn:Hs; [ | discriminate]. injection H as <-. auto.
  - destruct (stream st) as [| line rest] eqn:Hs.
    + injection H as <-. auto.
    + destruct (loop_body st line rest) as [st1 | e] eqn:Hb; [ | discriminate].
      eapply IH; [ | exact H]. eapply kept_step; eassumption.
Qed.

(** Two finished runs of the loop from a state agree. *)
Lemma while_stream_agree f1 f2 st r1 r2 :
  while_stream f1 st = Some r1 -> while_stream f2 st = Some r2 -> r1 = r2.
Proof.
  intros H1 H2.
  apply (while_stream_more _ _ _ f2) in H1.
  apply (while_stream_more _ _ _ f1) in H2.
  rewrite Nat.add_comm in H2. congruence.
Qed.

(** Any finished run of the loop tells what [_parse_udiff] returns. *)
Lemma _parse_udiff_run s fuel r :
  while_stream fuel (initial s) = Some r ->
  _parse_udiff s = match r with
                   | Ok st => last_patch st
                   | Raise e => Raise e
                   end.
Proof.
  intros H. destruct (while_stream_total s) as [r' Hr'].
  pose proof (while_stream_agree _ _ _ _ _ H Hr') as <-.
  unfold _parse_udiff, _parse_udiff_within. rewrite Hr'.
  destruct r; reflexivity.
Qed.

(** A successful parse, as a run of the loop and the statements after it. *)
Lemma DiffParser_Ok s diffs :
  DiffParser s = Ok diffs ->
  sniff s = true /\
  exists fuel st,
    while_stream fuel (initial s) = Some (Ok st) /\ last_patch st = Ok diffs.
Proof.
  unfold DiffParser. intros H.
  destruct (sniff s); [ | discriminate]. split; [reflexivity | ].
  destruct (_parse_udiff s) as [diffs' | e] eqn:Hp; [ | destruct e; discriminate].
  injection H as ->.
  destruct (while_stream_total s) as [r Hr].
  rewrite (_parse_udiff_run _ _ _ Hr) in Hp.
  destruct r as [st | e]; [ | discriminate]. eauto.
Qed.

Lemma DiffParser_run s fuel st diffs :
  sniff s = true ->
  while_stream fuel (initial s) = Some (Ok st) ->
  last_patch st = Ok diffs ->
  DiffParser s = Ok diffs.
Proof.
  intros Hs Hw Hl. unfold DiffParser. rewrite Hs.
  rewrite (_parse_udiff_run _ _ _ Hw), Hl. reflexivity.
Qed.

(** The Diffs of a successful parse hold the lines of the input class by
    class. *)
Lemma kept_last s st diffs :
  kept s st -> stream st = [] -> last_patch st = Ok diffs ->
  flat_map _headers diffs = filter is_header s /\
  map _old_path diffs = filter is_old_path s /\
  map _new_path diffs = filter is_new_path s /\
  flat_map hunk_headers_of diffs = filter is_hunk_header s /\
  flat_map hunk_lines_of diffs = map kind_and_text (filter is_content s).
Proof.
  intros [K1 K2 K3 K4 K5 K6 K7 K8 K9 K10] Hs H.
  unfold last_patch in H. unfold hunks_so_far in *. rewrite Hs in *.
  destruct (old_path st) as [old_p | ] eqn:Ho.
  - rewrite (is_old_path_truthy old_p) in H by auto.
    destruct (new_path st) as [new_p | ] eqn:Hn; [ | discriminate].
    rewrite (is_new_path_truthy new_p) in H by auto.
    injection H as <-.
    destruct (hunk st) as [h | ] eqn:Hk;
      (repeat split; [by_kept K1 | by_kept K2 | by_kept K3 | by_kept K4 | by_kept K5]).
  - destruct (K6 eq_refl) as (Hn & Hh & Hk). rewrite Hn, Hh, Hk in *.
    destruct (headers st) as [| x l] eqn:Hd; [ | discriminate].
    injection H as <-.
    repeat split; [by_kept K1 | by_kept K2 | by_kept K3 | by_kept K4 | by_kept K5].
Qed.

Lemma parsed_classes s diffs :
  DiffParser s = Ok diffs ->
  flat_map _headers diffs = filter is_header s /\
  map _old_path diffs = filter is_old_path s /\
  map _new_path diffs = filter is_new_path s /\
  flat_map hunk_headers_of diffs = filter is_hunk_header s /\
  flat_map hunk_lines_of diffs = map kind_and_text (filter is_content s).
Proof.
  intros H. destruct (DiffParser_Ok _ _ H) as (_ & fuel & st & Hw & Hl).
  destruct (kept_while _ _ _ _ (kept_initial s) Hw) as [K Hs].
  eapply kept_last; eassumption.
Qed.

(** X2: a successful parse returns one Diff for each old-path line of the
    input: the old paths of the Diffs are the lines that start with [--- ],
    in input order, and their new paths the lines that start with [+++ ]. *)
Theorem paths_kept_in_order (s : list string) (diffs : list Diff) :
  DiffParser s = Ok diffs ->
  map _old_path diffs = filter is_old_path s /\
  map _new_path diffs = filter is_new_path s /\
  List.length diffs = List.length (filter is_old_path s).
Proof.
  intros H. destruct (parsed_classes _ _ H) as (_ & Ho & Hn & _).
  repeat split; try assumption.
  rewrite <- Ho. symmetry. apply length_map.
Qed.

Lemma paths_kept_in_order_witness :
  map _old_path two_file_diffs = filter is_old_path two_file_patch /\
  map _new_path two_file_diffs = filter is_new_path two_file_patch /\
  List.length two_file_diffs = List.length (filter is_old_path two_file_patch).
Proof.
  apply (paths_kept_in_order two_file_patch two_file_diffs). reflexivity.
Defined.

(** X3: a successful parse keeps every header line, every hunk header and
    every content line of the input, each once and in input order: the
    headers of the Diffs are the header lines, the headers of their hunks
    the lines that start with [@@ -], and the lines of their hunks the
    content lines, each split after its first character.  What the Diffs
    do not hold are the lines that start with a backslash. *)
Theorem lines_kept_in_order (s : list string) (diffs : list Diff) :
  DiffParser s = Ok diffs ->
  flat_map _headers diffs = filter is_header s /\
  flat_map hunk_headers_of diffs = filter is_hunk_header s /\
  flat_map hunk_lines_of diffs = map kind_and_text (filter is_content s).
Proof.
  intros H. destruct (parsed_classes _ _ H) as (Hh & _ & _ & Hk & Hl). auto.
Qed.

Lemma lines_kept_in_order_witness :
  flat_map _headers two_file_diffs = filter is_header two_file_patch /\
  flat_map hunk_headers_of two_file_diffs = filter is_hunk_header two_file_patch /\
  flat_map hunk_lines_of two_file_diffs =
    map kind_and_text (filter is_content two_file_patch).
Proof.
  apply (lines_kept_in_order two_file_patch two_file_diffs). reflexivity.
Defined.

(** ** What a parsed Diff looks like *)

Lemma content_line_wf line :
  is_content line = true -> hunk_line_wf (kind_and_text line) = true.
Proof.
  destruct line as [| c t]; [discriminate | ].
  unfold is_content, is_old, is_new, is_common, is_old_path, is_new_path,
    kind_and_text, hunk_line_wf.
  rewrite ?startswith_String, ?startswith_nil.
  destruct (Ascii.eqb_spec c "-") as [-> | _];
    [destruct (Py.startswith t "-- "); cbn; congruence | ].
  destruct (Ascii.eqb_spec c "+") as [-> | _];
    [destruct (Py.startswith t "++ "); cbn; congruence | ].
  destruct (Ascii.eqb_spec c " ") as [-> | _]; [reflexivity | ].
  discriminate.
Qed.

(** X4: every Diff of a successful parse is made of lines of the right
    classes: its headers pass [is_header], its paths start with [--- ] and
    [+++ ], its hunk headers start with [@@ -], and every hunk line has one
    of the kinds [-], [+] and blank.  The text of a [-] line never starts
    with [-- ] and that of a [+] line never with [++ ]: such lines of the
    input are taken for path lines. *)
Theorem parsed_diffs_well_formed (s : list string) (diffs : list Diff) :
  DiffParser s = Ok diffs -> Forall diff_wf diffs.
Proof.
  intros H. destruct (parsed_classes _ _ H) as (Hh & Ho & Hn & Hk & Hl).
  apply Forall_forall. intros d Hd. repeat split.
  - apply Forall_forall. intros line Hin.
    assert (X : In line (filter is_header s)).
    { rewrite <- Hh. apply in_flat_map. eauto. }
    apply filter_In in X. apply X.
  - assert (X : In (_old_path d) (filter is_old_path s)).
    { rewrite <- Ho. apply in_map, Hd. }
    apply filter_In in X. apply X.
  - assert (X : In (_new_path d) (filter is_new_path s)).
    { rewrite <- Hn. apply in_map, Hd. }
    apply filter_In in X. apply X.
  - apply Forall_forall. intros h Hin. split.
    + assert (X : In (get_header h) (filter is_hunk_header s)).
      { rewrite <- Hk. apply in_flat_map. exists d. split; [exact Hd | ].
        unfold hunk_headers_of. apply in_map, Hin. }
      apply filter_In in X. apply X.
    + apply Forall_forall. intros item Hi.
      assert (X : In item (map kind_and_text (filter is_content s))).
      { rewrite <- Hl. apply in_flat_map. exists d. split; [exact Hd | ].
        unfold hunk_lines_of. apply in_flat_map. eauto. }
      apply in_map_iff in X. destruct X as (line & <- & X).
      apply filter_In in X. apply content_line_wf, X.
Qed.

Lemma parsed_diffs_well_formed_witness : Forall diff_wf two_file_diffs.
Proof.
  apply (parsed_diffs_well_formed two_file_patch two_file_diffs). reflexivity.
Defined.

(** ** The end of the loop *)

(** X1: the loop of [_parse_udiff] ends.  A turn that pops no line (the
    two branches that emit a Diff, and the one that closes an open hunk)
    clears the local that sent it there, so the loop makes at most two turns
    for a line: after [2 * len(stream) + 1] turns it has left the loop or
    raised, and allowing more turns changes nothing. *)
Theorem parsing_loop_ends (s : list string) (fuel : nat) :
  parse_fuel s <= fuel ->
  _parse_udiff_within fuel s = Some (_parse_udiff s).
Proof.
  intros Hf. destruct (while_stream_total s) as [r Hr].
  rewrite (_parse_udiff_run _ _ _ Hr).
  apply (while_stream_more _ _ _ (fuel - parse_fuel s)) in Hr.
  replace (parse_fuel s + (fuel - parse_fuel s)) with fuel in Hr by lia.
  unfold _parse_udiff_within. rewrite Hr. destruct r; reflexivity.
Qed.

Lemma parsing_loop_ends_witness :
  _parse_udiff_within 100 two_file_patch = Some (_parse_udiff two_file_patch).
Proof.
  apply (parsing_loop_ends two_file_patch 100). vm_compute. lia.
Defined.

(** ** Lines no test accepts *)

Lemma loop_body_classified st line rest st' :
  loop_body st line rest = Ok st' -> unclassified line = false.
Proof.
  intros H. pose proof (line_classes line) as C. unfold loop_body in H.
  change (is_old line || is_new line || is_common line) with (is_content line) in H.
  destruct (is_header line), (is_old_path line), (is_new_path line),
    (is_hunk_header line), (is_content line), (is_eof line);
    try contradiction; try exact C; discriminate H.
Qed.

Lemma while_ok_classified fuel : forall st st',
  while_stream fuel st = Some (Ok st') ->
  Forall (fun l => unclassified l = false) (stream st).
Proof.
  induction fuel as [| fuel IH]; intros st st' H; simpl in H.
  - destruct (stream st); [constructor | discriminate].
  - destruct (stream st) as [| line rest] eqn:Hs; [constructor | ].
    destruct (loop_body st line rest) as [st1 | e] eqn:Hb; [ | discriminate].
    constructor; [eapply loop_body_classified; eassumption | ].
    specialize (IH _ _ H).
    destruct (loop_body_progress _ _ _ _ Hs Hb) as [Hr | (Hr & _)];
      rewrite Hr in IH; [exact IH | ].
    inversion IH; assumption.
Qed.

(** X5: an input that holds a line no test of [Udiff] accepts (an empty
    line, or a line that starts with [@] without being a hunk header, such
    as the [@@@] header of a combined diff) is refused wherever the line
    stands: [DiffParser] raises, and never returns Diffs for it. *)
Theorem unclassified_line_refused (s : list string) (line : string) :
  In line s -> unclassified line = true ->
  exists e, DiffParser s = Raise e /\ (UnsupportedFormat e \/ MalformedPatch e).
Proof.
  intros Hin Hu. destruct (sniff s) eqn:Hs.
  - destruct (DiffParser_sniffed s Hs) as [(diffs & H) | (e & H & He)].
    + exfalso. destruct (DiffParser_Ok _ _ H) as (_ & fuel & st & Hw & _).
      apply while_ok_classified in Hw. cbn [initial stream] in Hw.
      rewrite Forall_forall in Hw. specialize (Hw line Hin). congruence.
    + exists e. auto.
  - exists (RuntimeError "unknown diff type"). split.
    + unfold DiffParser. rewrite Hs. reflexivity.
    + left. reflexivity.
Qed.

Lemma unclassified_line_refused_witness :
  exists e,
    DiffParser [Py.ln "--- a"; Py.ln "+++ b"; Py.ln "@@@ -1 -1 +1 @@@"; Py.ln "+x"] =
      Raise e /\
    (UnsupportedFormat e \/ MalformedPatch e).
Proof.
  apply (unclassified_line_refused _ (Py.ln "@@@ -1 -1 +1 @@@")).
  - simpl. auto.
  - reflexivity.
Defined.

(** ** Backslash lines *)

Lemma loop_body_without_eof st line rest :
  loop_body (without_eof st) line (filter not_eof rest) =
  match loop_body st line rest with
  | Ok st' => Ok (without_eof st')
  | Raise e => Raise e
  end.
Proof.
  unfold loop_body, emit_and_reset, without_eof, bind, assert_not_None,
    assert_None.
  cbn [stream out_diffs headers old_path new_path hunks hunk].
  repeat match goal with
  | |- context [if ?b then _ else _] => destruct b
  | |- context [match ?v with Some _ => _ | None => _ end] => destruct v
  | |- context [match ?l with EmptyString => _ | String _ _ => _ end] => destruct l
  end; reflexivity.
Qed.

Lemma loop_body_eof st line rest :
  is_eof line = true ->
  loop_body st line rest =
  Ok (mkLocals rest (out_diffs st) (headers st) (old_path st) (new_path st)
        (hunks st) (hunk st)).
Proof.
  intros H. pose proof (line_classes line) as C. unfold loop_body.
  change (is_old line || is_new line || is_common line) with (is_content line).
  rewrite H in *.
  destruct (is_header line), (is_old_path line), (is_new_path line),
    (is_hunk_header line), (is_content line); try contradiction; reflexivity.
Qed.

Lemma while_without_eof fuel : forall st r,
  while_stream fuel st = Some r ->
  while_stream fuel (without_eof st) =
  Some match r with
       | Ok st' => Ok (without_eof st')
       | Raise e => Raise e
       end.
Proof.
  induction fuel as [| fuel IH]; intros st r H.
  - simpl in H. destruct (stream st) eqn:Hs; [ | discriminate].
    injection H as <-. simpl. rewrite Hs. reflexivity.
  - cbn [while_stream] in H.
    destruct (stream st) as [| line rest] eqn:Hs.
    { injection H as <-. simpl. rewrite Hs. reflexivity. }
    destruct (is_eof line) eqn:He.
    + rewrite (loop_body_eof _ _ _ He) in H. apply IH in H.
      replace (without_eof st) with
        (without_eof (mkLocals rest (out_diffs st) (headers st) (old_path st)
                        (new_path st) (hunks st) (hunk st))).
      * apply (while_stream_more _ _ _ 1) in H.
        rewrite Nat.add_1_r in H. exact H.
      * unfold without_eof. cbn [stream out_diffs headers old_path new_path hunks hunk].
        rewrite Hs. cbn [filter]. unfold not_eof at 2. rewrite He. reflexivity.
    + cbn [while_stream].
      assert (E : stream (without_eof st) = line :: filter not_eof rest).
      { unfold without_eof. cbn [stream]. rewrite Hs. cbn [filter].
        unfold not_eof at 1. rewrite He. reflexivity. }
      rewrite E, loop_body_without_eof.
      destruct (loop_body st line rest) as [st1 | e].
      * apply IH, H.
      * injection H as <-. reflexivity.
Qed.

Lemma _parse_udiff_without_eof s :
  _parse_udiff (filter not_eof s) = _parse_udiff s.
Proof.
  destruct (while_stream_total s) as [r Hr].
  rewrite (_parse_udiff_run _ _ _ Hr).
  apply while_without_eof in Hr.
  change (without_eof (initial s)) with (initial (filter not_eof s)) in Hr.
  rewrite (_parse_udiff_run _ _ _ Hr).
  destruct r; reflexivity.
Qed.

Lemma In_firstn_S {A : Type} (x : A) (l : list A) :
  forall n, In x (firstn n l) -> In x (firstn (S n) l).
Proof.
  induction l as [| z l IH]; intros n Hin.
  - destruct n; destruct Hin.
  - destruct n as [| n]; [destruct Hin | ].
    cbn [firstn] in Hin. destruct Hin as [-> | Hin]; [left; reflexivity | ].
    right. apply IH. exact Hin.
Qed.

Lemma In_firstn_filter {A : Type} (p : A -> bool) (x : A) (l : list A) :
  forall n, In x (firstn n l) -> p x = true -> In x (firstn n (filter p l)).
Proof.
  induction l as [| y l IH]; intros n Hin Hp.
  - destruct n; exact Hin.
  - destruct n as [| n]; [destruct Hin | ].
    cbn [firstn filter] in Hin |- *. destruct Hin as [-> | Hin].
    + rewrite Hp. left. reflexivity.
    + destruct (p y).
      * right. apply IH; assumption.
      * apply In_firstn_S, IH; assumption.
Qed.

Lemma sniff_without_eof s : sniff s = true -> sniff (filter not_eof s) = true.
Proof.
  unfold sniff. intros H. apply existsb_exists in H. destruct H as (x & Hin & Hx).
  apply existsb_exists. exists x. split; [ | exact Hx].
  apply In_firstn_filter; [exact Hin | ].
  apply startswith_cons in Hx. destruct Hx as (t & -> & _). reflexivity.
Qed.

(** X6: lines that start with a backslash (such as [\ No newline at end of
    file]) are ignored wherever they stand: for an input that passes the
    sniff, the parser returns, or raises, the same with these lines taken
    out of the input. *)
Theorem backslash_lines_ignored (s : list string) :
  sniff s = true ->
  DiffParser (filter not_eof s) = DiffParser s.
Proof.
  intros H. unfold DiffParser.
  rewrite H, (sniff_without_eof s H), _parse_udiff_without_eof. reflexivity.
Qed.

Lemma backslash_lines_ignored_witness :
  DiffParser (filter not_eof two_file_patch) = DiffParser two_file_patch.
Proof.
  apply (backslash_lines_ignored two_file_patch). reflexivity.
Defined.

(** ** Diffs without hunks *)

Lemma only_last_diff_can_lack_hunks_witness :
  Forall (fun d => _hunks d <> []) (removelast two_file_diffs).
Proof.
  apply (only_last_diff_can_lack_hunks two_file_patch two_file_diffs). reflexivity.
Defined.

(** ** One patch after another *)

Lemma loop_body_resumed st line rest ds more :
  loop_body (resumed st ds more) line (rest ++ more) =
  match loop_body st line rest with
  | Ok st' => Ok (resumed st' ds more)
  | Raise e => Raise e
  end.
Proof.
  unfold loop_body, emit_and_reset, resumed, bind, assert_not_None, assert_None.
  cbn [stream out_diffs headers old_path new_path hunks hunk].
  repeat match goal with
  | |- context [if ?b then _ else _] => destruct b
  | |- context [match ?v with Some _ => _ | None => _ end] => destruct v
  | |- context [match ?l with EmptyString => _ | String _ _ => _ end] => destruct l
  end;
    cbn [stream out_diffs headers old_path new_path hunks hunk];
    rewrite ?app_assoc; reflexivity.
Qed.

Lemma while_resumed fuel ds more : forall st st' f2 r,
  while_stream fuel st = Some (Ok st') ->
  while_stream f2 (resumed st' ds more) = Some r ->
  while_stream (fuel + f2) (resumed st ds more) = Some r.
Proof.
  induction fuel as [| fuel IH]; intros st st' f2 r H H2.
  - simpl in H. destruct (stream st); [ | discriminate].
    injection H as <-. exact H2.
  - cbn [while_stream] in H.
    destruct (stream st) as [| line rest] eqn:Hs.
    + injection H as <-.
      apply (while_stream_more _ _ _ (S fuel)) in H2.
      rewrite Nat.add_comm in H2. exact H2.
    + cbn [Nat.add while_stream].
      assert (E : stream (resumed st ds more) = line :: rest ++ more).
      { unfold resumed. cbn [stream]. rewrite Hs. reflexivity. }
      rewrite E, loop_body_resumed.
      destruct (loop_body st line rest) as [st1 | e]; [ | discriminate].
      eapply IH; eassumption.
Qed.

Lemma while_stream_done fuel st :
  stream st = [] -> while_stream fuel st = Some (Ok st).
Proof. intros H. destruct fuel; simpl; rewrite H; reflexivity. Qed.

Lemma last_patch_resumed st ds more diffs :
  last_patch st = Ok diffs -> last_patch (resumed st ds more) = Ok (ds ++ diffs).
Proof.
  unfold last_patch, resumed.
  cbn [stream out_diffs headers old_path new_path hunks hunk].
  repeat match goal with
  | |- context [if ?b then _ else _] => destruct b
  | |- context [match ?v with Some _ => _ | None => _ end] => destruct v
  end; intros H; try discriminate H; injection H as <-;
    rewrite ?app_assoc; reflexivity.
Qed.

Lemma sniff_app s1 s2 : sniff s1 = true -> sniff (s1 ++ s2) = true.
Proof.
  unfold sniff. intros H. apply existsb_exists in H. destruct H as (x & Hin & Hx).
  apply existsb_exists. exists x. split; [ | exact Hx].
  clear Hx. revert Hin. generalize 10. induction s1 as [| y s1 IH]; intros n Hin.
  - destruct n; destruct Hin.
  - destruct n as [| n]; [destruct Hin | ].
    cbn [firstn app] in *. destruct Hin as [-> | Hin]; [left; reflexivity | ].
    right. apply IH, Hin.
Qed.

(** The locals when the loop has ended on an input that parses to Diffs
    the last of which has a hunk. *)
Lemma last_patch_open s st pre d :
  kept s st -> stream st = [] ->
  last_patch st = Ok (pre ++ [d]) -> _hunks d <> [] ->
  exists o n h,
    old_path st = Some o /\ new_path st = Some n /\ hunk st = Some h /\
    out_diffs st = pre /\ d = mkDiff (headers st) o n (hunks st ++ [h]).
Proof.
  intros [K1 K2 K3 K4 K5 K6 K7 K8 K9 K10] Hs H Hd.
  unfold last_patch in H. rewrite Hs in *.
  destruct (old_path st) as [old_p | ] eqn:Ho.
  - rewrite (is_old_path_truthy old_p) in H by auto.
    destruct (new_path st) as [new_p | ] eqn:Hn; [ | discriminate].
    rewrite (is_new_path_truthy new_p) in H by auto.
    injection H as H. apply app_inj_tail in H. destruct H as [Hp <-].
    destruct (hunk st) as [h | ] eqn:Hk.
    + exists old_p, new_p, h. auto.
    + exfalso. apply Hd. cbn [_hunks].
      destruct (K9 eq_refl) as [E | (l & r & E & _)]; [exact E | discriminate E].
  - exfalso. destruct (headers st) as [| x l] eqn:Hh; [ | discriminate].
    injection H as H.
    destruct (K10 eq_refl eq_refl) as [E | (l & r & E & _)]; [ | discriminate E].
    rewrite E in H. destruct pre; discriminate H.
Qed.

(** The run of the loop on two patches, one after the other. *)
Lemma two_patches_run (s1 s2 : list string) (pre : list Diff) (d : Diff)
    (line : string) (rest : list string) (diffs2 : list Diff) :
  DiffParser s1 = Ok (pre ++ [d]) ->
  _hunks d <> [] ->
  s2 = line :: rest ->
  starts_new_diff d line = true ->
  DiffParser s2 = Ok diffs2 ->
  sniff (s1 ++ s2) = true /\
  exists fuel st,
    while_stream fuel (initial (s1 ++ s2)) = Some (Ok st) /\
    last_patch st = Ok ((pre ++ [d]) ++ diffs2).
Proof.
  intros H1 Hd E2 Hl H2.
  destruct (DiffParser_Ok _ _ H1) as (Hs1 & f1 & st1 & W1 & L1).
  destruct (DiffParser_Ok _ _ H2) as (_ & f2 & st2 & W2 & L2).
  destruct (kept_while _ _ _ _ (kept_initial s1) W1) as [K1 E1].
  destruct (kept_while _ _ _ _ (kept_initial s2) W2) as [_ E2'].
  destruct (last_patch_open _ _ _ _ K1 E1 L1 Hd) as (o & n & h & Ho & Hn & Hh & Hp & Hdd).
  split; [apply sniff_app, Hs1 | ].
  exists (f1 + S (f2 + 0)), (resumed st2 (pre ++ [d]) []). split.
  - change (initial (s1 ++ s2)) with (resumed (initial s1) [] s2).
    eapply while_resumed; [exact W1 | ].
    cbn [while_stream].
    assert (E : stream (resumed st1 [] s2) = line :: rest).
    { unfold resumed. cbn [stream]. rewrite E1, E2. reflexivity. }
    rewrite E.
    assert (B : loop_body (resumed st1 [] s2) line rest =
                Ok (resumed (initial s2) (pre ++ [d]) [])).
    { unfold starts_new_diff in Hl. rewrite Hdd in Hl. cbn [_headers] in Hl.
      pose proof (line_classes line) as C.
      unfold loop_body, emit_and_reset, resumed.
      cbn [stream out_diffs headers old_path new_path hunks hunk app].
      rewrite Ho, Hn, Hh, (is_old_path_truthy o (kept_old_path _ _ K1 _ Ho)).
      cbn [bind assert_not_None initial stream out_diffs].
      rewrite E1, E2, Hp, Hdd, !app_nil_r. cbn [app].
      destruct (is_header line) eqn:C1, (is_old_path line) eqn:C2;
        try contradiction; cbn [orb andb] in Hl; try discriminate Hl.
      - rewrite Hl. reflexivity.
      - reflexivity. }
    rewrite B.
    eapply while_resumed; [exact W2 | ].
    apply while_stream_done. unfold resumed. cbn [stream]. rewrite E2'. reflexivity.
  - apply last_patch_resumed, L2.
Qed.

(** X9: two patches in one input.  If a patch parses to Diffs the last of
    which has a hunk, and the next patch starts with a line that makes the
    parser emit that Diff (an old-path line, or a header line when the Diff
    has headers), then the two patches one after the other parse to the
    Diffs of the first followed by the Diffs of the second. *)
Theorem patches_concatenate (s1 s2 : list string) (pre : list Diff) (d : Diff)
    (line : string) (rest : list string) (diffs2 : list Diff) :
  DiffParser s1 = Ok (pre ++ [d]) ->
  _hunks d <> [] ->
  s2 = line :: rest ->
  starts_new_diff d line = true ->
  DiffParser s2 = Ok diffs2 ->
  DiffParser (s1 ++ s2) = Ok ((pre ++ [d]) ++ diffs2).
Proof.
  intros H1 Hd E2 Hl H2.
  destruct (two_patches_run s1 s2 pre d line rest diffs2 H1 Hd E2 Hl H2)
    as (Hs & fuel & st & W & L).
  exact (DiffParser_run _ _ _ _ Hs W L).
Qed.

Lemma patches_concatenate_witness :
  DiffParser (file_f_patch ++ file_g_patch) = Ok (([] ++ [file_f_diff]) ++ [file_g_diff]).
Proof.
  apply (patches_concatenate file_f_patch file_g_patch [] file_f_diff
           (Py.ln "diff --git a/g b/g") (tl file_g_patch) [file_g_diff]).
  - reflexivity.
  - discriminate.
  - reflexivity.
  - reflexivity.
  - reflexivity.
Defined.

(** X18: two patches rendered in one go.  If a patch parses to Diffs the
    last of which has a hunk, and the next patch parses on its own and
    starts with a line that makes the parser emit that Diff, then the
    markup of the two patches one after the other, traditional or side by
    side, is the markup of the first followed by the markup of the
    second. *)
Theorem renderings_concatenate (s1 s2 : list string) (pre : list Diff) (d : Diff)
    (line : string) (rest : list string) (diffs2 : list Diff)
    (side_by_side show_number : bool) (width : option Z) :
  DiffParser s1 = Ok (pre ++ [d]) ->
  _hunks d <> [] ->
  s2 = line :: rest ->
  starts_new_diff d line = true ->
  DiffParser s2 = Ok diffs2 ->
  DiffMarkup (s1 ++ s2) side_by_side show_number width =
    Ok (markup (pre ++ [d]) side_by_side show_number width ++
        markup diffs2 side_by_side show_number width).
Proof.
  intros H1 Hd E2 Hl H2. unfold DiffMarkup.
  destruct (two_patches_run s1 s2 pre d line rest diffs2 H1 Hd E2 Hl H2)
    as (Hs & fuel & st & W & L).
  rewrite (DiffParser_run _ _ _ _ Hs W L).
  cbn [bind]. unfold markup, _markup_side_by_side, _markup_traditional.
  destruct side_by_side; rewrite flat_map_app; reflexivity.
Qed.

Lemma renderings_concatenate_witness :
  DiffMarkup (file_f_patch ++ file_g_patch) true false None =
    Ok (markup ([] ++ [file_f_diff]) true false None ++
        markup [file_g_diff] true false None).
Proof.
  apply (renderings_concatenate file_f_patch file_g_patch [] file_f_diff
           (Py.ln "diff --git a/g b/g") (tl file_g_patch) [file_g_diff]).
  - reflexivity.
  - discriminate.
  - reflexivity.
  - reflexivity.
  - reflexivity.
Defined.

(** ** Parsing the text of Diffs *)

Lemma steps_refl st : steps 0 st st.
Proof. intros fuel. reflexivity. Qed.

Lemma steps_trans n m a b c : steps n a b -> steps m b c -> steps (n + m) a c.
Proof.
  intros H1 H2 fuel. rewrite <- Nat.add_assoc, H1, H2. reflexivity.
Qed.

Lemma steps_one st line rest st' :
  stream st = line :: rest -> loop_body st line rest = Ok st' -> steps 1 st st'.
Proof.
  intros Hs Hb fuel. cbn [Nat.add while_stream]. rewrite Hs, Hb. reflexivity.
Qed.

(** The turn on a line of each class, from locals that accept it. *)
Ltac one_class line H :=
  let C := fresh "C" in
  pose proof (line_classes line) as C; unfold loop_body;
  change (is_old line || is_new line || is_common line) with (is_content line);
  rewrite H in *;
  destruct (is_header line), (is_old_path line), (is_new_path line),
    (is_hunk_header line), (is_content line), (is_eof line);
  try contradiction; try discriminate; clear C.

Lemma turn_header st line rest :
  is_header line = true -> old_path st = None ->
  loop_body st line rest =
  Ok (mkLocals rest (out_diffs st) (headers st ++ [line]) (old_path st)
        (new_path st) (hunks st) (hunk st)).
Proof. intros H Ho. one_class line H. rewrite Ho. reflexivity. Qed.

Lemma turn_old_path st line rest :
  is_old_path line = true -> old_path st = None ->
  loop_body st line rest =
  Ok (mkLocals rest (out_diffs st) (headers st) (Some line)
        (new_path st) (hunks st) (hunk st)).
Proof. intros H Ho. one_class line H. rewrite Ho. reflexivity. Qed.

Lemma turn_new_path st line rest o :
  is_new_path line = true -> old_path st = Some o -> new_path st = None ->
  loop_body st line rest =
  Ok (mkLocals rest (out_diffs st) (headers st) (old_path st)
        (Some line) (hunks st) (hunk st)).
Proof. intros H Ho Hn. one_class line H. rewrite Ho, Hn. reflexivity. Qed.

Lemma turn_hunk_open st line rest o n :
  is_hunk_header line = true ->
  old_path st = Some o -> new_path st = Some n -> hunk st = None ->
  loop_body st line rest =
  Ok (mkLocals rest (out_diffs st) (headers st) (old_path st)
        (new_path st) (hunks st) (Some (Hunk_new line))).
Proof. intros H Ho Hn Hk. one_class line H. rewrite Ho, Hn, Hk. reflexivity. Qed.

Lemma turn_hunk_close st line rest o n h :
  is_hunk_header line = true ->
  old_path st = Some o -> new_path st = Some n -> hunk st = Some h ->
  loop_body st line rest =
  Ok (mkLocals (stream st) (out_diffs st) (headers st) (old_path st)
        (new_path st) (hunks st ++ [h]) None).
Proof. intros H Ho Hn Hk. one_class line H. rewrite Ho, Hn, Hk. reflexivity. Qed.

Lemma turn_content st c text rest o n h :
  is_content (String c text) = true ->
  old_path st = Some o -> new_path st = Some n -> hunk st = Some h ->
  loop_body st (String c text) rest =
  Ok (mkLocals rest (out_diffs st) (headers st) (old_path st)
        (new_path st) (hunks st) (Some (Hunk_append h (String c "") text))).
Proof.
  intros H Ho Hn Hk. one_class (String c text) H. rewrite Ho, Hn, Hk. reflexivity.
Qed.

Lemma turn_emit st line rest o n h :
  is_old_path line = true \/
  (is_header line = true /\ nonempty (headers st) = true) ->
  is_old_path o = true ->
  old_path st = Some o -> new_path st = Some n -> hunk st = Some h ->
  loop_body st line rest =
  Ok (mkLocals (stream st)
        (out_diffs st ++ [mkDiff (headers st) o n (hunks st ++ [h])])
        [] None None [] None).
Proof.
  intros H Hp Ho Hn Hk.
  pose proof (is_old_path_truthy o Hp) as T.
  destruct H as [H | [H Hne]]; one_class line H;
    unfold emit_and_reset; rewrite Ho, ?Hne, T, Hn, Hk; reflexivity.
Qed.

Lemma run_headers hs : forall tail out acc,
  Forall (fun line => is_header line = true) hs ->
  steps (List.length hs)
    (mkLocals (hs ++ tail) out acc None None [] None)
    (mkLocals tail out (acc ++ hs) None None [] None).
Proof.
  induction hs as [| x hs IH]; intros tail out acc F.
  - rewrite app_nil_r. apply steps_refl.
  - inversion F as [| ? ? Hx F']; subst.
    eapply (steps_trans 1).
    { eapply steps_one; [reflexivity | ].
      apply turn_header; [exact Hx | reflexivity]. }
    cbn [out_diffs headers old_path new_path hunks hunk].
    replace (acc ++ x :: hs) with ((acc ++ [x]) ++ hs)
      by (rewrite <- app_assoc; reflexivity).
    apply IH, F'.
Qed.

Lemma wf_item_line item :
  hunk_line_wf item = true ->
  exists c text,
    raw_line item = String c text /\ is_content (String c text) = true /\
    item = (String c "", text).
Proof.
  destruct item as [attr text]. unfold hunk_line_wf, raw_line. cbn [fst snd].
  destruct (String.eqb_spec attr "-") as [-> | _].
  { destruct (Py.startswith text "-- ") eqn:E; [discriminate | ].
    intros _. exists "-"%char, text. repeat split.
    unfold is_content, is_old, is_old_path. rewrite !startswith_String, E. reflexivity. }
  destruct (String.eqb_spec attr "+") as [-> | _].
  { destruct (Py.startswith text "++ ") eqn:E; [discriminate | ].
    intros _. exists "+"%char, text. repeat split.
    unfold is_content, is_old, is_new, is_new_path.
    rewrite !startswith_String, E. reflexivity. }
  destruct (String.eqb_spec attr " ") as [-> | _]; [ | discriminate].
  intros _. exists " "%char, text. repeat split.
Qed.

Lemma run_lines items : forall tail out hd o n done h,
  Forall (fun item => hunk_line_wf item = true) items ->
  steps (List.length items)
    (mkLocals (map raw_line items ++ tail) out hd (Some o) (Some n) done (Some h))
    (mkLocals tail out hd (Some o) (Some n) done
       (Some (mkHunk (_hunk_header h) (_hunk_list h ++ items)))).
Proof.
  induction items as [| x items IH]; intros tail out hd o n done h F.
  - rewrite app_nil_r. destruct h. apply steps_refl.
  - inversion F as [| ? ? Hx F']; subst.
    destruct (wf_item_line x Hx) as (c & text & Er & Hc & ->).
    cbn [map app]. rewrite Er.
    eapply (steps_trans 1).
    { eapply steps_one; [reflexivity | ].
      apply (turn_content _ c text _ o n h Hc); reflexivity. }
    cbn [out_diffs headers old_path new_path hunks hunk].
    replace (_hunk_list h ++ (String c "", text) :: items)
      with (_hunk_list (Hunk_append h (String c "") text) ++ items)
      by (cbn [Hunk_append _hunk_list]; rewrite <- app_assoc; reflexivity).
    apply (IH tail out hd o n done (Hunk_append h (String c "") text) F').
Qed.

Lemma run_hunks hs : forall tail out hd o n done cur,
  Forall hunk_wf hs -> hs <> [] ->
  exists k done' last,
    steps k
      (mkLocals (flat_map hunk_text hs ++ tail) out hd (Some o) (Some n) done cur)
      (mkLocals tail out hd (Some o) (Some n) done' (Some last)) /\
    done' ++ [last] = done ++ opt_list cur ++ hs.
Proof.
  induction hs as [| h hs IH]; intros tail out hd o n done cur F Hne;
    [contradiction | ].
  inversion F as [| ? ? [Hh Hl] F']; subst.
  cbn [flat_map]. unfold hunk_text at 1. cbn [app]. rewrite <- app_assoc.
  set (body := map raw_line (_hunk_list h) ++ flat_map hunk_text hs ++ tail).
  assert (Close : exists k,
            steps k
              (mkLocals (get_header h :: body) out hd (Some o) (Some n) done cur)
              (mkLocals (get_header h :: body) out hd (Some o) (Some n)
                 (done ++ opt_list cur) None)).
  { destruct cur as [c | ].
    - exists 1. eapply steps_one; [reflexivity | ].
      rewrite (turn_hunk_close _ _ _ o n c Hh) by reflexivity. reflexivity.
    - exists 0. cbn [opt_list]. rewrite app_nil_r. apply steps_refl. }
  destruct Close as [k1 S1].
  assert (S2 : steps (1 + List.length (_hunk_list h))
            (mkLocals (get_header h :: body) out hd (Some o) (Some n)
               (done ++ opt_list cur) None)
            (mkLocals (flat_map hunk_text hs ++ tail) out hd (Some o) (Some n)
               (done ++ opt_list cur) (Some h))).
  { eapply (steps_trans 1).
    { eapply steps_one; [reflexivity | ].
      apply (turn_hunk_open _ _ _ o n Hh); reflexivity. }
    cbn [out_diffs headers old_path new_path hunks hunk]. unfold body.
    pose proof (run_lines (_hunk_list h) (flat_map hunk_text hs ++ tail) out hd o n
                  (done ++ opt_list cur) (Hunk_new (get_header h)) Hl) as R.
    cbn [Hunk_new _hunk_header _hunk_list app] in R.
    destruct h as [hh hl]. exact R. }
  destruct hs as [| h' hs'].
  - exists (k1 + (1 + List.length (_hunk_list h))), (done ++ opt_list cur), h.
    split.
    + cbn [flat_map app] in S2. exact (steps_trans _ _ _ _ _ S1 S2).
    + rewrite <- app_assoc. reflexivity.
  - destruct (IH tail out hd o n (done ++ opt_list cur) (Some h) F'
                ltac:(discriminate)) as (k3 & done' & last & S3 & E).
    exists (k1 + (1 + List.length (_hunk_list h)) + k3), done', last. split.
    + exact (steps_trans _ _ _ _ _ (steps_trans _ _ _ _ _ S1 S2) S3).
    + rewrite E. cbn [opt_list]. rewrite <- !app_assoc. reflexivity.
Qed.

Lemma run_diff d tail out :
  diff_wf d -> _hunks d <> [] ->
  exists k done last,
    steps k
      (mkLocals (diff_text d ++ tail) out [] None None [] None)
      (mkLocals tail out (_headers d) (Some (_old_path d)) (Some (_new_path d))
         done (Some last)) /\
    done ++ [last] = _hunks d.
Proof.
  intros (Fh & Ho & Hn & Fk) Hne.
  destruct (run_hunks (_hunks d) tail out (_headers d) (_old_path d) (_new_path d)
              [] None Fk Hne) as (k & done & last & S & E).
  exists (List.length (_headers d) + (1 + (1 + k))), done, last.
  split; [ | exact E].
  unfold diff_text. rewrite <- !app_assoc.
  eapply steps_trans; [apply (run_headers _ _ out [] Fh) | ].
  cbn [app].
  eapply (steps_trans 1).
  { eapply steps_one; [reflexivity | ].
    rewrite (turn_old_path _ _ _ Ho) by reflexivity. reflexivity. }
  cbn [out_diffs headers old_path new_path hunks hunk].
  eapply (steps_trans 1).
  { eapply steps_one; [reflexivity | ].
    rewrite (turn_new_path _ _ _ (_old_path d) Hn) by reflexivity. reflexivity. }
  cbn [out_diffs headers old_path new_path hunks hunk]. exact S.
Qed.

Lemma first_line_of_diff d rest :
  diff_wf d ->
  exists line tail,
    diff_text d ++ rest = line :: tail /\
    (is_old_path line = true \/
     (is_header line = true /\ nonempty (_headers d) = true)).
Proof.
  intros (Fh & Ho & _). unfold diff_text.
  destruct (_headers d) as [| x hs].
  - eexists. eexists. split; [reflexivity | ]. left. exact Ho.
  - eexists. eexists. split; [reflexivity | ]. right.
    inversion Fh; subst. split; [assumption | reflexivity].
Qed.

Lemma run_patch diffs :
  Forall diff_wf diffs -> Forall (fun d => _hunks d <> []) diffs ->
  chained diffs -> diffs <> [] ->
  forall out, exists fuel st,
    while_stream fuel (mkLocals (patch_text diffs) out [] None None [] None) =
      Some (Ok st) /\
    last_patch st = Ok (out ++ diffs).
Proof.
  induction diffs as [| d rest IH]; intros Fw Fh Hc Hne out; [contradiction | ].
  inversion Fw as [| ? ? Wd Fw']; subst. inversion Fh as [| ? ? Hd Fh']; subst.
  destruct (run_diff d (patch_text rest) out Wd Hd) as (k & done & last & S & E).
  change (patch_text (d :: rest)) with (diff_text d ++ patch_text rest).
  pose proof Wd as (_ & Ho & Hn & _).
  destruct rest as [| d' rest'].
  - eexists (k + 0). eexists. rewrite S. split.
    + apply while_stream_done. reflexivity.
    + unfold last_patch.
      cbn [stream out_diffs headers old_path new_path hunks hunk].
      rewrite (is_old_path_truthy _ Ho), (is_new_path_truthy _ Hn), E.
      destruct d. reflexivity.
  - destruct Hc as [Hm Hc'].
    inversion Fw' as [| ? ? Wd' _]; subst.
    destruct (first_line_of_diff d' (patch_text rest') Wd')
      as (line & tail & El & Hl).
    destruct (IH Fw' Fh' Hc' ltac:(discriminate) (out ++ [d]))
      as (fuel & st & W & L).
    exists (k + (1 + fuel)), st. split.
    + rewrite S. change (patch_text (d' :: rest'))
        with (diff_text d' ++ patch_text rest') in *.
      rewrite El in *. cbn [Nat.add while_stream stream].
      rewrite (turn_emit _ line tail (_old_path d) (_new_path d) last);
        try reflexivity; try assumption.
      * cbn [stream out_diffs headers old_path new_path hunks hunk].
        rewrite E. destruct d. exact W.
      * destruct Hl as [Hl | [Hl Hh']]; [left; exact Hl | right].
        split; [exact Hl | ]. cbn [headers].
        unfold may_follow in Hm. rewrite Hh' in Hm. exact Hm.
    + rewrite <- app_assoc in L. exact L.
Qed.

(** X10: the parser reads back the text of Diffs.  Take Diffs that are
    made of lines of the right classes and have a hunk each, none with
    headers after one without; write each as its headers, its two paths and
    hunk after hunk the header and the lines, each line its kind followed
    by its text.  If a line that starts with [+++ ] is among the first ten,
    these lines parse to the Diffs. *)
Theorem patch_text_parses_back (diffs : list Diff) :
  Forall diff_wf diffs ->
  Forall (fun d => _hunks d <> []) diffs ->
  chained diffs ->
  sniff (patch_text diffs) = true ->
  DiffParser (patch_text diffs) = Ok diffs.
Proof.
  intros Fw Fh Hc Hs.
  assert (Hne : diffs <> []) by (intros ->; discriminate Hs).
  destruct (run_patch diffs Fw Fh Hc Hne []) as (fuel & st & W & L).
  exact (DiffParser_run _ _ _ _ Hs W L).
Qed.

Lemma patch_text_parses_back_witness :
  DiffParser (patch_text two_file_diffs) = Ok two_file_diffs.
Proof.
  apply (patch_text_parses_back two_file_diffs).
  - repeat first [split | constructor].
  - repeat constructor; discriminate.
  - repeat split.
  - reflexivity.
Defined.

(** ** Hunks that only add or only delete *)

Lemma _dump_slice tag x lo hi :
  Difflib._dump tag x lo hi = map (fun l => (tag ++ " " ++ l)%string) (slice x lo hi).
Proof. unfold Difflib._dump, slice. rewrite map_map. reflexivity. Qed.

Lemma compare_nothing_old b :
  Difflib.compare [] b = map (fun l => ("+ " ++ l)%string) b.
Proof.
  destruct b as [| t b]; [reflexivity | ].
  unfold Difflib.compare.
  change (Difflib.get_opcodes String.eqb Difflib.no_junk [] (t :: b))
    with [(Difflib.Insert, 0, 0, 0, List.length (t :: b))].
  cbn [flat_map]. rewrite app_nil_r, _dump_slice, slice_all. reflexivity.
Qed.

Lemma scan_rows_nothing_new (a : list string) (rows : list nat) :
  forall j2len best,
  Difflib.scan_rows String.eqb Difflib.no_junk a [] rows 0 0 j2len best = best.
Proof.
  induction rows as [| i rows IH]; intros j2len best; [reflexivity | ].
  cbn [Difflib.scan_rows].
  replace (match nth_error a i with
           | Some x => Difflib.b2j String.eqb Difflib.no_junk [] x
           | None => []
           end) with (@nil nat) by (destruct (nth_error a i); reflexivity).
  cbn [Difflib.scan_row]. apply IH.
Qed.

Lemma compare_nothing_new a :
  Difflib.compare a [] = map (fun l => ("- " ++ l)%string) a.
Proof.
  destruct a as [| t a]; [reflexivity | ].
  assert (E : Difflib.get_opcodes String.eqb Difflib.no_junk (t :: a) [] =
              [(Difflib.Delete, 0, List.length (t :: a), 0, 0)]).
  { unfold Difflib.get_opcodes, Difflib.get_matching_blocks, Difflib.blocks_fuel.
    cbn [List.length Nat.mul Nat.add Difflib.blocks_loop].
    unfold Difflib.find_longest_match. rewrite scan_rows_nothing_new.
    cbn.
    replace (Difflib.blocks_loop String.eqb Difflib.no_junk (t :: a) []
               (List.length a + S (List.length a + 0) + 1) [] [])
      with (Some (@nil Difflib.block))
      by (destruct (List.length a + S (List.length a + 0) + 1); reflexivity).
    reflexivity. }
  unfold Difflib.compare. rewrite E.
  cbn [flat_map]. rewrite app_nil_r, _dump_slice, slice_all. reflexivity.
Qed.

(** The turns of [_line_iterator] on a delta of added lines only. *)
Lemma added_lines_turns texts : forall fuel n m pending,
  List.length texts < fuel ->
  Difflib._line_iterator_within fuel
    (map (fun l => ("+ " ++ l)%string) texts) (n, m) pending =
  Some (map (fun e => (None, Some (fst (add_half e)), true))
          (numbered m (map whole_line texts)) ++
        Difflib.catch_up (pending + Z.of_nat (List.length texts))).
Proof.
  induction texts as [| t texts IH]; intros fuel n m pending Hf.
  - destruct fuel as [| fuel]; [inversion Hf | ].
    cbn [map List.length app numbered]. rewrite Z.add_0_r. reflexivity.
  - destruct fuel as [| fuel]; [inversion Hf | ].
    cbn [List.length] in Hf.
    specialize (IH fuel n (S m) (pending + 1)%Z ltac:(lia)).
    replace (pending + Z.of_nat (List.length (t :: texts)))%Z
      with (pending + 1 + Z.of_nat (List.length texts))%Z
      by (cbn [List.length]; lia).
    assert (Step :
      Difflib._line_iterator_within (S fuel)
        (map (fun l => ("+ " ++ l)%string) (t :: texts)) (n, m) pending =
      Difflib.yield (None, Some (fst (add_half (m, whole_line t))), true)
        (Difflib._line_iterator_within fuel
           (map (fun l => ("+ " ++ l)%string) texts) (n, S m) (pending + 1)%Z))
      by (destruct texts; reflexivity).
    rewrite Step, IH. reflexivity.
Qed.

(** The turns of [_line_iterator] on a delta of deleted lines only. *)
Lemma deleted_lines_turns texts : forall fuel n m pending,
  List.length texts < fuel ->
  Difflib._line_iterator_within fuel
    (map (fun l => ("- " ++ l)%string) texts) (n, m) pending =
  Some (map (fun e => (Some (fst (del_half e)), None, true))
          (numbered n (map whole_line texts)) ++
        Difflib.catch_up (pending - Z.of_nat (List.length texts))).
Proof.
  induction texts as [| t texts IH]; intros fuel n m pending Hf.
  - destruct fuel as [| fuel]; [inversion Hf | ].
    cbn [map List.length app numbered]. rewrite Z.sub_0_r. reflexivity.
  - destruct fuel as [| fuel]; [inversion Hf | ].
    cbn [List.length] in Hf.
    specialize (IH fuel (S n) m (pending - 1)%Z ltac:(lia)).
    replace (pending - Z.of_nat (List.length (t :: texts)))%Z
      with (pending - 1 - Z.of_nat (List.length texts))%Z
      by (cbn [List.length]; lia).
    assert (Step :
      Difflib._line_iterator_within (S fuel)
        (map (fun l => ("- " ++ l)%string) (t :: texts)) (n, m) pending =
      Difflib.yield (Some (fst (del_half (n, whole_line t))), None, true)
        (Difflib._line_iterator_within fuel
           (map (fun l => ("- " ++ l)%string) texts) (S n, m) (pending - 1)%Z))
      by (destruct texts as [| t1 [| t2 texts]]; reflexivity).
    rewrite Step, IH. reflexivity.
Qed.

Lemma numbered_length k texts : List.length (numbered k texts) = List.length texts.
Proof.
  revert k. induction texts as [| t texts IH]; intros k; [reflexivity | ].
  cbn [numbered List.length]. rewrite IH. reflexivity.
Qed.

Lemma froms_added (adds : list (nat * string)) :
  froms (map (fun e => (None, Some (fst (add_half e)), true)) adds) = [] /\
  tos (map (fun e => (None, Some (fst (add_half e)), true)) adds) =
    map add_half adds.
Proof.
  induction adds as [| e adds [IH1 IH2]]; [split; reflexivity | ].
  split; [exact IH1 | ].
  cbn [map]. unfold tos in *. cbn [flat_map fst snd app]. rewrite IH2. reflexivity.
Qed.

Lemma tos_deleted (dels : list (nat * string)) :
  froms (map (fun e => (Some (fst (del_half e)), None, true)) dels) =
    map del_half dels /\
  tos (map (fun e => (Some (fst (del_half e)), None, true)) dels) = [].
Proof.
  induction dels as [| e dels [IH1 IH2]]; [split; reflexivity | ].
  split; [ | exact IH2].
  cbn [map]. unfold froms in *. cbn [flat_map fst snd app]. rewrite IH1. reflexivity.
Qed.

Lemma _mdiff_nothing_old (b : list string) :
  Difflib._mdiff [] b = insertion_rows b.
Proof.
  unfold Difflib._mdiff, Difflib.ndiff, Difflib._line_iterator, insertion_rows.
  rewrite compare_nothing_old.
  rewrite added_lines_turns by (rewrite length_map; lia).
  rewrite _line_pair_iterator_zip by (left; reflexivity).
  cbn [app]. rewrite froms_app, tos_app.
  destruct (froms_added (numbered 0 (map whole_line b))) as [-> ->].
  destruct (catch_up_sides (0 + Z.of_nat (List.length b))) as [-> ->].
  destruct (Z.ltb_spec (0 + Z.of_nat (List.length b)) 0) as [L | _]; [lia | ].
  replace (Z.to_nat (0 + Z.of_nat (List.length b)))
    with (List.length (numbered 0 (map whole_line b)))
    by (rewrite numbered_length, length_map; lia).
  cbn [app]. rewrite <- (app_nil_r (repeat _ _)), flush_adds.
  cbn [zip_rows]. apply app_nil_r.
Qed.

Lemma _mdiff_nothing_new (a : list string) :
  Difflib._mdiff a [] = deletion_rows a.
Proof.
  unfold Difflib._mdiff, Difflib.ndiff, Difflib._line_iterator, deletion_rows.
  rewrite compare_nothing_new.
  rewrite deleted_lines_turns by (rewrite length_map; lia).
  rewrite _line_pair_iterator_zip by (left; reflexivity).
  cbn [app]. rewrite froms_app, tos_app.
  destruct (tos_deleted (numbered 0 (map whole_line a))) as [-> ->].
  destruct (catch_up_sides (0 - Z.of_nat (List.length a))) as [-> ->].
  destruct (Z.ltb_spec (0 - Z.of_nat (List.length a)) 0) as [_ | L].
  - replace (Z.to_nat (- (0 - Z.of_nat (List.length a))))
      with (List.length (numbered 0 (map whole_line a)))
      by (rewrite numbered_length, length_map; lia).
    cbn [app]. rewrite <- (app_nil_r (repeat _ _)), flush_dels.
    cbn [zip_rows]. apply app_nil_r.
  - assert (a = []) as -> by (destruct a; [reflexivity | cbn [List.length] in L; lia]).
    reflexivity.
Qed.

Lemma texts_of_one_kind kind other (h : Hunk) :
  only_kind kind h -> kind <> other ->
  collect_unless other (_hunk_list h) [] = map snd (_hunk_list h) /\
  collect_unless kind (_hunk_list h) [] = [].
Proof.
  unfold only_kind. intros F Hk. rewrite !collect_unless_filter. cbn [app].
  induction F as [| [attr text] l Hx _ [IH1 IH2]]; [split; reflexivity | ].
  cbn [fst] in Hx. subst attr. cbn [filter fst].
  rewrite String.eqb_refl.
  destruct (String.eqb_spec kind other) as [E | _]; [contradiction | ].
  cbn [negb map snd]. rewrite IH1, IH2. split; reflexivity.
Qed.

(** X11: a hunk that only adds lines (a new file, an appended block) gives
    one row for each line and nothing else: the left side of the row is
    blank, the right side holds the line's number in the new text, counted
    from 1, and its text between the marks of an addition, a blank standing
    in for an empty text; the row is flagged as changed. *)
Theorem additions_only_hunk (h : Hunk) :
  only_kind "+" h ->
  mdiff h = insertion_rows (map snd (_hunk_list h)).
Proof.
  intros H. unfold mdiff, _get_old_text, _get_new_text.
  destruct (texts_of_one_kind "+" "-" h H ltac:(discriminate)) as [-> ->].
  apply _mdiff_nothing_old.
Qed.

Lemma additions_only_hunk_witness :
  mdiff new_file_hunk = insertion_rows (map snd (_hunk_list new_file_hunk)).
Proof.
  apply (additions_only_hunk new_file_hunk). repeat constructor.
Defined.

(** X12: a hunk that only deletes lines gives one row for each line and
    nothing else: the right side of the row is blank, the left side holds
    the line's number in the old text, counted from 1, and its text between
    the marks of a deletion, a blank standing in for an empty text; the row
    is flagged as changed. *)
Theorem deletions_only_hunk (h : Hunk) :
  only_kind "-" h ->
  mdiff h = deletion_rows (map snd (_hunk_list h)).
Proof.
  intros H. unfold mdiff, _get_old_text, _get_new_text.
  destruct (texts_of_one_kind "-" "+" h H ltac:(discriminate)) as [-> ->].
  apply _mdiff_nothing_new.
Qed.

Lemma deletions_only_hunk_witness :
  mdiff old_file_hunk = deletion_rows (map snd (_hunk_list old_file_hunk)).
Proof.
  apply (deletions_only_hunk old_file_hunk). repeat constructor.
Defined.

(** ** Escape sequences next to other text *)

Lemma digits_m_inert r u : inert u = true -> digits_m (r ++ u) = digits_m r.
Proof.
  intros Hu. destruct u as [| c u]; [rewrite string_app_nil_r; reflexivity | ].
  cbn [inert] in Hu. apply negb_true_iff in Hu.
  apply orb_false_iff in Hu. destruct Hu as (Hu & _).
  apply orb_false_iff in Hu. destruct Hu as (Hu & _).
  apply orb_false_iff in Hu. destruct Hu as (Hd & Hm).
  destruct r as [| d1 [| d2 [| m r]]]; cbn [append digits_m].
  - rewrite Hd. destruct u; reflexivity.
  - rewrite Hd, Hm. destruct (is_digit d1); reflexivity.
  - rewrite Hm. destruct (is_digit d1), (is_digit d2); reflexivity.
  - reflexivity.
Qed.

Lemma optional_prefix_inert rest u :
  inert u = true ->
  (if Py.startswith (rest ++ u) "1;"
   then digits_m (Py.drop 2 (rest ++ u)) else None) =
  (if Py.startswith rest "1;" then digits_m (Py.drop 2 rest) else None).
Proof.
  intros Hu. destruct rest as [| c1 [| c2 rest]].
  - destruct u as [| c u]; [reflexivity | ].
    cbn [append Py.startswith]. cbn [inert] in Hu.
    destruct (Ascii.eqb_spec c "1") as [-> | _]; [discriminate Hu | reflexivity].
  - destruct u as [| c u]; [reflexivity | ].
    cbn [append Py.startswith]. cbn [inert] in Hu.
    destruct (Ascii.eqb_spec c ";") as [-> | _]; [discriminate Hu | ].
    cbn [andb]. rewrite !andb_false_r. reflexivity.
  - cbn [append Py.startswith Py.drop]. rewrite andb_true_r.
    rewrite digits_m_inert by exact Hu. reflexivity.
Qed.

Lemma ansi_match_inert c s u :
  inert u = true -> ansi_match (String c s ++ u) = ansi_match (String c s).
Proof.
  intros Hu. destruct s as [| br rest].
  - destruct u as [| d u]; [reflexivity | ].
    cbn [append ansi_match]. cbn [inert] in Hu.
    destruct (Ascii.eqb_spec d "[") as [-> | _];
      [rewrite !orb_true_r in Hu; discriminate Hu | ].
    rewrite andb_false_r. reflexivity.
  - change (String c (String br rest) ++ u)%string
      with (String c (String br (rest ++ u))).
    unfold ansi_match.
    rewrite optional_prefix_inert, digits_m_inert by exact Hu. reflexivity.
Qed.

Lemma sub_ansi_inert u (Hu : inert u = true) s : forall skip,
  skip <= String.length s ->
  sub_ansi skip (s ++ u) = (sub_ansi skip s ++ sub_ansi 0 u)%string.
Proof.
  induction s as [| c s IH]; intros skip Hs.
  - simpl in Hs. assert (skip = 0) as -> by lia. reflexivity.
  - change (String c s ++ u)%string with (String c (s ++ u)).
    unfold sub_ansi; fold sub_ansi.
    destruct skip as [| skip].
    + change (String c (s ++ u)) with (String c s ++ u)%string.
      rewrite ansi_match_inert by exact Hu.
      destruct (ansi_match (String c s)) as [[| n] | ] eqn:Hm.
      * simpl. rewrite IH by lia. reflexivity.
      * apply ansi_match_bound in Hm. simpl in Hm. apply IH. lia.
      * simpl. rewrite IH by lia. reflexivity.
    + apply IH. simpl in Hs. lia.
Qed.

Lemma strip_ansi_inert s u :
  inert u = true -> strip_ansi (s ++ u) = (strip_ansi s ++ strip_ansi u)%string.
Proof. intros Hu. apply sub_ansi_inert; [exact Hu | lia]. Qed.

(** Every code of [COLORS] is an escape sequence of the pattern that
    [_fit_width] removes, whatever follows it; a name that is not in
    [COLORS] has the empty code. *)
Lemma ansi_code_stripped color rest :
  strip_ansi (ansi_code color ++ rest) = strip_ansi rest.
Proof.
  unfold ansi_code, COLORS, dict_get.
  repeat match goal with
  | |- context [String.eqb ?k color] => destruct (String.eqb k color)
  end; reflexivity.
Qed.

Lemma ansi_code_inert color : inert (ansi_code color) = true.
Proof.
  unfold ansi_code, COLORS, dict_get.
  repeat match goal with
  | |- context [String.eqb ?k color] => destruct (String.eqb k color)
  end; reflexivity.
Qed.

(** X13: coloring does not change what shows: for every text and every
    pair of color names, in [COLORS] or not, removing the escape sequences
    from [colorize(text, start_color, end_color)] as [_fit_width] does
    gives what removing them from [text] gives.  So the width [_fit_width]
    measures is that of the text, and every code of [COLORS] is matched by
    its pattern. *)
Theorem colorize_keeps_visible_text (text start_color end_color : string) :
  strip_ansi (colorize text start_color end_color) = strip_ansi text.
Proof.
  unfold colorize. rewrite ansi_code_stripped.
  rewrite strip_ansi_inert by apply ansi_code_inert.
  rewrite <- (string_app_nil_r (ansi_code end_color)), ansi_code_stripped.
  apply string_app_nil_r.
Qed.

(** ** The layout of a side-by-side row *)

Lemma _fit_width_at_least markup width :
  width <= visible_width (_fit_width markup width).
Proof.
  destruct (Nat.ltb_spec (visible_width markup) width) as [L | L].
  - destruct (_fit_width_narrow markup width L) as [_ E]. rewrite E. lia.
  - rewrite _fit_width_wide by exact L. exact L.
Qed.

Lemma left_column_at_least width row :
  width <= visible_width (fst (side_by_side_columns width row)).
Proof.
  destruct row as [[[on ot] [nn nt]] changed]. unfold side_by_side_columns.
  cbn [fst snd].
  destruct changed; [destruct (negb (Difflib.lineno_true on));
                      [ | destruct (negb (Difflib.lineno_true nn))] | ];
    cbn [fst]; try apply _fit_width_at_least.
  unfold visible_width, strip_ansi. rewrite sub_ansi_only_blanks, rep_length.
  lia.
Qed.

Lemma line_fmt_stripped left right :
  strip_ansi (line_fmt left right) =
  (strip_ansi left ++ " | " ++ strip_ansi right ++ Py.LF)%string.
Proof.
  unfold line_fmt.
  rewrite (strip_ansi_inert left) by reflexivity. f_equal.
  change (" " ++ colorize "|" "lightyellow" "reset" ++ " " ++ right ++ Py.LF)%string
    with ((" " ++ colorize "|" "lightyellow" "reset") ++ " " ++ right ++ Py.LF)%string.
  rewrite (strip_ansi_inert (" " ++ colorize "|" "lightyellow" "reset"))
    by reflexivity.
  change (strip_ansi (" " ++ colorize "|" "lightyellow" "reset")) with " |".
  change (" " ++ right ++ Py.LF)%string with (String " " (right ++ Py.LF)).
  unfold strip_ansi at 1. rewrite sub_ansi_cons by reflexivity.
  fold (strip_ansi (right ++ Py.LF)).
  rewrite (strip_ansi_inert right Py.LF) by reflexivity. reflexivity.
Qed.

(** X14: the layout of a side-by-side row.  With the escape sequences
    removed, every row is its left column, a blank, the bar, a blank, its
    right column and a newline; and the left column shows at least 80
    characters, so the bar never stands left of its place, whatever the
    row holds. *)
Theorem side_by_side_row_layout (row : Difflib.mrow) :
  strip_ansi (side_by_side_row 80 row) =
    (strip_ansi (fst (side_by_side_columns 80 row)) ++ " | " ++
     strip_ansi (snd (side_by_side_columns 80 row)) ++ Py.LF)%string /\
  80 <= visible_width (fst (side_by_side_columns 80 row)).
Proof.
  split; [apply line_fmt_stripped | apply left_column_at_least].
Qed.

(** ** Tabs and newlines in a side-by-side row *)

Lemma mem_append c s t : Py.mem c (s ++ t) = Py.mem c s || Py.mem c t.
Proof.
  induction s as [| d s IH]; [reflexivity | ].
  cbn [append Py.mem]. rewrite IH. apply orb_assoc.
Qed.

Lemma mem_rep c d n : Ascii.eqb c d = false -> Py.mem c (Py.rep d n) = false.
Proof.
  intros H. induction n as [| n IH]; [reflexivity | ].
  cbn [Py.rep Py.mem]. rewrite H, IH. reflexivity.
Qed.

Lemma mem_replace_from c old new s :
  Py.mem c new = false -> Py.mem c s = false ->
  forall skip, Py.mem c (Py.replace_from old new skip s) = false.
Proof.
  intros Hn. induction s as [| d s IH]; intros Hs skip; [reflexivity | ].
  cbn [Py.mem] in Hs. apply orb_false_iff in Hs. destruct Hs as (Hd & Hs).
  cbn [Py.replace_from]. destruct skip as [| skip]; [ | apply IH, Hs].
  destruct (Py.startswith (String d s) old).
  - rewrite mem_append, Hn. apply IH, Hs.
  - cbn [Py.mem]. rewrite Hd. apply IH, Hs.
Qed.

Lemma mem_replace_removes c new s :
  Py.mem c new = false -> Py.mem c (Py.replace s (String c "") new) = false.
Proof.
  intros Hn. unfold Py.replace. induction s as [| d s IH]; [reflexivity | ].
  cbn [Py.replace_from Py.startswith String.length Nat.sub].
  rewrite ?startswith_nil, ?andb_true_r.
  destruct (Ascii.eqb d c) eqn:E.
  - rewrite mem_append, Hn. exact IH.
  - cbn [Py.mem]. rewrite Ascii.eqb_sym, E. exact IH.
Qed.

Lemma mem_lstrip c chars s :
  Py.mem c s = false -> Py.mem c (Py.lstrip chars s) = false.
Proof.
  induction s as [| d s IH]; intros H; [reflexivity | ].
  cbn [Py.lstrip]. destruct (Py.mem d chars); [ | exact H].
  cbn [Py.mem] in H. apply orb_false_iff in H. apply IH, H.
Qed.

Lemma mem_rstrip c chars s :
  Py.mem c s = false -> Py.mem c (Py.rstrip chars s) = false.
Proof.
  induction s as [| d s IH]; intros H; [reflexivity | ].
  cbn [Py.mem] in H. apply orb_false_iff in H. destruct H as (Hd & Hs).
  cbn [Py.rstrip]. specialize (IH Hs).
  destruct (Py.rstrip chars s) as [| e r].
  - destruct (Py.mem d chars); [reflexivity | ].
    cbn [Py.mem]. rewrite Hd. reflexivity.
  - cbn [Py.mem] in *. rewrite Hd. exact IH.
Qed.

Section Control.

(** A newline or a tab. *)
Variable c : ascii.
Hypothesis Hc : c = "010"%char \/ c = "009"%char.

Lemma mem_ansi_code color : Py.mem c (ansi_code color) = false.
Proof.
  unfold ansi_code, COLORS, dict_get.
  repeat match goal with
  | |- context [String.eqb ?k color] => destruct (String.eqb k color)
  end; destruct Hc as [-> | ->]; reflexivity.
Qed.

Lemma mem_normalize line : Py.mem c (_normalize line) = false.
Proof.
  unfold _normalize, Py.LF, Py.TAB. destruct Hc as [-> | ->].
  - apply mem_replace_removes. reflexivity.
  - apply mem_replace_from; [reflexivity | ].
    apply mem_replace_removes. reflexivity.
Qed.

Lemma mem_colorize text start_color end_color :
  Py.mem c text = false -> Py.mem c (colorize text start_color end_color) = false.
Proof.
  intros H. unfold colorize. rewrite !mem_append, !mem_ansi_code, H. reflexivity.
Qed.

Lemma mem_markup_mix line base_color :
  Py.mem c line = false -> Py.mem c (_markup_mix line base_color) = false.
Proof.
  intros H. unfold _markup_mix. apply mem_colorize.
  repeat (apply mem_replace_from;
          [rewrite ?mem_append, ?mem_ansi_code; reflexivity | ]).
  exact H.
Qed.

Lemma mem_blanks n : Py.mem c (Py.rep " " n) = false.
Proof. apply mem_rep. destruct Hc as [-> | ->]; reflexivity. Qed.

Lemma mem_fit_width markup width :
  Py.mem c markup = false -> Py.mem c (_fit_width markup width) = false.
Proof.
  intros H. unfold _fit_width.
  destruct (String.length (strip_ansi markup) <? width); [ | exact H].
  rewrite mem_append, H, mem_blanks. reflexivity.
Qed.

Lemma mem_columns width row :
  Py.mem c (fst (side_by_side_columns width row)) = false /\
  Py.mem c (snd (side_by_side_columns width row)) = false.
Proof.
  destruct row as [[[on ot] [nn nt]] changed]. unfold side_by_side_columns.
  cbn [fst snd].
  pose proof (mem_normalize ot) as Ho. pose proof (mem_normalize nt) as Hn.
  destruct changed; [destruct (negb (Difflib.lineno_true on));
                      [ | destruct (negb (Difflib.lineno_true nn))] | ];
    cbn [fst snd]; split;
    try apply mem_blanks; try reflexivity;
    apply mem_fit_width;
    first [apply mem_markup_mix | apply mem_colorize];
    try apply mem_rstrip; try apply mem_lstrip; assumption.
Qed.

Lemma mem_row_body width row :
  Py.mem c (fst (side_by_side_columns width row) ++ " " ++
            colorize "|" "lightyellow" "reset" ++ " " ++
            snd (side_by_side_columns width row)) = false.
Proof.
  destruct (mem_columns width row) as [Hl Hr].
  rewrite !mem_append, Hl, Hr, mem_colorize;
    destruct Hc as [-> | ->]; reflexivity.
Qed.

End Control.

(** X15: a side-by-side row is one line without tabs, whatever the texts
    of the row hold: it ends with a newline, and before that newline
    there is neither a newline nor a tab.  [_normalize] has replaced every
    tab of the texts by eight blanks and removed every newline, and nothing
    that is put around the texts has either. *)
Theorem side_by_side_row_one_line (width : nat) (row : Difflib.mrow) :
  exists body,
    side_by_side_row width row = (body ++ Py.LF)%string /\
    Py.mem "010" body = false /\ Py.mem "009" body = false.
Proof.
  exists (fst (side_by_side_columns width row) ++ " " ++
          colorize "|" "lightyellow" "reset" ++ " " ++
          snd (side_by_side_columns width row))%string.
  split; [ | split].
  - unfold side_by_side_row, line_fmt.
    rewrite !string_app_assoc. reflexivity.
  - apply mem_row_body. left. reflexivity.
  - apply mem_row_body. right. reflexivity.
Qed.

(** ** Signs at the start of a text *)

Lemma _normalize_cons c y :
  Ascii.eqb c "009" = false -> Ascii.eqb c "010" = false ->
  _normalize (String c y) = String c (_normalize y).
Proof.
  intros Ht Hl. unfold _normalize, Py.TAB, Py.LF.
  rewrite !replace_cons_other by assumption. reflexivity.
Qed.

Lemma whole_line_nonempty t : t <> "" -> whole_line t = t.
Proof. unfold whole_line. destruct t; [contradiction | reflexivity]. Qed.

Lemma add_row_sign k t :
  side_by_side_row 80 (add_row (k, ("+" ++ t)%string)) =
  side_by_side_row 80 (add_row (k, t)).
Proof.
  unfold side_by_side_row, side_by_side_columns, add_row, add_half, Py.NUL.
  cbn [fst snd Difflib.blank Difflib.lineno_true negb append].
  rewrite !_normalize_cons by reflexivity. reflexivity.
Qed.

Lemma del_row_sign k t :
  side_by_side_row 80 (del_row (k, ("-" ++ t)%string)) =
  side_by_side_row 80 (del_row (k, t)).
Proof.
  unfold side_by_side_row, side_by_side_columns, del_row, del_half, Py.NUL.
  cbn [fst snd Difflib.blank Difflib.lineno_true negb append Nat.eqb].
  rewrite !_normalize_cons by reflexivity. reflexivity.
Qed.

Lemma rows_sign (row : nat * string -> Difflib.mrow) (sign : string) :
  (forall k t, side_by_side_row 80 (row (k, (sign ++ t)%string)) =
               side_by_side_row 80 (row (k, t))) ->
  forall texts k,
  Forall (fun t => t <> "") texts ->
  map (side_by_side_row 80)
    (map row (numbered k (map whole_line (map (fun t => (sign ++ t)%string) texts)))) =
  map (side_by_side_row 80) (map row (numbered k (map whole_line texts))).
Proof.
  intros Hrow. induction texts as [| t texts IH]; intros k F; [reflexivity | ].
  inversion F as [| ? ? Ht F']; subst.
  cbn [map numbered]. rewrite (IH (S k) F'). f_equal.
  rewrite (whole_line_nonempty t Ht).
  assert (E : whole_line (sign ++ t) = (sign ++ t)%string).
  { apply whole_line_nonempty. destruct sign; [exact Ht | discriminate]. }
  rewrite E. apply Hrow.
Qed.

Lemma one_kind_hunk_only hdr kind texts :
  only_kind kind (one_kind_hunk hdr kind texts) /\
  map snd (_hunk_list (one_kind_hunk hdr kind texts)) = texts.
Proof.
  unfold only_kind, one_kind_hunk. cbn [_hunk_list].
  induction texts as [| t texts [IH1 IH2]]; [split; [constructor | reflexivity] | ].
  cbn [map snd]. split; [constructor; [reflexivity | exact IH1] | ].
  rewrite IH2. reflexivity.
Qed.

(** The rows of the hunks that hold lines of one kind only. *)
Lemma one_kind_hunk_rows hdr texts :
  mdiff (one_kind_hunk hdr "+" texts) = insertion_rows texts /\
  mdiff (one_kind_hunk hdr "-" texts) = deletion_rows texts.
Proof.
  unfold mdiff, _get_old_text, _get_new_text. split.
  - destruct (one_kind_hunk_only hdr "+" texts) as [H E].
    destruct (texts_of_one_kind "+" "-" _ H ltac:(discriminate)) as [-> ->].
    rewrite E. apply _mdiff_nothing_old.
  - destruct (one_kind_hunk_only hdr "-" texts) as [H E].
    destruct (texts_of_one_kind "-" "+" _ H ltac:(discriminate)) as [-> ->].
    rewrite E. apply _mdiff_nothing_new.
Qed.

(** X16: in side-by-side mode the signs at the start of an added or deleted
    text do not show.  Take a hunk that only adds lines, none empty, and the
    hunk that adds the same lines with one more [+] before each text: the
    rows of both hunks are the same; and likewise for hunks that only
    delete and one more [-].  The mark before the text is removed with
    [lstrip], which takes a set of characters and removes with the mark
    every sign that follows it. *)
Theorem side_by_side_hides_leading_signs (hdr : string) (texts : list string) :
  Forall (fun t => t <> "") texts ->
  side_by_side_rows
    (one_kind_hunk hdr "+" (map (fun t => ("+" ++ t)%string) texts)) =
  side_by_side_rows (one_kind_hunk hdr "+" texts) /\
  side_by_side_rows
    (one_kind_hunk hdr "-" (map (fun t => ("-" ++ t)%string) texts)) =
  side_by_side_rows (one_kind_hunk hdr "-" texts).
Proof.
  intros F. unfold side_by_side_rows. split.
  - destruct (one_kind_hunk_rows hdr texts) as [-> _].
    destruct (one_kind_hunk_rows hdr (map (fun t => ("+" ++ t)%string) texts))
      as [-> _].
    apply (rows_sign add_row "+" add_row_sign). exact F.
  - destruct (one_kind_hunk_rows hdr texts) as [_ ->].
    destruct (one_kind_hunk_rows hdr (map (fun t => ("-" ++ t)%string) texts))
      as [_ ->].
    apply (rows_sign del_row "-" del_row_sign). exact F.
Qed.

Lemma side_by_side_hides_leading_signs_witness :
  side_by_side_rows
    (one_kind_hunk (Py.ln "@@ -0,0 +1 @@") "+"
       (map (fun t => ("+" ++ t)%string) [Py.ln "+i;"])) =
  side_by_side_rows (one_kind_hunk (Py.ln "@@ -0,0 +1 @@") "+" [Py.ln "+i;"]) /\
  side_by_side_rows
    (one_kind_hunk (Py.ln "@@ -0,0 +1 @@") "-"
       (map (fun t => ("-" ++ t)%string) [Py.ln "+i;"])) =
  side_by_side_rows (one_kind_hunk (Py.ln "@@ -0,0 +1 @@") "-" [Py.ln "+i;"]).
Proof.
  apply (side_by_side_hides_leading_signs (Py.ln "@@ -0,0 +1 @@") [Py.ln "+i;"]).
  repeat constructor. discriminate.
Defined.

(** ** The traditional rendering of a one-sided hunk *)

Lemma traditional_added texts : forall k,
  Forall showable texts ->
  flat_map traditional_row (map add_row (numbered k (map whole_line texts))) =
  map (fun t => _markup_new ("+" ++ t)) texts.
Proof.
  induction texts as [| t texts IH]; intros k F; [reflexivity | ].
  inversion F as [| ? ? [Ho Hne] F']; subst.
  cbn [map numbered flat_map]. rewrite (IH (S k) F').
  rewrite (whole_line_nonempty t Hne).
  unfold traditional_row at 1, add_row, add_half.
  cbn [fst snd Difflib.blank Difflib.lineno_true negb app].
  rewrite (strip_marked "+" t eq_refl Ho). reflexivity.
Qed.

Lemma traditional_deleted texts : forall k,
  Forall showable texts ->
  flat_map traditional_row (map del_row (numbered k (map whole_line texts))) =
  map (fun t => _markup_old ("-" ++ t)) texts.
Proof.
  induction texts as [| t texts IH]; intros k F; [reflexivity | ].
  inversion F as [| ? ? [Ho Hne] F']; subst.
  cbn [map numbered flat_map]. rewrite (IH (S k) F').
  rewrite (whole_line_nonempty t Hne).
  unfold traditional_row at 1, del_row, del_half.
  cbn [fst snd Difflib.blank Difflib.lineno_true negb app Nat.eqb].
  rewrite (strip_marked "-" t eq_refl Ho). reflexivity.
Qed.

(** X17: the traditional rendering of a one-sided hunk.  For a hunk that
    only adds lines, each with some text and without escape, NUL and SOH
    characters, the rows [markup_traditional] yields after the hunk header
    are the lines as they stand in the patch, their [+] at the front, each
    between the code of light green and the reset code; for a hunk that
    only deletes such lines they are the lines with their [-], each between
    the code of light red and the reset code.  No line is paired with
    another and none is marked inside. *)
Theorem one_sided_hunk_traditional (hdr : string) (texts : list string) :
  Forall showable texts ->
  flat_map traditional_row (mdiff (one_kind_hunk hdr "+" texts)) =
    map (fun t => colorize ("+" ++ t) "lightgreen" "reset") texts /\
  flat_map traditional_row (mdiff (one_kind_hunk hdr "-" texts)) =
    map (fun t => colorize ("-" ++ t) "lightred" "reset") texts.
Proof.
  intros F. destruct (one_kind_hunk_rows hdr texts) as [-> ->]. split.
  - apply traditional_added, F.
  - apply traditional_deleted, F.
Qed.

Lemma one_sided_hunk_traditional_witness :
  flat_map traditional_row
    (mdiff (one_kind_hunk (Py.ln "@@ -0,0 +1,2 @@") "+" [Py.ln "a"; Py.ln "++i;"])) =
    map (fun t => colorize ("+" ++ t) "lightgreen" "reset") [Py.ln "a"; Py.ln "++i;"] /\
  flat_map traditional_row
    (mdiff (one_kind_hunk (Py.ln "@@ -0,0 +1,2 @@") "-" [Py.ln "a"; Py.ln "++i;"])) =
    map (fun t => colorize ("-" ++ t) "lightred" "reset") [Py.ln "a"; Py.ln "++i;"].
Proof.
  apply (one_sided_hunk_traditional (Py.ln "@@ -0,0 +1,2 @@") [Py.ln "a"; Py.ln "++i;"]).
  repeat constructor; discriminate.
Defined.

(** ** What a side-by-side row shows *)

Lemma _fit_width_stripped markup width :
  strip_ansi (_fit_width markup width) = ljust (strip_ansi markup) width.
Proof.
  unfold _fit_width, ljust.
  destruct (Nat.ltb_spec (String.length (strip_ansi markup)) width) as [L | L].
  - unfold strip_ansi. rewrite sub_ansi_blanks by lia. reflexivity.
  - replace (width - String.length (strip_ansi markup)) with 0 by lia.
    symmetry. apply string_app_nil_r.
Qed.

Lemma replace_one_cons c s c0 new_ :
  Py.replace (String c s) (String c0 "") new_ =
  if Ascii.eqb c c0 then (new_ ++ Py.replace s (String c0 "") new_)%string
  else String c (Py.replace s (String c0 "") new_).
Proof.
  unfold Py.replace. cbn [Py.replace_from Py.startswith String.length Nat.sub].
  destruct s; rewrite ?andb_true_r; reflexivity.
Qed.

Lemma esc_free_app s t : esc_free (s ++ t) <-> esc_free s /\ esc_free t.
Proof.
  induction s as [| c s IH]; [cbn; intuition reflexivity | ].
  change (String c s ++ t)%string with (String c (s ++ t)).
  rewrite !esc_free_cons, IH. tauto.
Qed.

Lemma esc_free_replace_one c0 new_ s :
  esc_free new_ -> esc_free s -> esc_free (Py.replace s (String c0 "") new_).
Proof.
  intros Hn. induction s as [| c s IH]; intros H; [reflexivity | ].
  apply esc_free_cons in H. destruct H as (Hc & Hs).
  rewrite replace_one_cons. destruct (Ascii.eqb c c0).
  - apply esc_free_app. auto.
  - apply esc_free_cons. auto.
Qed.

Lemma esc_free_normalize s : esc_free s -> esc_free (_normalize s).
Proof.
  intros H. unfold _normalize, Py.TAB, Py.LF.
  apply esc_free_replace_one; [reflexivity | ].
  apply esc_free_replace_one; [reflexivity | exact H].
Qed.

Lemma well_marked_replace_one c0 new_ :
  Ascii.eqb c0 "027" = false -> Ascii.eqb c0 "000" = false ->
  Py.mem c0 "-+^" = false -> plain new_ ->
  forall n t, String.length t <= n -> well_marked t = true ->
  well_marked (Py.replace t (String c0 "") new_) = true.
Proof.
  intros He Hz Hk Hn. induction n as [| n IH]; intros t Hlen Hw.
  - destruct t; [reflexivity | simpl in Hlen; lia].
  - destruct t as [| c r]; [reflexivity | ]. simpl in Hlen.
    rewrite replace_one_cons.
    destruct (Ascii.eqb_spec c c0) as [-> | Hne].
    + rewrite well_marked_plain_app by exact Hn.
      apply IH; [lia | ]. eapply well_marked_tail. exact Hw.
    + cbn [well_marked] in Hw |- *.
      destruct (Ascii.eqb c "027"); [discriminate | ].
      destruct (Ascii.eqb c "000").
      * destruct r as [| key r']; [discriminate | ].
        apply andb_true_iff in Hw. destruct Hw as (Hkey & Hw).
        rewrite replace_one_cons.
        destruct (Ascii.eqb_spec key c0) as [-> | _]; [congruence | ].
        rewrite Hkey. apply IH; [simpl in Hlen; lia | exact Hw].
      * apply IH; [lia | exact Hw].
Qed.

Lemma well_marked_normalize t :
  well_marked t = true -> well_marked (_normalize t) = true.
Proof.
  intros H. unfold _normalize, Py.TAB, Py.LF.
  apply (well_marked_replace_one "010" "") with (n := String.length
    (Py.replace t (String "009" "") (Py.rep " " 8))); try reflexivity.
  apply (well_marked_replace_one "009" (Py.rep " " 8)) with (n := String.length t);
    try reflexivity. exact H.
Qed.

Lemma colorize_stripped_esc_free text start_color end_color :
  esc_free text -> strip_ansi (colorize text start_color end_color) = text.
Proof.
  intros H. unfold colorize. rewrite ansi_code_stripped.
  rewrite strip_ansi_inert by apply ansi_code_inert.
  rewrite <- (string_app_nil_r (ansi_code end_color)), ansi_code_stripped.
  rewrite strip_ansi_esc_free by exact H. apply string_app_nil_r.
Qed.

Lemma _markup_mix_stripped line base :
  base = "red" \/ base = "green" -> well_marked line = true ->
  strip_ansi (_markup_mix line base) = unmark line.
Proof.
  intros Hb Hw. rewrite _markup_mix_codes. unfold colorize.
  rewrite ansi_code_stripped.
  apply (mix_codes_unmark base Hb (String.length line)); [lia | exact Hw].
Qed.

Lemma row_shown row :
  clean_row row -> strip_ansi (side_by_side_row 80 row) = shown_row row.
Proof.
  destruct row as [[[on ot] [nn nt]] changed].
  unfold clean_row, side_by_side_row, shown_row. cbn [fst snd].
  intros (Ho & Hn). rewrite line_fmt_stripped.
  pose proof (well_marked_normalize _ Ho) as Wo.
  pose proof (well_marked_normalize _ Hn) as Wn.
  pose proof (well_marked_esc_free _ _ (le_n _) Wo) as Eo.
  pose proof (well_marked_esc_free _ _ (le_n _) Wn) as En.
  unfold side_by_side_columns, shown_columns. cbn [fst snd].
  destruct changed; [destruct (negb (Difflib.lineno_true on));
                      [ | destruct (negb (Difflib.lineno_true nn))] | ];
    cbn [fst snd]; rewrite ?_fit_width_stripped.
  - unfold _markup_new.
    rewrite colorize_stripped_esc_free
      by (apply esc_free_rstrip, esc_free_lstrip, En).
    unfold strip_ansi. rewrite sub_ansi_only_blanks. reflexivity.
  - unfold _markup_old.
    rewrite colorize_stripped_esc_free
      by (apply esc_free_rstrip, esc_free_lstrip, Eo).
    reflexivity.
  - unfold _markup_old_mix, _markup_new_mix.
    rewrite !_markup_mix_stripped by auto. reflexivity.
  - unfold _markup_common. rewrite !colorize_stripped_esc_free by assumption.
    reflexivity.
Qed.

Lemma markup_side_by_side_shown (d : Diff) show_number width :
  clean_diff d ->
  map strip_ansi (markup_side_by_side d show_number width) = side_by_side_shown d.
Proof.
  intros (Hh & Ho & Hn & Hk). unfold markup_side_by_side, side_by_side_shown.
  rewrite !map_app. f_equal; [ | f_equal].
  - induction Hh as [| x l Hx _ IH]; simpl; [reflexivity | ].
    rewrite IH. f_equal. apply colorize_stripped_esc_free, Hx.
  - simpl. f_equal; [ | f_equal]; apply colorize_stripped_esc_free; assumption.
  - rewrite map_flat_map.
    apply (flat_map_ext_Forall clean_hunk); [assumption | ].
    intros h (Hhd & Hrows). simpl. f_equal.
    + apply colorize_stripped_esc_free, Hhd.
    + rewrite map_map. apply map_ext_Forall.
      eapply Forall_impl; [ | exact Hrows]. apply row_shown.
Qed.

(** X19: what the side-by-side rendering shows.  For an input that parses
    and whose lines hold no escape and no NUL character, the side-by-side
    markup without its escape sequences is, Diff by Diff, the headers, the
    two paths and every hunk header as they stand, and after each hunk
    header one line for each row of the aligner: the old text and the new
    text of the row, each without its tabs (eight blanks stand for one),
    its newline and the aligner's marks and filled with blanks to 80
    characters, with a blank, a bar and a blank between them.  The left
    column of a row that only adds is 80 blanks, the right column of a row
    that only deletes is empty, and in such rows the signs at the start of
    the text are gone with the mark. *)
Theorem side_by_side_rendering_stripped (s : list string) (diffs : list Diff)
    (show_number : bool) (width : option Z) :
  Forall plain s ->
  DiffParser s = Ok diffs ->
  map strip_ansi (markup diffs true show_number width) =
    flat_map side_by_side_shown diffs.
Proof.
  intros Hs H. pose proof (DiffParser_plain s diffs Hs H) as Hp.
  unfold markup, _markup_side_by_side. rewrite map_flat_map.
  apply (flat_map_ext_Forall plain_diff); [exact Hp | ].
  intros d Hd. apply markup_side_by_side_shown, plain_diff_clean, Hd.
Qed.

Lemma side_by_side_rendering_stripped_witness :
  map strip_ansi (markup two_file_diffs true false None) =
    flat_map side_by_side_shown two_file_diffs.
Proof.
  apply (side_by_side_rendering_stripped two_file_patch two_file_diffs false None).
  - repeat constructor.
  - reflexivity.
Defined.

(** ** Lines out of place *)

(** The turn on a line that opens no hunk and belongs to none leaves the
    hunk as it is, or trips an assertion. *)
Lemma turn_before_hunks st line rest :
  before_hunks line = true ->
  match loop_body st line rest with
  | Ok st' =>
      (hunk st = None -> hunk st' = None) /\
      (stream st' = rest \/ stream st' = stream st) /\
      (before_new_path line = true -> new_path st = None -> new_path st' = None)
  | Raise e => e = AssertionError
  end.
Proof.
  intros H. pose proof (line_classes line) as C.
  unfold before_hunks, before_new_path in *. unfold loop_body, emit_and_reset.
  change (is_old line || is_new line || is_common line) with (is_content line).
  destruct (is_header line), (is_old_path line), (is_new_path line),
    (is_hunk_header line), (is_content line), (is_eof line);
    try contradiction; try discriminate H; clear C H;
    unfold bind, assert_not_None, assert_None;
    repeat match goal with
    | |- context [if ?b then _ else _] => destruct b
    | |- context [match ?v with Some _ => _ | None => _ end] => destruct v eqn:?
    end;
    cbn [stream out_diffs headers old_path new_path hunks hunk];
    try reflexivity; repeat split; auto; try discriminate; congruence.
Qed.

(** The turn on a content line without an open hunk, and on a hunk header
    without a new path, trips an assertion. *)
Lemma turn_content_no_hunk st line rest :
  is_content line = true -> hunk st = None ->
  loop_body st line rest = Raise AssertionError.
Proof.
  intros H Hk. pose proof (line_classes line) as C. unfold loop_body.
  change (is_old line || is_new line || is_common line) with (is_content line).
  rewrite H in *.
  destruct (is_header line), (is_old_path line), (is_new_path line),
    (is_hunk_header line), (is_eof line); try contradiction.
  rewrite Hk. destruct (old_path st), (new_path st); reflexivity.
Qed.

Lemma turn_hunk_no_paths st line rest :
  is_hunk_header line = true -> new_path st = None ->
  loop_body st line rest = Raise AssertionError.
Proof.
  intros H Hn. pose proof (line_classes line) as C. unfold loop_body.
  change (is_old line || is_new line || is_common line) with (is_content line).
  rewrite H in *.
  destruct (is_header line), (is_old_path line), (is_new_path line),
    (is_content line), (is_eof line); try contradiction.
  rewrite Hn. destruct (old_path st); reflexivity.
Qed.

Lemma run_to_content fuel line post : forall pre st r,
  is_content line = true ->
  Forall (fun l => before_hunks l = true) pre ->
  hunk st = None -> stream st = pre ++ line :: post ->
  while_stream fuel st = Some r -> r = Raise AssertionError.
Proof.
  induction fuel as [| fuel IH]; intros pre st r Hl F Hk Hs W; simpl in W;
    rewrite Hs in W.
  - destruct pre; discriminate W.
  - destruct pre as [| l pre].
    + cbn [app] in W. rewrite (turn_content_no_hunk _ _ _ Hl Hk) in W.
      injection W as <-. reflexivity.
    + cbn [app] in W. inversion F as [| ? ? Hb F']; subst.
      pose proof (turn_before_hunks st l (pre ++ line :: post) Hb) as T.
      destruct (loop_body st l (pre ++ line :: post)) as [st1 | e].
      * destruct T as (T1 & [T2 | T2] & _).
        -- apply (IH pre st1 r Hl F'); [auto | exact T2 | exact W].
        -- apply (IH (l :: pre) st1 r Hl F); [auto | | exact W].
           rewrite T2, Hs. reflexivity.
      * injection W as <-. f_equal. exact T.
Qed.

Lemma run_to_hunk_header fuel line post : forall pre st r,
  is_hunk_header line = true ->
  Forall (fun l => before_new_path l = true) pre ->
  new_path st = None -> stream st = pre ++ line :: post ->
  while_stream fuel st = Some r -> r = Raise AssertionError.
Proof.
  induction fuel as [| fuel IH]; intros pre st r Hl F Hn Hs W; simpl in W;
    rewrite Hs in W.
  - destruct pre; discriminate W.
  - destruct pre as [| l pre].
    + cbn [app] in W. rewrite (turn_hunk_no_paths _ _ _ Hl Hn) in W.
      injection W as <-. reflexivity.
    + cbn [app] in W. inversion F as [| ? ? Hb F']; subst.
      assert (Hb' : before_hunks l = true).
      { unfold before_hunks. unfold before_new_path in Hb. rewrite Hb. reflexivity. }
      pose proof (turn_before_hunks st l (pre ++ line :: post) Hb') as T.
      destruct (loop_body st l (pre ++ line :: post)) as [st1 | e].
      * destruct T as (_ & [T2 | T2] & T3).
        -- apply (IH pre st1 r Hl F'); [auto | exact T2 | exact W].
        -- apply (IH (l :: pre) st1 r Hl F); [auto | | exact W].
           rewrite T2, Hs. reflexivity.
      * injection W as <-. f_equal. exact T.
Qed.

(** X20: lines out of place.  A content line that comes before any hunk
    header, and a hunk header that comes before any new-path line, make
    the parse of an input that passes the sniff fail with ['invalid patch
    format']: when all the lines before the content line are headers,
    backslash lines and path lines, and when all the lines before the hunk
    header are headers, backslash lines and old-path lines. *)
Theorem line_out_of_place (s pre post : list string) (line : string) :
  sniff s = true ->
  s = pre ++ line :: post ->
  (is_content line = true /\ Forall (fun l => before_hunks l = true) pre) \/
  (is_hunk_header line = true /\ Forall (fun l => before_new_path l = true) pre) ->
  DiffParser s = Raise (RuntimeError "invalid patch format").
Proof.
  intros Hs E H. unfold DiffParser. rewrite Hs.
  destruct (while_stream_total s) as [r W].
  rewrite (_parse_udiff_run _ _ _ W).
  assert (R : r = Raise AssertionError).
  { destruct H as [[Hl F] | [Hl F]].
    - apply (run_to_content _ line post pre (initial s) r Hl F eq_refl E W).
    - apply (run_to_hunk_header _ line post pre (initial s) r Hl F eq_refl E W). }
  rewrite R. reflexivity.
Qed.

Lemma line_out_of_place_witness :
  DiffParser [Py.ln "--- a"; Py.ln "+++ b"; Py.ln "+x"; Py.ln "@@ -0,0 +1 @@"] =
    Raise (RuntimeError "invalid patch format").
Proof.
  apply (line_out_of_place _ [Py.ln "--- a"; Py.ln "+++ b"]
           [Py.ln "@@ -0,0 +1 @@"] (Py.ln "+x")).
  - reflexivity.
  - reflexivity.
  - left. split; [reflexivity | repeat constructor].
Defined.

(** ** A patch that stops short *)

(** X21: a patch that stops short.  After a patch that parses to Diffs the
    last of which has a hunk, one more line that makes the parser emit that
    Diff, with nothing after it, makes the parse fail: an old-path line,
    left without its new path, with ['unknown patch format after "..."']
    and that line between the quotes; a header line (when the last Diff has
    headers), left without paths, with ['unknown patch format: '] followed
    by that line.  The Diffs parsed before are not returned. *)
Theorem truncated_patch_refused (s : list string) (pre : list Diff) (d : Diff)
    (line : string) :
  DiffParser s = Ok (pre ++ [d]) ->
  _hunks d <> [] ->
  starts_new_diff d line = true ->
  DiffParser (s ++ [line]) =
    Raise (RuntimeError
             (if is_old_path line
              then "unknown patch format after " ++ Py.DQUOTE ++ line ++ Py.DQUOTE
              else "unknown patch format: " ++ line)).
Proof.
  intros H Hd Hl.
  destruct (DiffParser_Ok _ _ H) as (Hs & f & st & W & L).
  destruct (kept_while _ _ _ _ (kept_initial s) W) as [K E].
  destruct (last_patch_open _ _ _ _ K E L Hd) as (o & n & h & Ho & Hn & Hh & Hp & Hdd).
  pose proof (kept_old_path _ _ K _ Ho) as Hop.
  assert (Emit : forall r,
            is_old_path line = true \/
            (is_header line = true /\ nonempty (headers st) = true) ->
            while_stream 1
              (mkLocals [line] (pre ++ [d]) [] None None [] None) = Some r ->
            _parse_udiff (s ++ [line]) =
              match r with Ok st' => last_patch st' | Raise e => Raise e end).
  { intros r Hc Hr.
    apply (_parse_udiff_run _ (f + 2)).
    change (initial (s ++ [line])) with (resumed (initial s) [] [line]).
    eapply while_resumed; [exact W | ].
    cbn [while_stream].
    assert (Es : stream (resumed st [] [line]) = [line]).
    { unfold resumed. cbn [stream]. rewrite E. reflexivity. }
    rewrite Es, (turn_emit (resumed st [] [line]) line [] o n h Hc Hop Ho Hn Hh).
    unfold resumed. cbn [stream out_diffs headers hunks app].
    rewrite ?E, Hp, <- Hdd. cbn [app]. exact Hr. }
  unfold DiffParser. rewrite (sniff_app _ _ Hs).
  unfold starts_new_diff in Hl. rewrite Hdd in Hl. cbn [_headers] in Hl.
  destruct (is_old_path line) eqn:Hlo.
  - rewrite (Emit (Ok (mkLocals [] (pre ++ [d]) [] (Some line) None [] None)));
      [ | left; reflexivity | ].
    + unfold last_patch. cbn [old_path new_path].
      rewrite (is_old_path_truthy _ Hlo). reflexivity.
    + cbn [while_stream stream].
      rewrite (turn_old_path _ _ _ Hlo) by reflexivity. reflexivity.
  - cbn [orb] in Hl. apply andb_true_iff in Hl. destruct Hl as [Hlh Hne].
    rewrite (Emit (Ok (mkLocals [] (pre ++ [d]) [line] None None [] None))).
    + reflexivity.
    + right. split; assumption.
    + cbn [while_stream stream].
      rewrite (turn_header _ _ _ Hlh) by reflexivity. reflexivity.
Qed.

Lemma truncated_patch_refused_witness :
  DiffParser (file_f_patch ++ [Py.ln "--- a/g"]) =
    Raise (RuntimeError
             (if is_old_path (Py.ln "--- a/g")
              then "unknown patch format after " ++ Py.DQUOTE ++ Py.ln "--- a/g" ++
                   Py.DQUOTE
              else "unknown patch format: " ++ Py.ln "--- a/g")).
Proof.
  apply (truncated_patch_refused file_f_patch [] file_f_diff (Py.ln "--- a/g")).
  - reflexivity.
  - discriminate.
  - reflexivity.
Defined.

(** ** The errors of the loop *)

Lemma loop_body_no_index_error st line rest :
  loop_body st line rest <> Raise IndexError.
Proof.
  pose proof (line_classes line) as C. unfold loop_body, emit_and_reset.
  change (is_old line || is_new line || is_common line) with (is_content line).
  destruct line as [| c t]; [cbn in C |- *; discriminate | ].
  unfold bind, assert_not_None, assert_None.
  repeat match goal with
  | |- context [if ?b then _ else _] => destruct b
  | |- context [match ?v with Some _ => _ | None => _ end] => destruct v
  end; discriminate.
Qed.

Lemma while_stream_no_index_error fuel : forall st,
  while_stream fuel st <> Some (Raise IndexError).
Proof.
  induction fuel as [| fuel IH]; intros st; simpl.
  - destruct (stream st); discriminate.
  - destruct (stream st) as [| line rest]; [discriminate | ].
    destruct (loop_body st line rest) as [st1 | e] eqn:Hb; [apply IH | ].
    intros H. injection H as ->. exact (loop_body_no_index_error _ _ _ Hb).
Qed.

(** X22: [_parse_udiff] never raises [IndexError]: the only subscript,
    [hunk_line[0]], is applied to a line that has passed [is_old], [is_new]
    or [is_common] and so has a first character.  Of the two exceptions
    that [DiffParser.__init__] turns into ['invalid patch format'], only
    [AssertionError] occurs. *)
Theorem no_index_error (s : list string) : _parse_udiff s <> Raise IndexError.
Proof.
  destruct (while_stream_total s) as [r W].
  rewrite (_parse_udiff_run _ _ _ W).
  destruct r as [st | e].
  - unfold last_patch.
    repeat match goal with
    | |- context [if ?b then _ else _] => destruct b
    | |- context [match ?v with Some _ => _ | None => _ end] => destruct v
    end; discriminate.
  - intros H. injection H as ->.
    exact (while_stream_no_index_error _ _ W).
Qed.
